(* ===== verification/_CoqProject ===== *)
-Q . S2P
Prelude.v
PyValues.v
Schema.v
Locks.v
Session.v
Interleaving.v
Pool.v
Progress.v
Requests.v
Repositories.v
SafeRules.v
LedgerService.v
Moves.v
LedgerSpec.v
SafeLedger.v
Security.v
AccountServices.v
Publisher.v
Analytics.v
Notification.v
Kafka.v
Reconciliation.v
Dags.v
Atomicity.v
Invariants.v
Conservation.v
System.v
ConcurrentLedger.v
RequestPools.v
SideWrites.v
Jobs.v
EndToEnd.v
Pipeline.v
Demo.v
Migrations.v
MigrationEnv.v
Cache.v
Observability.v
Api.v
App.v
SystemTheorems.v
Accepted.v
Bank.v
BankPools.v
Statements.v
ApiFacts.v
Routes.v
Traffic.v
ApiTheorems.v
RouteTheorems.v
LedgerTheorems.v
WorkerTheorems.v
PipelineTheorems.v
AccessTheorems.v
MigrationTheorems.v
ConcurrencyTheorems.v
JobTheorems.v
BankTheorems.v
ObservabilityTheorems.v
AppTheorems.v
TestClient.v
ApiTests.v
WorkerTests.v
