(* ===== verification/Prelude.v ===== *)
(** * Wallet Ledger Platform: a verification library

    The program (src/app) is a wallet service: users own wallets, one per
    currency; deposits, transfers and withdrawals are written as balanced
    pairs of ledger entries together with an outbox event in one database
    transaction; a publisher ships the events to Kafka, where a notification
    consumer and an analytics consumer read them; a job reconciles the cached
    balances with the ledger; Redis caches balances for the API.

    ** How the parts are modelled

    A service method is a program ([prog], Session.v): the tree of the calls it
    makes on its SQLAlchemy session, with Python exceptions as values.  The
    session - SQLAlchemy over PostgreSQL - is not code of the repository; it is
    an instance of the class [SessionEngine], whose law is the documented
    behaviour of each call ([session_step]: pending changes, statements of the
    open transaction, the committed tables).  The other parameters are classes
    too: [Server] (PostgreSQL with many sessions), [Env] (uuid4 and the clock), [Crypto] with [CryptoLaws] (pwdlib,
    PyJWT), [JsonCodec] (JSON text), [EmailValidator] (the normal form of an
    address), [RedisClient] with [RedisLaws], and for
    Kafka the delivery reports and the messages as arguments.  Demo.v
    instantiates all of them, so that every theorem with a hypothesis is
    applied to a concrete world.

    - PyValues.v: UUIDs and their text, [str.upper], ISO timestamps, JSON
      objects.  Schema.v: db/models - rows, tables, row changes, constraints.
      Migrations.v: alembic/versions and the metadata the models declare.
    - Session.v: programs, sessions, engines, the rules [wp_*] to reason about
      a run.  Requests.v: schemas.  Repositories.v: repositories, a Module per
      class.  Prelude.v (this file): sums, lists, maps and tactics.
    - LedgerService.v: services/ledger_service.py.  Moves.v: a completed
      operation as one table update, and when the database accepts it.
      LedgerSpec.v: the outcome of each operation ([deposit_guard],
      [transfer_guard], [withdraw_guard], [outcome], [keyed_outcome]) and the
      proof that the programs have it.  Accepted.v: when an operation succeeds
      and what it leaves.
    - Security.v and AccountServices.v: core/security.py, core/config.py,
      services/user_service.py, services/wallet_service.py.
    - Publisher.v: events/publisher.py.  Analytics.v: analytics_service.py and
      run_analytics_consumer.py.  Notification.v: events/consumer.py.
      Reconciliation.v: reconciliation_service.py and jobs.  Dags.v: what the jobs
      log and exit with, and the DAGs that run them.  Kafka.v: events/producer.py,
      the defaults of the entry points, and the cluster they rely on ([Kafka]).
    - Atomicity.v: no program commits twice.  Invariants.v: the invariant [wf]
      of the tables and why every change keeps it.  Conservation.v: the sum of
      the wallets.  System.v: the step relation of the whole system
      ([activity], [step], [reachable]), crashes included.  EndToEnd.v: from
      the outbox to the rollup.  Pipeline.v: the same system with requests in flight
      together, its workers' processes, Kafka and the offsets ([pipe_step]), and the invariant that says
      where the news of a transaction is ([flows]).
    - Locks.v: what a statement locks.  Interleaving.v: threads, each a program
      on a session of its own, over one database; a step is one call of one
      thread, which waits while another one holds a lock it needs, or the loss
      of a thread ([pool_step]); any server whose steps look like this
      ([Server]: PostgreSQL under READ COMMITTED); the condition [safe] of a
      program under the interference of others.  Pool.v: pools of safe threads
      are serial.  Progress.v: no deadlock, termination, executable schedules.
      SafeRules.v and SafeLedger.v: the rules of [safe], call by call and for
      the course of a money operation.  ConcurrentLedger.v: the requests, the
      atomic specification ([books]) and the proof that each request is safe.
      RequestPools.v: what a run of a pool does to balances and keys.
      SideWrites.v: what the other programs add to a session ([adds_only]), that
      such writes keep sound tables sound, and that they are safe.  Jobs.v:
      pools of all activities ([job], [job_effect]).  Statements.v: on each
      wallet the identity column follows the order of the commits.
    - Bank.v: the abstract specification of the ledger, a bank of accounts and
      receipts, the state of it that tables stand for ([bank_of]) and what it is
      for a request to behave as the bank does ([as_the_bank]).  BankPools.v: the
      same for pools of jobs.
    - Observability.v: core/logging.py, core/metrics.py, api/middleware.py and
      the probes of main.py.  App.v: main.py, the routers and one request from
      the outside through middleware, route and handler ([app]); FastAPI's
      matching and parsing is the class [WebFramework].
    - MigrationEnv.v: alembic/env.py with configparser's interpolation, and the
      statements of a migration in a transaction or as a script.
    - Cache.v: cache/redis_cache.py.  Api.v: api/routes and api/deps.py.
      ApiFacts.v: the step relation of requests over tables and cache
      ([server_step]) and its invariant.  Routes.v: the routes that use the
      cache cut into pieces ([route]), equal to those of Api.v when run without
      a break.  Traffic.v: many requests in flight ([traffic]).

    - TestClient.v, ApiTests.v, WorkerTests.v: the repository's own tests (src/tests),
      replayed on the model through [app] and the parameters of Demo.v; a Module per
      file of tests.  They pass: the model answers what the tests expect of the code.

    ** What the theorems show

    - SystemTheorems.v: in every reachable world the tables are sound (cached
      balances equal the ledger, within BIGINT and not negative; transactions
      balanced and COMPLETED; keys unique; one event per transaction), money is
      conserved per currency, history is append-only, a crash at any call is
      all or nothing, and reconciliation passes.
    - LedgerTheorems.v: the exact outcome of each operation on every branch and
      any engine; when it succeeds; only owners spend; retries with an
      idempotency key replay; what goes wrong with keys (a replay needs no
      authorization, the empty key works once) and with amounts beyond BIGINT;
      the order of the statement.
    - JobTheorems.v: money requests, registrations, wallet creations, publisher
      turns, analytics events and readers, in every interleaving of their calls
      and with threads lost on the way, refine carrying out the committed ones
      one at a time; each answer is that of the request's own place in the order
      ([linearized]); no update is lost and no money appears; statements list the
      entries newest commit first.  Who loses a race for an email, a wallet or a
      key gets an IntegrityError no one catches.
    - BankTheorems.v: each request, and the whole concurrent back end, refines
      the bank.
    - ConcurrencyTheorems.v: pools of money requests: no money spent twice, no
      key books twice; every run ends and none deadlocks.  Then more races, as
      computed runs: reconciliation raises a false alarm, two consumers lose an
      event.
    - RouteTheorems.v: balance reads among other requests in flight answer a
      balance the wallet has had, to its owner only; and the race by which the
      cache keeps a stale one.
    - ObservabilityTheorems.v: what the middleware does to a request.
    - WorkerTheorems.v: one turn of the publisher, the outbox drains, flush
      timeouts stamp unacknowledged events; the rollup counts each transaction
      once and equals the ledger; a failed event is lost; notifications; the
      reconciliation report is exact; events are well typed for their consumer.
    - PipelineTheorems.v: whatever is lost or crashes between the outbox and the
      consumers, the rollup counts each processed transaction once; when the
      workers have caught up, as they always can, it is the ledger's statistics,
      and everything was notified.
    - AccessTheorems.v: registration, wallet creation, login, tokens; whoever signs
      up can sign in, with the normal form of the address only.
    - ApiTheorems.v: the cached balance route is transparent over any sequence
      of requests, reads its own writes, and survives a dead cache; strangers
      get 401, hidden wallets 404, and neither changes anything.
    - AppTheorems.v: only successful POSTs to the five writing routes write; who
      shows no valid token is turned away by every protected route.
    - MigrationTheorems.v: from every revision the migrations build what the
      models declare, and each downgrade undoes its upgrade; a migration is all
      or nothing, online and as a script; a percent sign in the URL stops it.

    ** Bounds

    Amounts and balances are [Z] with PostgreSQL's BIGINT range checked where a
    statement is executed ([in_bigint]); Python's integers are unbounded, as
    here.  LIMIT and OFFSET are INTEGERs.  UUIDs are natural numbers below 2^128 ([ids128] where it matters).
    Loops are recursions on the list they run over; [Migrations.path] has as
    fuel the number of revisions, which suffices as a chain visits each file
    once, and running out of it is an error; endless loops (publisher,
    consumers) are modelled by the number of turns or the list of messages.

    ** Not modelled

    In System.v an activity runs to its end or to a crash before the next
    begins; interleaving is the subject of Interleaving.v, Jobs.v and Traffic.v.
    A foreign key locks the wallet it refers to exclusively there, which
    PostgreSQL does only against FOR UPDATE: the operations hold that lock
    anyway.  Freedom from deadlock is proved for pools of money requests only:
    publisher turns lock events one after the other in the order of their
    creation, and two of them may meet events of one timestamp in different
    orders.  PostgreSQL's deadlock detector, which would make one of them fail,
    is a lost thread here.  Traffic.v interleaves requests between the pieces of
    a route; within a piece its statements run together, which Jobs.v justifies
    for the tables.

    JSON values are flat objects of strings, integers and null, the only ones
    the program writes.  Strings are byte strings, upper-casing is ASCII.  The
    text of validation errors (422) is empty.  Of alembic, the version table is
    one statement, and autogenerate and the logging configuration are left out.
    Topics keep their messages (no retention) and offsets once committed; each
    consumer group is one process, as in the deployment, and [concurrent_rollup_loses_an_event]
    shows why.  Of the workers' log lines only the notifications and the
    jobs' lines are modelled; the construction of the Redis client (cache/deps.py)
    and the Kubernetes declarations carry no state of the ledger. *)
From stdpp Require Export base gmap sets list strings fin_maps sorting.
From Stdlib Require Export ZArith Lia.

#[export] Set Default Proof Using "Type".

(** ** Hint databases: how often programs commit, what they add, and sums. *)
Create HintDb commits discriminated.
Create HintDb adds discriminated.
Create Rewrite HintDb zsum.

(** ** Machine integers: PostgreSQL's [BIGINT] (SQLAlchemy [BigInteger]) *)
Definition bigint_min : Z := - 2 ^ 63.
Definition bigint_max : Z := 2 ^ 63 - 1.
Definition integer_max : Z := 2 ^ 31 - 1.
Definition in_bigint (z : Z) : bool := (bigint_min <=? z)%Z && (z <=? bigint_max)%Z.

(** ** Sums over lists *)
Definition zsum (l : list Z) : Z := foldr Z.add 0%Z l.

(** ** Lemmas *)
Lemma in_bigint_spec z : in_bigint z = true <-> (bigint_min <= z <= bigint_max)%Z.
Proof. unfold in_bigint. rewrite andb_true_iff, !Z.leb_le. done. Qed.

Lemma zsum_nil : zsum [] = 0%Z.
Proof. done. Qed.

Lemma zsum_cons x l : zsum (x :: l) = (x + zsum l)%Z.
Proof. done. Qed.

Lemma zsum_app l k : zsum (l ++ k) = (zsum l + zsum k)%Z.
Proof. induction l; simpl; lia. Qed.

Lemma zsum_perm l k : l ≡ₚ k -> zsum l = zsum k.
Proof. induction 1; simpl; lia. Qed.

#[export] Instance zsum_proper : Proper ((≡ₚ) ==> eq) zsum.
Proof. intros l k. apply zsum_perm. Qed.

#[export] Hint Rewrite zsum_nil zsum_cons zsum_app : zsum.

Section zsum_map.
Context {A : Type}.
Implicit Types (f g : A -> Z) (l : list A).

Lemma zsum_map_ext f g l :
  (forall x, x ∈ l -> f x = g x) -> zsum (f <$> l) = zsum (g <$> l).
Proof.
  induction l as [|a l IH]; intros H; [done|]. rewrite !fmap_cons, !zsum_cons.
  rewrite (H a) by set_solver. rewrite IH by set_solver. done.
Qed.

Lemma zsum_map_zero f l : (forall x, x ∈ l -> f x = 0%Z) -> zsum (f <$> l) = 0%Z.
Proof.
  induction l as [|a l IH]; intros H; [done|].
  rewrite fmap_cons, zsum_cons, (H a), IH by set_solver. done.
Qed.

Lemma zsum_map_nonneg f l : (forall x, x ∈ l -> 0 <= f x)%Z -> (0 <= zsum (f <$> l))%Z.
Proof.
  induction l as [|a l IH]; intros H; [done|].
  rewrite fmap_cons, zsum_cons. specialize (IH ltac:(set_solver)).
  specialize (H a ltac:(set_solver)). lia.
Qed.

Lemma zsum_map_add f g l :
  zsum ((fun x => f x + g x)%Z <$> l) = (zsum (f <$> l) + zsum (g <$> l))%Z.
Proof.
  induction l as [|a l IH]; [done|]. rewrite !fmap_cons, !zsum_cons, IH. lia.
Qed.

Lemma zsum_map_opp f l : zsum ((fun x => - f x)%Z <$> l) = (- zsum (f <$> l))%Z.
Proof. induction l as [|a l IH]; [done|]. rewrite !fmap_cons, !zsum_cons, IH. lia. Qed.

(** A single key contributes. *)
Lemma zsum_indicator `{EqDecision A} (a : A) (x : Z) l : NoDup l -> a ∈ l ->
  zsum ((fun k => if decide (a = k) then x else 0%Z) <$> l) = x.
Proof.
  induction l as [|b l IH]; intros Hnd Ha; [by apply elem_of_nil in Ha|].
  apply NoDup_cons in Hnd as [Hb Hnd]. rewrite fmap_cons, zsum_cons. case_decide as E.
  - subst b. rewrite zsum_map_zero; [lia|]. intros k Hk. rewrite decide_False; [done|].
    by intros <-.
  - rewrite IH; [lia|done|]. set_solver.
Qed.

(** A sum over the filtered list is the sum of the guarded terms. *)
Lemma zsum_filter (P : A -> Prop) `{!forall x, Decision (P x)} f l :
  zsum (f <$> filter P l) = zsum ((fun x => if decide (P x) then f x else 0%Z) <$> l).
Proof.
  induction l as [|a l IH]; [done|].
  rewrite filter_cons, !fmap_cons, zsum_cons, <- IH. by case_decide.
Qed.
Lemma zsum_filter_le (P : A -> Prop) `{!forall x, Decision (P x)} f l :
  (forall x, x ∈ l -> 0 <= f x)%Z -> (zsum (f <$> filter P l) <= zsum (f <$> l))%Z.
Proof.
  induction l as [|a l IH]; intros Hf; [done|]. rewrite filter_cons, fmap_cons, zsum_cons.
  pose proof (Hf a ltac:(set_solver)). specialize (IH ltac:(set_solver)).
  case_decide; [rewrite fmap_cons, zsum_cons|]; lia.
Qed.

End zsum_map.

(** A sum is the sum of the sums of its groups. *)
Lemma zsum_partition {A K} `{EqDecision K} (f : A -> Z) (key : A -> K) (ks : list K) l :
  NoDup ks -> (forall a, a ∈ l -> key a ∈ ks) ->
  zsum (f <$> l) = zsum ((fun k => zsum (f <$> filter (fun a => key a = k) l)) <$> ks).
Proof.
  intros Hnd. induction l as [|a l IH]; intros Hin.
  - symmetry. by apply zsum_map_zero.
  - rewrite fmap_cons, zsum_cons, IH by set_solver.
    rewrite <- (zsum_indicator (key a) (f a) ks) at 1 by set_solver. rewrite <- zsum_map_add.
    apply zsum_map_ext. intros k _. rewrite filter_cons. by case_decide.
Qed.

(** ** Projections of a filtered list *)
Lemma NoDup_fmap_filter {A B} (f : A -> B) (P : A -> Prop) `{!forall x, Decision (P x)} l :
  NoDup (f <$> l) -> NoDup (f <$> filter P l).
Proof.
  induction l as [|a l IH]; [done|]. rewrite fmap_cons, filter_cons, NoDup_cons.
  intros [Ha Hl]. case_decide; [|auto]. rewrite fmap_cons, NoDup_cons. split; [|auto].
  intros (x & Hfx & Hx)%list_elem_of_fmap. apply Ha, list_elem_of_fmap. exists x.
  split; [done|]. by apply list_elem_of_filter in Hx as [_ ?].
Qed.

Lemma filter_every {A} (P : A -> Prop) `{!forall x, Decision (P x)} (l : list A) : (forall x, x ∈ l -> P x) -> filter P l = l.
Proof.
  induction l as [|a l IH]; intros HP; [done|].
  rewrite filter_cons_True by (apply HP; set_solver). f_equal. apply IH. set_solver.
Qed.

Lemma filter_fmap_snd {A B} (P : B -> Prop) `{!forall x, Decision (P x)} (l : list (A * B)) :
  filter P (snd <$> l) = snd <$> filter (fun kv => P kv.2) l.
Proof.
  induction l as [|a l IH]; [done|]. rewrite fmap_cons, !filter_cons, IH. by case_decide.
Qed.

(** ** Filtered maps *)
Section map_filter.
Context `{Countable K} {V : Type}.
Implicit Types m : gmap K V.

Lemma map_to_list_filter (P : K * V -> Prop) `{!forall x, Decision (P x)} m :
  map_to_list (filter P m) ≡ₚ filter P (map_to_list m).
Proof.
  apply NoDup_Permutation.
  - apply NoDup_map_to_list.
  - apply NoDup_filter, NoDup_map_to_list.
  - intros [k v]. rewrite elem_of_map_to_list, list_elem_of_filter, elem_of_map_to_list.
    rewrite map_lookup_filter_Some. tauto.
Qed.

Lemma elem_of_values m v : v ∈ (snd <$> map_to_list m) <-> exists k, m !! k = Some v.
Proof.
  rewrite list_elem_of_fmap. split.
  - intros ([k v'] & -> & Hk). exists k. by apply elem_of_map_to_list.
  - intros [k Hk]. exists (k, v). by rewrite elem_of_map_to_list.
Qed.

Lemma length_filter_values (P : V -> Prop) `{!forall x, Decision (P x)} m :
  length (filter P (snd <$> map_to_list m)) = size (filter (fun kv => P kv.2) m).
Proof.
  rewrite filter_fmap_snd, length_fmap.
  rewrite <- (map_to_list_filter (fun kv => P kv.2)). apply length_map_to_list.
Qed.

Lemma size_filter_not_in m (ids : list K) :
  NoDup ids -> (forall i, i ∈ ids -> is_Some (m !! i)) ->
  size (filter (fun kv => kv.1 ∉ ids) m) = size m - length ids.
Proof.
  intros Hnd Hin. rewrite <- !size_dom.
  rewrite (dom_filter_L _ m (dom m ∖ list_to_set ids)).
  - rewrite size_difference, size_list_to_set by
      (done || (intros i; rewrite elem_of_list_to_set, elem_of_dom; auto)). done.
  - intros i. rewrite elem_of_difference, elem_of_dom, elem_of_list_to_set. unfold is_Some. simpl.
    split; [intros [[x Hx] Hi]; eauto|intros (x & Hx & Hi); eauto].
Qed.
End map_filter.

(** Sums over maps: only the changed key contributes to the difference. *)
Section zsum_gmap.
Context `{Countable K} {V : Type}.
Implicit Types (m : gmap K V) (f : V -> Z).

Definition map_zsum f m : Z := zsum ((fun kv => f kv.2) <$> map_to_list m).

Lemma map_zsum_empty f : map_zsum f (∅ : gmap K V) = 0%Z.
Proof. unfold map_zsum. by rewrite map_to_list_empty. Qed.

Lemma map_zsum_insert_new f m k v :
  m !! k = None -> map_zsum f (<[k := v]> m) = (f v + map_zsum f m)%Z.
Proof. intros Hk. unfold map_zsum. by rewrite map_to_list_insert by done. Qed.

Lemma map_zsum_delete f m k v :
  m !! k = Some v -> map_zsum f m = (f v + map_zsum f (delete k m))%Z.
Proof.
  intros Hk. rewrite <- (map_zsum_insert_new f (delete k m) k v) by apply lookup_delete_eq.
  by rewrite insert_delete_id.
Qed.

Lemma map_zsum_insert f m k v v' :
  m !! k = Some v -> map_zsum f (<[k := v']> m) = (map_zsum f m - f v + f v')%Z.
Proof.
  intros Hk. rewrite (map_zsum_delete f m k v) by done.
  rewrite <- insert_delete_eq, map_zsum_insert_new by apply lookup_delete_eq. lia.
Qed.
End zsum_gmap.

(** ** Tactics *)

(** Split the conjunctions of the context and of the goal. *)
Ltac conj := repeat match goal with
  | H : _ /\ _ |- _ => destruct H
  | H : exists _, _ |- _ => destruct H
  | |- _ /\ _ => split
  end.

(** Case on the scrutinee of the first [match] of the goal, keeping the equation. *)
Ltac case_goal H := match goal with
  | |- context [ match ?x with _ => _ end ] => destruct x eqn:H
  end.

(** Evaluate a closed equation or decidable test. *)
Ltac computes := solve [vm_compute; repeat split; first [reflexivity | discriminate]].
