(* ===== verification/PyValues.v ===== *)
(** * Python values the services pass around

    UUIDs ([uuid.UUID], as their 128-bit integer) with their canonical text
    form and its parser, ASCII [str.upper], ISO timestamps, the JSON objects
    used as event payloads and the truthiness test on optional strings.  These
    are language and standard library facilities; the files under src/app call
    them and have no code of their own for them. *)
From Stdlib Require Import Ascii.
From S2P Require Import Prelude.

(** ** UUIDs *)

(** [uuid.UUID] objects compare and sort by their integer value. *)
Abbreviation uuid := N (only parsing).
Definition uuid_bound : N := 2 ^ 128.

Definition hex_char (d : N) : ascii :=
  if (d <? 10)%N then ascii_of_N (48 + d) else ascii_of_N (87 + d).

Definition hex_val (c : ascii) : option N :=
  let n := N_of_ascii c in
  if (48 <=? n)%N && (n <=? 57)%N then Some (n - 48)%N
  else if (97 <=? n)%N && (n <=? 102)%N then Some (n - 87)%N
  else if (65 <=? n)%N && (n <=? 70)%N then Some (n - 55)%N
  else None.

(** [w] hexadecimal digits of [n], most significant first ("%032x"). *)
Fixpoint hex_of (w : nat) (n : N) : list ascii :=
  match w with
  | O => []
  | S w' => hex_of w' (n / 16)%N ++ [hex_char (n mod 16)%N]
  end.

(** [int(hex, 16)] on a list of hexadecimal digits. *)
Fixpoint unhex (acc : N) (l : list ascii) : option N :=
  match l with
  | [] => Some acc
  | c :: l => match hex_val c with
              | Some d => unhex (acc * 16 + d)%N l
              | None => None
              end
  end.

Definition hyphen : ascii := "-"%char.

(** [str(u)]: the digits grouped 8-4-4-4-12. *)
Definition uuid_chars (u : uuid) : list ascii :=
  let h := hex_of 32 u in
  take 8 h ++ hyphen :: take 4 (drop 8 h) ++ hyphen :: take 4 (drop 12 h)
    ++ hyphen :: take 4 (drop 16 h) ++ hyphen :: drop 20 h.

Definition uuid_str (u : uuid) : string := String.string_of_list_ascii (uuid_chars u).

Definition is_brace (c : ascii) : bool :=
  Ascii.eqb c "{"%char || Ascii.eqb c "}"%char.

(** [str.strip('{}')] on the left end. *)
Fixpoint lstrip_braces (l : list ascii) : list ascii :=
  match l with
  | c :: l' => if is_brace c then lstrip_braces l' else l
  | [] => []
  end.

Definition strip_braces (l : list ascii) : list ascii :=
  reverse (lstrip_braces (reverse (lstrip_braces l))).

(** [uuid.UUID(s)]: braces stripped, hyphens removed, exactly 32 hexadecimal
    digits; [None] is the ValueError.  The texts with a "urn:" or "uuid:"
    prefix, and the digit separators and signs [int] tolerates, are outside
    the modelled domain. *)
Definition uuid_parse (s : string) : option uuid :=
  let h := filter (fun c => c <> hyphen) (strip_braces (String.list_ascii_of_string s)) in
  if decide (length h = 32) then unhex 0 h else None.

(** ** [str.upper] on ASCII text *)
Definition upper_char (c : ascii) : ascii :=
  let n := N_of_ascii c in
  if (97 <=? n)%N && (n <=? 122)%N then ascii_of_N (n - 32) else c.

Fixpoint upper (s : string) : string :=
  match s with
  | EmptyString => EmptyString
  | String c s' => String (upper_char c) (upper s')
  end.

(** ** Truthiness of an [str | None] value ([if key:]) *)
Definition truthy (k : option string) : option string :=
  match k with
  | Some EmptyString | None => None
  | Some s => Some s
  end.

(** ** Dates: [datetime.isoformat()] of a UTC time in microseconds since the epoch *)
Definition digit (z : Z) : ascii := ascii_of_N (48 + Z.to_N (z mod 10)).

Fixpoint decimal (w : nat) (z : Z) : list ascii :=
  match w with
  | O => []
  | S w' => decimal w' (z / 10)%Z ++ [digit z]
  end.

(** Proleptic Gregorian date of a day number (days since 1970-01-01). *)
Definition civil (days : Z) : Z * Z * Z :=
  (let z := days + 719468 in
   let era := z / 146097 in
   let doe := z mod 146097 in
   let yoe := (doe - doe / 1460 + doe / 36524 - doe / 146096) / 365 in
   let doy := doe - (365 * yoe + yoe / 4 - yoe / 100) in
   let mp := (5 * doy + 2) / 153 in
   let d := doy - (153 * mp + 2) / 5 + 1 in
   let m := if mp <? 10 then mp + 3 else mp - 9 in
   let y := yoe + era * 400 + (if m <=? 2 then 1 else 0) in
   (y, m, d))%Z.

Definition isoformat (us : Z) : string :=
  let secs := (us / 1000000)%Z in
  let frac := (us mod 1000000)%Z in
  let '(y, m, d) := civil (secs / 86400)%Z in
  let s := (secs mod 86400)%Z in
  String.string_of_list_ascii
    (decimal 4 y ++ "-"%char :: decimal 2 m ++ "-"%char :: decimal 2 d
      ++ "T"%char :: decimal 2 (s / 3600) ++ ":"%char :: decimal 2 (s / 60 mod 60)
      ++ ":"%char :: decimal 2 (s mod 60)
      ++ (if (frac =? 0)%Z then [] else "."%char :: decimal 6 frac)
      ++ String.list_ascii_of_string "+00:00").

(** ** JSON payloads *)
Inductive json : Type :=
  | JNull
  | JInt (z : Z)
  | JStr (s : string).

#[export] Instance json_eq_dec : EqDecision json.
Proof. solve_decision. Defined.

Definition json_code (j : json) : unit + Z + string :=
  match j with JNull => inl (inl tt) | JInt z => inl (inr z) | JStr s => inr s end.
Definition json_decode (c : unit + Z + string) : json :=
  match c with inl (inl _) => JNull | inl (inr z) => JInt z | inr s => JStr s end.

#[export] Instance json_countable : Countable json.
Proof. refine (inj_countable' json_code json_decode _). by intros []. Defined.

(** A Python [dict] with string keys. *)
Abbreviation dict := (gmap string json) (only parsing).

Definition json_of_opt (o : option string) : json :=
  match o with Some s => JStr s | None => JNull end.

(** [int(s)]: an optional sign and decimal digits, with single underscores
    between digits and surrounding white space; [None] is the ValueError. *)
Definition is_space (c : ascii) : bool :=
  let n := N_of_ascii c in (((9 <=? n) && (n <=? 13)) || ((28 <=? n) && (n <=? 32)))%N.

Fixpoint lstrip_spaces (l : list ascii) : list ascii :=
  match l with
  | [] => []
  | c :: l => if is_space c then lstrip_spaces l else c :: l
  end.

Fixpoint undecimal (after_digit : bool) (acc : Z) (l : list ascii) : option Z :=
  match l with
  | [] => if after_digit then Some acc else None
  | c :: l =>
      let n := Z.of_N (N_of_ascii c) in
      if ((48 <=? n) && (n <=? 57))%Z then undecimal true (acc * 10 + (n - 48)) l
      else if bool_decide (c = "_"%char) && after_digit then undecimal false acc l else None
  end.

Definition int_of_string (s : string) : option Z :=
  match rev (lstrip_spaces (rev (lstrip_spaces (String.list_ascii_of_string s)))) with
  | "-"%char :: l => Z.opp <$> undecimal false 0 l
  | "+"%char :: l => undecimal false 0 l
  | l => undecimal false 0 l
  end.

(** ** Facts *)
Lemma hex_val_char d : (d < 16)%N -> hex_val (hex_char d) = Some d.
Proof.
  intros H. assert (Hd : In d (map N.of_nat (seq 0 16))).
  { apply in_map_iff. exists (N.to_nat d). split; [lia|]. apply in_seq. lia. }
  simpl in Hd. repeat (destruct Hd as [<-|Hd]; [reflexivity|]). done.
Qed.

Lemma hex_char_not_special d : (d < 16)%N ->
  hex_char d <> hyphen /\ is_brace (hex_char d) = false.
Proof.
  intros H. assert (Hd : In d (map N.of_nat (seq 0 16))).
  { apply in_map_iff. exists (N.to_nat d). split; [lia|]. apply in_seq. lia. }
  simpl in Hd. repeat (destruct Hd as [<-|Hd]; [split; [discriminate|reflexivity]|]). done.
Qed.

Lemma length_hex_of w n : length (hex_of w n) = w.
Proof. revert n. induction w as [|w IH]; intros n; [done|]. simpl. rewrite length_app, IH. simpl. lia. Qed.

Lemma hex_of_special w n c : c ∈ hex_of w n -> c <> hyphen /\ is_brace c = false.
Proof.
  revert n. induction w as [|w IH]; intros n; simpl; [by intros ?%elem_of_nil|].
  intros [Hc|Hc]%elem_of_app; [by eapply IH|].
  apply list_elem_of_singleton in Hc as ->. apply hex_char_not_special.
  apply N.mod_upper_bound. lia.
Qed.

Lemma unhex_app acc l k :
  unhex acc (l ++ k) = match unhex acc l with Some a => unhex a k | None => None end.
Proof.
  revert acc. induction l as [|c l IH]; intros acc; simpl; [done|].
  destruct (hex_val c); [apply IH|done].
Qed.

Lemma unhex_hex_of w n : (n < 16 ^ N.of_nat w)%N ->
  forall acc, unhex acc (hex_of w n) = Some (acc * 16 ^ N.of_nat w + n)%N.
Proof.
  revert n. induction w as [|w IH]; intros n Hn acc.
  - simpl in *. f_equal. assert (n = 0%N) as -> by lia. lia.
  - rewrite Nat2N.inj_succ, N.pow_succ_r' in *. simpl. rewrite unhex_app, IH.
    + simpl. rewrite hex_val_char by (apply N.mod_upper_bound; lia).
      f_equal. pose proof (N.div_mod n 16). lia.
    + apply N.Div0.div_lt_upper_bound. lia.
Qed.

Lemma lstrip_braces_id l : Forall (fun c => is_brace c = false) l -> lstrip_braces l = l.
Proof. intros H. destruct H as [|c l Hc _]; simpl; [done|]. by rewrite Hc. Qed.

Lemma strip_braces_id l : Forall (fun c => is_brace c = false) l -> strip_braces l = l.
Proof.
  intros H. unfold strip_braces. rewrite (lstrip_braces_id l) by done.
  rewrite lstrip_braces_id by (by rewrite Forall_reverse). apply reverse_involutive.
Qed.

Lemma filter_hyphen_id l : Forall (fun c => c <> hyphen) l -> filter (fun c => c <> hyphen) l = l.
Proof.
  induction 1 as [|c l Hc _ IH]; [done|]. by rewrite filter_cons, decide_True, IH.
Qed.

Lemma filter_hyphen_group l k : Forall (fun c => c <> hyphen) l ->
  filter (fun c => c <> hyphen) (l ++ hyphen :: k) = l ++ filter (fun c => c <> hyphen) k.
Proof.
  intros H. rewrite filter_app, filter_hyphen_id, filter_cons by done.
  by rewrite decide_False by tauto.
Qed.

Lemma hex_of_Forall w n : Forall (fun c => c <> hyphen /\ is_brace c = false) (hex_of w n).
Proof. apply Forall_forall. intros c. apply hex_of_special. Qed.

Lemma uuid_chars_no_brace u : Forall (fun c => is_brace c = false) (uuid_chars u).
Proof.
  pose proof (Forall_impl _ (fun c => is_brace c = false) _ (hex_of_Forall 32 u)
    (fun c => @proj2 _ _)) as H.
  unfold uuid_chars. set (h := hex_of 32 u) in *. clearbody h.
  repeat first [apply Forall_app; split | apply Forall_cons; split | reflexivity
    | apply Forall_take | apply Forall_drop | done].
Qed.

Lemma take_drop_drop {A} n m (l : list A) : take n (drop m l) ++ drop (m + n) l = drop m l.
Proof. rewrite <- drop_drop. apply take_drop. Qed.

Lemma uuid_chars_unhyphen u :
  filter (fun c => c <> hyphen) (uuid_chars u) = hex_of 32 u.
Proof.
  pose proof (Forall_impl _ (fun c => c <> hyphen) _ (hex_of_Forall 32 u)
    (fun c => @proj1 _ _)) as H.
  unfold uuid_chars. set (h := hex_of 32 u) in *. clearbody h.
  rewrite !filter_hyphen_group by auto using Forall_take, Forall_drop.
  rewrite filter_hyphen_id by auto using Forall_drop.
  rewrite (take_drop_drop 4 16 h : _ ++ drop 20 h = _).
  rewrite (take_drop_drop 4 12 h : _ ++ drop 16 h = _).
  rewrite (take_drop_drop 4 8 h : _ ++ drop 12 h = _).
  apply take_drop.
Qed.

(** The canonical text of a UUID parses back to it. *)
Lemma uuid_parse_str_aux u : (u < uuid_bound)%N -> uuid_parse (uuid_str u) = Some u.
Proof.
  intros Hu. unfold uuid_parse, uuid_str.
  rewrite String.list_ascii_of_string_of_list_ascii.
  rewrite strip_braces_id by apply uuid_chars_no_brace.
  rewrite uuid_chars_unhyphen, decide_True by apply length_hex_of.
  by rewrite unhex_hex_of.
Qed.

Lemma uuid_str_inj u v : (u < uuid_bound)%N -> (v < uuid_bound)%N ->
  uuid_str u = uuid_str v -> u = v.
Proof.
  intros Hu Hv H. apply uuid_parse_str_aux in Hu, Hv. congruence.
Qed.

Lemma upper_idemp s : upper (upper s) = upper s.
Proof.
  induction s as [|c s IH]; [done|]. simpl. rewrite IH. f_equal.
  destruct c as [[] [] [] [] [] [] [] []]; reflexivity.
Qed.

Lemma length_upper s : String.length (upper s) = String.length s.
Proof. induction s as [|c s IH]; simpl; congruence. Qed.

Lemma truthy_Some k s : truthy k = Some s <-> k = Some s /\ s <> "".
Proof.
  destruct k as [[|c s']|]; simpl; split; [done|by intros [[= <-] ?]|..|done|by intros [? _]].
  - by intros [= <-].
  - by intros [[= <-] _].
Qed.
