(* ===== verification/Schema.v ===== *)
(** * The relational schema (src/app/db/models, src/alembic/versions)

    One [Record] per ORM model with the model's columns, the [Database] of the
    seven tables, the row changes the unit of work emits ([change]: INSERTs and
    column UPDATEs) with their effect on the tables ([apply_write]) and the
    constraints the models declare ([violation]: VARCHAR lengths, BIGINT range,
    CHECKs, primary keys, unique indexes, foreign keys). *)
From S2P Require Import Prelude PyValues.

(** Constraint failures, by the SQLAlchemy exception they surface as. *)
Inductive db_error : Type :=
  | IntegrityError
  | DataError.

#[export] Instance db_error_eq_dec : EqDecision db_error.
Proof. solve_decision. Defined.

Module User.
Record row := mk {
  id : uuid;
  name : string;
  email : string;
  password_hash : string;
  created_at : Z }.
End User.

Module Wallet.
Record row := mk {
  id : uuid;
  user_id : uuid;
  currency : string;
  available_balance : Z;
  locked_balance : Z;
  created_at : Z;
  updated_at : Z }.

(** [wallet.available_balance = z] on a Wallet object. *)
Definition set_available_balance (z : Z) (w : row) : row :=
  mk (id w) (user_id w) (currency w) z (locked_balance w) (created_at w) (updated_at w).
End Wallet.

Inductive TransactionType : Type := DEPOSIT | TRANSFER | WITHDRAWAL.
Inductive TransactionStatus : Type := PENDING | COMPLETED | FAILED.

#[export] Instance TransactionType_eq_dec : EqDecision TransactionType.
Proof. solve_decision. Defined.
#[export] Instance TransactionStatus_eq_dec : EqDecision TransactionStatus.
Proof. solve_decision. Defined.

(** [member.value] *)
Definition type_value (t : TransactionType) : string :=
  match t with
  | DEPOSIT => "DEPOSIT" | TRANSFER => "TRANSFER" | WITHDRAWAL => "WITHDRAWAL"
  end.

Definition status_value (s : TransactionStatus) : string :=
  match s with
  | PENDING => "PENDING" | COMPLETED => "COMPLETED" | FAILED => "FAILED"
  end.

Module Transaction.
Record row := mk {
  id : uuid;
  type : TransactionType;
  status : TransactionStatus;
  currency : string;
  idempotency_key : option string;
  created_at : Z }.

(** [txn.status = s] on a Transaction object. *)
Definition set_status (s : TransactionStatus) (t : row) : row :=
  mk (id t) (type t) s (currency t) (idempotency_key t) (created_at t).
End Transaction.

Inductive EntryType : Type := CREDIT | DEBIT.

#[export] Instance EntryType_eq_dec : EqDecision EntryType.
Proof. solve_decision. Defined.

Definition entry_value (t : EntryType) : string :=
  match t with CREDIT => "CREDIT" | DEBIT => "DEBIT" end.

Module LedgerEntry.
Record row := mk {
  id : uuid;
  seq : Z;
  transaction_id : uuid;
  entry_type : EntryType;
  amount : Z;
  currency : string;
  wallet_id : option uuid;
  system_account : option string;
  created_at : Z }.
End LedgerEntry.

Module OutboxEvent.
Record row := mk {
  id : uuid;
  aggregate_type : string;
  aggregate_id : uuid;
  event_type : string;
  payload : dict;
  created_at : Z;
  published_at : option Z }.

Definition set_published_at (t : Z) (e : row) : row :=
  mk (id e) (aggregate_type e) (aggregate_id e) (event_type e) (payload e)
    (created_at e) (Some t).
End OutboxEvent.

Module ProcessedEvent.
Record row := mk {
  consumer : string;
  transaction_id : uuid;
  processed_at : Z }.
End ProcessedEvent.

Module TransactionStat.
Record row := mk {
  currency : string;
  type : string;
  count : Z;
  total_amount : Z;
  updated_at : Z }.
End TransactionStat.

(** The tables.  [ledger_entries] is append-only (no code updates or deletes an
    entry), so it is kept in insertion order; the others are keyed by their
    primary key. *)
Record Database := mkDatabase {
  users : gmap uuid User.row;
  wallets : gmap uuid Wallet.row;
  transactions : gmap uuid Transaction.row;
  ledger_entries : list LedgerEntry.row;
  outbox_events : gmap uuid OutboxEvent.row;
  processed_events : gmap (string * uuid) ProcessedEvent.row;
  transaction_stats : gmap (string * string) TransactionStat.row }.

Definition empty_db : Database := mkDatabase ∅ ∅ ∅ [] ∅ ∅ ∅.

(** Row changes, with the columns the Python code sets. *)
Inductive change : Type :=
  | InsUser (id : uuid) (name email password_hash : string)
  | InsWallet (id user_id : uuid) (currency : string)
  | InsTransaction (id : uuid) (type : TransactionType) (status : TransactionStatus)
      (currency : string) (idempotency_key : option string)
  | InsEntry (id transaction_id : uuid) (entry_type : EntryType) (amount : Z)
      (currency : string) (wallet_id : option uuid) (system_account : option string)
  | InsOutbox (id : uuid) (aggregate_type : string) (aggregate_id : uuid)
      (event_type : string) (payload : dict)
  | InsProcessed (consumer : string) (transaction_id : uuid)
  | InsStat (currency type : string) (count total_amount : Z)
  | SetBalance (wallet : uuid) (available_balance : Z)
  | SetStatus (transaction : uuid) (status : TransactionStatus)
  | SetPublished (event : uuid) (published_at : Z)
  | SetStat (currency type : string) (count total_amount : Z).

(** A change with the server-side values of its columns: [now()] (the
    transaction's timestamp) and the next value of the [seq] identity. *)
Record write := mkWrite { wr_now : Z; wr_seq : Z; wr_change : change }.

Definition apply_write (d : Database) (w : write) : Database :=
  let 'mkDatabase us ws ts es os ps ss := d in
  let now := wr_now w in
  match wr_change w with
  | InsUser i n e h => mkDatabase (<[i := User.mk i n e h now]> us) ws ts es os ps ss
  | InsWallet i u c =>
      mkDatabase us (<[i := Wallet.mk i u c 0 0 now now]> ws) ts es os ps ss
  | InsTransaction i ty st c k =>
      mkDatabase us ws (<[i := Transaction.mk i ty st c k now]> ts) es os ps ss
  | InsEntry i t ty a c wid sys =>
      mkDatabase us ws ts (es ++ [LedgerEntry.mk i (wr_seq w) t ty a c wid sys now]) os ps ss
  | InsOutbox i aty aid ety p =>
      mkDatabase us ws ts es (<[i := OutboxEvent.mk i aty aid ety p now None]> os) ps ss
  | InsProcessed c t =>
      mkDatabase us ws ts es os (<[(c, t) := ProcessedEvent.mk c t now]> ps) ss
  | InsStat c ty n a | SetStat c ty n a =>
      mkDatabase us ws ts es os ps (<[(c, ty) := TransactionStat.mk c ty n a now]> ss)
  | SetBalance i z =>
      mkDatabase us
        (alter (fun r => Wallet.mk (Wallet.id r) (Wallet.user_id r) (Wallet.currency r) z
                  (Wallet.locked_balance r) (Wallet.created_at r) now) i ws)
        ts es os ps ss
  | SetStatus i st => mkDatabase us ws (alter (Transaction.set_status st) i ts) es os ps ss
  | SetPublished i t =>
      mkDatabase us ws ts es (alter (OutboxEvent.set_published_at t) i os) ps ss
  end.

Definition apply_writes (d : Database) (ws : list write) : Database := foldl apply_write d ws.

(** ** Constraints *)
Definition varchar (n : nat) (s : string) : bool := String.length s <=? n.
Definition varchar_opt (n : nat) (s : option string) : bool :=
  match s with Some s => varchar n s | None => true end.

(** No row of the table satisfies [P]. *)
Definition no_row {K} `{Countable K} {V} (P : V -> Prop) `{!forall v, Decision (P v)}
    (m : gmap K V) : bool :=
  bool_decide (Forall (fun kv => ~ P kv.2) (map_to_list m)).

Definition user_data_ok (name email password_hash : string) : bool :=
  varchar 255 name && varchar 255 email && varchar 255 password_hash.

Definition user_integrity (d : Database) (id : uuid) (email : string) : bool :=
  bool_decide (users d !! id = None)
  && no_row (fun u => User.email u = email) (users d).

Definition wallet_integrity (d : Database) (id user_id : uuid) (currency : string) : bool :=
  bool_decide (wallets d !! id = None)
  && no_row (fun w => Wallet.user_id w = user_id /\ Wallet.currency w = currency) (wallets d)
  && bool_decide (is_Some (users d !! user_id)).

Definition balance_integrity (z : Z) : bool := (0 <=? z)%Z.

Definition transaction_data_ok (currency : string) (key : option string) : bool :=
  varchar 3 currency && varchar_opt 255 key.

Definition transaction_integrity (d : Database) (id : uuid) (key : option string) : bool :=
  bool_decide (transactions d !! id = None)
  && match key with
     | Some _ => no_row (fun t => Transaction.idempotency_key t = key) (transactions d)
     | None => true
     end.

Definition entry_data_ok (amount : Z) (currency : string) (sys : option string) : bool :=
  in_bigint amount && varchar 3 currency && varchar_opt 50 sys.

(** [(wallet_id IS NOT NULL)::int + (system_account IS NOT NULL)::int = 1] *)
Definition exactly_one_side (wallet_id : option uuid) (sys : option string) : bool :=
  match wallet_id, sys with
  | Some _, None | None, Some _ => true
  | _, _ => false
  end.

Definition entry_integrity (d : Database) (id txn : uuid) (amount : Z)
    (wallet_id : option uuid) (sys : option string) : bool :=
  (0 <? amount)%Z && exactly_one_side wallet_id sys
  && bool_decide (id ∉ (LedgerEntry.id <$> ledger_entries d))
  && bool_decide (is_Some (transactions d !! txn))
  && match wallet_id with
     | Some w => bool_decide (is_Some (wallets d !! w))
     | None => true
     end.

Definition outbox_data_ok (aggregate_type event_type : string) : bool :=
  varchar 50 aggregate_type && varchar 100 event_type.

Definition outbox_integrity (d : Database) (id : uuid) : bool :=
  bool_decide (outbox_events d !! id = None).

Definition stat_data_ok (currency type : string) (count total_amount : Z) : bool :=
  varchar 3 currency && varchar 20 type && in_bigint count && in_bigint total_amount.

(** First the value errors (the statement does not evaluate), then the constraints. *)
Definition check_row (data_ok integrity : bool) : option db_error :=
  if data_ok then (if integrity then None else Some IntegrityError) else Some DataError.

Definition violation (d : Database) (c : change) : option db_error :=
  match c with
  | InsUser i n e h => check_row (user_data_ok n e h) (user_integrity d i e)
  | InsWallet i u cur => check_row (varchar 3 cur) (wallet_integrity d i u cur)
  | InsTransaction i _ _ cur k =>
      check_row (transaction_data_ok cur k) (transaction_integrity d i k)
  | InsEntry i t _ a cur w sys =>
      check_row (entry_data_ok a cur sys) (entry_integrity d i t a w sys)
  | InsOutbox i aty _ ety _ => check_row (outbox_data_ok aty ety) (outbox_integrity d i)
  | InsProcessed c t =>
      check_row (varchar 50 c) (bool_decide (processed_events d !! (c, t) = None))
  | InsStat cur ty n a =>
      check_row (stat_data_ok cur ty n a)
        (bool_decide (transaction_stats d !! (cur, ty) = None))
  | SetBalance _ z => check_row (in_bigint z) (balance_integrity z)
  | SetStat cur ty n a => check_row (stat_data_ok cur ty n a) true
  | SetStatus _ _ | SetPublished _ _ => None
  end.

(** Only an INSERT into [ledger_entries] draws from the [seq] identity. *)
Definition draw_seq (c : change) (seq : Z) : Z :=
  match c with InsEntry _ _ _ _ _ _ _ => (seq + 1)%Z | _ => seq end.

(** Every statement of the list passes its checks when its turn comes. *)
Fixpoint valid_writes (d : Database) (ws : list write) : Prop :=
  match ws with
  | [] => True
  | w :: ws => violation d (wr_change w) = None /\ valid_writes (apply_write d w) ws
  end.

#[export] Instance valid_writes_dec d ws : Decision (valid_writes d ws).
Proof. revert d. induction ws as [|w ws IH]; intros d; simpl; apply _. Defined.

#[global] Arguments apply_write : simpl never.
#[global] Arguments apply_writes : simpl never.
#[global] Arguments violation : simpl never.

(** ** Facts *)
Lemma apply_writes_nil d : apply_writes d [] = d.
Proof. done. Qed.

Lemma apply_writes_cons d w ws : apply_writes d (w :: ws) = apply_writes (apply_write d w) ws.
Proof. done. Qed.

Lemma apply_writes_app d ws ws' :
  apply_writes d (ws ++ ws') = apply_writes (apply_writes d ws) ws'.
Proof. apply foldl_app. Qed.

Lemma valid_writes_app d ws ws' :
  valid_writes d (ws ++ ws') <-> valid_writes d ws /\ valid_writes (apply_writes d ws) ws'.
Proof.
  revert d. induction ws as [|w ws IH]; intros d; simpl; [rewrite apply_writes_nil; tauto|].
  rewrite apply_writes_cons, IH. tauto.
Qed.

Lemma valid_writes_snoc d ws w :
  valid_writes d ws -> violation (apply_writes d ws) (wr_change w) = None ->
  valid_writes d (ws ++ [w]).
Proof. intros. apply valid_writes_app. simpl. tauto. Qed.

Lemma check_row_None a b : check_row a b = None <-> a = true /\ b = true.
Proof. destruct a, b; simpl; split; intuition discriminate. Qed.

Lemma no_row_spec {K} `{Countable K} {V} (P : V -> Prop) `{!forall v, Decision (P v)}
    (m : gmap K V) : no_row P m = true <-> forall k v, m !! k = Some v -> ~ P v.
Proof.
  unfold no_row. rewrite bool_decide_eq_true, Forall_forall. split.
  - intros Hm k v Hk. apply (Hm (k, v)). by apply elem_of_map_to_list.
  - intros Hm [k v] Hk%elem_of_map_to_list. by eapply Hm.
Qed.

Lemma invalid_prefix d ws ws' : ~ valid_writes d ws -> ~ valid_writes d (ws ++ ws').
Proof. by intros H [? _]%valid_writes_app. Qed.

Lemma new_wallet_fresh d i u cur : violation d (InsWallet i u cur) = None -> wallets d !! i = None.
Proof.
  unfold violation, wallet_integrity. rewrite check_row_None, !andb_true_iff, !bool_decide_eq_true.
  tauto.
Qed.

Lemma new_user_fresh d i n e h : violation d (InsUser i n e h) = None -> users d !! i = None.
Proof.
  unfold violation, user_integrity. rewrite check_row_None, !andb_true_iff, !bool_decide_eq_true.
  tauto.
Qed.
