(* ===== verification/Locks.v ===== *)
(** * Locks of the database

    What a statement locks until its transaction ends - the row it writes, the
    row a SELECT ... FOR UPDATE reads, the keys of the unique indexes its row
    enters - and what the holder of such locks may rely on while other
    transactions commit. *)
From S2P Require Import Prelude PyValues Schema.

Inductive lock :=
  | RowUser (i : uuid)
  | EmailKey (e : string)
  | RowWallet (i : uuid)
  | OwnerKey (u : uuid) (currency : string)
  | RowTransaction (i : uuid)
  | IdempotencyKey (k : string)
  | RowEntry (i : uuid)
  | RowOutbox (i : uuid)
  | RowProcessed (consumer : string) (t : uuid)
  | RowStat (currency type : string).

#[export] Instance lock_eq_dec : EqDecision lock.
Proof. solve_decision. Defined.

Definition lock_code (k : lock) : N * N * string * string :=
  match k with
  | RowUser i => (0, i, "", "")
  | EmailKey e => (1, 0, e, "")
  | RowWallet i => (2, i, "", "")
  | OwnerKey u c => (3, u, c, "")
  | RowTransaction i => (4, i, "", "")
  | IdempotencyKey k => (5, 0, k, "")
  | RowEntry i => (6, i, "", "")
  | RowOutbox i => (7, i, "", "")
  | RowProcessed c t => (8, t, c, "")
  | RowStat c ty => (9, 0, c, ty)
  end%N.
Definition lock_decode (c : N * N * string * string) : lock :=
  let '(n, i, s, s') := c in
  match n with
  | 0 => RowUser i | 1 => EmailKey s | 2 => RowWallet i | 3 => OwnerKey i s
  | 4 => RowTransaction i | 5 => IdempotencyKey s | 6 => RowEntry i | 7 => RowOutbox i
  | 8 => RowProcessed s i | _ => RowStat s s'
  end%N.
#[export] Instance lock_countable : Countable lock.
Proof. refine (inj_countable' lock_code lock_decode _). by intros []. Defined.

(** A foreign key locks the wallet an entry refers to; users and headers are
    never locked against that. *)
Definition needs (c : change) : gset lock :=
  match c with
  | InsUser i _ e _ => {[RowUser i; EmailKey e]}
  | InsWallet i u cur => {[RowWallet i; OwnerKey u cur]}
  | InsTransaction i _ _ _ k =>
      {[RowTransaction i]} ∪ match k with Some k => {[IdempotencyKey k]} | None => ∅ end
  | InsEntry i _ _ _ _ w _ =>
      {[RowEntry i]} ∪ match w with Some w => {[RowWallet w]} | None => ∅ end
  | InsOutbox i _ _ _ _ => {[RowOutbox i]}
  | InsProcessed c t => {[RowProcessed c t]}
  | InsStat cur ty _ _ | SetStat cur ty _ _ => {[RowStat cur ty]}
  | SetBalance i _ => {[RowWallet i]}
  | SetStatus i _ => {[RowTransaction i]}
  | SetPublished i _ => {[RowOutbox i]}
  end.

Definition needs_all (cs : list change) : gset lock := ⋃ (needs <$> cs).
Definition needs_log (ws : list write) : gset lock := needs_all (wr_change <$> ws).

Lemma needs_all_cons c cs : needs_all (c :: cs) = needs c ∪ needs_all cs.
Proof. done. Qed.

Lemma needs_all_app cs cs' : needs_all (cs ++ cs') = needs_all cs ∪ needs_all cs'.
Proof. unfold needs_all. by rewrite fmap_app, union_list_app_L. Qed.

Lemma needs_log_cons w ws : needs_log (w :: ws) = needs (wr_change w) ∪ needs_log ws.
Proof. done. Qed.

Lemma needs_log_app ws ws' : needs_log (ws ++ ws') = needs_log ws ∪ needs_log ws'.
Proof. unfold needs_log. by rewrite fmap_app, needs_all_app. Qed.

(** ** What the holder of the locks [L] may rely on *)
Record agree (L : gset lock) (d d' : Database) : Prop := Agree {
  ag_user : forall i, RowUser i ∈ L -> users d' !! i = users d !! i;
  ag_email : forall e i u, EmailKey e ∈ L -> users d' !! i = Some u -> User.email u = e ->
    exists u0, users d !! i = Some u0 /\ User.email u0 = e;
  ag_wallet : forall i, RowWallet i ∈ L -> wallets d' !! i = wallets d !! i;
  ag_owner : forall u c i r, OwnerKey u c ∈ L -> wallets d' !! i = Some r ->
    Wallet.user_id r = u -> Wallet.currency r = c ->
    exists r0, wallets d !! i = Some r0 /\ Wallet.user_id r0 = u /\ Wallet.currency r0 = c;
  ag_txn : forall i, RowTransaction i ∈ L -> transactions d' !! i = transactions d !! i;
  ag_key : forall k i t, IdempotencyKey k ∈ L -> transactions d' !! i = Some t ->
    Transaction.idempotency_key t = Some k ->
    exists t0, transactions d !! i = Some t0 /\ Transaction.idempotency_key t0 = Some k;
  ag_entry : forall i, RowEntry i ∈ L -> i ∈ (LedgerEntry.id <$> ledger_entries d') ->
    i ∈ (LedgerEntry.id <$> ledger_entries d);
  ag_outbox : forall i, RowOutbox i ∈ L -> outbox_events d' !! i = outbox_events d !! i;
  ag_processed : forall c t, RowProcessed c t ∈ L ->
    processed_events d' !! (c, t) = processed_events d !! (c, t);
  ag_stat : forall c ty, RowStat c ty ∈ L ->
    transaction_stats d' !! (c, ty) = transaction_stats d !! (c, ty);
  ag_user_kept : forall i, is_Some (users d !! i) -> is_Some (users d' !! i);
  ag_wallet_kept : forall i, is_Some (wallets d !! i) -> is_Some (wallets d' !! i);
  ag_txn_kept : forall i, is_Some (transactions d !! i) -> is_Some (transactions d' !! i) }.

Lemma agree_refl L d : agree L d d.
Proof. split; eauto. Qed.

Lemma agree_trans L d d' d'' : agree L d d' -> agree L d' d'' -> agree L d d''.
Proof.
  intros [A1 A2 A3 A4 A5 A6 A7 A8 A9 A10 A11 A12 A13] [B1 B2 B3 B4 B5 B6 B7 B8 B9 B10 B11 B12 B13].
  split; try solve [intros i Hi; by rewrite B1, A1 | intros i Hi; by rewrite B3, A3
    | intros i Hi; by rewrite B5, A5 | intros i Hi; by rewrite B8, A8
    | intros c t Hi; by rewrite B9, A9 | intros c ty Hi; by rewrite B10, A10 | auto].
  - intros e i u He Hu Hm. destruct (B2 e i u He Hu Hm) as (u0 & Hu0 & Hm0). eauto.
  - intros u c i r Hk Hr Ho Hc. destruct (B4 u c i r Hk Hr Ho Hc) as (r0 & Hr0 & Ho0 & Hc0). eauto.
  - intros k i t Hk Ht Hkt. destruct (B6 k i t Hk Ht Hkt) as (t0 & Ht0 & Hk0). eauto.
Qed.

Lemma agree_mono L L' d d' : L' ⊆ L -> agree L d d' -> agree L' d d'.
Proof. intros HL []. split; eauto. Qed.

#[local] Ltac other_row := intros; repeat match goal with
  | H : <[_ := _]> _ !! _ = Some _ |- _ => rewrite lookup_insert in H; case_decide; simplify_eq/=
  | H : alter _ _ _ !! _ = Some _ |- _ =>
      rewrite lookup_alter in H; case_decide; simplify_eq/=;
      [apply fmap_Some in H as (? & ? & ->)|]
  | H : _ ∈ (_ <$> (_ ++ [_])) |- _ =>
      rewrite fmap_app in H; apply elem_of_app in H as [H|H]; [|apply list_elem_of_singleton in H]
  | |- <[_ := _]> _ !! _ = _ => rewrite lookup_insert_ne; [done|]
  | |- alter _ _ _ !! _ = _ => rewrite lookup_alter_ne; [done|]
  | |- is_Some (<[_ := _]> _ !! _) => rewrite lookup_insert; case_decide; eauto
  | |- is_Some (alter _ _ _ !! _) => rewrite lookup_alter; case_decide; rewrite ?fmap_is_Some; eauto
  end; simplify_eq/=.

(** A statement of another transaction, whose locks are other ones. *)
Lemma agree_write L d n s c : needs c ## L -> agree L d (apply_write d (mkWrite n s c)).
Proof.
  intros HL. destruct d as [us ws ts es os ps ss].
  destruct c; simpl in HL; split; simpl; try done; other_row;
    try (exfalso; set_solver); try (intros ?; simplify_eq/=; set_solver); eauto.
Qed.

Lemma agree_writes L d ws : needs_log ws ## L -> agree L d (apply_writes d ws).
Proof.
  revert d. induction ws as [|[n s c] ws IH]; intros d HL; [apply agree_refl|].
  rewrite needs_log_cons in HL. rewrite apply_writes_cons.
  apply (agree_trans _ _ (apply_write d (mkWrite n s c))).
  - apply agree_write. set_solver.
  - apply IH. set_solver.
Qed.

#[local] Ltac same_row := intros; repeat match goal with
  | H : <[_ := _]> _ !! _ = Some _ |- _ => rewrite lookup_insert in H; case_decide; simplify_eq/=
  | H : alter ?f ?k _ !! ?i = Some _ |- _ => rewrite lookup_alter in H
  | |- context [<[_ := _]> _ !! _] => rewrite !lookup_insert; case_decide; simplify_eq/=
  | |- context [alter _ _ _ !! _] => rewrite !lookup_alter; case_decide; simplify_eq/=
  | H : _ ∈ (_ <$> (_ ++ [_])) |- _ =>
      rewrite fmap_app in H |- *; apply elem_of_app in H as [H|H]; apply elem_of_app; [left|by right]
  end; simplify_eq/=.

(** The holder's own next statement, on both. *)
Lemma agree_apply L d d' n s c : agree L d d' ->
  agree L (apply_write d (mkWrite n s c)) (apply_write d' (mkWrite n s c)).
Proof.
  intros [A1 A2 A3 A4 A5 A6 A7 A8 A9 A10 A11 A12 A13].
  destruct d as [us ws ts es os ps ss], d' as [us' ws' ts' es' os' ps' ss']. simpl in *.
  destruct c; split; simpl; try done; same_row; eauto;
    try match goal with
    | H : is_Some (<[_ := _]> _ !! _) |- _ => rewrite lookup_insert_ne in H by done; eauto
    | H : is_Some (alter _ _ _ !! _) |- _ => rewrite lookup_alter in H; case_decide; simplify_eq;
        rewrite ?fmap_is_Some in *; eauto
    | |- _ <$> _ = _ <$> _ => f_equal; eauto
    | H : _ <$> _ = Some _ |- _ => apply fmap_Some in H as (r0 & Hr0 & ->)
    end.
  - simpl in *. destruct (A4 _ _ i r0 H Hr0 eq_refl eq_refl) as (r1 & Hr1 & Ho & Hc).
    rewrite Hr1. eexists. split; [done|]. done.
  - simpl in *. destruct (A6 k i r0 H Hr0 H1) as (t0 & Ht0 & Hk). rewrite Ht0.
    eexists. split; [done|]. done.
Qed.

(** A statement that passes its checks still does. *)
Lemma agree_violation L d d' c : agree L d d' -> needs c ⊆ L ->
  violation d c = None -> violation d' c = None.
Proof.
  intros [A1 A2 A3 A4 A5 A6 A7 A8 A9 A10 A11 A12 A13] HL.
  destruct c; simpl in HL; unfold violation; rewrite ?check_row_None; try done; intros [Hd Hi];
    (split; [exact Hd|]); revert Hi.
  - unfold user_integrity. rewrite !andb_true_iff, !bool_decide_eq_true, !no_row_spec.
    intros [Hn He]. split; [rewrite A1; [done|set_solver]|]. intros j u Hu Hm.
    destruct (A2 email j u ltac:(set_solver) Hu Hm) as (u0 & Hu0 & Hm0). by apply (He j u0).
  - unfold wallet_integrity. rewrite !andb_true_iff, !bool_decide_eq_true, !no_row_spec.
    intros [[Hn Ho] Hu]. split; [split; [rewrite A3; [done|set_solver]|]|auto].
    intros j r Hr [Hw Hc]. destruct (A4 user_id currency j r ltac:(set_solver) Hr Hw Hc) as (r0 & Hr0 & ?).
    by apply (Ho j r0).
  - unfold transaction_integrity. rewrite !andb_true_iff, !bool_decide_eq_true.
    intros [Hn Hk]. split; [rewrite A5; [done|set_solver]|].
    destruct idempotency_key as [k|]; [|done]. rewrite no_row_spec in *. intros j t Ht Hkt.
    destruct (A6 k j t ltac:(set_solver) Ht Hkt) as (t0 & Ht0 & Hk0). by apply (Hk j t0).
  - unfold entry_integrity. rewrite !andb_true_iff, !bool_decide_eq_true.
    intros [[[[Ha Hs] Hn] Ht] Hw]. split; [split; [split; [done|]|auto]|].
    + intros Hin. apply Hn, A7; [set_solver|done].
    + destruct wallet_id; [|done]. rewrite bool_decide_eq_true in *. auto.
  - unfold outbox_integrity. rewrite !bool_decide_eq_true. intros Hn. rewrite A8; [done|set_solver].
  - rewrite !bool_decide_eq_true. intros Hn. rewrite A9; [done|set_solver].
  - rewrite !bool_decide_eq_true. intros Hn. rewrite A10; [done|set_solver].
Qed.

(** The open statements of the holder stay acceptable. *)
Lemma agree_valid L d d' ws : agree L d d' -> needs_log ws ⊆ L ->
  valid_writes d ws -> valid_writes d' ws.
Proof.
  revert d d'. induction ws as [|[n s c] ws IH]; intros d d' Hag HL; [done|].
  rewrite needs_log_cons in HL. simpl in *. intros [Hv Hws]. split.
  - eapply agree_violation; [done| |done]. set_solver.
  - eapply IH; [by apply agree_apply|set_solver|done].
Qed.
