(* ===== verification/Session.v ===== *)
(** * Programs over a SQLAlchemy session

    A service method is a [prog]: a tree of the calls it makes on its session
    (and on [uuid.uuid4] and [datetime.now]), with Python exceptions as values.
    The session behind the calls - SQLAlchemy over PostgreSQL - is not code of
    the repository: it enters as an instance of the class [SessionEngine],
    whose law is the documented behaviour of the calls, stated by
    [session_step].  Programs run on any engine ([run_on]); [run] runs them on
    the specification itself, and [run_on_wp] transfers every result to any engine. *)
From S2P Require Import Prelude PyValues Schema.

(** ** Exceptions *)
Inductive exn : Type :=
  (* raised by SQLAlchemy *)
  | DBError (e : db_error)
  | PendingRollbackError
  | InvalidRequestError
  (* Python built-ins *)
  | KeyError
  | ValueError
  | TypeError
  | AttributeError
  | RuntimeError
  (* app/services/wallet_service.py *)
  | WalletAlreadyExistsError (currency : string)
  | WalletNotFoundError (id : uuid)
  | WalletAccessDeniedError (id : uuid)
  (* app/services/ledger_service.py *)
  | CurrencyMismatchError (msg : string)
  | InsufficientFundsError (id : uuid)
  | SameWalletTransferError (id : uuid)
  | RecipientNotFoundError (id : uuid)
  (* app/services/user_service.py *)
  | EmailAlreadyExistsError (email : string).

#[export] Instance exn_eq_dec : EqDecision exn.
Proof. solve_decision. Defined.

(** ** Session calls *)
Inductive SessionE : Set -> Type :=
  | Query {R : Set} (q : Database -> R) : SessionE R   (* scalar / scalars / get / execute *)
  | LockWallet (id : uuid) : SessionE (option Wallet.row)  (* ... with_for_update() *)
  | Add (c : change) : SessionE unit    (* db.add(row), or an attribute set on a tracked row *)
  | Flush : SessionE unit
  | Commit : SessionE unit
  | Rollback : SessionE unit
  | Uuid4 : SessionE uuid
  | Now : SessionE Z.

Inductive prog (A : Type) : Type :=
  | Ret (a : A)
  | Raise (e : exn)
  | Vis {B : Set} (call : SessionE B) (k : exn + B -> prog A).
Arguments Ret {A} a.
Arguments Raise {A} e.
Arguments Vis {A B} call k.

(** An exception ends the program; a call passes its own exception on. *)
Fixpoint prog_bind {A B} (p : prog A) (f : A -> prog B) : prog B :=
  match p with
  | Ret a => f a
  | Raise e => Raise e
  | Vis c k => Vis c (fun r => prog_bind (k r) f)
  end.

Definition call {B : Set} (c : SessionE B) : prog B :=
  Vis c (fun r => match r with inl e => Raise e | inr b => Ret b end).

(** [try: p except <guard>: h] *)
Fixpoint try_except {A} (p : prog A) (h : exn -> option (prog A)) : prog A :=
  match p with
  | Ret a => Ret a
  | Raise e => match h e with Some q => q | None => Raise e end
  | Vis c k => Vis c (fun r => try_except (k r) h)
  end.

(** Programs are sequenced with stdpp's monad notations. *)
#[export] Instance prog_mret : MRet prog := fun _ a => Ret a.
#[export] Instance prog_mbind : MBind prog := fun _ _ f p => prog_bind p f.

(** [raise e] under a condition, as the guards of the services do. *)
Definition raise_if (b : bool) (e : exn) : prog unit := if b then Raise e else Ret tt.

(** [if x is None: raise e] *)
Definition or_raise {A} (o : option A) (e : exn) : prog A :=
  match o with Some a => Ret a | None => Raise e end.

Definition is_integrity_error (e : exn) : bool := bool_decide (e = DBError IntegrityError).

(** ** Session states *)

(** The random and time sources, by how many draws were made before. *)
Class Env := { uuid4 : nat -> uuid; clock : nat -> Z }.

(** What is shared between sessions: the committed tables, the [seq] identity
    and the number of draws so far. *)
Record World := mkWorld { db : Database; next_seq : Z; tick : nat }.

(** One session: changes not flushed yet, statements of the open database
    transaction, its timestamp, and whether a failed flush still awaits
    [rollback()]. *)
Record Local := mkLocal {
  pending : list change;
  log : list write;
  tx_now : Z;
  broken : bool }.

Definition session : Type := World * Local.

(** What the session's SELECTs see: the committed tables under its own statements. *)
Definition visible (s : session) : Database := apply_writes (db s.1) (log s.2).

(** A session with no open work. *)
Definition idle (l : Local) : Prop := pending l = [] /\ log l = [] /\ broken l = false.
Definition fresh_local (now : Z) : Local := mkLocal [] [] now false.

Section semantics.
Context `{Env}.

(** The statements of a flush.  The first failing one aborts the database
    transaction, and the session refuses work until [rollback()]. *)
Fixpoint flush_changes (cs : list change) (s : session) : (exn + unit) * session :=
  match cs with
  | [] => (inr tt, (s.1, mkLocal [] (log s.2) (tx_now s.2) (broken s.2)))
  | c :: cs =>
      let w := mkWorld (db s.1) (draw_seq c (next_seq s.1)) (tick s.1) in
      match violation (visible s) c with
      | Some e => (inl (DBError e), (w, mkLocal [] [] (tx_now s.2) true))
      | None =>
          flush_changes cs
            (w, mkLocal (pending s.2)
                  (log s.2 ++ [mkWrite (tx_now s.2) (next_seq s.1) c]) (tx_now s.2) (broken s.2))
      end
  end.

Definition flush (s : session) : (exn + unit) * session :=
  if broken s.2 then (inl PendingRollbackError, s) else flush_changes (pending s.2) s.

Definition commit (s : session) : (exn + unit) * session :=
  match flush s with
  | (inl e, s') => (inl e, s')
  | (inr _, s') =>
      (inr tt, (mkWorld (visible s') (next_seq s'.1) (tick s'.1),
                mkLocal [] [] (clock (tick s'.1)) false))
  end.

Definition session_step {B} (c : SessionE B) (s : session) : (exn + B) * session :=
  match c in SessionE B return (exn + B) * session with
  | Query q => (if broken s.2 then inl PendingRollbackError else inr (q (visible s)), s)
  | LockWallet i =>
      (if broken s.2 then inl PendingRollbackError else inr (wallets (visible s) !! i), s)
  | Add c =>
      (inr tt, (s.1, mkLocal (pending s.2 ++ [c]) (log s.2) (tx_now s.2) (broken s.2)))
  | Flush => flush s
  | Commit => commit s
  | Rollback => (inr tt, (s.1, mkLocal [] [] (clock (tick s.1)) false))
  | Uuid4 =>
      (inr (uuid4 (tick s.1)), (mkWorld (db s.1) (next_seq s.1) (S (tick s.1)), s.2))
  | Now => (inr (clock (tick s.1)), (mkWorld (db s.1) (next_seq s.1) (S (tick s.1)), s.2))
  end.

Fixpoint run {A} (p : prog A) (s : session) : (exn + A) * session :=
  match p with
  | Ret a => (inr a, s)
  | Raise e => (inl e, s)
  | Vis c k => let '(r, s') := session_step c s in run (k r) s'
  end.

(** An engine executes the calls on states of its own; its law is that what
    the caller can observe of it behaves as documented. *)
Class SessionEngine (S : Type) := {
  exec : forall {B}, SessionE B -> S -> (exn + B) * S;
  view : S -> session;
  exec_result : forall {B} (c : SessionE B) s, (exec c s).1 = (session_step c (view s)).1;
  exec_view : forall {B} (c : SessionE B) s, view (exec c s).2 = (session_step c (view s)).2 }.

Fixpoint run_on {S} `{SessionEngine S} {A} (p : prog A) (s : S) : (exn + A) * S :=
  match p with
  | Ret a => (inr a, s)
  | Raise e => (inl e, s)
  | Vis c k => let '(r, s') := exec c s in run_on (k r) s'
  end.

(** The state after at most [n] calls: the process may die at any of them. *)
Fixpoint run_upto {A} (n : nat) (p : prog A) (s : session) : session :=
  match n, p with
  | S n, Vis c k => let '(r, s') := session_step c s in run_upto n (k r) s'
  | _, _ => s
  end.

Fixpoint run_upto_on {S} `{SessionEngine S} {A} (n : nat) (p : prog A) (s : S) : S :=
  match n, p with
  | S n, Vis c k => let '(r, s') := exec c s in run_upto_on n (k r) s'
  | _, _ => s
  end.
End semantics.

Definition is_commit {B} (c : SessionE B) : bool :=
  match c with Commit => true | _ => false end.

(** ** How often a program may commit, whatever its session answers *)
Fixpoint commits_le {A} (n : nat) (p : prog A) : Prop :=
  match p with
  | Ret _ | Raise _ => True
  | Vis c k =>
      match c in SessionE B return (exn + B -> prog A) -> Prop with
      | Commit => fun k => match n with
                           | O => False
                           | S m => forall r, commits_le m (k r)
                           end
      | _ => fun k => forall r, commits_le n (k r)
      end k
  end.

(** [db.add(row); db.flush()], the pair every repository insert makes. *)
Definition add_flush (c : change) : prog unit := call (Add c);; call Flush.

(** The postcondition [Φ] holds of the outcome of [p] from [s]. *)
Definition wp `{Env} {A} (p : prog A) (Φ : exn + A -> session -> Prop) (s : session) : Prop :=
  Φ (run p s).1 (run p s).2.

(** The state a session is in between two flushed statements. *)
Abbreviation at_log w L now := (w, mkLocal [] L now false) (only parsing).

(** ** Laws of the monad and of [run] *)
Section run.
Context `{Env}.

Lemma run_bind {A B} (p : prog A) (f : A -> prog B) s :
  run (p ≫= f) s = match run p s with
                   | (inl e, s') => (inl e, s')
                   | (inr a, s') => run (f a) s'
                   end.
Proof.
  revert s. induction p as [a|e|C c k IH]; intros s; [done..|].
  simpl. destruct (session_step c s) as [r s']. apply IH.
Qed.

Lemma run_try_except {A} (p : prog A) h s :
  run (try_except p h) s = match run p s with
                           | (inl e, s') => match h e with
                                            | Some q => run q s'
                                            | None => (inl e, s')
                                            end
                           | (inr a, s') => (inr a, s')
                           end.
Proof.
  revert s. induction p as [a|e|C c k IH]; intros s; simpl; [done|by destruct (h e)|].
  destruct (session_step c s) as [r s']. apply IH.
Qed.

Lemma run_call {B} (c : SessionE B) s : run (call c) s = session_step c s.
Proof. unfold call. simpl. by destruct (session_step c s) as [[e|b] s']. Qed.

Lemma run_add_flush c w L now :
  run (add_flush c) (at_log w L now) =
    let w' := mkWorld (db w) (draw_seq c (next_seq w)) (tick w) in
    match violation (apply_writes (db w) L) c with
    | Some e => (inl (DBError e), (w', mkLocal [] [] now true))
    | None => (inr tt, at_log w' (L ++ [mkWrite now (next_seq w) c]) now)
    end.
Proof.
  unfold add_flush. rewrite run_bind, run_call. simpl. unfold flush. simpl.
  unfold visible. simpl. by destruct (violation _ c).
Qed.

Lemma run_commit w L now :
  run (call Commit) (at_log w L now) =
    (inr tt, (mkWorld (apply_writes (db w) L) (next_seq w) (tick w),
              fresh_local (clock (tick w)))).
Proof. by rewrite run_call. Qed.

(** Rules of [wp], applied from the first call on. *)
Lemma wp_bind {A B} (p : prog A) (f : A -> prog B) Φ s :
  wp p (fun r s' => match r with inl e => Φ (inl e) s' | inr a => wp (f a) Φ s' end) s ->
  wp (p ≫= f) Φ s.
Proof. unfold wp. rewrite run_bind. by destruct (run p s) as [[e|a] s']. Qed.

Lemma wp_mono {A} (p : prog A) (Φ Ψ : exn + A -> session -> Prop) s :
  wp p Φ s -> (forall r s', Φ r s' -> Ψ r s') -> wp p Ψ s.
Proof. unfold wp. auto. Qed.

Lemma wp_query {R : Set} (q : Database -> R) Φ w L now :
  Φ (inr (q (apply_writes (db w) L))) (at_log w L now) ->
  wp (call (Query q)) Φ (at_log w L now).
Proof. done. Qed.

Lemma wp_lock i Φ w L now :
  Φ (inr (wallets (apply_writes (db w) L) !! i)) (at_log w L now) ->
  wp (call (LockWallet i)) Φ (at_log w L now).
Proof. done. Qed.

Lemma wp_uuid4 Φ w L now :
  Φ (inr (uuid4 (tick w))) (at_log (mkWorld (db w) (next_seq w) (S (tick w))) L now) ->
  wp (call Uuid4) Φ (at_log w L now).
Proof. done. Qed.

Lemma wp_now Φ w L now :
  Φ (inr (clock (tick w))) (at_log (mkWorld (db w) (next_seq w) (S (tick w))) L now) ->
  wp (call Now) Φ (at_log w L now).
Proof. done. Qed.

Lemma wp_add_flush c Φ w L now :
  (forall e, violation (apply_writes (db w) L) c = Some e ->
     Φ (inl (DBError e)) (mkWorld (db w) (draw_seq c (next_seq w)) (tick w),
                          mkLocal [] [] now true)) ->
  (violation (apply_writes (db w) L) c = None ->
     Φ (inr tt) (at_log (mkWorld (db w) (draw_seq c (next_seq w)) (tick w))
                   (L ++ [mkWrite now (next_seq w) c]) now)) ->
  wp (add_flush c) Φ (at_log w L now).
Proof.
  intros He Hok. unfold wp. rewrite run_add_flush. simpl.
  destruct (violation _ c) eqn:E; simpl; [by apply He|by apply Hok].
Qed.

Lemma wp_commit Φ w L now :
  Φ (inr tt) (mkWorld (apply_writes (db w) L) (next_seq w) (tick w),
              fresh_local (clock (tick w))) ->
  wp (call Commit) Φ (at_log w L now).
Proof. done. Qed.

Lemma wp_rollback Φ w l :
  Φ (inr tt) (w, fresh_local (clock (tick w))) -> wp (call Rollback) Φ (w, l).
Proof. done. Qed.

Lemma wp_try_except {A} (p : prog A) h Φ s :
  wp p (fun r s' => match r with
                    | inl e => match h e with
                               | Some q => wp q Φ s'
                               | None => Φ (inl e) s'
                               end
                    | inr a => Φ (inr a) s'
                    end) s ->
  wp (try_except p h) Φ s.
Proof.
  unfold wp. rewrite run_try_except. destruct (run p s) as [[e|a] s']; simpl; [|done].
  by destruct (h e).
Qed.
End run.

(** ** Flushing several changes *)
Section flush.
Context `{Env}.

Definition no_draw (c : change) : Prop := forall n, draw_seq c n = n.

Lemma flush_changes_spec cs w P L now : Forall no_draw cs ->
  let ws := mkWrite now (next_seq w) <$> cs in
  (valid_writes (apply_writes (db w) L) ws ->
     flush_changes cs (w, mkLocal P L now false) = (inr tt, at_log w (L ++ ws) now)) /\
  (~ valid_writes (apply_writes (db w) L) ws ->
     exists e, flush_changes cs (w, mkLocal P L now false)
                 = (inl (DBError e), (w, mkLocal [] [] now true))).
Proof.
  intros Hcs. destruct w as [d n t]. revert L. induction Hcs as [|c cs Hc _ IH]; intros L; simpl.
  - by rewrite app_nil_r.
  - unfold visible. simpl. rewrite Hc. destruct (violation _ c) eqn:E; simpl.
    + split; [by intros []|eauto].
    + destruct (IH (L ++ [mkWrite now n c])) as [IH1 IH2].
      rewrite apply_writes_app, <- app_assoc in IH1. rewrite apply_writes_app in IH2.
      simpl in *. rewrite apply_writes_cons, apply_writes_nil in *.
      split; [intros [_ Hv]; auto|intros Hv; apply IH2; tauto].
Qed.

Lemma wp_add_flush_all c Φ w P L now :
  let ws := mkWrite now (next_seq w) <$> (P ++ [c]) in
  Forall no_draw (P ++ [c]) ->
  (forall e, ~ valid_writes (apply_writes (db w) L) ws ->
     Φ (inl (DBError e)) (w, mkLocal [] [] now true)) ->
  (valid_writes (apply_writes (db w) L) ws -> Φ (inr tt) (at_log w (L ++ ws) now)) ->
  wp (add_flush c) Φ (w, mkLocal P L now false).
Proof.
  intros ws Hn He Hok. unfold wp, add_flush. rewrite run_bind, run_call. simpl.
  unfold flush. simpl.
  destruct (flush_changes_spec (P ++ [c]) w (P ++ [c]) L now Hn) as [H1 H2].
  destruct (decide (valid_writes (apply_writes (db w) L) ws)) as [Hv|Hv].
  - rewrite H1 by done. by apply Hok.
  - destruct H2 as [e ->]; [done|]. by apply He.
Qed.

(** The form used for sequences of statements: the log stays valid. *)
Lemma wp_add_flush_valid c Φ w L now :
  let w' := mkWorld (db w) (draw_seq c (next_seq w)) (tick w) in
  let L' := L ++ [mkWrite now (next_seq w) c] in
  valid_writes (db w) L ->
  (forall e l, ~ valid_writes (db w) L' -> Φ (inl (DBError e)) (w', l)) ->
  (valid_writes (db w) L' -> Φ (inr tt) (at_log w' L' now)) ->
  wp (add_flush c) Φ (at_log w L now).
Proof.
  intros w' L' HL He Hok. apply wp_add_flush; intros.
  - apply He. intros [_ [? _]]%valid_writes_app. simpl in *. congruence.
  - by apply Hok, valid_writes_snoc.
Qed.

Lemma wp_add_flush_all_valid c Φ w P L now :
  let L' := L ++ (mkWrite now (next_seq w) <$> (P ++ [c])) in
  Forall no_draw (P ++ [c]) -> valid_writes (db w) L ->
  (forall e l, ~ valid_writes (db w) L' -> Φ (inl (DBError e)) (w, l)) ->
  (valid_writes (db w) L' -> Φ (inr tt) (at_log w L' now)) ->
  wp (add_flush c) Φ (w, mkLocal P L now false).
Proof.
  intros L' Hn HL He Hok. apply wp_add_flush_all; [done|intros e Hv; apply He|intros Hv; apply Hok].
  - by intros [_ ?]%valid_writes_app.
  - by apply valid_writes_app.
Qed.

Lemma wp_add c Φ w P L now :
  Φ (inr tt) (w, mkLocal (P ++ [c]) L now false) ->
  wp (call (Add c)) Φ (w, mkLocal P L now false).
Proof. done. Qed.
End flush.

(** ** Any engine behaves as the specification *)
Section engine.
Context `{Env} {S : Type} `{!SessionEngine S}.

Lemma run_on_view {A} (p : prog A) (s : S) :
  (run_on p s).1 = (run p (view s)).1 /\ view (run_on p s).2 = (run p (view s)).2.
Proof.
  revert s. induction p as [a|e|B c k IH]; intros s; simpl; [done..|].
  pose proof (exec_result c s) as Hr. pose proof (exec_view c s) as Hv.
  destruct (exec c s) as [r s'], (session_step c (view s)) as [r' v']. simpl in *.
  subst. apply IH.
Qed.

Lemma run_upto_on_view {A} n (p : prog A) (s : S) :
  view (run_upto_on n p s) = run_upto n p (view s).
Proof.
  revert n s. induction p as [a|e|B c k IH]; intros [|n] s; simpl; [done..|].
  pose proof (exec_result c s) as Hr. pose proof (exec_view c s) as Hv.
  destruct (exec c s) as [r s'], (session_step c (view s)) as [r' v']. simpl in *.
  subst. apply IH.
Qed.
End engine.

(** ** Commits *)
Section commits.
Context `{Env}.

Lemma commits_le_bind {A B} n m (p : prog A) (f : A -> prog B) :
  commits_le n p -> (forall a, commits_le m (f a)) -> commits_le (n + m) (p ≫= f).
Proof.
  intros Hp Hf. revert n Hp. induction p as [a|e|C c k IH]; intros n Hp; simpl; [|done|].
  - generalize (Hf a). generalize (f a). clear. intros q. revert n m.
    induction q as [a|e|C c k IH]; intros n m; simpl; [done..|].
    destruct c; simpl; try (intros Hk r; by apply IH).
    destruct m as [|m]; [done|]. rewrite Nat.add_succ_r. intros Hk r. by apply IH.
  - destruct c; simpl in *; try (intros r; by apply IH).
    destruct n as [|n]; [done|]. intros r. by apply IH.
Qed.

Lemma flush_changes_db cs s : db (flush_changes cs s).2.1 = db s.1.
Proof.
  revert s. induction cs as [|c cs IH]; intros s; simpl; [done|].
  destruct (violation _ c); [done|]. by rewrite IH.
Qed.

Lemma flush_db s : db (flush s).2.1 = db s.1.
Proof. unfold flush. destruct (broken s.2); [done|]. apply flush_changes_db. Qed.

Lemma step_db {B} (c : SessionE B) s : ~ is_commit c -> db (session_step c s).2.1 = db s.1.
Proof. destruct c; simpl; try done. intros _. apply flush_db. Qed.

(** Without a commit the committed tables do not change, at no point. *)
Lemma run_upto_no_commit {A} (p : prog A) n s :
  commits_le 0 p -> db (run_upto n p s).1 = db s.1.
Proof.
  revert n s. induction p as [a|e|C c k IH]; intros [|n] s Hp; simpl; [done..|].
  destruct (session_step c s) as [r s'] eqn:Es.
  rewrite <- (step_db c s) by (destruct c; simpl in *; tauto). rewrite Es. apply IH.
  destruct c; simpl in *; solve [apply Hp | done].
Qed.

Lemma run_no_commit {A} (p : prog A) s :
  commits_le 0 p -> db (run p s).2.1 = db s.1.
Proof.
  revert s. induction p as [a|e|C c k IH]; intros s Hp; simpl; [done..|].
  destruct (session_step c s) as [r s'] eqn:Es.
  rewrite <- (step_db c s) by (destruct c; simpl in *; tauto). rewrite Es. apply IH.
  destruct c; simpl in *; solve [apply Hp | done].
Qed.

(** With at most one commit, every intermediate state has the tables of
    before the run or those of after it. *)
Lemma run_upto_one_commit {A} (p : prog A) n s :
  commits_le 1 p ->
  db (run_upto n p s).1 = db s.1 \/ db (run_upto n p s).1 = db (run p s).2.1.
Proof.
  revert n s. induction p as [a|e|C c k IH]; intros [|n] s Hp; simpl; [by left..|].
  destruct (session_step c s) as [r s'] eqn:Es.
  destruct (decide (is_commit c)) as [Hc|Hc].
  - right. rewrite run_upto_no_commit, run_no_commit; [done|destruct c; done..].
  - rewrite <- (step_db c s) by done. rewrite Es. apply IH.
    destruct c; simpl in *; solve [apply Hp | tauto].
Qed.
End commits.

Lemma run_vis `{Env} {A B} (c : SessionE B) (k : exn + B -> prog A) s :
  run (Vis c k) s = run (k (session_step c s).1) (session_step c s).2.
Proof. simpl. by destruct (session_step c s). Qed.

Lemma wp_run `{Env} {A} (p : prog A) Φ s : wp p Φ s <-> Φ (run p s).1 (run p s).2.
Proof. done. Qed.

(** From here on programs are run by the rules above, not by unfolding. *)
#[global] Opaque wp.
#[global] Arguments prog_bind : simpl never.
#[global] Arguments prog_mbind : simpl never.
#[global] Arguments prog_mret : simpl never.
#[global] Arguments call : simpl never.
#[global] Arguments add_flush : simpl never.
#[global] Arguments try_except : simpl never.
#[global] Arguments mbind : simpl never.
#[global] Arguments mret : simpl never.
#[global] Arguments run : simpl never.

Lemma wp_ret `{Env} {A} (a : A) Φ s : Φ (inr a) s -> wp (mret a) Φ s.
Proof. by rewrite wp_run. Qed.
Lemma wp_raise `{Env} {A} e (Φ : exn + A -> session -> Prop) s : Φ (inl e) s -> wp (Raise e) Φ s.
Proof. by rewrite wp_run. Qed.
Lemma wp_or_raise `{Env} {A} (o : option A) e Φ s :
  (o = None -> Φ (inl e) s) -> (forall a, o = Some a -> Φ (inr a) s) -> wp (or_raise o e) Φ s.
Proof. intros Hn Hs. destruct o; [by apply wp_ret, Hs|by apply wp_raise, Hn]. Qed.
Lemma wp_raise_if `{Env} b e Φ s :
  (b = true -> Φ (inl e) s) -> (b = false -> Φ (inr tt) s) -> wp (raise_if b e) Φ s.
Proof. intros Ht Hf. destruct b; [by apply wp_raise, Ht|by apply wp_ret, Hf]. Qed.

(** Conversions and lookups that only return or raise. *)
Definition pure {A} (p : prog A) : Prop := (exists a, p = mret a) \/ exists e, p = Raise e.

Lemma pure_or_raise {A} (o : option A) e : pure (or_raise o e).
Proof. destruct o; [left|right]; eauto. Qed.

Lemma wp_pure `{Env} {A} (p : prog A) Φ s :
  pure p -> (forall e, Φ (inl e) s) -> (forall a, Φ (inr a) s) -> wp p Φ s.
Proof. intros [[a ->]|[e ->]] He Ha; [by apply wp_ret|by apply wp_raise]. Qed.

(** What [wp] says of the specification holds of every engine. *)
Lemma run_on_wp `{Env} {S} `{!SessionEngine S} {A} (p : prog A) Φ (s : S) :
  wp p Φ (view s) -> Φ (run_on p s).1 (view (run_on p s).2).
Proof. intros Hp%wp_run. by destruct (run_on_view p s) as [-> ->]. Qed.
