(* ===== verification/Interleaving.v ===== *)
(** * Concurrent sessions

    A pool of threads, each a program on a session of its own, over one
    database: PostgreSQL at READ COMMITTED.  A statement sees what is committed
    and what its own transaction wrote; it waits while another transaction
    holds a lock it needs; locks are kept until the transaction ends. *)
From S2P Require Import Prelude PyValues Schema Locks Session.

(** ** One thread *)

(** Auxiliary, for the proofs: the ids the thread has drawn, and the tables before
    and after its commit. *)
Record ghost := Ghost { drawn : gset nat; booked : option (Database * Database) }.
Definition committed (g : ghost) : bool := if booked g then true else false.

Inductive thread (R : Type) :=
  | Running (p : prog R) (l : Local) (L : gset lock) (g : ghost)
  | Finished (r : exn + R) (g : ghost)
  | Died (g : ghost).
Arguments Running {R} p l L g.
Arguments Finished {R} r g.
Arguments Died {R} g.

Definition held {R} (t : thread R) : gset lock :=
  match t with Running _ _ L _ => L | _ => ∅ end.

(** The outcome of a program that has come to its end. *)
Definition final {R} (p : prog R) : option (exn + R) :=
  match p with Ret a => Some (inr a) | Raise e => Some (inl e) | Vis _ _ => None end.

Section threads.
Context `{Env}.

(** The locks a call needs.  SELECT ... FOR UPDATE locks the row it finds. *)
Definition wants {B} (c : SessionE B) (s : session) : gset lock :=
  match c with
  | LockWallet i =>
      if decide (is_Some (wallets (visible s) !! i)) then {[RowWallet i]} else ∅
  | Flush | Commit => if broken s.2 then ∅ else needs_all (pending s.2)
  | _ => ∅
  end.

(** The locks held after the call: none when the transaction ended, by COMMIT
    or by the rollback a failed statement causes. *)
Definition keeps {B} (c : SessionE B) (s s' : session) (L : gset lock) : gset lock :=
  match c with
  | Commit | Rollback => ∅
  | _ => if broken s'.2 then ∅ else L ∪ wants c s
  end.

(** A COMMIT that went through. *)
Definition committing {B} (c : SessionE B) (r : exn + B) : bool :=
  is_commit c && match r with inl _ => false | inr _ => true end.

Definition mark {B} (c : SessionE B) (w w' : World) (r : exn + B) (g : ghost) : ghost :=
  Ghost (match c with Uuid4 => {[tick w]} ∪ drawn g | _ => drawn g end)
    (if committing c r then Some (db w, db w') else booked g).

Lemma mark_committed {B} (c : SessionE B) w w' r g :
  committed (mark c w w' r g) = committing c r || committed g.
Proof. unfold committed, mark. simpl. by destruct (committing c r). Qed.
End threads.

(** ** The pool *)
Section pool.
Context `{Env} {R : Type}.
Abbreviation pool := (World * list (thread R))%type (only parsing).
Implicit Types (ts : list (thread R)) (t : thread R).

(** Another thread than [i] holds a lock of [K]. *)
Definition blocked (i : nat) ts (K : gset lock) : Prop :=
  exists j t k, j <> i /\ ts !! j = Some t /\ k ∈ held t /\ k ∈ K.

#[export] Instance blocked_dec i ts K : Decision (blocked i ts K).
Proof.
  destruct (decide (Exists (fun jt => jt.1 <> i /\ held jt.2 ∩ K <> ∅) (imap pair ts))) as [He|He];
    [left|right].
  - apply Exists_exists in He as ([j t] & Hj & Hne & HK). simpl in *.
    apply elem_of_lookup_imap in Hj as (j' & t' & [= -> ->] & Hj).
    apply set_choose_L in HK as [k Hk]. exists j', t', k. set_solver.
  - intros (j & t & k & Hne & Hj & Hk & HkK). apply He, Exists_exists. exists (j, t).
    split; [apply elem_of_lookup_imap; eauto|]. simpl. split; [done|]. set_solver.
Defined.

(** One thread does its next call, or closes its session at the end of its
    program; the label is the thread if the call is a COMMIT that goes through. *)
Inductive advance : pool -> option nat -> pool -> Prop :=
  | adv_call i w ts B (c : SessionE B) k l L g :
      ts !! i = Some (Running (Vis c k) l L g) ->
      ~ blocked i ts (wants c (w, l)) ->
      let out := session_step c (w, l) in
      advance (w, ts) (if committing c out.1 then Some i else None)
        (out.2.1, <[i := Running (k out.1) out.2.2 (keeps c (w, l) out.2 L) (mark c w out.2.1 out.1 g)]> ts)
  | adv_close i w ts p l L g r :       (* db.close() *)
      ts !! i = Some (Running p l L g) -> final p = Some r ->
      advance (w, ts) None (w, <[i := Finished r g]> ts).

(** Or a process or its connection is lost at any point. *)
Inductive pool_step : pool -> option nat -> pool -> Prop :=
  | ps_advance P o P' : advance P o P' -> pool_step P o P'
  | ps_die i w ts p l L g :
      ts !! i = Some (Running p l L g) ->
      pool_step (w, ts) None (w, <[i := Died g]> ts).

(** A run, with the threads in the order of their commits. *)
Inductive runs : pool -> list nat -> pool -> Prop :=
  | runs_nil P : runs P [] P
  | runs_step P P' P'' o order : pool_step P o P' -> runs P' order P'' ->
      runs P (option_list o ++ order) P''.
End pool.

(** ** Database servers *)

(** A server runs the threads in a state of its own; its law is that what the
    threads can observe are steps of the pool: the documented behaviour of
    PostgreSQL under READ COMMITTED. *)
Class Server `{Env} (R S : Type) := {
  moves : S -> option nat -> S -> Prop;
  observed : S -> World * list (thread R);
  moves_sound : forall s o s', moves s o s' -> pool_step (observed s) o (observed s') }.

(** Any thread that does not wait may be the next one. *)
Class OpenServer `{Env} (R S : Type) `{!Server R S} : Prop :=
  moves_any : forall (s : S) o (P : World * list (thread R)), pool_step (observed s) o P ->
    exists s', moves s o s' /\ observed s' = P.

Inductive serves `{Env} {R S} `{!Server R S} : S -> list nat -> S -> Prop :=
  | serves_nil s : serves s [] s
  | serves_step s s' s'' o order : moves s o s' -> serves s' order s'' ->
      serves s (option_list o ++ order) s''.

Lemma serves_runs `{Env} {R S} `{!Server R S} (s s' : S) order :
  serves s order s' -> runs (observed s) order (observed s').
Proof. induction 1 as [|s s1 s2 o order Hm _ IH]; [constructor|]. econstructor; [by apply moves_sound|done]. Qed.

Lemma runs_serves `{Env} {R S} `{!Server R S} `{!OpenServer R S} (s : S) order P' :
  runs (observed s) order P' -> exists s', serves s order s' /\ observed s' = P'.
Proof.
  intros Hr. remember (observed s) as P eqn:HP. revert s HP.
  induction Hr as [P|P P1 P2 o order Hst _ IH]; intros s HP; [exists s; split; [constructor|done]|].
  rewrite HP in Hst. destruct (moves_any s o P1 Hst) as (s1 & Hm & <-).
  destruct (IH s1 eq_refl) as (s2 & Hs & He). exists s2. split; [by econstructor|done].
Qed.

(** The specification is itself a server. *)
#[export] Instance pool_server `{Env} {R} : Server R (World * list (thread R)) :=
  {| moves := pool_step; observed := fun P => P; moves_sound := fun _ _ _ H => H |}.
#[export] Instance pool_open `{Env} {R} : OpenServer R (World * list (thread R)).
Proof. intros s o P Hst. by exists P. Qed.

(** ** What one call does, in any program *)
Section call.
Context `{Env}.

(** A flush either appends what was pending to the log, every statement checked,
    or leaves nothing. *)
Lemma flush_changes_log cs w P L now :
  let out := flush_changes cs (w, mkLocal P L now false) in
  tick out.2.1 = tick w /\
  ((out.1 = inr tt /\ exists ws, out.2.2 = mkLocal [] (L ++ ws) now false /\ (wr_change <$> ws) = cs /\
      valid_writes (apply_writes (db w) L) ws) \/
   (exists e, out.1 = inl (DBError e)) /\ out.2.2 = mkLocal [] [] now true).
Proof.
  revert w L P. induction cs as [|c cs IH]; intros w L P; simpl.
  - split; [done|]. left. split; [done|]. exists []. by rewrite app_nil_r.
  - unfold visible. simpl. destruct (violation _ c) as [e|] eqn:E; simpl; [eauto|].
    destruct (IH (mkWorld (db w) (draw_seq c (next_seq w)) (tick w)) (L ++ [mkWrite now (next_seq w) c]) P)
      as [Ht [(Hr & ws & Hl & Hc & Hv)|[He Hl]]]; (split; [done|]); [left|right]; [|done].
    split; [done|]. exists (mkWrite now (next_seq w) c :: ws). rewrite Hl, <- app_assoc. simpl.
    split; [done|]. split; [by f_equal|]. split; [done|].
    rewrite apply_writes_app in Hv. exact Hv.
Qed.

(** A session has nothing open once a statement of it failed. *)
Definition sane (l : Local) : Prop := broken l = true -> log l = [].

Lemma flush_log (s : session) : sane s.2 ->
  let out := flush s in
  tick out.2.1 = tick s.1 /\ sane out.2.2 /\
  ((out.1 = inr tt /\ broken s.2 = false /\ exists ws,
      out.2.2 = mkLocal [] (log s.2 ++ ws) (tx_now s.2) false /\
      (wr_change <$> ws) = pending s.2 /\ valid_writes (visible s) ws) \/
   ((exists e, out.1 = inl e) /\ log out.2.2 = [] /\ broken out.2.2 = true)).
Proof.
  destruct s as [w [P L now b]]. unfold sane, flush. simpl. destruct b; intros Hs; simpl.
  - split; [done|]. split; [done|]. right. split; [eauto|]. split; [by apply Hs|done].
  - destruct (flush_changes_log P w P L now) as [Ht [(Hr & ws & Hl & Hc & Hv)|[[e He] Hl]]].
    + rewrite Hl. split; [done|]. split; [done|]. left. split; [done|]. split; [done|].
      exists ws. done.
    + rewrite Hl. split; [done|]. split; [done|]. right. eauto.
Qed.

Lemma step_quiet {B} (c : SessionE B) s :
  committing c (session_step c s).1 = false -> db (session_step c s).2.1 = db s.1.
Proof.
  destruct (decide (is_commit c)) as [Hc|Hc]; [|intros _; by apply step_db].
  destruct c; try done. simpl. unfold commit. pose proof (flush_db s) as Hd.
  destruct (flush s) as [[e|[]] s']; [done|]. done.
Qed.

Lemma step_tick {B} (c : SessionE B) s : tick s.1 <= tick (session_step c s).2.1.
Proof.
  assert (Hf : forall cs s, tick (flush_changes cs s).2.1 = tick s.1).
  { clear s. intros cs. induction cs as [|c' cs IH]; intros s; simpl; [done|].
    destruct (violation _ c'); simpl; [done|]. by rewrite IH. }
  assert (Hfl : tick (flush s).2.1 = tick s.1).
  { unfold flush. by destruct (broken s.2). }
  destruct c; simpl; try lia. unfold commit.
  destruct (flush s) as [[e|[]] s']; simpl in *; lia.
Qed.

(** The log stays covered by the locks, and acceptable. *)
Definition log_ok (w : World) (l : Local) (L : gset lock) : Prop :=
  sane l /\ needs_log (log l) ⊆ L /\ valid_writes (db w) (log l).

Lemma step_log_ok {B} (c : SessionE B) w l L : log_ok w l L ->
  let out := session_step c (w, l) in log_ok out.2.1 out.2.2 (keeps c (w, l) out.2 L).
Proof.
  intros (Hs & Hn & Hv). unfold log_ok.
  assert (Hno : needs_log (log (mkLocal [] [] 0%Z false)) ⊆ L) by (unfold needs_log, needs_all; simpl; set_solver).
  assert (Hb : forall K, (if broken l then ∅ else L ∪ K) = ∅ \/ broken l = false).
  { destruct (broken l); eauto. }
  assert (Hkeep : forall K, needs_log (log l) ⊆ (if broken l then ∅ else L ∪ K)).
  { intros K. destruct (broken l) eqn:E; [|set_solver]. rewrite (Hs E). set_solver. }
  destruct c; simpl; try (split; [exact Hs|]; split; [apply Hkeep|done]); try (by split; [|split]).
  - (* flush *) destruct (flush_log (w, l) Hs) as (_ & Hs' & [(Hr & Hbr & ws & Hl & Hc & Hw)|(_ & Hl & Hbr)]).
    + simpl in *. rewrite Hl. simpl. split; [done|]. rewrite Hbr. split.
      * rewrite needs_log_app. unfold needs_log at 2. rewrite Hc. set_solver.
      * rewrite flush_db. apply valid_writes_app. done.
    + split; [done|]. simpl in *. rewrite Hl, Hbr. done.
  - (* commit *) unfold commit.
    destruct (flush_log (w, l) Hs) as (_ & Hs' & [(Hr & Hbr & ws & Hl & Hc & Hw)|([e Hr] & Hl & Hbr)]);
      destruct (flush (w, l)) as [r s']; simpl in *; subst r; simpl; [done|].
    split; [done|]. by rewrite Hl.
Qed.

(** Who holds none of the locks of the call sees his rows unchanged. *)
Lemma step_agree {B} (c : SessionE B) w l L K : log_ok w l L -> K ## L ∪ wants c (w, l) ->
  agree K (db w) (db (session_step c (w, l)).2.1).
Proof.
  intros (Hs & Hn & Hv) HK.
  destruct (committing c (session_step c (w, l)).1) eqn:Ec;
    [|rewrite step_quiet by done; apply agree_refl].
  destruct c; try done. simpl in *. unfold commit in *.
  destruct (flush_log (w, l) Hs) as (_ & Hs' & [(Hr & Hbr & ws & Hl & Hc & Hw)|([e Hr] & Hl & Hbr)]);
    pose proof (flush_db (w, l)) as Hd; destruct (flush (w, l)) as [r s']; simpl in *; subst r; [|done].
  simpl. unfold visible. rewrite Hl, Hd. simpl. apply agree_writes.
  rewrite needs_log_app. unfold needs_log at 2. rewrite Hc, Hbr in *. set_solver.
Qed.
End call.

(** ** Programs that are safe under interference *)

(** The ids a lock is named by, and the locks that are no rows. *)
Definition lock_uuid (k : lock) : option uuid :=
  match k with
  | RowUser i | RowTransaction i | RowEntry i | RowOutbox i => Some i
  | _ => None
  end.
Definition is_wallet_lock (k : lock) : Prop := match k with RowWallet _ => True | _ => False end.

(** What other threads keep, the relation in which they may advance, and whether
    the threads follow the locking discipline. *)
Record interference := Interference {
  inv : Database -> Prop;
  grows : relation Database;
  grows_preorder : PreOrder grows;
  ordered : bool }.
#[export] Existing Instance grows_preorder.

Section safe.
Context `{Env} (J : interference).
Abbreviation I := (inv J).
Abbreviation ext := (grows J).

(** What other threads may do meanwhile. *)
Definition rely (L : gset lock) (w w' : World) : Prop :=
  agree L (db w) (db w') /\ I (db w') /\ ext (db w) (db w') /\ tick w <= tick w'.

(** The locking discipline: wallets in ascending order and before anything
    else; then only locks named by ids of one's own drawing, and one contested
    key while nothing but wallets is held. *)
Definition orderly {B} (c : SessionE B) (s : session) (L : gset lock) (g : ghost) : Prop :=
  match c with
  | LockWallet i => forall k, k ∈ L -> exists j, k = RowWallet j /\ (j < i)%N
  | Flush | Commit => forall k, k ∈ wants c s -> k ∈ L \/
      (exists i n, lock_uuid k = Some i /\ n ∈ drawn g /\ i = uuid4 n) \/
      (lock_uuid k = None /\ ~ is_wallet_lock k /\ forall k', k' ∈ L -> is_wallet_lock k')
  | _ => True
  end.

(** [p] on the session [l] with the locks [L] keeps the discipline, commits at
    most once, what [G] allows, and ends with [Φ], whatever others do. *)
Fixpoint safe {A} (G : relation Database) (p : prog A)
    (Φ : exn + A -> World -> Local -> gset lock -> ghost -> Prop)
    (w : World) (l : Local) (L : gset lock) (g : ghost) : Prop :=
  match p with
  | Ret a => Φ (inr a) w l L g
  | Raise e => Φ (inl e) w l L g
  | Vis c k => forall w', rely L w w' ->
      let out := session_step c (w', l) in
      (ordered J = true -> orderly c (w', l) L g) /\
      (committing c out.1 = true -> committed g = false /\ G (db w') (db out.2.1)) /\
      safe G (k out.1) Φ out.2.1 out.2.2 (keeps c (w', l) out.2 L) (mark c w' out.2.1 out.1 g)
  end.

Lemma rely_refl L w : I (db w) -> rely L w w.
Proof. intros HI. split; [apply agree_refl|]. split; [done|]. split; [done|lia]. Qed.

Lemma rely_trans L w w' w'' : rely L w w' -> rely L w' w'' -> rely L w w''.
Proof.
  intros (A & _ & E & T) (A' & I' & E' & T'). split; [by eapply agree_trans|].
  split; [done|]. split; [by etrans|]. lia.
Qed.

(** Safety is stable as long as its postcondition is. *)
Lemma safe_rely {A} G (p : prog A) Φ w w' l L g :
  (forall r, Φ r w l L g -> Φ r w' l L g) ->
  rely L w w' -> safe G p Φ w l L g -> safe G p Φ w' l L g.
Proof.
  intros HΦ Hr. destruct p as [a|e|B c k]; simpl; [apply HΦ..|].
  intros Hs w'' Hr'. apply Hs. by eapply rely_trans.
Qed.

(** Rules. *)
Lemma safe_mono {A} G (p : prog A) (Φ Ψ : exn + A -> World -> Local -> gset lock -> ghost -> Prop) w l L g :
  (forall r w l L g, Φ r w l L g -> Ψ r w l L g) -> safe G p Φ w l L g -> safe G p Ψ w l L g.
Proof.
  intros HΦ. revert w l L g. induction p as [a|e|B c k IH]; intros w l L g; simpl; [apply HΦ..|].
  intros Hs w' Hr. destruct (Hs w' Hr) as (Ho & Hc & Hk). split; [done|]. split; [done|]. by apply IH.
Qed.

Lemma safe_weaken {A} (G G' : relation Database) (p : prog A) Φ w l L g :
  (forall d d', G d d' -> G' d d') -> safe G p Φ w l L g -> safe G' p Φ w l L g.
Proof.
  intros HG. revert w l L g. induction p as [a|e|B c k IH]; intros w l L g; simpl; [done..|].
  intros Hs w' Hr. destruct (Hs w' Hr) as (Ho & Hc & Hk). split; [done|]. split; [|by apply IH].
  intros Hcom. destruct (Hc Hcom). auto.
Qed.

Lemma safe_bind {A B} G (p : prog A) (f : A -> prog B) Φ w l L g :
  safe G p (fun r => match r with inl e => Φ (inl e) | inr a => safe G (f a) Φ end) w l L g ->
  safe G (p ≫= f) Φ w l L g.
Proof.
  revert w l L g. induction p as [a|e|C c k IH]; intros w l L g; [done..|].
  simpl. intros Hs w' Hr. destruct (Hs w' Hr) as (Ho & Hc & Hk). split; [done|]. split; [done|].
  by apply IH.
Qed.

Lemma safe_try_except {A} G (p : prog A) h Φ w l L g :
  safe G p (fun r => match r with
                     | inl e => match h e with Some q => safe G q Φ | None => Φ (inl e) end
                     | inr a => Φ (inr a)
                     end) w l L g ->
  safe G (try_except p h) Φ w l L g.
Proof.
  revert w l L g. induction p as [a|e|C c k IH]; intros w l L g.
  - done.
  - simpl. change (try_except (Raise e) h) with (match h e with Some q => q | None => Raise e end).
    by destruct (h e).
  - simpl. intros Hs w' Hr. destruct (Hs w' Hr) as (Ho & Hc & Hk). split; [done|]. split; [done|].
    by apply IH.
Qed.
End safe.
