(* ===== verification/Pool.v ===== *)
(** * Pools of safe threads

    Any interleaving of safe threads keeps the invariant and is serial in the
    order of the commits; no deadlock is possible; every run comes to an end. *)
From S2P Require Import Prelude PyValues Schema Locks Session Interleaving.

Lemma runs_length `{Env} {R} (P P' : World * list (thread R)) order :
  runs P order P' -> length P'.2 = length P.2.
Proof.
  induction 1 as [|P P1 P2 o order Hst _ ->]; [done|].
  destruct Hst as [? ? ? []|]; simpl; by rewrite length_insert.
Qed.

(** One commit after the other, each as its thread may. *)
Inductive serial {D : Type} (G : nat -> relation D) : list nat -> relation D :=
  | serial_nil d : serial G [] d d
  | serial_cons i order d d' d'' : G i d d' -> serial G order d' d'' -> serial G (i :: order) d d''.

Definition ghost_of {R} (t : thread R) : ghost :=
  match t with Running _ _ _ g | Finished _ g | Died g => g end.

Section upkeep.
Context `{Env}.

(** Locks named by ids are on ids of one's own drawing. *)
Definition owned (L : gset lock) (g : ghost) : Prop :=
  forall k x, k ∈ L -> lock_uuid k = Some x -> exists n, n ∈ drawn g /\ x = uuid4 n.

Lemma keeps_owned {B} (c : SessionE B) w w' l s' r L g : owned L g ->
  orderly c (w, l) L g -> owned (keeps c (w, l) s' L) (mark c w w' r g).
Proof.
  intros Ho Hord k x Hk Hx.
  assert (Hmark : (exists n, n ∈ drawn g /\ x = uuid4 n) -> exists n, n ∈ drawn (mark c w w' r g) /\ x = uuid4 n).
  { intros (n & Hn & ->). exists n. split; [|done]. destruct c; simpl; set_solver. }
  apply Hmark.
  assert (Hkeep : k ∈ L \/ k ∈ wants c (w, l)).
  { destruct c; simpl in *; try done; destruct (broken s'.2); set_solver. }
  destruct Hkeep as [HkL|Hw]; [by eapply Ho|].
  destruct c; simpl in Hw; try (by apply elem_of_empty in Hw).
  - case_decide; [|by apply elem_of_empty in Hw]. apply elem_of_singleton in Hw as ->. done.
  - destruct (Hord k Hw) as [HkL|[(i & n & Hi & Hn & ->)|(Hn & _)]]; [by eapply Ho| |congruence].
    exists n. split; congruence.
  - destruct (Hord k Hw) as [HkL|[(i & n & Hi & Hn & ->)|(Hn & _)]]; [by eapply Ho| |congruence].
    exists n. split; congruence.
Qed.

Lemma mark_drawn {B} (c : SessionE B) w w' l r g n : (forall n, n ∈ drawn g -> n < tick w) ->
  n ∈ drawn (mark c w w' r g) -> n < tick (session_step c (w, l)).2.1.
Proof.
  intros Hd. pose proof (step_tick c (w, l)) as Ht. simpl in Ht.
  destruct c; simpl in *; try (intros Hn%Hd; lia).
  intros [->%elem_of_singleton|Hn%Hd]%elem_of_union; lia.
Qed.

Lemma mark_fresh {B} (c : SessionE B) w w' r g (D : gset nat) : D ## drawn g ->
  (forall n, n ∈ D -> n < tick w) -> D ## drawn (mark c w w' r g).
Proof.
  intros HD Hlt. destruct c; simpl; try done. apply disjoint_union_r. split; [|done].
  intros n Hn ->%elem_of_singleton. specialize (Hlt _ Hn). lia.
Qed.

Lemma keeps_subset {B} (c : SessionE B) s s' L : keeps c s s' L ⊆ L ∪ wants c s.
Proof. unfold keeps. destruct c; try set_solver; destruct (broken s'.2); set_solver. Qed.

Lemma not_blocked {R} i (ts : list (thread R)) K j t : ~ blocked i ts K -> j <> i -> ts !! j = Some t -> held t ## K.
Proof. intros Hb Hne Hj k Hk HkK. apply Hb. by exists j, t, k. Qed.

End upkeep.

Section pool.
Context `{Env} {R : Type} (J : interference).
Abbreviation I := (inv J).
Abbreviation ext := (grows J).
Context (G : nat -> relation Database) (Φ : nat -> exn + R -> Database -> ghost -> Prop).
Context (HG : forall i d d', I d -> G i d d' -> I d' /\ ext d d').
Context (HΦ : forall i a d d' g, Φ i a d g -> I d' -> ext d d' -> Φ i a d' g).
Implicit Types (t : thread R) (P : World * list (thread R)).

Definition thread_ok (i : nat) (w : World) t : Prop :=
  match t with
  | Running p l L g =>
      log_ok w l L /\ (ordered J = true -> owned L g) /\ (forall n, n ∈ drawn g -> n < tick w) /\
      safe J (G i) p (fun a w _ _ g => Φ i a (db w) g) w l L g
  | Finished r g => Φ i r (db w) g
  | _ => True
  end.

Definition draws_held t : gset nat := match t with Running _ _ _ g => drawn g | _ => ∅ end.

Record pool_ok P : Prop := PoolOk {
  po_inv : I (db P.1);
  po_threads : forall i t, P.2 !! i = Some t -> thread_ok i P.1 t;
  po_locks : forall i j t t', i <> j -> P.2 !! i = Some t -> P.2 !! j = Some t' -> held t ## held t';
  po_draws : forall i j t t', i <> j -> P.2 !! i = Some t -> P.2 !! j = Some t' ->
    draws_held t ## draws_held t' }.

Lemma thread_ok_rely i w w' t : thread_ok i w t -> rely J (held t) w w' -> thread_ok i w' t.
Proof using All.
  intros Ht Hr. pose proof Hr as (Ha & HI & He & Hle). destruct t as [p l L g|r g|g]; simpl in *; try done.
  - destruct Ht as ((Hs & Hn & Hv) & Ho & Hd & Hsafe). split.
    + split; [done|]. split; [done|]. by eapply agree_valid.
    + split; [done|]. split; [intros n Hn'%Hd; lia|].
      eapply safe_rely; [|exact Hr|exact Hsafe]. intros a. simpl. eauto.
  - eauto.
Qed.

(** Replacing one thread. *)
Lemma pool_ok_update w w' ts i t t' : pool_ok (w, ts) -> ts !! i = Some t ->
  I (db w') -> ext (db w) (db w') -> tick w <= tick w' ->
  thread_ok i w' t' ->
  (forall j tj, j <> i -> ts !! j = Some tj ->
     agree (held tj) (db w) (db w') /\ held tj ## held t' /\ draws_held tj ## draws_held t') ->
  pool_ok (w', <[i := t']> ts).
Proof using All.
  intros [HIw Hts Hlk Hdr] Hi HI' He Hle Ht' Hothers. simpl in *.
  assert (Hlt : i < length ts) by by eapply lookup_lt_Some.
  split; simpl; [done|..].
  - intros j tj. rewrite list_lookup_insert. case_decide as E.
    + intros [= <-]. by destruct E as [-> _].
    + intros Hj. eapply thread_ok_rely; [by apply Hts|]. split; [|done].
      apply (Hothers j tj); [|done]. intros ->. by destruct E.
  - intros j j' tj tj' Hne. rewrite !list_lookup_insert.
    case_decide as E; case_decide as E'; [destruct E, E'; congruence|..].
    + intros [= <-] Hj'. destruct E as [-> _]. symmetry. eapply Hothers; eauto.
    + intros Hj [= <-]. destruct E' as [-> _]. eapply Hothers; eauto.
    + by apply Hlk.
  - intros j j' tj tj' Hne. rewrite !list_lookup_insert.
    case_decide as E; case_decide as E'; [destruct E, E'; congruence|..].
    + intros [= <-] Hj'. destruct E as [-> _]. symmetry. eapply Hothers; eauto.
    + intros Hj [= <-]. destruct E' as [-> _]. eapply Hothers; eauto.
    + by apply Hdr.
Qed.

Lemma pool_step_ok P o P' : pool_ok P -> pool_step P o P' ->
  pool_ok P' /\
  match o with Some i => G i (db P.1) (db P'.1) | None => db P'.1 = db P.1 end.
Proof using All.
  intros Hok Hst.
  destruct Hst as [P o P' [i w ts B c k l L g Hi Hb out|i w ts p l L g r Hi Hr]|i w ts p l L g Hi];
    [|split; [|done]; (eapply pool_ok_update; [exact Hok|exact Hi|apply Hok|done|done|..])..].
  - pose proof (po_threads _ Hok i _ Hi) as (Hlog & Hown & Hdr & Hsafe). simpl in *.
    destruct (Hsafe w (rely_refl J L w (po_inv _ Hok))) as (Hord & Hcom & Hk). fold out in Hcom, Hk.
    assert (Hdb : (committing c out.1 = true /\ G i (db w) (db out.2.1)) \/
                  (committing c out.1 = false /\ db out.2.1 = db w)).
    { destruct (committing c out.1) eqn:E; [left; split; [done|by apply Hcom]|right].
      split; [done|]. by apply (step_quiet c (w, l)). }
    assert (HI' : I (db out.2.1) /\ ext (db w) (db out.2.1)).
    { destruct Hdb as [[_ HGi]|[_ ->]]; [by eapply HG; [apply Hok|]|]. split; [apply Hok|done]. }
    split; [|destruct Hdb as [[-> ?]|[-> ?]]; done].
    eapply pool_ok_update; [exact Hok|exact Hi|apply HI'|apply HI'|apply (step_tick c (w, l))|..].
    + cbn [thread_ok]. split; [by apply step_log_ok|]. split; [intros Ho; apply keeps_owned; auto|].
      split; [|done]. intros n. by apply mark_drawn.
    + intros j tj Hne Hj. pose proof (not_blocked _ _ _ _ _ Hb Hne Hj) as Hw.
      cbn [held draws_held].
      pose proof (po_locks _ Hok j i _ _ Hne Hj Hi) as HL. simpl in HL.
      pose proof (po_draws _ Hok j i _ _ Hne Hj Hi) as HD. simpl in HD.
      split; [apply (step_agree c w l L); [done|]|split].
      * by apply disjoint_union_r.
      * intros x Hx Hx'%keeps_subset. apply elem_of_union in Hx' as [?|?]; [by eapply HL|by eapply Hw].
      * apply mark_fresh; [done|]. pose proof (po_threads _ Hok j _ Hj) as Hjok.
        destruct tj; simpl in *; [apply Hjok|set_solver..].
  - pose proof (po_threads _ Hok i _ Hi) as (_ & _ & _ & Hsafe).
    by destruct p; simpl in *; simplify_eq.
  - intros j tj Hne Hj. split; [apply agree_refl|]. split; apply disjoint_empty_r.
  - done.
  - intros j tj Hne Hj. split; [apply agree_refl|]. split; apply disjoint_empty_r.
Qed.

(** A pool of new threads. *)
Definition unborn : ghost := Ghost ∅ None.
Definition newborn (p : prog R) (now : Z) : thread R := Running p (mkLocal [] [] now false) ∅ unborn.

Lemma pool_ok_start w ts : I (db w) ->
  (forall i t, ts !! i = Some t -> exists p now, t = newborn p now /\
     safe J (G i) p (fun r w _ _ g => Φ i r (db w) g) w (mkLocal [] [] now false) ∅ unborn) ->
  pool_ok (w, ts).
Proof using Type.
  clear HG HΦ. intros HI Hts.
  assert (Hnone : forall i t, ts !! i = Some t -> held t = ∅ /\ draws_held t = ∅).
  { intros i t Hi. by destruct (Hts i t Hi) as (p & now & -> & _). }
  split; simpl; [done|..].
  - intros i t Hi. destruct (Hts i t Hi) as (p & now & -> & Hs). cbn [thread_ok newborn].
    split; [|split; [by intros _ k x ?%elem_of_empty|split; [by intros n ?%elem_of_empty|done]]].
    split; [done|]. split; [unfold needs_log, needs_all; simpl; set_solver|done].
  - intros i j t t' _ Hi Hj. destruct (Hnone i t Hi) as [-> _]. set_solver.
  - intros i j t t' _ Hi Hj. destruct (Hnone i t Hi) as [_ ->]. set_solver.
Qed.

(** *** Whole runs *)
Definition committed_at P i : Prop := exists t, P.2 !! i = Some t /\ committed (ghost_of t) = true.

Lemma pool_step_committed P o P' : pool_ok P -> pool_step P o P' ->
  (forall i, o = Some i -> ~ committed_at P i) /\
  (forall j, committed_at P' j <-> committed_at P j \/ o = Some j).
Proof using All.
  intros Hok Hst.
  assert (Hupd : forall ts i t t' w, ts !! i = Some t ->
    committed (ghost_of t') = committed (ghost_of t) ->
    forall j w', committed_at (w', <[i := t']> ts) j <-> committed_at (w, ts) j \/ None = Some j).
  { intros ts i t t' w Hi He j w'. unfold committed_at. simpl.
    assert (i < length ts) by by eapply lookup_lt_Some.
    destruct (decide (i = j)) as [<-|Hne].
    - rewrite list_lookup_insert_eq by done. split.
      + intros (u & [= <-] & Hc). left. exists t. by rewrite <- He.
      + intros [(u & Hu & Hc)|]; [|done]. exists t'. split; [done|]. rewrite He. by simplify_eq.
    - rewrite list_lookup_insert_ne by done. split; [by left|by intros [|]]. }
  destruct Hst as [P o P' [i w ts B c k l L g Hi Hb out|i w ts p l L g r Hi Hr]|i w ts p l L g Hi];
    [|split; [done|]; intros j; by eapply Hupd..].
  destruct (committing c out.1) eqn:E.
  - pose proof (po_threads _ Hok i _ Hi) as (_ & _ & _ & Hsafe). simpl in Hsafe.
    destruct (Hsafe w (rely_refl J L w (po_inv _ Hok))) as (_ & Hcom & _).
    destruct (Hcom E) as [Hg _]. split.
    + intros j [= <-] (t & Ht & Hc). simpl in Ht. simplify_eq. simpl in Hc. congruence.
    + intros j. unfold committed_at. simpl.
      assert (i < length ts) by by eapply lookup_lt_Some. destruct (decide (i = j)) as [<-|Hne].
      * rewrite list_lookup_insert_eq by done. split; [by right|]. intros _. eexists.
        split; [done|]. simpl. by rewrite mark_committed, E.
      * rewrite list_lookup_insert_ne by done. split; [by left|]. intros [|[= Heq]]; [done|congruence].
  - split; [done|]. intros j. eapply Hupd; [done|]. simpl. by rewrite mark_committed, E.
Qed.

(** What a thread has booked, it booked in this step or before. *)
Lemma pool_step_booked P o P' j t' dd : pool_step P o P' ->
  P'.2 !! j = Some t' -> booked (ghost_of t') = Some dd ->
  (exists t, P.2 !! j = Some t /\ booked (ghost_of t) = Some dd) \/
  (o = Some j /\ dd = (db P.1, db P'.1)).
Proof using Type.
  clear HG HΦ.
  destruct 1 as [P o P' [i w ts B c k l L g Hi Hb out|i w ts p l L g r Hi Hr]|i w ts p l L g Hi];
    simpl; rewrite list_lookup_insert; case_decide as E; try (by eauto); intros [= <-] Hd;
    destruct E as [-> _]; simpl in Hd; try (left; by exists (Running p l L g)).
  destruct (committing c out.1); [right; by simplify_eq|left]. by exists (Running (Vis c k) l L g).
Qed.

(** Where in the run thread [i] has committed, and what. *)
Definition booked_in (order : list nat) (d0 dn : Database) (i : nat) (dd : Database * Database) : Prop :=
  exists o1 o2, order = o1 ++ i :: o2 /\ serial G o1 d0 dd.1 /\ G i dd.1 dd.2 /\ serial G o2 dd.2 dn.

Lemma runs_booked P order P' : pool_ok P -> runs P order P' ->
  forall i t dd, P'.2 !! i = Some t -> booked (ghost_of t) = Some dd ->
  (exists t0, P.2 !! i = Some t0 /\ booked (ghost_of t0) = Some dd) \/
  booked_in order (db P.1) (db P'.1) i dd.
Proof using All.
  intros Hok Hrun. cut (serial G order (db P.1) (db P'.1) /\ forall i t dd, P'.2 !! i = Some t ->
    booked (ghost_of t) = Some dd -> (exists t0, P.2 !! i = Some t0 /\ booked (ghost_of t0) = Some dd) \/
    booked_in order (db P.1) (db P'.1) i dd); [by intros []|].
  induction Hrun as [P|P P1 P2 o order Hst Hrun IH]; [split; [constructor|]; eauto|].
  destruct (pool_step_ok P o P1 Hok Hst) as [Hok1 Hdb]. destruct (IH Hok1) as [Hs HIH].
  split; [destruct o as [j|]; simpl; [by econstructor|by rewrite <- Hdb]|].
  intros i t dd Ht Hd. destruct (HIH i t dd Ht Hd) as [(t1 & Ht1 & Hd1)|(o1 & o2 & -> & Hs1 & Hi & Hs2)].
  - destruct (pool_step_booked P o P1 i t1 dd Hst Ht1 Hd1) as [?|[-> ->]]; [by left|right].
    exists [], order. simpl. split; [done|]. split; [constructor|done].
  - right. destruct o as [j|]; simpl.
    + exists (j :: o1), o2. split; [done|]. split; [by econstructor|done].
    + exists o1, o2. rewrite <- Hdb. done.
Qed.

(** Any run is one commit after the other, each as its thread may, no thread
    twice, and exactly the threads that have committed. *)
Theorem runs_serial P order P' : pool_ok P -> runs P order P' ->
  pool_ok P' /\ serial G order (db P.1) (db P'.1) /\ NoDup order /\
  (forall i, i ∈ order -> ~ committed_at P i) /\
  (forall i, committed_at P' i <-> committed_at P i \/ i ∈ order).
Proof using All.
  intros Hok Hrun. induction Hrun as [P|P P1 P2 o order Hst Hrun IH].
  - split; [done|]. repeat split; try (constructor; fail); try set_solver.
  - destruct (pool_step_ok P o P1 Hok Hst) as [Hok1 Hdb].
    destruct (pool_step_committed P o P1 Hok Hst) as [Hn Hc].
    destruct (IH Hok1) as (Hok2 & Hs & Hnd & Hfresh & Hcs). split; [done|].
    destruct o as [i|]; simpl.
    + split; [by econstructor|]. split.
      { constructor; [|done]. intros Hi. apply (Hfresh i Hi), Hc. by right. }
      split.
      * intros j [->|Hj]%elem_of_cons; [by apply Hn|]. intros Hcj. apply (Hfresh j Hj), Hc. by left.
      * intros j. rewrite Hcs, Hc, elem_of_cons. intuition congruence.
    + rewrite Hdb in Hs. split; [done|]. split; [done|]. split.
      * intros j Hj Hcj. apply (Hfresh j Hj), Hc. by left.
      * intros j. rewrite Hcs, Hc. intuition congruence.
Qed.
End pool.
