(* ===== verification/Progress.v ===== *)
(** * Pools do not deadlock, and come to their end

    Under the locking discipline some thread can always move on ([progress]);
    every step takes a thread closer to the end of its program, so no run is
    infinite ([pools_end]). *)
From S2P Require Import Prelude PyValues Schema Locks Session Interleaving Pool.

Definition ended {R} (t : thread R) : Prop :=
  match t with Running _ _ _ _ => False | _ => True end.

#[export] Instance ended_dec {R} (t : thread R) : Decision (ended t).
Proof. destruct t; simpl; apply _. Defined.

(** [uuid.uuid4()] has not drawn a value twice so far. *)
Definition no_repeats `{Env} (w : World) : Prop :=
  forall n m, n < tick w -> m < tick w -> uuid4 n = uuid4 m -> n = m.

(** ** Progress *)
Section progress.
Context `{Env} {R : Type}.
Implicit Types (t : thread R) (P : World * list (thread R)).

Definition can_advance P : Prop := exists o P', advance P o P'.

Lemma held_running t k : k ∈ held t -> exists p l L g, t = Running p l L g /\ k ∈ L.
Proof. destruct t as [p l L g|r g|g]; simpl; intros Hk; [eauto 6|by apply elem_of_empty in Hk..]. Qed.

(** A running thread moves on, or waits in a call for a lock of another one. *)
Lemma advance_or_wait P i p l L g : P.2 !! i = Some (Running p l L g) ->
  can_advance P \/
  exists B (c : SessionE B) k j t x, p = Vis c k /\ j <> i /\ P.2 !! j = Some t /\
    x ∈ held t /\ x ∈ wants c (P.1, l).
Proof.
  destruct P as [w ts]. simpl. intros Hi. destruct p as [a|e|B c k].
  - left. do 2 eexists. by eapply adv_close.
  - left. do 2 eexists. by eapply adv_close.
  - destruct (decide (blocked i ts (wants c (w, l)))) as [(j & t & x & Hb)|Hb].
    + right. exists B, c, k, j, t, x. destruct Hb as (? & ? & ? & ?). repeat split; done.
    + left. do 2 eexists. by eapply adv_call.
Qed.

Lemma locks_bounded (ts : list (thread R)) :
  exists M, forall j t v, ts !! j = Some t -> RowWallet v ∈ held t -> (v < M)%N.
Proof.
  assert (Hset : forall L : gset lock, exists M, forall v, RowWallet v ∈ L -> (v < M)%N).
  { apply set_ind_L; [exists 0%N; set_solver|]. intros x L _ [M HM].
    exists (match x with RowWallet v => N.max M (v + 1) | _ => M end).
    intros v [Hv%elem_of_singleton|Hv%HM]%elem_of_union; [subst; lia|destruct x; lia]. }
  induction ts as [|t ts [M HM]]; [by exists 0%N|]. destruct (Hset (held t)) as [M' HM'].
  exists (N.max M M'). intros [|j] t' v Hj Hv; simplify_eq/=.
  - pose proof (HM' v Hv). lia.
  - pose proof (HM j t' v Hj Hv). lia.
Qed.

Context (J : interference) (Hordered : ordered J = true).
Context (G : nat -> relation Database) (Φ : nat -> exn + R -> Database -> ghost -> Prop).
Context (P : World * list (thread R)) (Hok : pool_ok J G Φ P) (Huuid : no_repeats P.1).

Lemma call_orderly i B (c : SessionE B) k l L g : P.2 !! i = Some (Running (Vis c k) l L g) ->
  owned L g /\ orderly c (P.1, l) L g.
Proof using All.
  intros Hi. pose proof (po_threads _ _ _ _ Hok i _ Hi) as (_ & Ho & _ & Hs). split; [by apply Ho|].
  apply (Hs P.1); [|done]. split; [apply agree_refl|]. split; [apply Hok|]. split; [done|lia].
Qed.

(** Who waits, waits for a wallet above all he holds, or holds only wallets. *)
Lemma wait_for i B (c : SessionE B) k l L g j t x :
  P.2 !! i = Some (Running (Vis c k) l L g) -> j <> i -> P.2 !! j = Some t ->
  x ∈ held t -> x ∈ wants c (P.1, l) ->
  (exists u, x = RowWallet u /\ forall y, y ∈ L -> exists v, y = RowWallet v /\ (v < u)%N) \/
  (~ is_wallet_lock x /\ forall y, y ∈ L -> is_wallet_lock y).
Proof using All.
  intros Hi Hne Hj Hx Hw. destruct (call_orderly i B c k l L g Hi) as [Hown Hord].
  assert (HxL : ~ x ∈ L) by (intros HxL; exact (po_locks _ _ _ _ Hok j i _ _ Hne Hj Hi x Hx HxL)).
  assert (Hflush : (x ∈ L \/ (exists u n, lock_uuid x = Some u /\ n ∈ drawn g /\ u = uuid4 n) \/
      (lock_uuid x = None /\ ~ is_wallet_lock x /\ forall k', k' ∈ L -> is_wallet_lock k')) ->
    ~ is_wallet_lock x /\ forall y, y ∈ L -> is_wallet_lock y).
  { intros [|[(u & n & Hu & Hn & ->)|(_ & Hnw & Hall)]]; [done| |done]. exfalso.
    apply held_running in Hx as (p & l' & L' & g' & -> & Hx).
    pose proof (po_threads _ _ _ _ Hok j _ Hj) as (_ & Hown' & Hlt' & _).
    pose proof (po_threads _ _ _ _ Hok i _ Hi) as (_ & _ & Hlt & _).
    destruct (Hown' Hordered x _ Hx Hu) as (n' & Hn' & Heq).
    apply Huuid in Heq as <-; [|by apply Hlt|by apply Hlt'].
    exact (po_draws _ _ _ _ Hok j i _ _ Hne Hj Hi n Hn' Hn). }
  destruct c; simpl in Hw; try (by apply elem_of_empty in Hw).
  - left. case_decide; [|by apply elem_of_empty in Hw]. apply elem_of_singleton in Hw as ->. eauto.
  - right. by apply Hflush, Hord.
  - right. by apply Hflush, Hord.
Qed.

(** Who holds a lock besides wallets does not wait. *)
Lemma holder_moves i p l L g y : P.2 !! i = Some (Running p l L g) ->
  y ∈ L -> ~ is_wallet_lock y -> can_advance P.
Proof using All.
  intros Hi Hy Hnw. destruct (advance_or_wait P i p l L g Hi) as [|(B & c & k & j & t & x & -> & Hne & Hj & Hx & Hw)]; [done|].
  destruct (wait_for i B c k l L g j t x Hi Hne Hj Hx Hw) as [(u & _ & Hall)|[_ Hall]].
  - destruct (Hall y Hy) as (v & -> & _). by destruct Hnw.
  - by destruct Hnw; apply Hall.
Qed.

(** Waits for wallets go up, so they end. *)
Lemma climb M n i p l L g u :
  (forall j t v, P.2 !! j = Some t -> RowWallet v ∈ held t -> (v < M)%N) ->
  P.2 !! i = Some (Running p l L g) -> RowWallet u ∈ L -> N.to_nat (M - u) < n -> can_advance P.
Proof using All.
  intros HM. revert i p l L g u. induction n as [|n IH]; intros i p l L g u Hi Hu Hlt; [lia|].
  destruct (advance_or_wait P i p l L g Hi) as [|(B & c & k & j & t & x & -> & Hne & Hj & Hx & Hw)]; [done|].
  apply held_running in Hx as Ht. destruct Ht as (p' & l' & L' & g' & -> & Hx').
  destruct (wait_for i B c k l L g j _ x Hi Hne Hj Hx Hw) as [(v & -> & Hall)|[Hnw _]];
    [|by eapply holder_moves].
  destruct (Hall _ Hu) as (u' & [= <-] & Huv). pose proof (HM j _ v Hj Hx).
  eapply (IH j); [done..|]. lia.
Qed.

(** No deadlock: some thread can move on, until all have ended. *)
Theorem progress i t : P.2 !! i = Some t -> ~ ended t -> can_advance P.
Proof using All.
  intros Hi Hend. destruct t as [p l L g| |]; [|by destruct Hend..].
  destruct (locks_bounded P.2) as [M HM].
  destruct (advance_or_wait P i p l L g Hi) as [|(B & c & k & j & t & x & -> & Hne & Hj & Hx & Hw)]; [done|].
  apply held_running in Hx as Ht. destruct Ht as (p' & l' & L' & g' & -> & Hx').
  destruct (wait_for i B c k l L g j _ x Hi Hne Hj Hx Hw) as [(v & -> & _)|[Hnw _]].
  - eapply (climb M _ j); [done..|]. apply Nat.lt_succ_diag_r.
  - by eapply holder_moves.
Qed.
End progress.

(** ** Termination *)
Section termination.
Context `{Env} {R : Type}.
Implicit Types (t : thread R) (P : World * list (thread R)).

(** One step of a thread, as its program sees it. *)
Definition below t' t : Prop :=
  match t with
  | Running p _ _ _ => ended t' \/
      match p with
      | Vis c k => exists r l L g, t' = Running (k r) l L g
      | _ => False
      end
  | _ => False
  end.

Lemma below_wf t : Acc below t.
Proof.
  assert (Hend : forall t, ended t -> Acc below t) by (intros []; by constructor).
  destruct t as [p l L g|r g|g]; [|by apply Hend..].
  revert l L g. induction p as [a|e|B c k IH]; intros l L g; constructor; intros t';
    (intros [?|Hb]; [by apply Hend|]); [done..|].
  destruct Hb as (r & l' & L' & g' & ->). apply IH.
Qed.

(** One thread of the list goes down. *)
Inductive one_below : relation (list (thread R)) :=
  | one_here t t' ts : below t' t -> one_below (t' :: ts) (t :: ts)
  | one_there t ts ts' : one_below ts' ts -> one_below (t :: ts') (t :: ts).

Lemma one_below_insert ts i t t' : ts !! i = Some t -> below t' t -> one_below (<[i := t']> ts) ts.
Proof.
  revert i. induction ts as [|u ts IH]; intros [|i] Hi Hb; simplify_eq/=; [by constructor|].
  constructor. by eapply IH.
Qed.

Lemma one_below_wf ts : Acc one_below ts.
Proof.
  induction ts as [|t ts IH]; [constructor; intros ? Hb; inversion Hb|].
  revert ts IH. induction (below_wf t) as [t _ IHt]. intros ts Hts.
  induction Hts as [ts Hts IHts]. constructor. intros us Hb. inversion Hb; simplify_eq.
  - apply IHt; [done|]. by constructor.
  - by apply IHts.
Qed.

Lemma pool_step_below P o P' : pool_step P o P' -> one_below P'.2 P.2.
Proof.
  intros [? ? ? [i w ts B c k l L g Hi Hb out|i w ts p l L g r Hi Hr]|i w ts p l L g Hi];
    (eapply one_below_insert; [exact Hi|]); [right; simpl; eauto|by left..].
Qed.

(** No run is infinite, whatever the schedule. *)
Theorem pools_end P : Acc (fun P' P => exists o, pool_step P o P') P.
Proof.
  destruct P as [w ts]. revert w. induction (one_below_wf ts) as [ts _ IH]. intros w.
  constructor. intros [w' ts'] [o Hst]. apply IH. exact (pool_step_below _ _ _ Hst).
Qed.
End termination.

(** ** Completion *)
Section completion.
Context `{Env} {R : Type} (J : interference) (Hordered : ordered J = true).
Context (G : nat -> relation Database) (Φ : nat -> exn + R -> Database -> ghost -> Prop).
Context (HG : forall i d d', inv J d -> G i d d' -> inv J d' /\ grows J d d').
Context (HΦ : forall i a d d' g, Φ i a d g -> inv J d' -> grows J d d' -> Φ i a d' g).
Implicit Types (t : thread R) (P : World * list (thread R)).

Definition at_rest P : Prop := Forall ended P.2.

Lemma advance_died P o P' i g : advance P o P' -> P'.2 !! i = Some (Died g) -> P.2 !! i = Some (Died g).
Proof.
  intros [j w ts B c k l L g' Hj Hb out|j w ts p l L g' r Hj Hr]; simpl;
    rewrite list_lookup_insert; case_decide; congruence.
Qed.

(** Whatever has run so far, the threads that are left can run to their end. *)
Theorem completes P : pool_ok J G Φ P ->
  (forall order P', runs P order P' -> no_repeats P'.1) ->
  exists order P', runs P order P' /\ at_rest P' /\
    forall i g, P'.2 !! i = Some (Died g) -> P.2 !! i = Some (Died g).
Proof using All.
  induction (pools_end P) as [P _ IH]. intros Hok Huuid.
  destruct (decide (at_rest P)) as [Hr|Hr]; [exists [], P; by split; [constructor|]|].
  apply not_Forall_Exists, Exists_exists in Hr as (t & [i Hi]%list_elem_of_lookup & Ht); [|apply _].
  destruct (progress J Hordered G Φ P Hok (Huuid [] P (runs_nil P)) i t Hi Ht) as (o & P1 & Hadv).
  destruct (IH P1) as (order & P' & Hruns & Hrest & Hdied).
  - exists o. by constructor.
  - by eapply pool_step_ok; [done..|constructor].
  - intros order P' Hr. apply (Huuid (option_list o ++ order)). econstructor; [by constructor|done].
  - exists (option_list o ++ order), P'. split; [by econstructor; [constructor|]|].
    split; [done|]. intros j g Hj. eapply advance_died; [done|]. by apply Hdied.
Qed.
End completion.

(** ** Schedules *)
Section schedule.
Context `{Env} {R : Type}.
Implicit Types (t : thread R) (P : World * list (thread R)).

(** The step of thread [i], if it has one now, with its label. *)
Definition turn (i : nat) P : option (option nat * (World * list (thread R))) :=
  let '(w, ts) := P in
  match ts !! i with
  | Some (Running (Vis c k) l L g) =>
      if decide (blocked i ts (wants c (w, l))) then None else
      let out := session_step c (w, l) in
      Some (if committing c out.1 then Some i else None,
        (out.2.1, <[i := Running (k out.1) out.2.2 (keeps c (w, l) out.2 L) (mark c w out.2.1 out.1 g)]> ts))
  | Some (Running p l L g) => (fun r => (None, (w, <[i := Finished r g]> ts))) <$> final p
  | _ => None
  end.

(** The threads in the given order, one step each; who cannot step is skipped. *)
Fixpoint schedule (turns : list nat) P : list nat * (World * list (thread R)) :=
  match turns with
  | [] => ([], P)
  | i :: turns =>
      match turn i P with
      | None => schedule turns P
      | Some (o, P1) => let out := schedule turns P1 in (option_list o ++ out.1, out.2)
      end
  end.

Lemma turn_advance i P o P' : turn i P = Some (o, P') -> advance P o P'.
Proof.
  destruct P as [w ts]. simpl. destruct (ts !! i) as [[p l L g|r g|g]|] eqn:Hi; [|done..].
  destruct p as [a|e|B c k]; simpl.
  - intros [= <- <-]. by eapply adv_close.
  - intros [= <- <-]. by eapply adv_close.
  - case_decide as Hb; [done|]. intros [= <- <-]. by eapply adv_call.
Qed.

Lemma schedule_runs turns P : runs P (schedule turns P).1 (schedule turns P).2.
Proof.
  revert P. induction turns as [|i turns IH]; intros P; [constructor|]. simpl.
  destruct (turn i P) as [[o P1]|] eqn:E; [|apply IH]. simpl.
  econstructor; [|apply IH]. constructor. by apply (turn_advance i).
Qed.

Lemma schedule_serves turns P : serves P (schedule turns P).1 (schedule turns P).2.
Proof.
  pose proof (schedule_runs turns P) as Hr. change P with (observed (R := R) P) in Hr at 1.
  apply runs_serves in Hr as (P' & Hs & He). simpl in He. by rewrite He in Hs.
Qed.
End schedule.
