(* ===== verification/Requests.v ===== *)
(** * Request and response bodies (src/app/schemas)

    The pydantic models of the API as records, with the [Field] constraints a
    body must meet before a handler sees it as a boolean test.  The response
    models, read off the ORM rows ([from_attributes]), are plain records. *)
From S2P Require Import Prelude PyValues Schema.

(** [Field(min_length=a, max_length=b)] *)
Definition length_between (a b : nat) (s : string) : bool :=
  (a <=? String.length s) && (String.length s <=? b).

Module DepositRequest.
Record t := mk { amount : Z; currency : string }.
Definition valid (r : t) : bool :=
  (0 <? amount r)%Z && length_between 3 3 (currency r).
End DepositRequest.

Module TransferRequest.
Record t := mk { recipient_wallet_id : uuid; amount : Z; currency : string }.
Definition valid (r : t) : bool :=
  (0 <? amount r)%Z && length_between 3 3 (currency r).
End TransferRequest.

Module WithdrawalRequest.
Record t := mk { amount : Z; currency : string }.
Definition valid (r : t) : bool :=
  (0 <? amount r)%Z && length_between 3 3 (currency r).
End WithdrawalRequest.

Module WalletCreate.
Record t := mk { currency : string }.
Definition valid (r : t) : bool := length_between 3 3 (currency r).
End WalletCreate.

(** [EmailStr]: the email-validator package, which takes an address to its
    normal form (the domain in lower case, among other things) or refuses it. *)
Class EmailValidator := {
  email_str : string -> option string;
  email_str_normal : forall e e', email_str e = Some e' -> email_str e' = Some e' }.

Module UserCreate.
Record t := mk { name : string; email : string; password : string }.

(** The model of a body, with the address in normal form. *)
Definition parse `{EmailValidator} (r : t) : option t :=
  if length_between 1 255 (name r) && length_between 8 120 (password r)
  then e ← email_str (email r); Some (mk (name r) e (password r)) else None.
End UserCreate.

Module DepositResponse.
Record t := mk { transaction_id : uuid; available_balance : Z; currency : string }.
End DepositResponse.

(** The body of [TransferResponse] and of [WithdrawalResponse]. *)
Module MoveResponse.
Record t := mk {
  transaction_id : uuid; status : string; available_balance : Z; currency : string }.
End MoveResponse.

Module BalanceRead.
Record t := mk {
  id : uuid; currency : string; available_balance : Z; locked_balance : Z; updated_at : string }.   (* ISO text *)
End BalanceRead.

Module HistoryItem.
Record t := mk {
  transaction_id : uuid; entry_type : string; amount : Z; currency : string; created_at : Z }.
End HistoryItem.
