(* ===== verification/Repositories.v ===== *)
(** * Repositories (src/app/repositories)

    One Module per repository class, one definition per method.  A method that
    only reads a row object back returns the row; an object whose attributes
    nobody reads is represented by its primary key. *)
From S2P Require Import Prelude PyValues Schema Session.

(** [db.scalar(select(Model).where(P))]: the first matching row, if any. *)
Definition first_row {K} `{Countable K} {V} (P : V -> Prop) `{!forall v, Decision (P v)}
    (m : gmap K V) : option V :=
  head (filter P (snd <$> map_to_list m)).

(** [db.refresh(obj)]: the row is read again; SQLAlchemy raises when it is gone. *)
Definition refresh {R : Set} (q : Database -> option R) : prog R :=
  r ← call (Query q); or_raise r InvalidRequestError.

Module UserRepository.
Definition create (name email password_hash : string) : prog User.row :=
  id ← call Uuid4;
  add_flush (InsUser id name email password_hash);;
  refresh (fun d => users d !! id).

Definition get_by_email (email : string) : prog (option User.row) :=
  call (Query (fun d => first_row (fun u => User.email u = email) (users d))).

Definition get_by_id (id : uuid) : prog (option User.row) :=
  call (Query (fun d => users d !! id)).
End UserRepository.

Module WalletRepository.
Definition create (user_id : uuid) (currency : string) : prog Wallet.row :=
  id ← call Uuid4;
  add_flush (InsWallet id user_id currency);;
  refresh (fun d => wallets d !! id).

Definition get_by_id (wallet_id : uuid) : prog (option Wallet.row) :=
  call (Query (fun d => wallets d !! wallet_id)).

Definition get_with_lock (wallet_id : uuid) : prog (option Wallet.row) :=
  call (LockWallet wallet_id).

(** [sorted(set(wallet_ids))] *)
Definition sorted_set (ids : list uuid) : list uuid :=
  merge_sort N.le (elements (list_to_set ids : gset uuid)).

Fixpoint lock_each (ids : list uuid) (result : gmap uuid (option Wallet.row))
    : prog (gmap uuid (option Wallet.row)) :=
  match ids with
  | [] => mret result
  | i :: ids => w ← call (LockWallet i); lock_each ids (<[i := w]> result)
  end.

Definition get_for_update_ordered (wallet_ids : list uuid)
    : prog (gmap uuid (option Wallet.row)) :=
  lock_each (sorted_set wallet_ids) ∅.

Definition get_by_user_and_currency (user_id : uuid) (currency : string)
    : prog (option Wallet.row) :=
  call (Query (fun d =>
    first_row (fun w => Wallet.user_id w = user_id /\ Wallet.currency w = currency)
      (wallets d))).
End WalletRepository.

Module TransactionRepository.
Definition create (type : TransactionType) (currency : string)
    (idempotency_key : option string) : prog Transaction.row :=
  id ← call Uuid4;
  add_flush (InsTransaction id type PENDING currency idempotency_key);;
  refresh (fun d => transactions d !! id).

Definition mark_completed (txn : Transaction.row) : prog Transaction.row :=
  add_flush (SetStatus (Transaction.id txn) COMPLETED);;
  mret (Transaction.set_status COMPLETED txn).

Definition get_by_idempotency_key (key : string) : prog (option Transaction.row) :=
  call (Query (fun d =>
    first_row (fun t => Transaction.idempotency_key t = Some key) (transactions d))).
End TransactionRepository.

Module LedgerRepository.
Definition create_entry (transaction_id : uuid) (entry_type : EntryType) (amount : Z)
    (currency : string) (wallet_id : option uuid) (system_account : option string)
    : prog uuid :=
  id ← call Uuid4;
  add_flush (InsEntry id transaction_id entry_type amount currency wallet_id system_account);;
  mret id.

Definition entries_for_transaction (transaction_id : uuid) (d : Database)
    : list LedgerEntry.row :=
  filter (fun e => LedgerEntry.transaction_id e = transaction_id) (ledger_entries d).

Definition get_entries_for_transaction (transaction_id : uuid)
    : prog (list LedgerEntry.row) :=
  call (Query (entries_for_transaction transaction_id)).

(** [.order_by(LedgerEntry.seq.desc())] *)
Definition newer (a b : LedgerEntry.row) : Prop :=
  (LedgerEntry.seq b <= LedgerEntry.seq a)%Z.
#[export] Instance newer_dec a b : Decision (newer a b).
Proof. unfold newer. apply _. Defined.

Definition entries_for_wallet (wallet_id : uuid) (limit offset : nat) (d : Database)
    : list LedgerEntry.row :=
  take limit (drop offset (merge_sort newer
    (filter (fun e => LedgerEntry.wallet_id e = Some wallet_id) (ledger_entries d)))).

(** LIMIT and OFFSET are bound as INTEGER. *)
Definition page_fits (limit offset : nat) : bool :=
  (Z.of_nat limit <=? integer_max)%Z && (Z.of_nat offset <=? integer_max)%Z.

Definition get_entries_for_wallet (wallet_id : uuid) (limit offset : nat)
    : prog (list LedgerEntry.row) :=
  raise_if (negb (page_fits limit offset)) (DBError DataError);;
  call (Query (entries_for_wallet wallet_id limit offset)).
End LedgerRepository.

Module OutboxRepository.
Definition add_event (aggregate_type : string) (aggregate_id : uuid)
    (event_type : string) (payload : dict) : prog uuid :=
  id ← call Uuid4;
  add_flush (InsOutbox id aggregate_type aggregate_id event_type payload);;
  mret id.

(** [.order_by(OutboxEvent.created_at)] *)
Definition older (a b : OutboxEvent.row) : Prop :=
  (OutboxEvent.created_at a <= OutboxEvent.created_at b)%Z.
#[export] Instance older_dec a b : Decision (older a b).
Proof. unfold older. apply _. Defined.

Definition unpublished (limit : nat) (d : Database) : list OutboxEvent.row :=
  take limit (merge_sort older
    (filter (fun e => OutboxEvent.published_at e = None)
      (snd <$> map_to_list (outbox_events d)))).

Definition fetch_unpublished (limit : nat) : prog (list OutboxEvent.row) :=
  call (Query (unpublished limit)).

Definition mark_published (event : OutboxEvent.row) : prog OutboxEvent.row :=
  now ← call Now;
  add_flush (SetPublished (OutboxEvent.id event) now);;
  mret (OutboxEvent.set_published_at now event).
End OutboxRepository.

Module ProcessedEventRepository.
Definition is_processed (consumer : string) (transaction_id : uuid) : prog bool :=
  call (Query (fun d => bool_decide (is_Some (processed_events d !! (consumer, transaction_id))))).

Definition mark_processed (consumer : string) (transaction_id : uuid) : prog unit :=
  add_flush (InsProcessed consumer transaction_id).
End ProcessedEventRepository.

Module TransactionStatRepository.
(** A new row is added with zero counters and incremented before the flush,
    so its INSERT carries the incremented values. *)
Definition increment (currency type : string) (amount : Z) : prog unit :=
  stat ← call (Query (fun d => transaction_stats d !! (currency, type)));
  match stat with
  | None => add_flush (InsStat currency type (0 + 1) (0 + amount))
  | Some s =>
      add_flush (SetStat currency type (TransactionStat.count s + 1)
                   (TransactionStat.total_amount s + amount))
  end.

Definition get (currency type : string) : prog (option TransactionStat.row) :=
  call (Query (fun d => transaction_stats d !! (currency, type))).

Definition rows (d : Database) : list TransactionStat.row :=
  snd <$> map_to_list (transaction_stats d).

Definition all : prog (list TransactionStat.row) := call (Query rows).
End TransactionStatRepository.

(** ** Reading tables *)
Section first_row.
Context {K} `{Countable K} {V : Type} (P : V -> Prop) `{!forall v, Decision (P v)}.
Implicit Types m : gmap K V.

Lemma first_row_Some m v : first_row P m = Some v -> P v /\ exists k, m !! k = Some v.
Proof.
  unfold first_row. intros Hv%head_Some_elem_of.
  apply list_elem_of_filter in Hv as [HP Hv]. split; [done|].
  apply list_elem_of_fmap in Hv as [[k v'] [-> Hk]]. exists k.
  by apply elem_of_map_to_list.
Qed.

Lemma first_row_None m : first_row P m = None <-> forall k v, m !! k = Some v -> ~ P v.
Proof.
  unfold first_row. split.
  - intros Hn%head_None k v Hk HP. apply (not_elem_of_nil v). rewrite <- Hn.
    apply list_elem_of_filter. split; [done|]. apply list_elem_of_fmap. exists (k, v).
    split; [done|]. by apply elem_of_map_to_list.
  - intros Hm. destruct (head _) as [v|] eqn:E; [|done].
    apply (first_row_Some m) in E as [HP [k Hk]]. by destruct (Hm k v).
Qed.

Lemma first_row_unique m k v :
  m !! k = Some v -> P v -> (forall k' v', m !! k' = Some v' -> P v' -> v' = v) ->
  first_row P m = Some v.
Proof.
  intros Hk HP Hu. destruct (first_row P m) as [v'|] eqn:E.
  - apply first_row_Some in E as [HP' [k' Hk']]. f_equal. by eapply Hu.
  - by destruct (proj1 (first_row_None m) E k v).
Qed.
End first_row.

(** ** Locking several wallets *)
Definition lock_all (d : Database) (ids : list uuid) (m : gmap uuid (option Wallet.row))
    : gmap uuid (option Wallet.row) :=
  foldl (fun m i => <[i := wallets d !! i]> m) m ids.

Lemma lock_all_lookup d ids m i :
  lock_all d ids m !! i = if decide (i ∈ ids) then Some (wallets d !! i) else m !! i.
Proof.
  unfold lock_all. revert m. induction ids as [|j ids IH]; intros m; simpl.
  - destruct (decide (i ∈ [])) as [Hi|]; [by apply elem_of_nil in Hi|done].
  - rewrite IH, lookup_insert. repeat case_decide; set_solver.
Qed.

Lemma sorted_set_elem ids i : i ∈ WalletRepository.sorted_set ids <-> i ∈ ids.
Proof.
  unfold WalletRepository.sorted_set. rewrite merge_sort_Permutation, elem_of_elements.
  by rewrite elem_of_list_to_set.
Qed.

(** The ids are locked in strictly ascending order, each once. *)
Lemma sorted_set_ascending ids : StronglySorted N.lt (WalletRepository.sorted_set ids).
Proof.
  assert (HS : StronglySorted N.le (WalletRepository.sorted_set ids)).
  { apply (StronglySorted_merge_sort N.le). }
  assert (HN : NoDup (WalletRepository.sorted_set ids)).
  { unfold WalletRepository.sorted_set. rewrite merge_sort_Permutation. apply NoDup_elements. }
  induction HS as [|i l _ IH Hi]; constructor; apply NoDup_cons in HN as [Hn HN]; [by apply IH|].
  apply Forall_forall. intros j Hj. rewrite Forall_forall in Hi. specialize (Hi j Hj).
  assert (i <> j) by (by intros ->). lia.
Qed.

(** ** Rules of [wp] for the repository methods *)
Section wp_repositories.
Context `{Env}.

(** Nothing reached the tables; ids and sequence numbers may have been drawn. *)
Definition untouched (w w' : World) : Prop :=
  db w' = db w /\ (next_seq w <= next_seq w')%Z /\ tick w <= tick w'.

#[local] Ltac solve_untouched :=
  unfold untouched in *; simpl in *; conj; first [congruence | lia].

Lemma untouched_trans w w' w'' : untouched w w' -> untouched w' w'' -> untouched w w''.
Proof. intros. solve_untouched. Qed.

Lemma wp_lock_each ids m Φ w L now :
  Φ (inr (lock_all (apply_writes (db w) L) ids m)) (at_log w L now) ->
  wp (WalletRepository.lock_each ids m) Φ (at_log w L now).
Proof.
  revert m. induction ids as [|i ids IH]; intros m HΦ; simpl; [by apply wp_ret|].
  apply wp_bind, wp_lock. by apply IH.
Qed.

Lemma wp_lock_ordered ids Φ w L now :
  Φ (inr (lock_all (apply_writes (db w) L) (WalletRepository.sorted_set ids) ∅))
    (at_log w L now) ->
  wp (WalletRepository.get_for_update_ordered ids) Φ (at_log w L now).
Proof. apply wp_lock_each. Qed.

Lemma wp_refresh {R : Set} (q : Database -> option R) Φ w L now :
  (forall r, q (apply_writes (db w) L) = Some r -> Φ (inr r) (at_log w L now)) ->
  is_Some (q (apply_writes (db w) L)) ->
  wp (refresh q) Φ (at_log w L now).
Proof.
  intros HΦ [r Hr]. unfold refresh. apply wp_bind, wp_query.
  apply wp_or_raise; [congruence|auto].
Qed.

(** The inserts: the log stays valid, or the insert is refused. *)
Lemma wp_create_transaction ty cur key Φ w L now :
  let id := uuid4 (tick w) in
  let w' := mkWorld (db w) (next_seq w) (S (tick w)) in
  let L' := L ++ [mkWrite now (next_seq w) (InsTransaction id ty PENDING cur key)] in
  valid_writes (db w) L ->
  (forall e s', untouched w s'.1 -> ~ valid_writes (db w) L' -> Φ (inl (DBError e)) s') ->
  (valid_writes (db w) L' ->
     Φ (inr (Transaction.mk id ty PENDING cur key now)) (at_log w' L' now)) ->
  wp (TransactionRepository.create ty cur key) Φ (at_log w L now).
Proof.
  intros id w' L' HL He Hok. unfold TransactionRepository.create.
  apply wp_bind, wp_uuid4, wp_bind, wp_add_flush_valid; [done|..].
  - intros e l Hv. apply He; [solve_untouched|done].
  - intros Hv. specialize (Hok Hv). apply wp_refresh; simpl.
    + intros r. rewrite apply_writes_app. destruct (apply_writes (db w) L). simpl.
      rewrite lookup_insert_eq. by intros [= <-].
    + rewrite apply_writes_app. destruct (apply_writes (db w) L). simpl.
      rewrite lookup_insert_eq. eauto.
Qed.

Lemma wp_create_entry t ty a cur wid sys Φ w L now :
  let id := uuid4 (tick w) in
  let w' := mkWorld (db w) (next_seq w + 1) (S (tick w)) in
  let L' := L ++ [mkWrite now (next_seq w) (InsEntry id t ty a cur wid sys)] in
  valid_writes (db w) L ->
  (forall e s', untouched w s'.1 -> ~ valid_writes (db w) L' -> Φ (inl (DBError e)) s') ->
  (valid_writes (db w) L' -> Φ (inr id) (at_log w' L' now)) ->
  wp (LedgerRepository.create_entry t ty a cur wid sys) Φ (at_log w L now).
Proof.
  intros id w' L' HL He Hok. unfold LedgerRepository.create_entry.
  apply wp_bind, wp_uuid4, wp_bind, wp_add_flush_valid; [done|..].
  - intros e l Hv. apply He; [solve_untouched|done].
  - intros Hv. by apply wp_ret, Hok.
Qed.

Lemma wp_mark_completed txn P Φ w L now :
  let cs := P ++ [SetStatus (Transaction.id txn) COMPLETED] in
  let L' := L ++ (mkWrite now (next_seq w) <$> cs) in
  Forall no_draw cs -> valid_writes (db w) L ->
  (forall e s', untouched w s'.1 -> ~ valid_writes (db w) L' -> Φ (inl (DBError e)) s') ->
  (valid_writes (db w) L' ->
     Φ (inr (Transaction.set_status COMPLETED txn)) (at_log w L' now)) ->
  wp (TransactionRepository.mark_completed txn) Φ (w, mkLocal P L now false).
Proof.
  intros cs L' Hcs HL He Hok. unfold TransactionRepository.mark_completed.
  apply wp_bind, wp_add_flush_all_valid; [done..| |intros Hv; by apply wp_ret, Hok].
  intros e l Hv. apply He; [solve_untouched|done].
Qed.

Lemma wp_add_event aty aid ety p Φ w L now :
  let id := uuid4 (tick w) in
  let w' := mkWorld (db w) (next_seq w) (S (tick w)) in
  let L' := L ++ [mkWrite now (next_seq w) (InsOutbox id aty aid ety p)] in
  valid_writes (db w) L ->
  (forall e s', untouched w s'.1 -> ~ valid_writes (db w) L' -> Φ (inl (DBError e)) s') ->
  (valid_writes (db w) L' -> Φ (inr id) (at_log w' L' now)) ->
  wp (OutboxRepository.add_event aty aid ety p) Φ (at_log w L now).
Proof.
  intros id w' L' HL He Hok. unfold OutboxRepository.add_event.
  apply wp_bind, wp_uuid4, wp_bind, wp_add_flush_valid; [done|..].
  - intros e l Hv. apply He; [solve_untouched|done].
  - intros Hv. by apply wp_ret, Hok.
Qed.
End wp_repositories.

Ltac solve_untouched := unfold untouched in *; simpl in *; conj; first [congruence | lia].
