(* ===== verification/SafeRules.v ===== *)
(** * Rules for programs under interference

    The calls of a session, one rule each: what a thread knows before the call
    and what it knows after it, whatever other threads committed meanwhile. *)
From S2P Require Import Prelude PyValues Schema Locks Session Interleaving Repositories.

Section rules.
Context `{Env} (J : interference).
Context (G : relation Database).
Implicit Types (w : World) (K : gset lock) (g : ghost) (L : list write) (P : list change).

Abbreviation rely := (rely J).
Abbreviation safe := (safe J G).

(** The open statements are covered by the locks, and acceptable. *)
Definition covered w L K : Prop := needs_log L ⊆ K /\ valid_writes (db w) L.

Lemma covered_rely w w' L K : covered w L K -> rely K w w' -> covered w' L K.
Proof. intros [HK Hv] [Ha _]. split; [done|]. by eapply agree_valid. Qed.

Lemma covered_nil w : covered w [] ∅.
Proof. split; [|done]. unfold needs_log, needs_all. simpl. set_solver. Qed.

Lemma rely_mono K K' w w' : K' ⊆ K -> rely K w w' -> rely K' w w'.
Proof. intros HK (Ha & HI & He & Ht). split; [by eapply agree_mono|done]. Qed.

Lemma rely_inv K w w' : rely K w w' -> inv J (db w').
Proof. by intros (_ & ? & _). Qed.

(** The lock is held, or may be waited for. *)
Definition lawful K g (k : lock) : Prop :=
  k ∈ K \/ (exists i n, lock_uuid k = Some i /\ n ∈ drawn g /\ i = uuid4 n) \/
  (lock_uuid k = None /\ ~ is_wallet_lock k /\ forall k', k' ∈ K -> is_wallet_lock k').

Definition draw (n : nat) g : ghost := Ghost ({[n]} ∪ drawn g) (booked g).
Definition has_committed (d d' : Database) g : ghost := Ghost (drawn g) (Some (d, d')).

#[local] Lemma mark_other g : Ghost (drawn g) (booked g) = g.
Proof. by destruct g. Qed.
#[local] Lemma keep_all K : K ∪ ∅ = K.
Proof. set_solver. Qed.

Lemma safe_ret {A} (a : A) Φ w l K g : Φ (inr a) w l K g -> safe (mret a) Φ w l K g.
Proof. done. Qed.
Lemma safe_raise {A} e (Φ : exn + A -> _) w l K g : Φ (inl e) w l K g -> safe (Raise e) Φ w l K g.
Proof. done. Qed.
Lemma safe_or_raise {A} (o : option A) e Φ w l K g :
  (o = None -> Φ (inl e) w l K g) -> (forall a, o = Some a -> Φ (inr a) w l K g) ->
  safe (or_raise o e) Φ w l K g.
Proof. intros Hn Hs. destruct o; [by apply Hs|by apply Hn]. Qed.
Lemma safe_raise_if b e Φ w l K g :
  (b = true -> Φ (inl e) w l K g) -> (b = false -> Φ (inr tt) w l K g) ->
  safe (raise_if b e) Φ w l K g.
Proof. intros Ht Hf. destruct b; [by apply Ht|by apply Hf]. Qed.

(** A call, after any interference. *)
Lemma safe_call {B} (c : SessionE B) Φ w l K g :
  (forall w', rely K w w' ->
     let out := session_step c (w', l) in
     orderly c (w', l) K g /\
     (committing c out.1 = true -> committed g = false /\ G (db w') (db out.2.1)) /\
     Φ out.1 out.2.1 out.2.2 (keeps c (w', l) out.2 K) (mark c w' out.2.1 out.1 g)) ->
  safe (call c) Φ w l K g.
Proof.
  intros Hc w' Hr. destruct (Hc w' Hr) as (Ho & Hcom & HΦ). split; [by intros _|]. split; [done|].
  by destruct (session_step c (w', l)) as [[e|b] s'].
Qed.

Lemma safe_query {R : Set} (q : Database -> R) Φ w P L now K g :
  (forall w', rely K w w' ->
     Φ (inr (q (apply_writes (db w') L))) w' (mkLocal P L now false) K g) ->
  safe (call (Query q)) Φ w (mkLocal P L now false) K g.
Proof.
  intros HΦ. apply safe_call. intros w' Hr. split; [done|]. split; [done|]. cbn -[mark].
  unfold mark. simpl. rewrite mark_other, keep_all. by apply HΦ.
Qed.

Lemma safe_lock i Φ w P L now K g :
  (forall k, k ∈ K -> exists j, k = RowWallet j /\ (j < i)%N) ->
  (forall w', rely K w w' -> wallets (apply_writes (db w') L) !! i = None ->
     Φ (inr None) w' (mkLocal P L now false) K g) ->
  (forall w' r, rely K w w' -> wallets (apply_writes (db w') L) !! i = Some r ->
     Φ (inr (Some r)) w' (mkLocal P L now false) (K ∪ {[RowWallet i]}) g) ->
  safe (call (LockWallet i)) Φ w (mkLocal P L now false) K g.
Proof.
  intros Ho Hn Hs. apply safe_call. intros w' Hr. split; [exact Ho|]. split; [done|].
  cbn -[mark wants keeps]. unfold mark, keeps, wants. cbn -[apply_writes]. rewrite mark_other.
  unfold visible. cbn -[apply_writes]. case_decide as E.
  - destruct E as [r Hr']. rewrite Hr'. by apply Hs.
  - rewrite keep_all. destruct (wallets _ !! i) eqn:E'; [by destruct E; eauto|]. by apply Hn.
Qed.

Lemma safe_uuid4 Φ w P L now K g :
  (forall w' n, rely K w w' -> Φ (inr (uuid4 n)) w' (mkLocal P L now false) K (draw n g)) ->
  safe (call Uuid4) Φ w (mkLocal P L now false) K g.
Proof.
  intros HΦ. apply safe_call. intros w' Hr. split; [done|]. split; [done|]. cbn -[mark].
  unfold mark. simpl. rewrite keep_all. apply HΦ. destruct Hr as (Ha & HI' & He & Ht).
  split; [done|]. split; [done|]. split; [done|]. simpl. lia.
Qed.

Lemma safe_now Φ w P L now K g :
  (forall w' t, rely K w w' -> Φ (inr t) w' (mkLocal P L now false) K g) ->
  safe (call Now) Φ w (mkLocal P L now false) K g.
Proof.
  intros HΦ. apply safe_call. intros w' Hr. split; [done|]. split; [done|]. cbn -[mark].
  unfold mark. simpl. rewrite mark_other, keep_all. apply HΦ. destruct Hr as (Ha & HI' & He & Ht).
  split; [done|]. split; [done|]. split; [done|]. simpl. lia.
Qed.

Lemma safe_add c Φ w P L now K g :
  (forall w', rely K w w' -> Φ (inr tt) w' (mkLocal (P ++ [c]) L now false) K g) ->
  safe (call (Add c)) Φ w (mkLocal P L now false) K g.
Proof.
  intros HΦ. apply safe_call. intros w' Hr. split; [done|]. split; [done|]. cbn -[mark].
  unfold mark. simpl. rewrite mark_other, keep_all. by apply HΦ.
Qed.

(** One statement, or several that draw no number. *)
Definition one_number P : Prop := (exists c, P = [c]) \/ Forall no_draw P.

Lemma flush_one_number P w P' L now : one_number P ->
  let out := flush_changes P (w, mkLocal P' L now false) in
  db out.2.1 = db w /\ tick out.2.1 = tick w /\
  ((exists n, let ws := mkWrite now n <$> P in
      out.1 = inr tt /\ valid_writes (apply_writes (db w) L) ws /\
      out.2.2 = mkLocal [] (L ++ ws) now false) \/
   (exists e, out.1 = inl (DBError e)) /\ out.2.2 = mkLocal [] [] now true).
Proof.
  intros Hone. cbv zeta. split; [apply flush_changes_db|].
  split; [apply flush_changes_log|]. destruct Hone as [[c ->]|Hd].
  - simpl. unfold visible. cbn -[apply_writes]. destruct (violation _ c) eqn:Hv; simpl; eauto 10.
  - destruct (flush_changes_spec P w P' L now Hd) as [Hok Hno].
    destruct (decide (valid_writes (apply_writes (db w) L) (mkWrite now (next_seq w) <$> P))) as [Hv|Hv].
    + rewrite (Hok Hv). simpl. eauto 10.
    + destruct (Hno Hv) as [e ->]. simpl. eauto.
Qed.

Lemma safe_flush Φ w P L now K g : one_number P -> covered w L K ->
  (forall k, k ∈ needs_all P -> lawful K g k) ->
  (forall w' e, inv J (db w') -> Φ (inl (DBError e)) w' (mkLocal [] [] now true) ∅ g) ->
  (forall w' n, let L' := L ++ (mkWrite now n <$> P) in
     rely K w w' -> covered w' L' (K ∪ needs_all P) ->
     Φ (inr tt) w' (mkLocal [] L' now false) (K ∪ needs_all P) g) ->
  safe (call Flush) Φ w (mkLocal P L now false) K g.
Proof.
  intros Hone Hcov Hlaw He Hok. apply safe_call. intros w' Hr. split; [exact Hlaw|].
  split; [done|]. pose proof (covered_rely _ _ _ _ Hcov Hr) as [HK Hv].
  cbn -[mark wants keeps flush]. unfold mark, keeps. rewrite mark_other.
  unfold flush. cbn -[flush_changes wants].
  destruct (flush_one_number P w' P L now Hone) as (Hd & Ht & Hcase).
  destruct (flush_changes P (w', mkLocal P L now false)) as [r [w2 l2]].
  cbn [fst snd] in *. destruct Hr as (Ha & HI & Hx & Htick).
  destruct Hcase as [(n & -> & Hw & ->)|([e ->] & ->)]; cbn [broken].
  - unfold wants. cbn [pending broken snd]. apply Hok.
    + split; [by rewrite Hd|]. rewrite Hd. split; [done|]. split; [done|]. lia.
    + split.
      * rewrite needs_log_app. unfold needs_log at 2.
        rewrite <- list_fmap_compose. rewrite (list_fmap_ext _ id) by done. rewrite list_fmap_id. set_solver.
      * rewrite Hd. by apply valid_writes_app.
  - apply He. by rewrite Hd.
Qed.

Lemma safe_add_flush c Φ w P L now K g : one_number (P ++ [c]) -> covered w L K ->
  (forall k, k ∈ needs_all (P ++ [c]) -> lawful K g k) ->
  (forall w' e, inv J (db w') -> Φ (inl (DBError e)) w' (mkLocal [] [] now true) ∅ g) ->
  (forall w' n, let L' := L ++ (mkWrite now n <$> P ++ [c]) in
     rely K w w' -> covered w' L' (K ∪ needs_all (P ++ [c])) ->
     Φ (inr tt) w' (mkLocal [] L' now false) (K ∪ needs_all (P ++ [c])) g) ->
  safe (add_flush c) Φ w (mkLocal P L now false) K g.
Proof.
  intros Hone Hcov Hlaw He Hok. unfold add_flush.
  apply safe_bind, safe_add. intros w1 Hr1.
  apply safe_flush; [done|by eapply covered_rely|done..|].
  intros w2 n L' Hr2. apply Hok. by eapply rely_trans.
Qed.

Lemma safe_commit Φ w L now K g : covered w L K -> committed g = false ->
  (forall w', rely K w w' -> valid_writes (db w') L -> G (db w') (apply_writes (db w') L)) ->
  (forall w' w'' now', rely K w w' -> valid_writes (db w') L -> db w'' = apply_writes (db w') L ->
     Φ (inr tt) w'' (fresh_local now') ∅ (has_committed (db w') (db w'') g)) ->
  safe (call Commit) Φ w (mkLocal [] L now false) K g.
Proof.
  intros Hcov Hg HG Hok. apply safe_call. intros w' Hr.
  pose proof (covered_rely _ _ _ _ Hcov Hr) as [HK Hv].
  split; [|split].
  - intros k Hk. unfold wants in Hk. simpl in Hk. unfold needs_all in Hk. simpl in Hk.
    by apply elem_of_empty in Hk.
  - intros _. split; [done|]. cbn -[apply_writes]. unfold visible. cbn -[apply_writes]. by apply HG.
  - cbn -[apply_writes mark]. unfold mark. cbn -[apply_writes]. by eapply Hok.
Qed.
End rules.
