(* ===== verification/LedgerService.v ===== *)
(** * LedgerService (src/app/services/ledger_service.py)

    The three money operations, call by call, then what each of them does to
    the tables on every branch. *)
From S2P Require Import Prelude PyValues Schema Session Requests Repositories.

Definition SYSTEM_ACCOUNT_FUNDING : string := "EXTERNAL_FUNDING".

(** [wallet.available_balance = z]: the object changes now, the row at the next flush. *)
Definition set_balance (z : Z) (w : Wallet.row) : prog Wallet.row :=
  call (Add (SetBalance (Wallet.id w) z));; mret (Wallet.set_available_balance z w).

Definition refresh_wallet (w : Wallet.row) : prog Wallet.row :=
  refresh (fun d => wallets d !! Wallet.id w).
Definition refresh_transaction (t : Transaction.row) : prog Transaction.row :=
  refresh (fun d => transactions d !! Transaction.id t).

Definition event_payload (txn : Transaction.row) (amount : Z) (wallet_id : uuid)
    (counterparty_wallet_id : option uuid) (now : Z) : dict :=
  list_to_map [
    ("transaction_id", JStr (uuid_str (Transaction.id txn)));
    ("type", JStr (type_value (Transaction.type txn)));
    ("status", JStr (status_value (Transaction.status txn)));
    ("currency", JStr (Transaction.currency txn));
    ("amount", JInt amount);
    ("wallet_id", JStr (uuid_str wallet_id));
    ("counterparty_wallet_id", json_of_opt (uuid_str <$> counterparty_wallet_id));
    ("occurred_at", JStr (isoformat now)) ].

Definition _record_event (txn : Transaction.row) (amount : Z) (wallet_id : uuid)
    (counterparty_wallet_id : option uuid) : prog unit :=
  now ← call Now;
  OutboxRepository.add_event "transaction" (Transaction.id txn) "transaction.completed"
    (event_payload txn amount wallet_id counterparty_wallet_id now);;
  mret tt.

Definition currency_mismatch (who : string) (a b : string) : exn :=
  CurrencyMismatchError (who +:+ " currency " +:+ a +:+ " != " +:+ b).

Definition deposit (wallet_id requester_id : uuid) (data : DepositRequest.t)
    : prog (Transaction.row * Wallet.row) :=
  locked ← WalletRepository.get_with_lock wallet_id;
  wallet ← or_raise locked (WalletNotFoundError wallet_id);
  raise_if (bool_decide (Wallet.user_id wallet <> requester_id))
    (WalletAccessDeniedError wallet_id);;
  raise_if (bool_decide (Wallet.currency wallet <> upper (DepositRequest.currency data)))
    (currency_mismatch "Wallet" (Wallet.currency wallet)
       (upper (DepositRequest.currency data)));;
  let amount := DepositRequest.amount data in
  txn ← TransactionRepository.create DEPOSIT (Wallet.currency wallet) None;
  LedgerRepository.create_entry (Transaction.id txn) CREDIT amount (Wallet.currency wallet)
    (Some (Wallet.id wallet)) None;;
  LedgerRepository.create_entry (Transaction.id txn) DEBIT amount (Wallet.currency wallet)
    None (Some SYSTEM_ACCOUNT_FUNDING);;
  wallet ← set_balance (Wallet.available_balance wallet + amount) wallet;
  txn ← TransactionRepository.mark_completed txn;
  _record_event txn amount (Wallet.id wallet) None;;
  call Commit;;
  wallet ← refresh_wallet wallet;
  txn ← refresh_transaction txn;
  mret (txn, wallet).

(** [if idempotency_key:] look the key up and return early when it is known. *)
Definition replay (idempotency_key : option string) (wallet_id : uuid)
    : prog (option (Transaction.row * option Wallet.row)) :=
  match truthy idempotency_key with
  | None => mret None
  | Some key =>
      existing ← TransactionRepository.get_by_idempotency_key key;
      match existing with
      | None => mret None
      | Some txn =>
          wallet ← WalletRepository.get_by_id wallet_id;
          mret (Some (txn, wallet))
      end
  end.

(** The commit of a keyed operation: an IntegrityError rolls back and looks
    for the transaction of a concurrent request with the same key. *)
Definition commit_keyed (idempotency_key : option string) (wallet_id : uuid)
    : prog (option (Transaction.row * option Wallet.row)) :=
  try_except (call Commit;; mret None)
    (fun e => if is_integrity_error e then Some (
       call Rollback;;
       existing ← replay idempotency_key wallet_id;
       match existing with
       | Some r => mret (Some r)
       | None => Raise e
       end) else None).

Definition transfer (sender_wallet_id requester_id : uuid) (data : TransferRequest.t)
    (idempotency_key : option string) : prog (Transaction.row * option Wallet.row) :=
  let recipient_wallet_id := TransferRequest.recipient_wallet_id data in
  raise_if (bool_decide (sender_wallet_id = recipient_wallet_id))
    (SameWalletTransferError sender_wallet_id);;
  existing ← replay idempotency_key sender_wallet_id;
  match existing with
  | Some r => mret r
  | None =>
      locked ← WalletRepository.get_for_update_ordered [sender_wallet_id; recipient_wallet_id];
      sender ← or_raise (locked !! sender_wallet_id) KeyError;
      recipient ← or_raise (locked !! recipient_wallet_id) KeyError;
      sender ← or_raise sender (WalletNotFoundError sender_wallet_id);
      raise_if (bool_decide (Wallet.user_id sender <> requester_id))
        (WalletAccessDeniedError sender_wallet_id);;
      recipient ← or_raise recipient (RecipientNotFoundError recipient_wallet_id);
      raise_if (bool_decide (Wallet.currency sender <> upper (TransferRequest.currency data)))
        (currency_mismatch "Sender wallet" (Wallet.currency sender)
           (upper (TransferRequest.currency data)));;
      raise_if (bool_decide (Wallet.currency recipient <> Wallet.currency sender))
        (currency_mismatch "Recipient wallet" (Wallet.currency recipient)
           (Wallet.currency sender));;
      let amount := TransferRequest.amount data in
      raise_if (Wallet.available_balance sender <? amount)%Z
        (InsufficientFundsError sender_wallet_id);;
      txn ← TransactionRepository.create TRANSFER (Wallet.currency sender) idempotency_key;
      LedgerRepository.create_entry (Transaction.id txn) DEBIT amount (Wallet.currency sender)
        (Some (Wallet.id sender)) None;;
      LedgerRepository.create_entry (Transaction.id txn) CREDIT amount (Wallet.currency sender)
        (Some (Wallet.id recipient)) None;;
      sender ← set_balance (Wallet.available_balance sender - amount) sender;
      recipient ← set_balance (Wallet.available_balance recipient + amount) recipient;
      txn ← TransactionRepository.mark_completed txn;
      _record_event txn amount (Wallet.id sender) (Some (Wallet.id recipient));;
      winner ← commit_keyed idempotency_key sender_wallet_id;
      match winner with
      | Some r => mret r
      | None =>
          sender ← refresh_wallet sender;
          txn ← refresh_transaction txn;
          mret (txn, Some sender)
      end
  end.

Definition withdraw (wallet_id requester_id : uuid) (data : WithdrawalRequest.t)
    (idempotency_key : option string) : prog (Transaction.row * option Wallet.row) :=
  existing ← replay idempotency_key wallet_id;
  match existing with
  | Some r => mret r
  | None =>
      locked ← WalletRepository.get_with_lock wallet_id;
      wallet ← or_raise locked (WalletNotFoundError wallet_id);
      raise_if (bool_decide (Wallet.user_id wallet <> requester_id))
        (WalletAccessDeniedError wallet_id);;
      raise_if (bool_decide (Wallet.currency wallet <> upper (WithdrawalRequest.currency data)))
        (currency_mismatch "Wallet" (Wallet.currency wallet)
           (upper (WithdrawalRequest.currency data)));;
      let amount := WithdrawalRequest.amount data in
      raise_if (Wallet.available_balance wallet <? amount)%Z
        (InsufficientFundsError wallet_id);;
      txn ← TransactionRepository.create WITHDRAWAL (Wallet.currency wallet) idempotency_key;
      LedgerRepository.create_entry (Transaction.id txn) DEBIT amount (Wallet.currency wallet)
        (Some (Wallet.id wallet)) None;;
      LedgerRepository.create_entry (Transaction.id txn) CREDIT amount (Wallet.currency wallet)
        None (Some SYSTEM_ACCOUNT_FUNDING);;
      wallet ← set_balance (Wallet.available_balance wallet - amount) wallet;
      txn ← TransactionRepository.mark_completed txn;
      _record_event txn amount (Wallet.id wallet) None;;
      winner ← commit_keyed idempotency_key wallet_id;
      match winner with
      | Some r => mret r
      | None =>
          wallet ← refresh_wallet wallet;
          txn ← refresh_transaction txn;
          mret (txn, Some wallet)
      end
  end.
