(* ===== verification/Moves.v ===== *)
(** * Money movements as table updates

    A completed deposit, transfer or withdrawal is one [move]: a transaction
    header, two ledger legs, new balances and one outbox event.  [move_writes]
    is the statement sequence the services flush for it, [moved_db] the tables
    it results in, [move_valid] the conditions under which the database accepts
    it. *)
From S2P Require Import Prelude PyValues Schema Session Repositories LedgerService.

Record leg := Leg { leg_type : EntryType; leg_wallet : option uuid; leg_system : option string }.

Record move := Move {
  mv_type : TransactionType;
  mv_currency : string;
  mv_key : option string;
  mv_amount : Z;
  mv_first : leg;
  mv_second : leg;
  mv_sets : list (uuid * Z);      (* wallet, new balance *)
  mv_wallet : uuid;
  mv_counterparty : option uuid }.

Definition deposit_move (wal : Wallet.row) (amount : Z) : move :=
  Move DEPOSIT (Wallet.currency wal) None amount
    (Leg CREDIT (Some (Wallet.id wal)) None) (Leg DEBIT None (Some SYSTEM_ACCOUNT_FUNDING))
    [(Wallet.id wal, Wallet.available_balance wal + amount)%Z] (Wallet.id wal) None.

Definition withdraw_move (wal : Wallet.row) (amount : Z) (key : option string) : move :=
  Move WITHDRAWAL (Wallet.currency wal) key amount
    (Leg DEBIT (Some (Wallet.id wal)) None) (Leg CREDIT None (Some SYSTEM_ACCOUNT_FUNDING))
    [(Wallet.id wal, Wallet.available_balance wal - amount)%Z] (Wallet.id wal) None.

Definition transfer_move (a b : Wallet.row) (amount : Z) (key : option string) : move :=
  Move TRANSFER (Wallet.currency a) key amount
    (Leg DEBIT (Some (Wallet.id a)) None) (Leg CREDIT (Some (Wallet.id b)) None)
    [(Wallet.id a, Wallet.available_balance a - amount)%Z;
     (Wallet.id b, Wallet.available_balance b + amount)%Z]
    (Wallet.id a) (Some (Wallet.id b)).

(** What an operation draws on its way: ids, sequence numbers and the time in
    its event.  Between two draws other sessions may have drawn. *)
Record draws := Draws {
  txn_id : uuid; first_id : uuid; second_id : uuid; event_id : uuid; event_time : Z;
  txn_seq : Z; first_seq : Z; second_seq : Z; set_seq : Z; event_seq : Z }.

(** An operation that runs undisturbed from [w] draws in this order: header,
    first leg, second leg, (time), event. *)
Definition draws_of `{Env} (w : World) : draws :=
  Draws (uuid4 (tick w)) (uuid4 (S (tick w))) (uuid4 (S (S (tick w))))
    (uuid4 (S (S (S (S (tick w)))))) (clock (S (S (S (tick w)))))
    (next_seq w) (next_seq w) (next_seq w + 1) (next_seq w + 1 + 1) (next_seq w + 1 + 1).
Coercion draws_of : World >-> draws.
#[global] Arguments draws_of : simpl never.

Section moves.
Implicit Types (x : draws) (m : move) (d : Database).

Definition move_txn x (now : Z) m : Transaction.row :=
  Transaction.mk (txn_id x) (mv_type m) COMPLETED (mv_currency m) (mv_key m) now.

Definition leg_change (id : uuid) x m (l : leg) : change :=
  InsEntry id (txn_id x) (leg_type l) (mv_amount m) (mv_currency m) (leg_wallet l) (leg_system l).
Definition leg_entry (id : uuid) (seq : Z) x (now : Z) m (l : leg) : LedgerEntry.row :=
  LedgerEntry.mk id seq (txn_id x) (leg_type l) (mv_amount m) (mv_currency m)
    (leg_wallet l) (leg_system l) now.
Definition move_entries x now m : list LedgerEntry.row :=
  [leg_entry (first_id x) (first_seq x) x now m (mv_first m);
   leg_entry (second_id x) (second_seq x) x now m (mv_second m)].

Definition move_payload x now m : dict :=
  event_payload (move_txn x now m) (mv_amount m) (mv_wallet m) (mv_counterparty m) (event_time x).
Definition move_event x now m : OutboxEvent.row :=
  OutboxEvent.mk (event_id x) "transaction" (txn_id x) "transaction.completed"
    (move_payload x now m) now None.

Definition move_writes x now m : list write :=
  [mkWrite now (txn_seq x)
     (InsTransaction (txn_id x) (mv_type m) PENDING (mv_currency m) (mv_key m));
   mkWrite now (first_seq x) (leg_change (first_id x) x m (mv_first m));
   mkWrite now (second_seq x) (leg_change (second_id x) x m (mv_second m))]
  ++ (mkWrite now (set_seq x) <$>
        ((fun iz => SetBalance iz.1 iz.2) <$> mv_sets m) ++ [SetStatus (txn_id x) COMPLETED])
  ++ [mkWrite now (event_seq x)
        (InsOutbox (event_id x) "transaction" (txn_id x) "transaction.completed"
           (move_payload x now m))].

(** The UPDATE of a balance also stamps [updated_at]. *)
Definition set_row (z now : Z) (r : Wallet.row) : Wallet.row :=
  Wallet.mk (Wallet.id r) (Wallet.user_id r) (Wallet.currency r) z
    (Wallet.locked_balance r) (Wallet.created_at r) now.
Definition set_rows (now : Z) (sets : list (uuid * Z)) (ws : gmap uuid Wallet.row)
    : gmap uuid Wallet.row :=
  foldl (fun ws iz => alter (set_row iz.2 now) iz.1 ws) ws sets.

Definition moved_db d x now m : Database :=
  mkDatabase (users d) (set_rows now (mv_sets m) (wallets d))
    (<[txn_id x := move_txn x now m]> (transactions d))
    (ledger_entries d ++ move_entries x now m)
    (<[event_id x := move_event x now m]> (outbox_events d))
    (processed_events d) (transaction_stats d).

Definition leg_valid d (l : leg) : Prop :=
  exactly_one_side (leg_wallet l) (leg_system l) = true /\
  varchar_opt 50 (leg_system l) = true /\
  match leg_wallet l with Some i => is_Some (wallets d !! i) | None => True end.

Record move_valid d x m : Prop := MoveValid {
  mvv_currency : varchar 3 (mv_currency m) = true;
  mvv_key_length : varchar_opt 255 (mv_key m) = true;
  mvv_amount : (0 < mv_amount m <= bigint_max)%Z;
  mvv_txn_fresh : transactions d !! txn_id x = None;
  mvv_key_fresh : forall k i t, mv_key m = Some k -> transactions d !! i = Some t ->
    Transaction.idempotency_key t <> Some k;
  mvv_first_fresh : first_id x ∉ (LedgerEntry.id <$> ledger_entries d);
  mvv_second_fresh : second_id x ∉ (LedgerEntry.id <$> ledger_entries d);
  mvv_legs_distinct : first_id x <> second_id x;
  mvv_event_fresh : outbox_events d !! event_id x = None;
  mvv_first : leg_valid d (mv_first m);
  mvv_second : leg_valid d (mv_second m);
  mvv_sets : Forall (fun iz => 0 <= iz.2 <= bigint_max)%Z (mv_sets m) }.

(** ** The statements and the tables *)
Lemma apply_sets d now n sets :
  apply_writes d (mkWrite now n <$> ((fun iz => SetBalance iz.1 iz.2) <$> sets)) =
    mkDatabase (users d) (set_rows now sets (wallets d)) (transactions d) (ledger_entries d)
      (outbox_events d) (processed_events d) (transaction_stats d).
Proof.
  revert d. induction sets as [|iz sets IH]; intros d; [by destruct d|].
  rewrite !fmap_cons, apply_writes_cons, IH. by destruct d.
Qed.

Lemma apply_move d x now m : apply_writes d (move_writes x now m) = moved_db d x now m.
Proof.
  unfold move_writes. rewrite fmap_app, !apply_writes_app, apply_sets. destruct d.
  unfold apply_writes, apply_write, moved_db. simpl. f_equal.
  - by rewrite alter_insert_eq.
  - by rewrite <- app_assoc.
Qed.

Lemma valid_sets d now n sets :
  valid_writes d (mkWrite now n <$> ((fun iz => SetBalance iz.1 iz.2) <$> sets)) <->
  Forall (fun iz => 0 <= iz.2 <= bigint_max)%Z sets.
Proof.
  revert d. induction sets as [|[i z] sets IH]; intros d; [by rewrite Forall_nil|].
  rewrite Forall_cons, !fmap_cons. simpl. rewrite IH.
  unfold violation, balance_integrity. simpl. rewrite check_row_None, in_bigint_spec, Z.leb_le.
  unfold bigint_min. intuition lia.
Qed.

Lemma valid_txn d id ty cur key :
  violation d (InsTransaction id ty PENDING cur key) = None <->
  varchar 3 cur = true /\ varchar_opt 255 key = true /\ transactions d !! id = None /\
  (forall k i t, key = Some k -> transactions d !! i = Some t ->
     Transaction.idempotency_key t <> Some k).
Proof.
  unfold violation, transaction_data_ok, transaction_integrity.
  rewrite check_row_None, !andb_true_iff, bool_decide_eq_true.
  destruct key as [k|]; [|naive_solver]. rewrite no_row_spec. naive_solver.
Qed.

Lemma valid_entry d id x m l :
  violation d (leg_change id x m l) = None <->
  varchar 3 (mv_currency m) = true /\ (0 < mv_amount m <= bigint_max)%Z /\
  (id ∉ (LedgerEntry.id <$> ledger_entries d)) /\ is_Some (transactions d !! txn_id x) /\
  leg_valid d l.
Proof.
  unfold leg_change, violation, entry_data_ok, entry_integrity, leg_valid.
  rewrite check_row_None, !andb_true_iff, in_bigint_spec, Z.ltb_lt, !bool_decide_eq_true.
  unfold bigint_min.
  destruct (leg_wallet l); rewrite ?bool_decide_eq_true; intuition (congruence || lia).
Qed.

Lemma valid_event d id t p :
  violation d (InsOutbox id "transaction" t "transaction.completed" p) = None <->
  outbox_events d !! id = None.
Proof.
  unfold violation, outbox_integrity. rewrite check_row_None, bool_decide_eq_true.
  intuition done.
Qed.

Lemma valid_move d x now m :
  valid_writes d (move_writes x now m) <-> move_valid d x m.
Proof.
  unfold move_writes. rewrite !valid_writes_app, fmap_app, valid_writes_app, valid_sets.
  rewrite apply_writes_app, apply_sets. cbn [valid_writes wr_change fmap list_fmap].
  rewrite valid_txn, !valid_entry, valid_event.
  unfold leg_valid, apply_writes, apply_write, leg_change. destruct d. simpl.
  rewrite fmap_app. cbn [fmap list_fmap LedgerEntry.id].
  rewrite not_elem_of_app, list_elem_of_singleton, !lookup_insert_eq. split.
  - intros. conj. split; simpl; auto; unfold leg_valid; simpl; auto.
  - intros []. unfold leg_valid in *. simpl in *. conj; eauto.
Qed.
End moves.

(** The world after the commit of the move. *)
Definition moved_world `{Env} (w : World) (now : Z) (m : move) : World :=
  mkWorld (moved_db (db w) w now m) (next_seq w + 1 + 1) (S (S (S (S (S (tick w)))))).
