(* ===== verification/LedgerSpec.v ===== *)
(** * What the money operations do (specification of LedgerService)

    For each operation, the guard that decides its outcome on the tables and
    the exact outcome of the program: the guard's exception with nothing
    changed, a rejected statement with nothing committed, or the committed
    move. *)
From S2P Require Import Prelude PyValues Schema Session Requests Repositories LedgerService Moves.

(** Rows sit under their primary key. *)
Definition keyed (d : Database) : Prop :=
  (forall i w, wallets d !! i = Some w -> Wallet.id w = i) /\
  (forall i t, transactions d !! i = Some t -> Transaction.id t = i).

(** ** Guards, in the order the code tests them *)
Definition owned_wallet (d : Database) (wallet_id requester_id : uuid) : exn + Wallet.row :=
  match wallets d !! wallet_id with
  | None => inl (WalletNotFoundError wallet_id)
  | Some w => if decide (Wallet.user_id w = requester_id) then inr w
              else inl (WalletAccessDeniedError wallet_id)
  end.

Definition deposit_guard (d : Database) (wallet_id requester_id : uuid)
    (data : DepositRequest.t) : exn + move :=
  match owned_wallet d wallet_id requester_id with
  | inl e => inl e
  | inr w =>
      let cur := upper (DepositRequest.currency data) in
      if decide (Wallet.currency w = cur)
      then inr (deposit_move w (DepositRequest.amount data))
      else inl (currency_mismatch "Wallet" (Wallet.currency w) cur)
  end.

Definition withdraw_guard (d : Database) (wallet_id requester_id : uuid)
    (data : WithdrawalRequest.t) (key : option string) : exn + move :=
  match owned_wallet d wallet_id requester_id with
  | inl e => inl e
  | inr w =>
      let cur := upper (WithdrawalRequest.currency data) in
      if decide (Wallet.currency w = cur) then
        if (Wallet.available_balance w <? WithdrawalRequest.amount data)%Z
        then inl (InsufficientFundsError wallet_id)
        else inr (withdraw_move w (WithdrawalRequest.amount data) key)
      else inl (currency_mismatch "Wallet" (Wallet.currency w) cur)
  end.

Definition transfer_guard (d : Database) (sender_id requester_id : uuid)
    (data : TransferRequest.t) (key : option string) : exn + move :=
  match owned_wallet d sender_id requester_id with
  | inl e => inl e
  | inr a =>
      match wallets d !! TransferRequest.recipient_wallet_id data with
      | None => inl (RecipientNotFoundError (TransferRequest.recipient_wallet_id data))
      | Some b =>
          let cur := upper (TransferRequest.currency data) in
          if decide (Wallet.currency a = cur) then
            if decide (Wallet.currency b = Wallet.currency a) then
              if (Wallet.available_balance a <? TransferRequest.amount data)%Z
              then inl (InsufficientFundsError sender_id)
              else inr (transfer_move a b (TransferRequest.amount data) key)
            else inl (currency_mismatch "Recipient wallet" (Wallet.currency b)
                        (Wallet.currency a))
          else inl (currency_mismatch "Sender wallet" (Wallet.currency a) cur)
      end
  end.

(** The transaction an idempotency key stands for, if the key is usable. *)
Definition known_key (d : Database) (key : option string) : option Transaction.row :=
  match truthy key with
  | None => None
  | Some k => first_row (fun t => Transaction.idempotency_key t = Some k) (transactions d)
  end.

Section outcome.
Context `{Env}.

(** The wallet row a move returns: read back after the commit. *)
Definition moved_wallet (now : Z) (m : move) (d : Database) : option Wallet.row :=
  set_rows now (mv_sets m) (wallets d) !! mv_wallet m.

(** The outcome of an operation whose guard gave [g]. *)
Definition outcome {R} (w : World) (now : Z) (g : exn + move)
    (result : Transaction.row -> Wallet.row -> R) (r : exn + R) (s' : session) : Prop :=
  match g with
  | inl e => r = inl e /\ s' = at_log w [] now
  | inr m =>
      (~ move_valid (db w) w m /\ untouched w s'.1 /\ exists e, r = inl (DBError e)) \/
      (move_valid (db w) w m /\
       s' = (moved_world w now m, fresh_local (clock (tick (moved_world w now m)))) /\
       exists wal, moved_wallet now m (db w) = Some wal /\
         r = inr (result (move_txn w now m) wal))
  end.

(** The outcome of an operation that first looks its idempotency key up. *)
Definition keyed_outcome (w : World) (now : Z) (key : option string) (wallet_id : uuid)
    (g : exn + move) (r : exn + Transaction.row * option Wallet.row) (s' : session) : Prop :=
  match known_key (db w) key with
  | Some txn => r = inr (txn, wallets (db w) !! wallet_id) /\ s' = at_log w [] now
  | None => outcome w now g (fun txn wal => (txn, Some wal)) r s'
  end.

Lemma wp_record_event txn a wid cp Φ w L now :
  let w' := mkWorld (db w) (next_seq w) (S (S (tick w))) in
  let L' := L ++ [mkWrite now (next_seq w)
              (InsOutbox (uuid4 (S (tick w))) "transaction" (Transaction.id txn)
                "transaction.completed" (event_payload txn a wid cp (clock (tick w))))] in
  valid_writes (db w) L ->
  (forall e s', untouched w s'.1 -> ~ valid_writes (db w) L' -> Φ (inl (DBError e)) s') ->
  (valid_writes (db w) L' -> Φ (inr tt) (at_log w' L' now)) ->
  wp (_record_event txn a wid cp) Φ (at_log w L now).
Proof.
  intros w' L' HL He Hok. unfold _record_event.
  apply wp_bind, wp_now, wp_bind, wp_add_event; [done|..].
  - intros e s' Hu Hv. apply He; [solve_untouched|done].
  - intros Hv. by apply wp_ret, Hok.
Qed.

Lemma wp_set_balance z r Φ w P L now :
  Φ (inr (Wallet.set_available_balance z r))
    (w, mkLocal (P ++ [SetBalance (Wallet.id r) z]) L now false) ->
  wp (set_balance z r) Φ (w, mkLocal P L now false).
Proof. intros HΦ. unfold set_balance. by apply wp_bind, wp_add, wp_ret. Qed.
End outcome.

(** ** The common course of the three operations *)
Section course.
Context `{Env}.
Implicit Types (w : World) (m : move).

Definition opened_txn (x : draws) (now : Z) m : Transaction.row :=
  Transaction.mk (txn_id x) (mv_type m) PENDING (mv_currency m) (mv_key m) now.
Definition opened_writes (x : draws) now m : list write := take 3 (move_writes x now m).
Definition opened_world w : World :=
  mkWorld (db w) (next_seq w + 1 + 1) (S (S (S (tick w)))).
Definition closed_world w : World :=
  mkWorld (db w) (next_seq w + 1 + 1) (S (S (S (S (S (tick w)))))).
Definition set_changes m : list change := (fun iz => SetBalance iz.1 iz.2) <$> mv_sets m.

(** What a refused statement of the move leads to. *)
Definition refusal {R} w m (Φ : exn + R -> session -> Prop) : Prop :=
  forall e s', untouched w s'.1 -> ~ move_valid (db w) w m -> Φ (inl (DBError e)) s'.

#[local] Ltac refused HR now := intros ? ? ? Hn; apply HR;
  [ solve_untouched | rewrite <- (valid_move _ _ now); exact (invalid_prefix _ _ _ Hn) ].

(** The header and the two legs. *)
Lemma wp_open_move {R} w now m (K : Transaction.row -> prog R) Φ :
  refusal w m Φ ->
  (valid_writes (db w) (opened_writes w now m) ->
     wp (K (opened_txn w now m)) Φ (at_log (opened_world w) (opened_writes w now m) now)) ->
  wp (txn ← TransactionRepository.create (mv_type m) (mv_currency m) (mv_key m);
      LedgerRepository.create_entry (Transaction.id txn) (leg_type (mv_first m)) (mv_amount m)
        (mv_currency m) (leg_wallet (mv_first m)) (leg_system (mv_first m));;
      LedgerRepository.create_entry (Transaction.id txn) (leg_type (mv_second m)) (mv_amount m)
        (mv_currency m) (leg_wallet (mv_second m)) (leg_system (mv_second m));;
      K txn) Φ (at_log w [] now).
Proof.
  intros HR Hok.
  apply wp_bind, wp_create_transaction; [done|refused HR now|intros Hv1].
  apply wp_bind, wp_create_entry; [done|refused HR now|intros Hv2].
  apply wp_bind, wp_create_entry; [done|refused HR now|intros Hv3].
  by apply Hok.
Qed.

(** The status, the balances set meanwhile, and the event. *)
Lemma wp_close_move {R} w now m (K : Transaction.row -> prog R) Φ :
  valid_writes (db w) (opened_writes w now m) -> refusal w m Φ ->
  (move_valid (db w) w m ->
     wp (K (move_txn w now m)) Φ (at_log (closed_world w) (move_writes w now m) now)) ->
  wp (txn ← TransactionRepository.mark_completed (opened_txn w now m);
      _record_event txn (mv_amount m) (mv_wallet m) (mv_counterparty m);;
      K txn) Φ
    (opened_world w, mkLocal (set_changes m) (opened_writes w now m) now false).
Proof.
  intros Hv HR Hok.
  assert (Hn : Forall no_draw (set_changes m ++ [SetStatus (txn_id w) COMPLETED])).
  { apply Forall_app; split; [|by repeat constructor].
    apply Forall_fmap, Forall_true. by intros []. }
  apply wp_bind, wp_mark_completed; [done|done| |intros Hv1].
  { intros e s' Hu Hn'. apply HR; [unfold opened_world in Hu; solve_untouched|]. rewrite <- (valid_move _ _ now).
    unfold move_writes. rewrite app_assoc. exact (invalid_prefix _ _ _ Hn'). }
  apply wp_bind, wp_record_event; [done| |intros Hv2].
  { intros e s' Hu Hn'. apply HR; [unfold opened_world in Hu; solve_untouched|]. rewrite <- (valid_move _ _ now).
    unfold move_writes. rewrite app_assoc. exact Hn'. }
  assert (Hvm : valid_writes (db w) (move_writes w now m)).
  { unfold move_writes. rewrite app_assoc. exact Hv2. }
  apply valid_move in Hvm. specialize (Hok Hvm). unfold move_writes in Hok.
  rewrite app_assoc in Hok. exact Hok.
Qed.

(** The commit, and the rows read back after it. *)
Lemma wp_commit_move w now m Φ :
  Φ (inr tt) (moved_world w now m, fresh_local (clock (tick (moved_world w now m)))) ->
  wp (call Commit) Φ (at_log (closed_world w) (move_writes w now m) now).
Proof. intros HΦ. apply wp_commit. unfold closed_world. cbn [db]. by rewrite apply_move. Qed.

Lemma wp_commit_keyed key wid w now m Φ :
  Φ (inr None) (moved_world w now m, fresh_local (clock (tick (moved_world w now m)))) ->
  wp (commit_keyed key wid) Φ (at_log (closed_world w) (move_writes w now m) now).
Proof. intros HΦ. apply wp_try_except, wp_bind, wp_commit_move, wp_ret. exact HΦ. Qed.

Lemma wp_refresh_move {R} w now m wal t0 (K : Wallet.row -> Transaction.row -> prog R) Φ :
  Wallet.id wal = mv_wallet m ->
  is_Some (wallets (db w) !! mv_wallet m) ->
  (forall wal', moved_wallet now m (db w) = Some wal' ->
     wp (K wal' (move_txn w now m)) Φ (moved_world w now m, fresh_local t0)) ->
  wp (wallet ← refresh_wallet wal;
      txn ← refresh_transaction (move_txn w now m);
      K wallet txn) Φ (moved_world w now m, fresh_local t0).
Proof.
  intros Hid Hsome Hok. unfold refresh_wallet, refresh_transaction. rewrite Hid.
  apply wp_bind, wp_refresh; rewrite apply_writes_nil.
  - intros wal' Hwal'. apply wp_bind, wp_refresh; rewrite apply_writes_nil; simpl.
    + intros txn'. rewrite lookup_insert_eq. intros [= <-]. by apply Hok.
    + rewrite lookup_insert_eq. eauto.
  - simpl. clear -Hsome. unfold set_rows. revert Hsome. generalize (wallets (db w)).
    induction (mv_sets m) as [|iz sets IH]; intros ws Hs; simpl; [done|].
    apply IH. rewrite lookup_alter. destruct Hs as [r Hr].
    case_decide as E; [rewrite E|]; rewrite Hr; simpl; eauto.
Qed.
End course.

Section operations.
Context `{Env}.

#[local] Ltac refused := intros ? ? ? ?; left; eauto.

Lemma wp_deposit wid rid data w now : keyed (db w) ->
  wp (deposit wid rid data)
    (outcome w now (deposit_guard (db w) wid rid data) pair) (at_log w [] now).
Proof.
  intros [Hkey _]. unfold deposit, deposit_guard, owned_wallet.
  apply wp_bind, wp_lock. rewrite apply_writes_nil.
  destruct (wallets (db w) !! wid) as [wal|] eqn:Ewal.
  2: { apply wp_bind, wp_raise. done. }
  apply Hkey in Ewal as Hid. apply wp_bind, wp_ret, wp_bind, wp_raise_if.
  { intros Hr%bool_decide_eq_true. by rewrite decide_False. }
  intros Hr%bool_decide_eq_false%dec_stable. rewrite decide_True by done.
  apply wp_bind, wp_raise_if.
  { intros Hc%bool_decide_eq_true. by rewrite decide_False. }
  intros Hc%bool_decide_eq_false%dec_stable. rewrite decide_True by done.
  cbv zeta. set (m := deposit_move wal (DepositRequest.amount data)).
  apply (wp_open_move w now m); [refused|intros Hv].
  apply wp_bind, wp_set_balance.
  apply (wp_close_move w now m); [done|refused|intros Hm].
  apply wp_bind, wp_commit_move.
  apply wp_refresh_move; [done|rewrite <- Hid in Ewal; eauto|].
  intros wal' Hwal'. apply wp_ret. right. eauto 6.
Qed.

Lemma wp_replay key wid Φ w now :
  Φ (inr ((fun t => (t, wallets (db w) !! wid)) <$> known_key (db w) key)) (at_log w [] now) ->
  wp (replay key wid) Φ (at_log w [] now).
Proof.
  unfold replay, known_key. destruct (truthy key) as [k|]; intros HΦ; [|by apply wp_ret].
  apply wp_bind, wp_query. rewrite apply_writes_nil.
  destruct (first_row _ _); [|by apply wp_ret].
  apply wp_bind, wp_query. rewrite apply_writes_nil. by apply wp_ret.
Qed.

Lemma wp_withdraw wid rid data key w now : keyed (db w) ->
  wp (withdraw wid rid data key)
    (keyed_outcome w now key wid (withdraw_guard (db w) wid rid data key)) (at_log w [] now).
Proof.
  intros [Hkey _]. unfold withdraw, withdraw_guard, owned_wallet, keyed_outcome.
  apply wp_bind, wp_replay. destruct (known_key (db w) key) as [t|]; simpl; [by apply wp_ret|].
  apply wp_bind, wp_lock. rewrite apply_writes_nil.
  destruct (wallets (db w) !! wid) as [wal|] eqn:Ewal.
  2: { apply wp_bind, wp_raise. done. }
  apply Hkey in Ewal as Hid. apply wp_bind, wp_ret, wp_bind, wp_raise_if.
  { intros Hr%bool_decide_eq_true. by rewrite decide_False. }
  intros Hr%bool_decide_eq_false%dec_stable. rewrite decide_True by done.
  apply wp_bind, wp_raise_if.
  { intros Hc%bool_decide_eq_true. by rewrite decide_False. }
  intros Hc%bool_decide_eq_false%dec_stable. rewrite decide_True by done.
  cbv zeta. apply wp_bind, wp_raise_if; [by intros ->|intros ->].
  set (m := withdraw_move wal (WithdrawalRequest.amount data) key).
  apply (wp_open_move w now m); [refused|intros Hv].
  apply wp_bind, wp_set_balance.
  apply (wp_close_move w now m); [done|refused|intros Hm].
  apply wp_bind, wp_commit_keyed.
  apply wp_refresh_move; [done|rewrite <- Hid in Ewal; eauto|].
  intros wal' Hwal'. apply wp_ret. right. eauto 6.
Qed.

Lemma wp_transfer sid rid data key w now : keyed (db w) ->
  sid <> TransferRequest.recipient_wallet_id data ->
  wp (transfer sid rid data key)
    (keyed_outcome w now key sid (transfer_guard (db w) sid rid data key)) (at_log w [] now).
Proof.
  intros [Hkey _] Hne. unfold transfer, transfer_guard, owned_wallet, keyed_outcome.
  set (bid := TransferRequest.recipient_wallet_id data) in *. cbv zeta.
  apply wp_bind, wp_raise_if; [by intros ?%bool_decide_eq_true|intros _].
  apply wp_bind, wp_replay. destruct (known_key (db w) key) as [t|]; simpl; [by apply wp_ret|].
  apply wp_bind, wp_lock_ordered. rewrite apply_writes_nil, !lock_all_lookup.
  rewrite !decide_True by (rewrite sorted_set_elem; set_solver).
  apply wp_bind, wp_ret, wp_bind, wp_ret.
  destruct (wallets (db w) !! sid) as [a|] eqn:Ea.
  2: { apply wp_bind, wp_raise. done. }
  apply Hkey in Ea as Hid. apply wp_bind, wp_ret, wp_bind, wp_raise_if.
  { intros Hr%bool_decide_eq_true. by rewrite decide_False. }
  intros Hr%bool_decide_eq_false%dec_stable. rewrite decide_True by done.
  destruct (wallets (db w) !! bid) as [b|] eqn:Eb.
  2: { apply wp_bind, wp_raise. done. }
  apply wp_bind, wp_ret, wp_bind, wp_raise_if.
  { intros Hc%bool_decide_eq_true. by rewrite decide_False. }
  intros Hc%bool_decide_eq_false%dec_stable. rewrite decide_True by done.
  apply wp_bind, wp_raise_if.
  { intros Hc'%bool_decide_eq_true. by rewrite decide_False. }
  intros Hc'%bool_decide_eq_false%dec_stable. rewrite decide_True by done.
  apply wp_bind, wp_raise_if; [by intros ->|intros ->].
  set (m := transfer_move a b (TransferRequest.amount data) key).
  apply (wp_open_move w now m); [refused|intros Hv].
  apply wp_bind, wp_set_balance, wp_bind, wp_set_balance.
  apply (wp_close_move w now m); [done|refused|intros Hm].
  apply wp_bind, wp_commit_keyed.
  apply wp_refresh_move; [done|rewrite <- Hid in Ea; eauto|].
  intros wal' Hwal'. apply wp_ret. right. eauto 6.
Qed.

Lemma wp_transfer_same sid rid data key w now :
  sid = TransferRequest.recipient_wallet_id data ->
  wp (transfer sid rid data key)
    (fun r s' => r = inl (SameWalletTransferError sid) /\ s' = at_log w [] now) (at_log w [] now).
Proof.
  intros He. unfold transfer. apply wp_bind, wp_raise_if; [done|].
  by intros Hne%bool_decide_eq_false.
Qed.
End operations.
