(* ===== verification/SafeLedger.v ===== *)
(** * The money operations under interference: their common course

    The header and the legs, the balances and the event, the commit and the
    rows read back, by the rules of SafeRules.v: the counterpart of the course
    in LedgerSpec.v for a thread among others. *)
From S2P Require Import Prelude PyValues Schema Locks Session Interleaving Requests Repositories.
From S2P Require Import SafeRules LedgerService Moves LedgerSpec.

Section course.
Context `{Env} (J : interference).
Context (G : relation Database).
Implicit Types (w : World) (K : gset lock) (g : ghost) (L : list write) (x : draws) (m : move).

Abbreviation rely := (rely J).
Abbreviation safe := (safe J G).

(** A refused statement ends the request with nothing committed. *)
Definition refused {R} (Φ : exn + R -> World -> Local -> gset lock -> ghost -> Prop) g : Prop :=
  forall w e l K g', inv J (db w) -> committed g' = committed g -> Φ (inl (DBError e)) w l K g'.

Definition only_wallets K : Prop := forall k, k ∈ K -> is_wallet_lock k.

Lemma safe_refresh {R : Set} (q : Database -> option R) Φ w L now K g :
  (forall w', rely K w w' -> exists r, q (apply_writes (db w') L) = Some r /\
     Φ (inr r) w' (mkLocal [] L now false) K g) ->
  safe (refresh q) Φ w (mkLocal [] L now false) K g.
Proof.
  intros HΦ. apply safe_bind, safe_query. intros w' Hr.
  destruct (HΦ w' Hr) as (r & -> & Hok). by apply safe_ret.
Qed.

Lemma one_change c : one_number ([] ++ [c]).
Proof. left. by exists c. Qed.

Lemma needs_one c : needs_all ([] ++ [c]) = needs c.
Proof. unfold needs_all. simpl. by rewrite union_empty_r_L. Qed.

Lemma safe_create_transaction ty cur key Φ w L now K g :
  covered w L K -> only_wallets K ->
  refused Φ g ->
  (forall w' K' n s, let id := uuid4 n in
     let L' := L ++ [mkWrite now s (InsTransaction id ty PENDING cur key)] in
     rely K w w' -> K ⊆ K' -> RowTransaction id ∈ K' -> covered w' L' K' ->
     Φ (inr (Transaction.mk id ty PENDING cur key now)) w' (mkLocal [] L' now false) K' (draw n g)) ->
  safe (TransactionRepository.create ty cur key) Φ w (mkLocal [] L now false) K g.
Proof.
  intros Hcov HK He Hok. unfold TransactionRepository.create.
  apply safe_bind, safe_uuid4. intros w1 n Hr1.
  apply safe_bind, safe_add_flush; [apply one_change|by eapply covered_rely| |by intros; apply He|].
  - rewrite needs_one. intros k [->%elem_of_singleton|Hk]%elem_of_union.
    + right. left. exists (uuid4 n), n. repeat split. simpl. set_solver.
    + right. right. destruct key as [key|]; [|by apply elem_of_empty in Hk].
      apply elem_of_singleton in Hk as ->. split; [done|]. by split; [intros []|].
  - rewrite needs_one. intros w2 s L' Hr2 Hcov2. apply safe_refresh. intros w3 Hr3.
    eexists. split.
    { unfold L'. rewrite apply_writes_app. destruct (apply_writes (db w3) L). simpl.
      by rewrite lookup_insert_eq. }
    apply (Hok w3 _ n s).
    + eapply rely_trans; [exact Hr1|]. eapply rely_trans; [exact Hr2|].
      eapply rely_mono; [|exact Hr3]. set_solver.
    + set_solver.
    + simpl. set_solver.
    + by eapply covered_rely.
Qed.

Lemma safe_create_entry t ty a cur wid sys Φ w L now K g :
  covered w L K -> (forall i, wid = Some i -> RowWallet i ∈ K) ->
  refused Φ g ->
  (forall w' K' n s, let id := uuid4 n in
     let L' := L ++ [mkWrite now s (InsEntry id t ty a cur wid sys)] in
     rely K w w' -> K ⊆ K' -> covered w' L' K' ->
     Φ (inr id) w' (mkLocal [] L' now false) K' (draw n g)) ->
  safe (LedgerRepository.create_entry t ty a cur wid sys) Φ w (mkLocal [] L now false) K g.
Proof.
  intros Hcov HK He Hok. unfold LedgerRepository.create_entry.
  apply safe_bind, safe_uuid4. intros w1 n Hr1.
  apply safe_bind, safe_add_flush; [apply one_change|by eapply covered_rely| |by intros; apply He|].
  - rewrite needs_one. intros k [->%elem_of_singleton|Hk]%elem_of_union.
    + right. left. exists (uuid4 n), n. repeat split. simpl. set_solver.
    + left. destruct wid as [i|]; [|by apply elem_of_empty in Hk].
      apply elem_of_singleton in Hk as ->. by apply HK.
  - rewrite needs_one. intros w2 s L' Hr2 Hcov2. apply safe_ret. apply (Hok w2 _ n s).
    + by eapply rely_trans.
    + set_solver.
    + done.
Qed.

Lemma safe_record_event txn a wid cp Φ w L now K g :
  covered w L K -> refused Φ g ->
  (forall w' K' n s t, let L' := L ++ [mkWrite now s
       (InsOutbox (uuid4 n) "transaction" (Transaction.id txn) "transaction.completed"
          (event_payload txn a wid cp t))] in
     rely K w w' -> K ⊆ K' -> covered w' L' K' ->
     Φ (inr tt) w' (mkLocal [] L' now false) K' (draw n g)) ->
  safe (_record_event txn a wid cp) Φ w (mkLocal [] L now false) K g.
Proof.
  intros Hcov He Hok. unfold _record_event, OutboxRepository.add_event.
  apply safe_bind, safe_now. intros w1 t Hr1.
  apply safe_bind, safe_bind, safe_uuid4. intros w2 n Hr2.
  apply safe_bind, safe_add_flush; [apply one_change|by do 2 (eapply covered_rely; [|done])| |by intros; apply He|].
  - rewrite needs_one. intros k Hk. cbn [needs] in Hk. apply elem_of_singleton in Hk as ->. right. left. exists (uuid4 n), n.
    repeat split. simpl. set_solver.
  - rewrite needs_one. intros w3 s L' Hr3 Hcov3. apply safe_ret. apply (Hok w3 _ n s t).
    + eapply rely_trans; [exact Hr1|]. by eapply rely_trans.
    + set_solver.
    + done.
Qed.

Lemma safe_set_balance z r Φ w P L now K g :
  (forall w', rely K w w' ->
     Φ (inr (Wallet.set_available_balance z r)) w' (mkLocal (P ++ [SetBalance (Wallet.id r) z]) L now false) K g) ->
  safe (set_balance z r) Φ w (mkLocal P L now false) K g.
Proof. intros HΦ. apply safe_bind, safe_add. intros w' Hr. by apply safe_ret, HΦ. Qed.

Definition legs_held m K : Prop := forall i,
  leg_wallet (mv_first m) = Some i \/ leg_wallet (mv_second m) = Some i -> RowWallet i ∈ K.

Definition sets_held m K : Prop := forall i z, (i, z) ∈ mv_sets m -> RowWallet i ∈ K.

Lemma safe_open_move {R} w now m K g (C : Transaction.row -> prog R) Φ :
  only_wallets K -> legs_held m K -> refused Φ g ->
  (forall w' x K' g', rely K w w' -> (exists n, txn_id x = uuid4 n) ->
     K ⊆ K' -> RowTransaction (txn_id x) ∈ K' -> covered w' (opened_writes x now m) K' ->
     committed g' = committed g ->
     safe (C (opened_txn x now m)) Φ w' (mkLocal [] (opened_writes x now m) now false) K' g') ->
  safe (txn ← TransactionRepository.create (mv_type m) (mv_currency m) (mv_key m);
        LedgerRepository.create_entry (Transaction.id txn) (leg_type (mv_first m)) (mv_amount m)
          (mv_currency m) (leg_wallet (mv_first m)) (leg_system (mv_first m));;
        LedgerRepository.create_entry (Transaction.id txn) (leg_type (mv_second m)) (mv_amount m)
          (mv_currency m) (leg_wallet (mv_second m)) (leg_system (mv_second m));;
        C txn) Φ w (mkLocal [] [] now false) K g.
Proof.
  intros HK Hlegs He Hok.
  apply safe_bind, safe_create_transaction; [split; [unfold needs_log, needs_all; simpl; set_solver|done]|done|done|].
  intros w1 K1 n1 s1 id L1 Hr1 HK1 Hid1 Hcov1.
  apply safe_bind, safe_create_entry; [done|intros i Hi; apply HK1, Hlegs; eauto|exact He|].
  intros w2 K2 n2 s2 id2 L2 Hr2 HK2 Hcov2.
  apply safe_bind, safe_create_entry; [done|intros i Hi; apply HK2, HK1, Hlegs; eauto|exact He|].
  intros w3 K3 n3 s3 id3 L3 Hr3 HK3 Hcov3.
  apply (Hok w3 (Draws id id2 id3 0 0 s1 s2 s3 0 0)); simpl; [|by exists n1|set_solver..|exact Hcov3|done].
  eapply rely_trans; [exact Hr1|]. eapply rely_trans; [|eapply rely_mono; [|exact Hr3]; set_solver].
  by eapply rely_mono.
Qed.

Lemma safe_close_move {R} w now x m K g (C : Transaction.row -> prog R) Φ :
  covered w (opened_writes x now m) K -> sets_held m K -> RowTransaction (txn_id x) ∈ K ->
  refused Φ g ->
  (forall w' x' K' g', rely K w w' -> txn_id x' = txn_id x -> K ⊆ K' ->
     covered w' (move_writes x' now m) K' -> committed g' = committed g ->
     safe (C (move_txn x' now m)) Φ w' (mkLocal [] (move_writes x' now m) now false) K' g') ->
  safe (txn ← TransactionRepository.mark_completed (opened_txn x now m);
        _record_event txn (mv_amount m) (mv_wallet m) (mv_counterparty m);;
        C txn) Φ w (mkLocal (set_changes m) (opened_writes x now m) now false) K g.
Proof.
  intros Hcov Hsets Htxn He Hok.
  assert (Hn : needs_all (set_changes m ++ [SetStatus (txn_id x) COMPLETED]) ⊆ K).
  { rewrite needs_all_app. apply union_subseteq. split.
    - unfold needs_all, set_changes. intros k Hk. apply elem_of_union_list in Hk as (X & HX & Hk).
      rewrite <- list_fmap_compose in HX. apply list_elem_of_fmap in HX as ([i z] & -> & Hiz).
      cbn in Hk. apply elem_of_singleton in Hk as ->. by eapply Hsets.
    - unfold needs_all. simpl. set_solver. }
  unfold TransactionRepository.mark_completed.
  apply safe_bind, safe_bind, safe_add_flush; [|done| |by intros; apply He|].
  { right. apply Forall_app; split; [|by repeat constructor].
    apply Forall_fmap, Forall_true. by intros []. }
  { intros k Hk. left. by apply Hn. }
  intros w1 s1 L1 Hr1 Hcov1. apply safe_ret.
  apply safe_bind, safe_record_event; [exact Hcov1|exact He|].
  intros w2 K2 n s2 t L2 Hr2 HK2 Hcov2.
  pose (x' := Draws (txn_id x) (first_id x) (second_id x) (uuid4 n) t
    (txn_seq x) (first_seq x) (second_seq x) s1 s2).
  assert (HL : L2 = move_writes x' now m).
  { unfold L2, L1, move_writes, opened_writes. rewrite <- app_assoc. done. }
  rewrite HL in *. apply (Hok w2 x'); [|done|set_solver|done..].
  eapply rely_trans; [exact Hr1|]. eapply rely_mono; [|exact Hr2]. set_solver.
Qed.
End course.
