(* ===== verification/Security.v ===== *)
(** * Passwords and access tokens (src/app/core/security.py, config.py, api/deps.py)

    The password hasher (pwdlib) and the JWT codec (PyJWT) are third-party:
    class [Crypto].  Their documented laws are the class [CryptoLaws]. *)
From S2P Require Import Prelude PyValues Schema Session Repositories.

Class Crypto := {
  hasher_hash : N -> string -> string;               (* salt, password *)
  hasher_verify : string -> string -> bool;          (* password, hash *)
  jwt_encode : dict -> string -> string -> string;   (* claims, secret, algorithm *)
  (* current time (s), token, secret, algorithms; None is a PyJWTError *)
  jwt_decode : Z -> string -> string -> list string -> option dict }.

(** src/app/core/config.py *)
Module Settings.
Record t := mk {
  database_url : string;
  jwt_secret : string;
  jwt_algorithm : string;
  access_token_expiry_minutes : Z;
  kafka_bootstrap_servers : string;
  kafka_topic_transactions : string;
  redis_url : string }.

(** The two fields without a default come from the environment. *)
Definition defaults (database_url jwt_secret : string) : t :=
  mk database_url jwt_secret "HS256" 30 "localhost:9092" "transactions.events" "redis://localhost:6379/0".
End Settings.

(** [claims["exp"]] *)
Definition claim_exp (c : dict) : option Z :=
  match c !! "exp" with Some (JInt z) => Some z | _ => None end.

(** [payload.get("sub")]; PyJWT rejects a subject that is not a string. *)
Definition claim_sub (c : dict) : option string :=
  match c !! "sub" with Some (JStr s) => Some s | _ => None end.

Class CryptoLaws `{Crypto} := {
  verify_hash : forall salt pw, hasher_verify pw (hasher_hash salt pw) = true;
  decode_encode : forall now c secret alg z, claim_exp c = Some z -> (now < z)%Z ->
    jwt_decode now (jwt_encode c secret alg) secret [alg] = Some c;
  decode_expired : forall now c secret alg algs z, claim_exp c = Some z -> (z <= now)%Z ->
    jwt_decode now (jwt_encode c secret alg) secret algs = None;
  decode_other_secret : forall now c secret secret' alg algs, secret <> secret' ->
    jwt_decode now (jwt_encode c secret alg) secret' algs = None }.

Section security.
Context `{Env} `{Crypto}.

Definition hash_password (password : string) : prog string :=
  salt ← call Uuid4; mret (hasher_hash salt password).

Definition verify_password (password password_hash : string) : bool :=
  hasher_verify password password_hash.

(** [expires_minutes or settings.access_token_expiry_minutes]: 0 is falsy. *)
Definition expiry_minutes (st : Settings.t) (expires_minutes : option Z) : Z :=
  match expires_minutes with
  | Some m => if (m =? 0)%Z then Settings.access_token_expiry_minutes st else m
  | None => Settings.access_token_expiry_minutes st
  end.

(** Times are in microseconds; PyJWT writes "exp" in whole seconds. *)
Definition token_claims (st : Settings.t) (now : Z) (subject : string)
    (expires_minutes : option Z) : dict :=
  list_to_map [("sub", JStr subject);
               ("exp", JInt (now / 1000000 + expiry_minutes st expires_minutes * 60))].

Definition create_access_token (st : Settings.t) (now : Z) (subject : string)
    (expires_minutes : option Z) : string :=
  jwt_encode (token_claims st now subject expires_minutes)
    (Settings.jwt_secret st) (Settings.jwt_algorithm st).

Definition decode_access_token (st : Settings.t) (now : Z) (token : string) : option string :=
  match jwt_decode (now / 1000000) token (Settings.jwt_secret st) [Settings.jwt_algorithm st] with
  | Some payload => claim_sub payload
  | None => None
  end.

(** [get_current_user] (api/deps.py); [None] is the 401 "Could not validate
    credentials", the same for every reason. *)
Definition get_current_user (st : Settings.t) (now : Z) (token : string)
    : prog (option User.row) :=
  match decode_access_token st now token with
  | None => mret None
  | Some subject =>
      match uuid_parse subject with
      | None => mret None
      | Some user_id => UserRepository.get_by_id user_id
      end
  end.
End security.
