(* ===== verification/AccountServices.v ===== *)
(** * UserService and WalletService (src/app/services)

    Registration, login check, wallet creation and the balance read, with the
    exact outcome of each. *)
From S2P Require Import Prelude PyValues Schema Session Requests Repositories Security LedgerService.
From S2P Require Import LedgerSpec.

Module UserService.
Section service.
Context `{Env} `{Crypto}.

Definition register (data : UserCreate.t) : prog User.row :=
  existing ← UserRepository.get_by_email (UserCreate.email data);
  raise_if (bool_decide (is_Some existing)) (EmailAlreadyExistsError (UserCreate.email data));;
  hash ← hash_password (UserCreate.password data);
  user ← UserRepository.create (UserCreate.name data) (UserCreate.email data) hash;
  try_except (call Commit) (fun e =>
    if is_integrity_error e
    then Some (call Rollback;; Raise (EmailAlreadyExistsError (UserCreate.email data)))
    else None);;
  refresh (fun d => users d !! User.id user).

Definition authenticate (email password : string) : prog (option User.row) :=
  user ← UserRepository.get_by_email email;
  match user with
  | None => mret None
  | Some u =>
      if verify_password password (User.password_hash u) then mret (Some u) else mret None
  end.
End service.
End UserService.

Module WalletService.
Definition create_wallet (owner_id : uuid) (data : WalletCreate.t) : prog Wallet.row :=
  let currency := upper (WalletCreate.currency data) in
  existing ← WalletRepository.get_by_user_and_currency owner_id currency;
  raise_if (bool_decide (is_Some existing)) (WalletAlreadyExistsError currency);;
  wallet ← WalletRepository.create owner_id currency;
  try_except (call Commit) (fun e =>
    if is_integrity_error e
    then Some (call Rollback;; Raise (WalletAlreadyExistsError currency))
    else None);;
  refresh (fun d => wallets d !! Wallet.id wallet).

Definition get_balance (wallet_id requester_id : uuid) : prog Wallet.row :=
  w ← WalletRepository.get_by_id wallet_id;
  wallet ← or_raise w (WalletNotFoundError wallet_id);
  raise_if (bool_decide (Wallet.user_id wallet <> requester_id))
    (WalletAccessDeniedError wallet_id);;
  mret wallet.
End WalletService.

(** ** Outcomes *)
Section outcomes.
Context `{Env} `{Crypto}.

Definition registered_user (w : World) (now : Z) (data : UserCreate.t) : User.row :=
  User.mk (uuid4 (S (tick w))) (UserCreate.name data) (UserCreate.email data)
    (hasher_hash (uuid4 (tick w)) (UserCreate.password data)) now.

Definition user_change (u : User.row) : change :=
  InsUser (User.id u) (User.name u) (User.email u) (User.password_hash u).

Definition add_user (u : User.row) (d : Database) : Database :=
  mkDatabase (<[User.id u := u]> (users d)) (wallets d) (transactions d) (ledger_entries d)
    (outbox_events d) (processed_events d) (transaction_stats d).

Definition add_wallet (r : Wallet.row) (d : Database) : Database :=
  mkDatabase (users d) (<[Wallet.id r := r]> (wallets d)) (transactions d) (ledger_entries d)
    (outbox_events d) (processed_events d) (transaction_stats d).

Definition created_wallet (w : World) (now : Z) (owner : uuid) (currency : string) : Wallet.row :=
  Wallet.mk (uuid4 (tick w)) owner currency 0 0 now now.

Definition email_taken (d : Database) (email : string) : option User.row :=
  first_row (fun u => User.email u = email) (users d).
Definition wallet_of (d : Database) (owner : uuid) (currency : string) : option Wallet.row :=
  first_row (fun w => Wallet.user_id w = owner /\ Wallet.currency w = currency) (wallets d).

Definition register_outcome (w : World) (now : Z) (data : UserCreate.t)
    (r : exn + User.row) (s' : session) : Prop :=
  match email_taken (db w) (UserCreate.email data) with
  | Some _ => r = inl (EmailAlreadyExistsError (UserCreate.email data)) /\ s' = at_log w [] now
  | None =>
      let u := registered_user w now data in
      match violation (db w) (user_change u) with
      | Some e => r = inl (DBError e) /\ untouched w s'.1
      | None =>
          r = inr u /\ s'.1 = mkWorld (add_user u (db w)) (next_seq w) (S (S (tick w)))
      end
  end.

Definition create_wallet_outcome (w : World) (now : Z) (owner : uuid) (data : WalletCreate.t)
    (r : exn + Wallet.row) (s' : session) : Prop :=
  let currency := upper (WalletCreate.currency data) in
  match wallet_of (db w) owner currency with
  | Some _ => r = inl (WalletAlreadyExistsError currency) /\ s' = at_log w [] now
  | None =>
      let wal := created_wallet w now owner currency in
      match violation (db w) (InsWallet (Wallet.id wal) owner currency) with
      | Some e => r = inl (DBError e) /\ untouched w s'.1
      | None =>
          r = inr wal /\ s'.1 = mkWorld (add_wallet wal (db w)) (next_seq w) (S (tick w))
      end
  end.

#[local] Ltac taken :=
  match goal with |- context [first_row ?P ?m] => destruct (first_row P m) as [?|] eqn:? end.

Lemma wp_register data w now :
  wp (UserService.register data) (register_outcome w now data) (at_log w [] now).
Proof.
  unfold UserService.register, register_outcome, email_taken.
  apply wp_bind, wp_query. rewrite apply_writes_nil. taken.
  { by apply wp_bind, wp_raise_if. }
  apply wp_bind, wp_raise_if; [done|intros _]. cbv zeta.
  apply wp_bind, wp_bind, wp_uuid4, wp_ret, wp_bind, wp_bind, wp_uuid4, wp_bind.
  apply wp_add_flush; cbn [db tick next_seq]; rewrite apply_writes_nil; unfold user_change; simpl.
  - intros e ->. split; [done|solve_untouched].
  - intros ->. apply wp_refresh; destruct (db w) eqn:Ed; simpl; rewrite lookup_insert_eq; [|eauto].
    intros u [= <-]. apply wp_bind, wp_try_except, wp_commit, wp_refresh;
      simpl; rewrite lookup_insert_eq; [|eauto]. intros u [= <-]. done.
Qed.

Lemma wp_create_wallet owner data w now :
  wp (WalletService.create_wallet owner data) (create_wallet_outcome w now owner data)
    (at_log w [] now).
Proof.
  unfold WalletService.create_wallet, create_wallet_outcome, wallet_of. cbv zeta.
  apply wp_bind, wp_query. rewrite apply_writes_nil. taken.
  { by apply wp_bind, wp_raise_if. }
  apply wp_bind, wp_raise_if; [done|intros _].
  apply wp_bind, wp_bind, wp_uuid4, wp_bind.
  apply wp_add_flush; cbn [db tick next_seq]; rewrite apply_writes_nil; simpl.
  - intros e ->. split; [done|solve_untouched].
  - intros ->. apply wp_refresh; destruct (db w) eqn:Ed; simpl; rewrite lookup_insert_eq; [|eauto].
    intros u [= <-]. apply wp_bind, wp_try_except, wp_commit, wp_refresh;
      simpl; rewrite lookup_insert_eq; [|eauto]. intros u [= <-]. done.
Qed.
End outcomes.
