(* ===== verification/Publisher.v ===== *)
(** * Outbox publisher (src/app/events/publisher.py)

    The Kafka producer is third-party and duck-typed in the code: here it is
    the function [deliver], which tells for the messages of one batch what the
    delivery reports said by the time [flush] returned.  A message may still be
    outstanding then: confluent-kafka's [flush(timeout)] returns the number of
    messages left in the queue.  JSON text is written and read by the class
    [JsonCodec]. *)
From S2P Require Import Prelude PyValues Schema Session Repositories.

Class JsonCodec := {
  json_dumps : dict -> string;
  json_loads : string -> option dict;
  loads_dumps : forall d, json_loads (json_dumps d) = Some d }.

Inductive ack : Type := Acked | Failed (err : string) | Outstanding.
#[export] Instance ack_eq_dec : EqDecision ack.
Proof. solve_decision. Defined.

Module Message.
Record t := mk { topic : string; key : string; value : string; headers : list (string * string) }.
End Message.

(** What [consumer.poll(1.0)] returns: [None], a message with an [error()], or
    a message with a value. *)
Inductive polled := NoMessage | BrokerError (error : string) | Arrived (value : string).
Definition arrived (ps : list polled) : list string :=
  omap (fun p => match p with Arrived v => Some v | _ => None end) ps.

Section publisher.
Context `{JsonCodec}.

(** The arguments of [producer.produce(...)] for one event. *)
Definition message_of (topic : string) (e : OutboxEvent.row) : Message.t :=
  Message.mk topic (uuid_str (OutboxEvent.aggregate_id e))
    (json_dumps (OutboxEvent.payload e)) [("event_type", OutboxEvent.event_type e)].

(** [_on_delivery] collects the errors of the reports it is called with. *)
Definition _on_delivery (errors : list string) (a : ack) : list string :=
  match a with Failed err => errors ++ [err] | Acked | Outstanding => errors end.
Definition delivery_errors (acks : list ack) : list string := foldl _on_delivery [] acks.

Fixpoint mark_all (events : list OutboxEvent.row) : prog unit :=
  match events with
  | [] => mret tt
  | e :: events => OutboxRepository.mark_published e;; mark_all events
  end.

Definition publish_batch (deliver : list Message.t -> list ack) (topic : string)
    (batch_size : nat) : prog nat :=
  events ← OutboxRepository.fetch_unpublished batch_size;
  match events with
  | [] => mret 0
  | _ =>
      match delivery_errors (deliver (message_of topic <$> events)) with
      | [] => mark_all events;; mret (length events)
      | _ => Raise RuntimeError
      end
  end.

(** One turn of [run_forever]: a failure rolls back and is logged; the loop sleeps
    when nothing was published. *)
Definition publish_turn (deliver : list Message.t -> list ack) (topic : string)
    (batch_size : nat) : prog nat :=
  batch ← try_except (n ← publish_batch deliver topic batch_size; mret (Some n))
    (fun _ => Some (call Rollback;; mret None));
  match batch with
  | None => mret 0
  | Some published =>
      try_except (call Commit;; mret published) (fun _ => Some (call Rollback;; mret published))
  end.
End publisher.

Lemma no_delivery_error acks : Forall (fun a => forall err, a <> Failed err) acks ->
  delivery_errors acks = [].
Proof.
  unfold delivery_errors. induction 1 as [|a acks Ha _ IH]; [done|].
  destruct a as [|err|]; [exact IH|by destruct (Ha err)|exact IH].
Qed.

(** ** The outbox table *)

Definition pending_events (d : Database) : gmap uuid OutboxEvent.row :=
  filter (fun kv => OutboxEvent.published_at kv.2 = None) (outbox_events d).

Definition outbox_keyed (d : Database) : Prop :=
  forall i e, outbox_events d !! i = Some e -> OutboxEvent.id e = i.

(** Stamp the events [ids] with the times [ts]. *)
Definition stamp (o : gmap uuid OutboxEvent.row) (it : uuid * Z) : gmap uuid OutboxEvent.row :=
  alter (OutboxEvent.set_published_at it.2) it.1 o.
Definition with_outbox (d : Database) (o : gmap uuid OutboxEvent.row) : Database :=
  mkDatabase (users d) (wallets d) (transactions d) (ledger_entries d) o
    (processed_events d) (transaction_stats d).

(** Only [published_at] differs. *)
Definition same_event (e e' : OutboxEvent.row) : Prop :=
  OutboxEvent.id e' = OutboxEvent.id e /\
  OutboxEvent.aggregate_type e' = OutboxEvent.aggregate_type e /\
  OutboxEvent.aggregate_id e' = OutboxEvent.aggregate_id e /\
  OutboxEvent.event_type e' = OutboxEvent.event_type e /\
  OutboxEvent.payload e' = OutboxEvent.payload e /\
  OutboxEvent.created_at e' = OutboxEvent.created_at e.

Section facts.
Context `{Env}.

Lemma stamp_lookup o it i :
  stamp o it !! i = if decide (it.1 = i) then OutboxEvent.set_published_at it.2 <$> o !! i
                    else o !! i.
Proof.
  unfold stamp. rewrite lookup_alter. case_decide as E; [by rewrite E|done].
Qed.

Lemma stamps_lookup o its i :
  (i ∉ its.*1 -> foldl stamp o its !! i = o !! i) /\
  (i ∈ its.*1 -> forall e, o !! i = Some e ->
     exists t, foldl stamp o its !! i = Some (OutboxEvent.set_published_at t e)).
Proof.
  revert o. induction its as [|[j t] its IH]; intros o; simpl.
  { split; [done|]. by intros ?%elem_of_nil. }
  destruct (IH (stamp o (j, t))) as [IH1 IH2]. rewrite stamp_lookup in *. simpl in *.
  split.
  - intros [Hj Hi]%not_elem_of_cons. rewrite IH1, decide_False by auto. done.
  - intros Hi e He. destruct (decide (i ∈ its.*1)) as [Hin|Hnin].
    + destruct (decide (j = i)) as [->|Hne].
      * destruct (IH2 Hin (OutboxEvent.set_published_at t e)) as [t' Ht'].
        { by rewrite He. }
        exists t'. rewrite Ht'. by destruct e.
      * apply (IH2 Hin e He).
    + apply elem_of_cons in Hi as [->|Hi]; [|done].
      rewrite decide_True in IH1 by done. exists t. by rewrite IH1, He.
Qed.

(** Stamping the times of successive draws. *)
Fixpoint stamp_times (n : nat) (ids : list uuid) : list (uuid * Z) :=
  match ids with [] => [] | i :: ids => (i, clock n) :: stamp_times (S n) ids end.

Lemma stamp_times_fst n ids : (stamp_times n ids).*1 = ids.
Proof. revert n. induction ids as [|i ids IH]; intros n; simpl; [done|]. by rewrite IH. Qed.

Lemma wp_mark_all es Φ w L now :
  (forall w' L', untouched w w' ->
     apply_writes (db w) L' = with_outbox (apply_writes (db w) L)
       (foldl stamp (outbox_events (apply_writes (db w) L))
          (stamp_times (tick w) (OutboxEvent.id <$> es))) ->
     Φ (inr tt) (at_log w' L' now)) ->
  wp (mark_all es) Φ (at_log w L now).
Proof.
  revert w L. induction es as [|e es IH]; intros w L HΦ; simpl.
  - apply wp_ret, HΦ; [solve_untouched|]. simpl. by destruct (apply_writes (db w) L).
  - apply wp_bind. unfold OutboxRepository.mark_published.
    apply wp_bind, wp_now, wp_bind, wp_add_flush; [done|]. intros _.
    apply wp_ret. apply IH. intros w' L' Hu HL'. apply HΦ; [solve_untouched|].
    cbn [db] in *. rewrite HL', apply_writes_app. simpl.
    by destruct (apply_writes (db w) L).
Qed.

Lemma unpublished_elem limit d e :
  e ∈ OutboxRepository.unpublished limit d -> outbox_keyed d ->
  pending_events d !! OutboxEvent.id e = Some e.
Proof.
  unfold OutboxRepository.unpublished. intros He Hk.
  apply elem_of_take in He as (i & He & _). apply list_elem_of_lookup_2 in He.
  rewrite merge_sort_Permutation in He. apply list_elem_of_filter in He as [Hp He].
  apply list_elem_of_fmap in He as [[k e'] [-> Hin%elem_of_map_to_list]].
  simpl in *. apply Hk in Hin as Hid. rewrite Hid. apply map_lookup_filter_Some. done.
Qed.

(** The batch, the messages made of it, and the tables once it is stamped. *)
Definition stamped (d : Database) (t : nat) (es : list OutboxEvent.row) : Database :=
  with_outbox d (foldl stamp (outbox_events d) (stamp_times t (OutboxEvent.id <$> es))).

Context `{JsonCodec}.

Definition turn_outcome (deliver : list Message.t -> list ack) (topic : string) (n : nat)
    (w : World) (r : exn + nat) (w' : World) : Prop :=
  let es := OutboxRepository.unpublished n (db w) in
  untouched (mkWorld (db w') (next_seq w) (tick w)) w' /\
  if decide (es <> [] /\ delivery_errors (deliver (message_of topic <$> es)) <> [])
  then r = inr 0 /\ db w' = db w
  else r = inr (length es) /\ db w' = stamped (db w) (tick w) es.

Lemma wp_publish_turn deliver topic n w now :
  wp (publish_turn deliver topic n) (fun r s' => turn_outcome deliver topic n w r s'.1)
    (at_log w [] now).
Proof.
  unfold publish_turn, publish_batch, turn_outcome. set (es := OutboxRepository.unpublished n (db w)).
  apply wp_bind, wp_try_except, wp_bind, wp_bind, wp_query. rewrite apply_writes_nil. fold es.
  destruct es as [|e es'] eqn:Ees.
  - apply wp_ret, wp_ret, wp_try_except, wp_bind, wp_commit, wp_ret. rewrite decide_False by tauto. simpl.
    split; [solve_untouched|]. unfold stamped. simpl. by destruct (db w).
  - destruct (delivery_errors _) as [|err errs] eqn:Eerr.
    + apply wp_bind, wp_mark_all. intros w' L' Hu HL'. rewrite apply_writes_nil in HL'.
      apply wp_ret, wp_ret, wp_try_except, wp_bind, wp_commit, wp_ret. simpl. split; [solve_untouched|].
      split; [done|].
      destruct Hu as [Hdb _]. rewrite Hdb in *. exact HL'.
    + apply wp_raise, wp_bind, wp_rollback, wp_ret, wp_ret. simpl. split; [solve_untouched|].
      done.
Qed.

(** ** Draining *)
Lemma unpublished_NoDup n d : outbox_keyed d ->
  NoDup (OutboxEvent.id <$> OutboxRepository.unpublished n d).
Proof.
  intros Hk. unfold OutboxRepository.unpublished.
  rewrite fmap_take. eapply sublist_NoDup; [|apply sublist_take].
  rewrite merge_sort_Permutation.
  apply NoDup_fmap_filter.
  rewrite <- list_fmap_compose.
  rewrite (list_fmap_ext _ fst).
  - apply NoDup_fst_map_to_list.
  - intros i [k e] He. simpl. apply Hk. apply elem_of_map_to_list.
    by eapply list_elem_of_lookup_2.
Qed.

Lemma stamped_none d t es i : outbox_events d !! i = None ->
  outbox_events (stamped d t es) !! i = None.
Proof.
  simpl. generalize (stamp_times t (OutboxEvent.id <$> es)). generalize (outbox_events d).
  intros o its. revert o. induction its as [|[j u] its IH]; simpl; intros o Hi; [done|].
  apply IH. rewrite stamp_lookup. simpl. case_decide; [by rewrite Hi|done].
Qed.

Lemma pending_stamped d t es : outbox_keyed d ->
  pending_events (stamped d t es) =
    filter (fun ke => ke.1 ∉ (OutboxEvent.id <$> es)) (pending_events d).
Proof.
  intros Hk. apply map_eq. intros i. apply option_eq. intros e.
  unfold pending_events. rewrite !map_lookup_filter_Some. simpl.
  destruct (stamps_lookup (outbox_events d) (stamp_times t (OutboxEvent.id <$> es)) i) as [H1 H2].
  rewrite stamp_times_fst in H1, H2. split.
  - intros [Hi Hp]. destruct (decide (i ∈ OutboxEvent.id <$> es)) as [Hin|Hnin].
    + destruct (outbox_events d !! i) as [e'|] eqn:Ei.
      * destruct (H2 Hin e' eq_refl) as [t' Ht']. rewrite Ht' in Hi.
        injection Hi as <-. done.
      * apply (stamped_none d t es i) in Ei. simpl in Ei. congruence.
    + rewrite H1 in Hi by done. done.
  - intros [[Hi Hp] Hnin]. by rewrite H1.
Qed.

Lemma length_unpublished n d :
  length (OutboxRepository.unpublished n d) = n `min` size (pending_events d).
Proof.
  unfold OutboxRepository.unpublished. rewrite length_take. f_equal.
  rewrite merge_sort_Permutation. apply length_filter_values.
Qed.

Lemma pending_after n d t : outbox_keyed d ->
  size (pending_events (stamped d t (OutboxRepository.unpublished n d))) =
    size (pending_events d) - n.
Proof.
  intros Hk. rewrite pending_stamped by done. rewrite size_filter_not_in.
  - rewrite length_fmap, length_unpublished. lia.
  - by apply unpublished_NoDup.
  - intros i (e & -> & He)%list_elem_of_fmap. eauto using unpublished_elem.
Qed.

Lemma stamped_event d t es i e : outbox_events d !! i = Some e ->
  exists e', outbox_events (stamped d t es) !! i = Some e' /\ same_event e e' /\
    (i ∉ (OutboxEvent.id <$> es) -> e' = e).
Proof.
  intros Hi. destruct (stamps_lookup (outbox_events d) (stamp_times t (OutboxEvent.id <$> es)) i)
    as [H1 H2]. rewrite stamp_times_fst in H1, H2.
  destruct (decide (i ∈ OutboxEvent.id <$> es)) as [Hin|Hnin].
  - destruct (H2 Hin e Hi) as [t' Ht']. exists (OutboxEvent.set_published_at t' e).
    by repeat split.
  - exists e. simpl. rewrite (H1 Hnin). by repeat split.
Qed.

Lemma stamped_keyed d t es : outbox_keyed d -> outbox_keyed (stamped d t es).
Proof.
  intros Hk i e Hi. destruct (outbox_events d !! i) as [e0|] eqn:E0.
  - destruct (stamped_event d t es i e0 E0) as (e' & He' & Hs & _).
    assert (e' = e) as <- by congruence. destruct Hs as [-> _]. by apply Hk.
  - exfalso. apply (stamped_none d t es i) in E0. congruence.
Qed.

(** [k] turns of the loop, each on a session of its own. *)
Fixpoint turns (deliver : list Message.t -> list ack) (topic : string) (n k : nat)
    (w : World) : World :=
  match k with
  | O => w
  | S k =>
      turns deliver topic n k
        (run (publish_turn deliver topic n) (w, fresh_local (clock (tick w)))).2.1
  end.

(** With a broker that reports no error, every turn publishes a full batch
    or all there is. *)
Lemma turns_drain deliver topic n k w :
  (forall ms, delivery_errors (deliver ms) = []) -> outbox_keyed (db w) ->
  size (pending_events (db (turns deliver topic n k w))) = size (pending_events (db w)) - k * n.
Proof.
  intros Hd. revert w. induction k as [|k IH]; intros w Hk; simpl; [lia|].
  pose proof (proj1 (wp_run _ _ _)
    (wp_publish_turn deliver topic n w (clock (tick w)))) as [_ Ht].
  rewrite decide_False in Ht by (intros [_ Hne]; apply Hne, Hd). destruct Ht as [_ Ht].
  unfold fresh_local. rewrite IH, Ht by (rewrite Ht; by apply stamped_keyed).
  rewrite pending_after by done. lia.
Qed.
End facts.
