(* ===== verification/Analytics.v ===== *)
(** * Analytics consumer (src/app/services/analytics_service.py,
    src/app/events/run_analytics_consumer.py)

    One event applied to the rollup, and the loop body that hands Kafka
    messages to it, each on a session of its own. *)
From S2P Require Import Prelude PyValues Schema Session Repositories Publisher.
From stdpp Require Import pretty.

Module AnalyticsService.
Definition CONSUMER_NAME : string := "analytics".

(** [payload[key]] *)
Definition item (payload : dict) (key : string) : prog json := or_raise (payload !! key) KeyError.

(** [uuid.UUID(x)]: a number has no [.replace], and None is no argument at all. *)
Definition to_uuid (x : json) : prog uuid :=
  match x with
  | JStr s => or_raise (uuid_parse s) ValueError
  | JInt _ => Raise AttributeError
  | JNull => Raise TypeError
  end.

(** [int(x)] *)
Definition to_int (x : json) : prog Z :=
  match x with
  | JInt z => mret z
  | JStr s => or_raise (int_of_string s) ValueError
  | JNull => Raise TypeError
  end.

(** A value bound to a VARCHAR column of the key: the driver renders the
    parameter with a cast, so a number becomes its text, and NULL is refused. *)
Definition to_text (x : json) : prog string :=
  match x with
  | JStr s => mret s
  | JInt z => mret (pretty z)
  | JNull => Raise (DBError IntegrityError)
  end.

Definition handle_event (payload : dict) : prog bool :=
  raw_id ← item payload "transaction_id";
  txn_id ← to_uuid raw_id;
  seen ← ProcessedEventRepository.is_processed CONSUMER_NAME txn_id;
  if (seen : bool) then mret false else
    ProcessedEventRepository.mark_processed CONSUMER_NAME txn_id;;
    currency ← item payload "currency";
    type ← item payload "type";
    raw_amount ← item payload "amount";
    amount ← to_int raw_amount;
    currency ← to_text currency;
    type ← to_text type;
    TransactionStatRepository.increment currency type amount;;
    try_except (call Commit;; mret true)
      (fun e => if is_integrity_error e then Some (call Rollback;; mret false) else None).
End AnalyticsService.

Section worker.
Context `{Env} `{JsonCodec}.

(** The body of the loop for one message: a fresh session, every handler
    exception logged and dropped, the session closed (which discards what is
    not committed).  An undecodable message ends the loop ([None]);
    otherwise the offset is committed, whatever the handler did. *)
Definition consume (value : string) (w : World) : option ((exn + bool) * World) :=
  match json_loads value with
  | None => None
  | Some payload =>
      let '(r, s') := run (AnalyticsService.handle_event payload)
                        (w, fresh_local (clock (tick w))) in
      Some (r, s'.1)
  end.

Fixpoint consume_all (values : list string) (w : World) : option World :=
  match values with
  | [] => Some w
  | v :: values =>
      match consume v w with
      | None => None
      | Some (_, w') => consume_all values w'
      end
  end.

(** The loop of [main] over what [poll] returns. *)
Fixpoint main (polls : list polled) (w : World) : option World :=
  match polls with
  | [] => Some w
  | NoMessage :: polls | BrokerError _ :: polls => main polls w
  | Arrived v :: polls =>
      match consume v w with
      | None => None
      | Some (_, w') => main polls w'
      end
  end.

Lemma main_messages polls w : main polls w = consume_all (arrived polls) w.
Proof.
  revert w. induction polls as [|[|e|v] polls IH]; intros w; [done|apply IH..|]. cbn -[consume].
  destruct (consume v w) as [[r w']|]; [apply IH|done].
Qed.
End worker.

(** ** What an event means to the rollup *)
Record stat_event := StatEvent {
  se_txn : uuid; se_currency : string; se_type : string; se_amount : Z }.

(** The payload carries the event [e] (and, like every published payload, more keys). *)
Definition carries (payload : dict) (e : stat_event) : Prop :=
  (exists s, payload !! "transaction_id" = Some (JStr s) /\ uuid_parse s = Some (se_txn e)) /\
  payload !! "currency" = Some (JStr (se_currency e)) /\
  payload !! "type" = Some (JStr (se_type e)) /\
  payload !! "amount" = Some (JInt (se_amount e)).

Definition seen (d : Database) (t : uuid) : Prop :=
  is_Some (processed_events d !! (AnalyticsService.CONSUMER_NAME, t)).
#[export] Instance seen_dec d t : Decision (seen d t).
Proof. unfold seen. apply _. Defined.

(** The counters of a (currency, type) row; a missing row counts as zeros. *)
Definition stat_of (d : Database) (k : string * string) : Z * Z :=
  match transaction_stats d !! k with
  | Some s => (TransactionStat.count s, TransactionStat.total_amount s)
  | None => (0, 0)%Z
  end.

Definition bumped (d : Database) (now : Z) (e : stat_event) : Database :=
  let k := (se_currency e, se_type e) in
  mkDatabase (users d) (wallets d) (transactions d) (ledger_entries d) (outbox_events d)
    (<[(AnalyticsService.CONSUMER_NAME, se_txn e) :=
         ProcessedEvent.mk AnalyticsService.CONSUMER_NAME (se_txn e) now]> (processed_events d))
    (<[k := TransactionStat.mk (se_currency e) (se_type e) ((stat_of d k).1 + 1)
              ((stat_of d k).2 + se_amount e) now]> (transaction_stats d)).

(** The rollup row the event leads to fits its columns. *)
Definition event_fits (d : Database) (e : stat_event) : bool :=
  let k := (se_currency e, se_type e) in
  stat_data_ok (se_currency e) (se_type e) ((stat_of d k).1 + 1) ((stat_of d k).2 + se_amount e).

Section facts.
Context `{Env}.

Lemma wp_item payload k v Φ w L now : payload !! k = Some v ->
  Φ (inr v) (at_log w L now) -> wp (AnalyticsService.item payload k) Φ (at_log w L now).
Proof. intros Hk HΦ. unfold AnalyticsService.item. rewrite Hk. by apply wp_ret. Qed.

Definition with_stat (d : Database) (now : Z) (cur ty : string) (a : Z) : Database :=
  mkDatabase (users d) (wallets d) (transactions d) (ledger_entries d) (outbox_events d)
    (processed_events d)
    (<[(cur, ty) := TransactionStat.mk cur ty ((stat_of d (cur, ty)).1 + 1)
                      ((stat_of d (cur, ty)).2 + a) now]> (transaction_stats d)).

Lemma wp_increment cur ty a Φ w L now :
  let d := apply_writes (db w) L in
  let ok := stat_data_ok cur ty ((stat_of d (cur, ty)).1 + 1) ((stat_of d (cur, ty)).2 + a) in
  (ok = false -> forall l, Φ (inl (DBError DataError)) (w, l)) ->
  (ok = true -> forall L', apply_writes (db w) L' = with_stat d now cur ty a ->
     Φ (inr tt) (at_log w L' now)) ->
  wp (TransactionStatRepository.increment cur ty a) Φ (at_log w L now).
Proof.
  intros d ok Hno Hok. unfold TransactionStatRepository.increment.
  apply wp_bind, wp_query. fold d. unfold with_stat, stat_of in *.
  destruct w as [D n t]. simpl in *.
  destruct (transaction_stats d !! (cur, ty)) as [st|] eqn:Est; simpl in *.
  - apply wp_add_flush; unfold violation; simpl; fold ok; destruct ok; try done; simpl.
    + by intros err [= <-]; apply Hno.
    + intros _. apply Hok; [done|]. rewrite apply_writes_app. fold d. by destruct d.
  - apply wp_add_flush; fold d; unfold violation; simpl;
      rewrite (bool_decide_eq_true_2 _ Est); fold ok; destruct ok; try done; simpl.
    + by intros err [= <-]; apply Hno.
    + intros _. apply Hok; [done|]. rewrite apply_writes_app. fold d. by destruct d.
Qed.

Lemma wp_handle_event payload e w now : carries payload e ->
  wp (AnalyticsService.handle_event payload) (fun r s' =>
    if decide (seen (db w) (se_txn e)) then r = inr false /\ s'.1 = w
    else if event_fits (db w) e
    then r = inr true /\ s'.1 = mkWorld (bumped (db w) now e) (next_seq w) (tick w)
    else r = inl (DBError DataError) /\ s'.1 = w)
    (at_log w [] now).
Proof.
  intros ((s & Hs & Hid) & Hcur & Hty & Ham). unfold AnalyticsService.handle_event.
  apply wp_bind. eapply wp_item; [done|]. apply wp_bind. unfold AnalyticsService.to_uuid.
  rewrite Hid. apply wp_ret, wp_bind, wp_query. rewrite apply_writes_nil. fold (seen (db w) (se_txn e)).
  case_decide as Hseen; [rewrite bool_decide_eq_true_2 by done; by apply wp_ret|].
  rewrite bool_decide_eq_false_2 by done.
  apply wp_bind, wp_add_flush; rewrite apply_writes_nil.
  { intros err. unfold violation. simpl. rewrite bool_decide_eq_true_2; [done|].
    unfold seen in Hseen. by apply eq_None_not_Some. }
  intros _. do 3 (apply wp_bind; eapply wp_item; [done|]).
  do 3 (apply wp_bind, wp_ret). apply wp_bind, wp_increment; unfold event_fits, bumped, stat_of;
    destruct w as [[us ws ts es os ps ss] n t];
    match goal with |- context [apply_writes ?d ?l] =>
      change (transaction_stats (apply_writes d l)) with ss end; simpl; intros ->; [done|].
  intros L' HL'. apply wp_try_except, wp_bind, wp_commit, wp_ret. simpl. by rewrite HL'.
Qed.

(** ** Sequences of deliveries *)
Context `{JsonCodec}.

(** The reference: each transaction counts at its first delivery. *)
Fixpoint first_deliveries (done : gset uuid) (es : list stat_event) : list stat_event :=
  match es with
  | [] => []
  | e :: es =>
      if decide (se_txn e ∈ done) then first_deliveries done es
      else e :: first_deliveries ({[se_txn e]} ∪ done) es
  end.

Definition of_key (k : string * string) (es : list stat_event) : list stat_event :=
  filter (fun e => (se_currency e, se_type e) = k) es.

(** The events' own columns fit, and the counters cannot leave BIGINT even if
    every delivery counted. *)
Definition event_ok (e : stat_event) : Prop :=
  varchar 3 (se_currency e) = true /\ varchar 20 (se_type e) = true /\ (0 <= se_amount e)%Z.
Definition room (d : Database) (es : list stat_event) : Prop :=
  forall k, (bigint_min <= (stat_of d k).1 /\ (stat_of d k).1 + Z.of_nat (length es) <= bigint_max /\
             bigint_min <= (stat_of d k).2 /\
             (stat_of d k).2 + zsum (se_amount <$> es) <= bigint_max)%Z.

(** The counters of [d], moved on by the events [es]. *)
Definition counted (d : Database) (es : list stat_event) (k : string * string) : Z * Z :=
  ((stat_of d k).1 + Z.of_nat (length (of_key k es)), (stat_of d k).2 + zsum (se_amount <$> of_key k es))%Z.

Definition processed_txns (d : Database) : gset uuid :=
  set_omap (fun k : string * uuid =>
    if decide (k.1 = AnalyticsService.CONSUMER_NAME) then Some k.2 else None)
    (dom (processed_events d)).

Lemma elem_of_processed_txns d t : t ∈ processed_txns d <-> seen d t.
Proof.
  unfold processed_txns, seen. rewrite elem_of_set_omap. split.
  - intros ([c t'] & Hin & Hc). simpl in Hc. case_decide; [|done]. simplify_eq/=.
    by apply elem_of_dom.
  - intros Hs. exists (AnalyticsService.CONSUMER_NAME, t). rewrite elem_of_dom. by split.
Qed.

Lemma stat_of_bumped d now e k :
  stat_of (bumped d now e) k =
    if decide ((se_currency e, se_type e) = k)
    then ((stat_of d k).1 + 1, (stat_of d k).2 + se_amount e)%Z else stat_of d k.
Proof.
  unfold stat_of at 1, bumped. cbn [transaction_stats]. rewrite lookup_insert.
  case_decide as E; [by subst|done].
Qed.

Lemma seen_bumped d now e t : seen (bumped d now e) t <-> t = se_txn e \/ seen d t.
Proof.
  unfold seen, bumped. cbn [processed_events]. rewrite lookup_insert_is_Some'.
  split; intros [Ht|Ht]; simplify_eq; auto.
Qed.

Lemma processed_bumped d now e :
  processed_txns (bumped d now e) = {[se_txn e]} ∪ processed_txns d.
Proof.
  apply set_eq. intros t. rewrite elem_of_union, elem_of_singleton, !elem_of_processed_txns.
  apply seen_bumped.
Qed.

Lemma room_fits d e es : event_ok e -> Forall event_ok es -> room d (e :: es) ->
  event_fits d e = true.
Proof.
  intros (Hc & Ht & Ha) Hes Hr. specialize (Hr (se_currency e, se_type e)).
  assert (0 <= zsum (se_amount <$> es))%Z.
  { apply zsum_map_nonneg. intros x Hx. rewrite Forall_forall in Hes. by apply Hes. }
  unfold event_fits, stat_data_ok. rewrite Hc, Ht. cbn [andb].
  rewrite fmap_cons, zsum_cons, length_cons in Hr.
  rewrite andb_true_iff, !in_bigint_spec. lia.
Qed.

Lemma room_tail d e es : event_ok e -> room d (e :: es) -> room d es.
Proof.
  intros (_ & _ & Ha) Hr k. specialize (Hr k).
  rewrite fmap_cons, zsum_cons, length_cons in Hr. lia.
Qed.

Lemma room_bumped d now e es : event_ok e -> room d (e :: es) -> room (bumped d now e) es.
Proof.
  intros (_ & _ & Ha) Hr k. specialize (Hr k). rewrite stat_of_bumped.
  rewrite fmap_cons, zsum_cons, length_cons in Hr. case_decide; simpl; lia.
Qed.

Lemma counted_bumped d now e es k : counted (bumped d now e) es k = counted d (e :: es) k.
Proof.
  unfold counted, of_key. rewrite stat_of_bumped, filter_cons.
  case_decide; [|done]. rewrite fmap_cons, zsum_cons, length_cons. simpl. f_equal; lia.
Qed.

(** One delivery: the worker's loop body on a message that carries [e]. *)
Lemma consume_event v payload e w : json_loads v = Some payload -> carries payload e ->
  exists r, consume v w = Some (r,
    if decide (seen (db w) (se_txn e)) then w
    else if event_fits (db w) e then mkWorld (bumped (db w) (clock (tick w)) e) (next_seq w) (tick w)
    else w).
Proof.
  intros Hv Hc. unfold consume. rewrite Hv.
  pose proof (proj1 (wp_run _ _ _) (wp_handle_event payload e w (clock (tick w)) Hc)) as Hw.
  unfold fresh_local. destruct (run _ _) as [r s']. simpl in Hw. exists r.
  by repeat case_match; destruct Hw as [_ ->].
Qed.

(** What the deliveries [es] lead to: [w'] against [w]. *)
Definition rolled_up (w w' : World) (es : list stat_event) : Prop :=
  let firsts := first_deliveries (processed_txns (db w)) es in
  (forall k, stat_of (db w') k = counted (db w) firsts k) /\
  processed_txns (db w') = processed_txns (db w) ∪ list_to_set (se_txn <$> es) /\
  wallets (db w') = wallets (db w) /\ transactions (db w') = transactions (db w) /\
  ledger_entries (db w') = ledger_entries (db w) /\ outbox_events (db w') = outbox_events (db w).

Lemma consume_all_spec vs es w :
  Forall2 (fun v e => exists payload, json_loads v = Some payload /\ carries payload e) vs es ->
  Forall event_ok es -> room (db w) es ->
  exists w', consume_all vs w = Some w' /\ rolled_up w w' es.
Proof.
  intros Hvs. revert w. induction Hvs as [|v e vs es (payload & Hv & Hc) _ IH]; intros w Hok Hr.
  - exists w. split; [done|]. split; [|set_solver].
    intros k. unfold counted. simpl. destruct (stat_of (db w) k). simpl. f_equal; lia.
  - apply Forall_cons in Hok as [He Hes].
    destruct (consume_event v payload e w Hv Hc) as [r Hstep]. rewrite (room_fits (db w) e es) in Hstep by eauto.
    simpl. rewrite Hstep. unfold rolled_up. cbn [first_deliveries fmap list_fmap list_to_set].
    destruct (decide (seen (db w) (se_txn e))) as [Hs|Hs].
    + destruct (IH w) as (w' & Hw' & Hst & Hp & Hrest); eauto using room_tail.
      exists w'. split; [done|]. rewrite decide_True by by apply elem_of_processed_txns.
      split; [done|]. split; [|done]. rewrite Hp. apply elem_of_processed_txns in Hs. set_solver.
    + destruct (IH (mkWorld (bumped (db w) (clock (tick w)) e) (next_seq w) (tick w)))
        as (w' & Hw' & Hst & Hp & Hrest); eauto using room_bumped.
      exists w'. split; [done|]. rewrite decide_False by by rewrite elem_of_processed_txns.
      cbn [db] in *. rewrite processed_bumped in *. split; [|split; [|done]].
      * intros k. rewrite Hst. apply counted_bumped.
      * rewrite Hp. set_solver.
Qed.
End facts.
