(* ===== verification/Notification.v ===== *)
(** * Notification consumer (src/app/events/consumer.py)

    [NotificationConsumer] with its in-memory set of seen transaction ids and a
    handler (a constructor argument of the class, so a parameter here; the
    default one writes a log line), and the consumer loop over the messages of the partition: an offset
    is committed only after its message was handled, and any exception ends the
    loop. *)
From S2P Require Import Prelude PyValues Publisher.

Module NotificationConsumer.
Section consumer.
Context {St : Type}.
Variable handler : dict -> St -> bool * St.   (* false: the handler raised *)

(** [payload.get("transaction_id")]: [None], as JSON's null, when it is missing. *)
Definition event_id (payload : dict) : json := default JNull (payload !! "transaction_id").

Record state := State { seen : gset json; world : St }.

(** [None]: the handler's exception; the id is then not added to [seen]. *)
Definition handle_event (payload : dict) (s : state) : option bool * state :=
  let txn_id := event_id payload in
  if decide (txn_id ∈ seen s) then (Some false, s)
  else
    let '(ok, st) := handler payload (world s) in
    if ok then (Some true, State ({[txn_id]} ∪ seen s) st)
    else (None, State (seen s) st).

(** The loop over the messages still to come, with the number of offsets
    committed.  It goes on while messages decode and the handler returns. *)
Fixpoint run_forever `{JsonCodec} (values : list string) (s : state) : nat * state :=
  match values with
  | [] => (0, s)
  | v :: values =>
      match json_loads v with
      | None => (0, s)
      | Some payload =>
          match handle_event payload s with
          | (None, s) => (0, s)
          | (Some _, s) => let '(n, s) := run_forever values s in (S n, s)
          end
      end
  end.

(** The same loop over what [poll] returns: nothing and errors are passed over. *)
Fixpoint poll_forever `{JsonCodec} (polls : list polled) (s : state) : nat * state :=
  match polls with
  | [] => (0, s)
  | NoMessage :: polls | BrokerError _ :: polls => poll_forever polls s
  | Arrived v :: polls =>
      match json_loads v with
      | None => (0, s)
      | Some payload =>
          match handle_event payload s with
          | (None, s) => (0, s)
          | (Some _, s) => let '(n, s) := poll_forever polls s in (S n, s)
          end
      end
  end.
End consumer.

(** What [_default_handler] logs: five fields, [None] where one is missing. *)
Definition notice (payload : dict) : list json :=
  (fun k => default JNull (payload !! k)) <$> ["type"; "status"; "amount"; "currency"; "wallet_id"].
Definition _default_handler (payload : dict) (lines : list (list json)) : bool * list (list json) :=
  (true, lines ++ [notice payload]).
End NotificationConsumer.
Import NotificationConsumer.

(** ** Specification *)

(** The first event of each id not in [done], in order. *)
Fixpoint first_events (done : gset json) (ps : list dict) : list dict :=
  match ps with
  | [] => []
  | p :: ps =>
      if decide (event_id p ∈ done) then first_events done ps
      else p :: first_events ({[event_id p]} ∪ done) ps
  end.

(** A handler that writes down what it is given, and fails on the events [bad]. *)
Definition recorder (bad : dict -> bool) (p : dict) (log : list dict) : bool * list dict :=
  if bad p then (false, log) else (true, log ++ [p]).

Section facts.
Context `{JsonCodec}.

Lemma run_recorder vs ps s : Forall2 (fun v p => json_loads v = Some p) vs ps ->
  run_forever (recorder (fun _ => false)) vs s =
    (length vs, State (seen s ∪ list_to_set (event_id <$> ps)) (world s ++ first_events (seen s) ps)).
Proof.
  intros Hvs. revert s. induction Hvs as [|v p vs ps Hv _ IH]; intros [sn lg]; simpl.
  - rewrite app_nil_r. by rewrite union_empty_r_L.
  - rewrite Hv. unfold handle_event. simpl. case_decide as Hin; rewrite IH; simpl.
    + f_equal. apply (f_equal2 State); [apply set_eq; set_solver|done].
    + rewrite <- app_assoc. f_equal. apply (f_equal2 State); [apply set_eq; set_solver|done].
Qed.

Lemma poll_messages {St} (handler : dict -> St -> bool * St) polls s :
  poll_forever handler polls s = run_forever handler (arrived polls) s.
Proof.
  revert s. induction polls as [|[|e|v] polls IH]; intros s; [done|apply IH..|]. cbn [arrived omap list_omap].
  simpl. destruct (json_loads v); [|done]. destruct (handle_event _ _ _) as [[b|] s']; [|done]. by rewrite IH.
Qed.

(** The default handler logs each event once. *)
Lemma default_notices vs ps sn lines : Forall2 (fun v p => json_loads v = Some p) vs ps ->
  (run_forever _default_handler vs (State sn lines)).1 = length vs /\
  world (run_forever _default_handler vs (State sn lines)).2 = lines ++ (notice <$> first_events sn ps).
Proof.
  intros Hvs. revert sn lines. induction Hvs as [|v p vs ps Hv _ IH]; intros sn lines; simpl; [by rewrite app_nil_r|].
  rewrite Hv. unfold handle_event, _default_handler. simpl. case_decide as Hin.
  - specialize (IH sn lines). destruct (run_forever _ vs _) as [n s']. destruct IH as [<- Hw]. done.
  - specialize (IH ({[event_id p]} ∪ sn) (lines ++ [notice p])).
    destruct (run_forever _ vs _) as [n s']. destruct IH as [<- Hw]. split; [done|].
    simpl in *. by rewrite Hw, <- app_assoc.
Qed.

(** With failures: what was committed was handled. *)
Lemma run_committed bad vs ps s n s' : Forall2 (fun v p => json_loads v = Some p) vs ps ->
  run_forever (recorder bad) vs s = (n, s') ->
  n <= length vs /\
  world s' = world s ++ first_events (seen s) (take n ps) /\
  seen s' = seen s ∪ list_to_set (event_id <$> take n ps) /\
  (n < length vs -> exists p, ps !! n = Some p /\ bad p = true /\ event_id p ∉ seen s').
Proof.
  intros Hvs. revert s n s'.
  induction Hvs as [|v p vs ps Hv _ IH]; intros [sn lg] n s'; simpl.
  { intros [= <- <-]. simpl. rewrite app_nil_r, union_empty_r_L. repeat split; [lia|]. lia. }
  rewrite Hv. unfold handle_event, recorder. simpl. case_decide as Hin.
  - destruct (run_forever _ vs _) as [k s1] eqn:E. intros [= <- <-].
    apply IH in E as (Hle & Hw & Hs & Hbad). simpl in *. rewrite decide_True by done.
    split; [lia|]. split; [done|]. split; [rewrite Hs; set_solver|].
    intros Hlt. apply Hbad. lia.
  - destruct (bad p) eqn:Eb.
    + intros [= <- <-]. simpl. rewrite app_nil_r, union_empty_r_L. repeat split; [lia|].
      intros _. eauto.
    + destruct (run_forever _ vs _) as [k s1] eqn:E. intros [= <- <-].
      apply IH in E as (Hle & Hw & Hs & Hbad). simpl in *. rewrite decide_False by done.
      split; [lia|]. split; [rewrite Hw, <- app_assoc; done|]. split; [rewrite Hs; set_solver|].
      intros Hlt. apply Hbad. lia.
Qed.

(** A restart reads on from the committed offset, with an empty set. *)
Definition life (bad : dict -> bool) (vs : list string) (log : list dict) : nat * list dict :=
  let '(n, s) := run_forever (recorder bad) vs (State ∅ log) in (n, world s).

Fixpoint lives (bads : list (dict -> bool)) (vs : list string) (log : list dict)
    : list string * list dict :=
  match bads with
  | [] => (vs, log)
  | bad :: bads => let '(n, log) := life bad vs log in lives bads (drop n vs) log
  end.

Lemma first_events_covers done ps p : p ∈ ps -> event_id p ∉ done ->
  exists q, q ∈ first_events done ps /\ event_id q = event_id p.
Proof.
  revert done. induction ps as [|p0 ps IH]; intros done Hp Hd; [by apply elem_of_nil in Hp|].
  simpl. apply elem_of_cons in Hp as [->|Hp].
  - rewrite decide_False by done. exists p0. set_solver.
  - case_decide as E; [by apply IH|]. destruct (decide (event_id p = event_id p0)) as [Eq|Ne].
    + exists p0. rewrite Eq. set_solver.
    + destruct (IH ({[event_id p0]} ∪ done) Hp) as (q & Hq & Eq); [set_solver|]. exists q. set_solver.
Qed.

(** Every message whose offset was committed, in any life, was notified. *)
Lemma lives_notified bads vs ps log rest log' :
  Forall2 (fun v p => json_loads v = Some p) vs ps -> lives bads vs log = (rest, log') ->
  exists n, rest = drop n vs /\ log `prefix_of` log' /\
    forall p, p ∈ take n ps -> exists q, q ∈ log' /\ event_id q = event_id p.
Proof.
  revert vs ps log. induction bads as [|bad bads IH]; intros vs ps log Hvs; simpl.
  { intros [= <- <-]. exists 0. split; [done|]. split; [done|]. intros p Hp. simpl in Hp.
    by apply elem_of_nil in Hp. }
  unfold life. destruct (run_forever _ vs _) as [n s] eqn:E. intros Hl.
  destruct (run_committed _ _ _ _ _ _ Hvs E) as (Hle & Hw & _ & _). simpl in Hw.
  assert (Hvs' : Forall2 (fun v p => json_loads v = Some p) (drop n vs) (drop n ps))
    by by apply Forall2_drop.
  destruct (IH _ _ _ Hvs' Hl) as (m & -> & Hpre & Hcov). exists (n + m).
  rewrite drop_drop. split; [f_equal; lia|]. split.
  - etrans; [|exact Hpre]. rewrite Hw. by apply prefix_app_r.
  - intros p Hp. rewrite <- (take_drop n (take (n + m) ps)) in Hp.
    apply elem_of_app in Hp as [Hp|Hp].
    + rewrite take_take, Nat.min_l in Hp by lia.
      destruct (first_events_covers ∅ _ p Hp) as (q & Hq & Heq); [set_solver|]. exists q.
      split; [|done]. eapply elem_of_prefix; [|exact Hpre]. rewrite Hw. set_solver.
    + rewrite <- take_drop_commute in Hp. by apply Hcov.
Qed.
End facts.
