(* ===== verification/Kafka.v ===== *)
(** * Kafka (src/app/events/producer.py, run_publisher.py, run_consumer.py)

    The configuration of the producer and of the consumers, and what the code
    relies on the cluster for.  The cluster is third-party: any state [K] with the
    documented behaviour of appending messages and of committing offsets, under
    the configuration given ([Kafka]).  What a consumer group has read stays read:
    the lemmas on [group_ok]. *)
From S2P Require Import Prelude PyValues Schema Session Repositories Security Publisher.

(** ** Factories *)
Record producer_config := ProducerConfig {
  pc_bootstrap_servers : string; pc_enable_idempotence : bool; pc_acks : string }.

Record consumer_config := ConsumerConfig {
  cc_bootstrap_servers : string; cc_group_id : string; cc_auto_offset_reset : string;
  cc_enable_auto_commit : bool }.

Definition build_producer (st : Settings.t) : producer_config :=
  ProducerConfig (Settings.kafka_bootstrap_servers st) true "all".

Definition build_consumer (st : Settings.t) (group_id : string) : consumer_config :=
  ConsumerConfig (Settings.kafka_bootstrap_servers st) group_id "earliest" false.

(** [OutboxPublisher(producer)] with its defaults; the timeout is in seconds. *)
Module OutboxPublisher.
Record t := mk { topic : string; batch_size : nat; flush_timeout : Z }.
Definition init (st : Settings.t) (topic : option string) : t :=
  mk (default (Settings.kafka_topic_transactions st) (truthy topic)) 100 10.
End OutboxPublisher.

(** The consumers the two entry points build. *)
Definition analytics_consumer (st : Settings.t) : consumer_config := build_consumer st "analytics-consumer".
Definition notification_consumer (st : Settings.t) : consumer_config := build_consumer st "notification-consumer".

(** ** The cluster *)
Class Kafka (K : Type) := {
  stored : K -> string -> nat -> list Message.t;           (* topic, partition *)
  committed : K -> string -> string -> nat -> option nat;  (* group, topic, partition *)
  (* messages handed to [produce], the delivery reports by the time [flush] returned *)
  produced : producer_config -> list Message.t -> list ack -> K -> K -> Prop;
  (* group, topic, partition, offset *)
  offset_committed : string -> string -> nat -> nat -> K -> K -> Prop;
  produced_appends cfg ms acks k k' : produced cfg ms acks k k' -> forall topic p,
    exists l, stored k' topic p = stored k topic p ++ l /\ forall m, m ∈ l -> m ∈ ms /\ Message.topic m = topic;
  produced_acked cfg ms acks k k' : pc_acks cfg = "all" -> produced cfg ms acks k k' ->
    forall i m, ms !! i = Some m -> acks !! i = Some Acked -> exists p, m ∈ stored k' (Message.topic m) p;
  produced_offsets cfg ms acks k k' : produced cfg ms acks k k' ->
    forall g topic p, committed k' g topic p = committed k g topic p;
  committed_keeps g topic p n k k' : offset_committed g topic p n k k' ->
    forall topic' p', stored k' topic' p' = stored k topic' p';
  committed_offset g topic p n k k' : offset_committed g topic p n k k' ->
    forall g' topic' p', committed k' g' topic' p' =
      if decide (g' = g /\ topic' = topic /\ p' = p) then Some n else committed k g' topic' p' }.

Section consumer.
Context {K} `{Kafka K}.
Variable cfg : consumer_config.
Variable topic : string.

(** Where a consumer begins on a partition: at the offset its group committed;
    without one as [auto.offset.reset] says. *)
Definition start_at (k : K) (p : nat) : nat :=
  match committed k (cc_group_id cfg) topic p with
  | Some n => n
  | None => if decide (cc_auto_offset_reset cfg = "earliest") then 0 else length (stored k topic p)
  end.

(** The offsets that may be committed of a consumer that has handled the messages
    before [position]: those of its own commits; with [enable.auto.commit] also
    that of the message it is about to handle. *)
Definition may_commit (position n : nat) : Prop :=
  n <= position \/ cc_enable_auto_commit cfg = true /\ n <= S position.

Definition step_to (p : nat) (positions : nat -> nat) : nat -> nat :=
  fun q => if decide (q = p) then S (positions q) else positions q.

(** ** What a group has read *)

(** The first [n] messages of the partition are there, and [Q] holds of them. *)
Definition done_upto (k : K) (Q : Message.t -> Prop) (p n : nat) : Prop :=
  n <= length (stored k topic p) /\ Forall Q (take n (stored k topic p)).

Record group_ok (k : K) (Q : Message.t -> Prop) (positions : nat -> nat) : Prop := GroupOk {
  go_read : forall p, done_upto k Q p (positions p);
  go_committed : forall p n, committed k (cc_group_id cfg) topic p = Some n -> done_upto k Q p n }.

Lemma done_zero k Q p : done_upto k Q p 0.
Proof. split; [lia|constructor]. Qed.

Lemma done_le k Q p m n : m <= n -> done_upto k Q p n -> done_upto k Q p m.
Proof.
  intros Hmn [Hn HQ]. split; [lia|]. rewrite <- (Nat.min_l m n Hmn), <- take_take. by apply Forall_take.
Qed.

Lemma done_next k (Q : Message.t -> Prop) p n m : done_upto k Q p n -> stored k topic p !! n = Some m -> Q m ->
  done_upto k Q p (S n).
Proof.
  intros [Hn HQ] Hm Hq. split; [by apply lookup_lt_Some in Hm|]. rewrite (take_S_r _ _ m) by done.
  apply Forall_app. split; [done|by constructor].
Qed.

Lemma done_mono k (Q Q' : Message.t -> Prop) p n : (forall m, Q m -> Q' m) -> done_upto k Q p n -> done_upto k Q' p n.
Proof. intros Hq [Hn HQ]. split; [done|]. by eapply Forall_impl. Qed.

Lemma done_kept k k' Q p n l : stored k' topic p = stored k topic p ++ l -> done_upto k Q p n -> done_upto k' Q p n.
Proof. intros Hs [Hn HQ]. unfold done_upto. rewrite Hs, length_app, take_app_le by done. split; [lia|done]. Qed.

Lemma group_mono k (Q Q' : Message.t -> Prop) at_ : (forall m, Q m -> Q' m) -> group_ok k Q at_ -> group_ok k Q' at_.
Proof. intros Hq [Hr Hc]. split; eauto using done_mono. Qed.

Lemma group_appended k k' Q at_ :
  (forall p, exists l, stored k' topic p = stored k topic p ++ l) ->
  (forall g p, committed k' g topic p = committed k g topic p) -> group_ok k Q at_ -> group_ok k' Q at_.
Proof.
  intros Hs Ho [Hr Hc]. split; intros p; destruct (Hs p) as [l Hl]; [by eapply done_kept|].
  intros n. rewrite Ho. intros Hn. by eapply done_kept; [|apply Hc].
Qed.

(** A commit of this group, within what it has read, or of another one. *)
Lemma group_commit g p n k k' Q at_ : offset_committed g topic p n k k' ->
  (g = cc_group_id cfg -> n <= at_ p) -> group_ok k Q at_ -> group_ok k' Q at_.
Proof.
  intros Ho Hg [Hr Hc].
  assert (Hk : forall q m, done_upto k Q q m -> done_upto k' Q q m).
  { intros q m. unfold done_upto. by rewrite (committed_keeps _ _ _ _ _ _ Ho). }
  split; [auto|]. intros q m. rewrite (committed_offset _ _ _ _ _ _ Ho).
  case_decide as E; [|auto]. destruct E as (<- & _ & ->). intros [= <-]. apply Hk.
  eapply done_le; [by apply Hg|done].
Qed.

Lemma group_step k (Q : Message.t -> Prop) at_ p m : stored k topic p !! at_ p = Some m -> Q m ->
  group_ok k Q at_ -> group_ok k Q (step_to p at_).
Proof.
  intros Hm Hq [Hr Hc]. split; [|done]. intros q. unfold step_to. case_decide as E; [subst q|done].
  by eapply done_next.
Qed.

(** Reading on from the committed offsets, or from the beginning. *)
Lemma group_start k Q at_ : cc_auto_offset_reset cfg = "earliest" -> group_ok k Q at_ ->
  group_ok k Q (start_at k).
Proof.
  intros He [Hr Hc]. split; [|done]. intros p. unfold start_at.
  destruct (committed k _ topic p) as [n|] eqn:E; [by apply Hc|]. rewrite decide_True by done. apply done_zero.
Qed.
End consumer.
