(* ===== verification/Reconciliation.v ===== *)
(** * Reconciliation (src/app/services/reconciliation_service.py, src/app/jobs)

    The check of every cached balance against the ledger, the job that exits
    with its verdict, and the snapshot job of the rollup. *)
From S2P Require Import Prelude PyValues Schema Session Repositories.

(** [case((entry_type == CREDIT, amount), else_=-amount)] *)
Definition signed_amount (e : LedgerEntry.row) : Z :=
  match LedgerEntry.entry_type e with
  | CREDIT => LedgerEntry.amount e
  | DEBIT => - LedgerEntry.amount e
  end.

(** One row of [SELECT wallet_id, SUM(signed_amount) ... GROUP BY wallet_id]. *)
Definition add_to_group (groups : gmap uuid Z) (e : LedgerEntry.row) : gmap uuid Z :=
  match LedgerEntry.wallet_id e with
  | Some i => partial_alter (fun sum => Some (default 0%Z sum + signed_amount e)%Z) i groups
  | None => groups   (* WHERE wallet_id IS NOT NULL *)
  end.

Definition group_by_wallet (d : Database) : gmap uuid Z :=
  foldl add_to_group ∅ (ledger_entries d).

Module Discrepancy.
Record t := mk { wallet_id : uuid; cached_balance : Z; ledger_balance : Z }.
Definition diff (d : t) : Z := cached_balance d - ledger_balance d.
End Discrepancy.

Module ReconciliationReport.
Record t := mk { wallets_checked : nat; discrepancies : list Discrepancy.t }.
Definition ok (r : t) : bool := match discrepancies r with [] => true | _ => false end.
End ReconciliationReport.

Module ReconciliationService.
Definition _ledger_balances : prog (gmap uuid Z) := call (Query group_by_wallet).

(** The body of the loop over the wallets. *)
Definition compare (ledger : gmap uuid Z) (found : list Discrepancy.t) (w : Wallet.row)
    : list Discrepancy.t :=
  let ledger_balance := default 0%Z (ledger !! Wallet.id w) in
  if decide (Wallet.available_balance w <> ledger_balance)
  then found ++ [Discrepancy.mk (Wallet.id w) (Wallet.available_balance w) ledger_balance]
  else found.

(** [select(Wallet)] *)
Definition all_wallets (d : Database) : list Wallet.row := snd <$> map_to_list (wallets d).

Definition check : prog ReconciliationReport.t :=
  ledger ← _ledger_balances;
  wallets ← call (Query all_wallets);
  mret (ReconciliationReport.mk (length wallets) (foldl (compare ledger) [] wallets)).
End ReconciliationService.

(** [raise SystemExit(0 if report.ok else 1)] (jobs/run_reconciliation.py) *)
Definition run_reconciliation : prog Z :=
  report ← ReconciliationService.check;
  mret (if ReconciliationReport.ok report then 0%Z else 1%Z).

(** [run()] of jobs/run_analytics_snapshot.py: the rows, logged or not. *)
Definition run_analytics_snapshot : prog (list TransactionStat.row) :=
  TransactionStatRepository.all.

(** ** Specification *)

(** The balance of a wallet according to the ledger. *)
Definition ledger_balance (i : uuid) (es : list LedgerEntry.row) : Z :=
  zsum (signed_amount <$> filter (fun e => LedgerEntry.wallet_id e = Some i) es).

Definition balanced (d : Database) : Prop :=
  forall i w, wallets d !! i = Some w ->
    Wallet.available_balance w = ledger_balance i (ledger_entries d).

Definition wallet_keyed (d : Database) : Prop :=
  forall i w, wallets d !! i = Some w -> Wallet.id w = i.

(** The drift of a wallet row against the entries. *)
Definition drifted (d : Database) (x : Discrepancy.t) : Prop :=
  exists w, wallets d !! Discrepancy.wallet_id x = Some w /\
    Discrepancy.cached_balance x = Wallet.available_balance w /\
    Discrepancy.ledger_balance x = ledger_balance (Discrepancy.wallet_id x) (ledger_entries d) /\
    Discrepancy.cached_balance x <> Discrepancy.ledger_balance x.

(** ** Facts *)
Lemma ledger_balance_nil i : ledger_balance i [] = 0%Z.
Proof. done. Qed.

Lemma ledger_balance_app i es es' :
  ledger_balance i (es ++ es') = (ledger_balance i es + ledger_balance i es')%Z.
Proof. unfold ledger_balance. by rewrite filter_app, fmap_app, zsum_app. Qed.

Lemma ledger_balance_cons i e es :
  ledger_balance i (e :: es) =
    ((if decide (LedgerEntry.wallet_id e = Some i) then signed_amount e else 0)
     + ledger_balance i es)%Z.
Proof.
  unfold ledger_balance. rewrite filter_cons. case_decide; [|done].
  by rewrite fmap_cons, zsum_cons.
Qed.

Lemma ledger_balance_absent i es :
  Forall (fun e => LedgerEntry.wallet_id e <> Some i) es -> ledger_balance i es = 0%Z.
Proof.
  induction 1 as [|e es He _ IH]; [done|]. rewrite ledger_balance_cons, IH.
  by rewrite decide_False.
Qed.

#[export] Hint Rewrite ledger_balance_app ledger_balance_cons ledger_balance_nil : zsum.

Lemma fold_groups i es m :
  default 0%Z (foldl add_to_group m es !! i) = (default 0%Z (m !! i) + ledger_balance i es)%Z.
Proof.
  revert m. induction es as [|e es IH]; intros m; simpl.
  - rewrite ledger_balance_nil. lia.
  - rewrite IH, ledger_balance_cons. unfold add_to_group.
    destruct (LedgerEntry.wallet_id e) as [j|]; [|by rewrite decide_False].
    destruct (decide (j = i)) as [->|Hne].
    + rewrite lookup_partial_alter_eq, decide_True by done. simpl. lia.
    + rewrite lookup_partial_alter_ne, decide_False by congruence. lia.
Qed.

(** The grouped query gives each wallet its ledger balance. *)
Lemma group_by_wallet_lookup d i :
  default 0%Z (group_by_wallet d !! i) = ledger_balance i (ledger_entries d).
Proof. unfold group_by_wallet. rewrite fold_groups, lookup_empty. simpl. lia. Qed.

Lemma elem_of_compare ledger found ws x :
  x ∈ foldl (ReconciliationService.compare ledger) found ws <->
  x ∈ found \/ exists w, w ∈ ws /\ Discrepancy.wallet_id x = Wallet.id w /\
    Discrepancy.cached_balance x = Wallet.available_balance w /\
    Discrepancy.ledger_balance x = default 0%Z (ledger !! Wallet.id w) /\
    Discrepancy.cached_balance x <> Discrepancy.ledger_balance x.
Proof.
  revert found. induction ws as [|w ws IH]; intros found; simpl.
  - split; [by left|]. intros [|(w & Hw & _)]; [done|]. by apply elem_of_nil in Hw.
  - rewrite IH. unfold ReconciliationService.compare. split.
    + intros [Hx|(w' & Hw' & Hx)]; [|right; exists w'; set_solver].
      case_decide; [|by left]. apply elem_of_app in Hx as [|Hx]; [by left|].
      apply list_elem_of_singleton in Hx as ->. right. exists w. set_solver.
    + intros [Hx|(w' & Hw' & Hx)]; [left; case_decide; set_solver|].
      apply elem_of_cons in Hw' as [->|Hw']; [|right; eauto].
      destruct Hx as (Hid & Hc & Hl & Hne). left. rewrite decide_True by congruence.
      destruct x. simpl in *. subst. set_solver.
Qed.

Lemma NoDup_compare ledger found ws :
  NoDup ((Discrepancy.wallet_id <$> found) ++ (Wallet.id <$> ws)) ->
  NoDup (Discrepancy.wallet_id <$> foldl (ReconciliationService.compare ledger) found ws).
Proof.
  revert found. induction ws as [|w ws IH]; intros found; simpl; [by rewrite app_nil_r|].
  intros Hnd. apply IH. unfold ReconciliationService.compare. case_decide.
  - by rewrite fmap_app, <- app_assoc.
  - apply (sublist_NoDup _ _ Hnd), sublist_app; [done|]. by apply sublist_cons.
Qed.

(** The report of a run of the check, on the tables [d]. *)
Definition report_of (d : Database) : ReconciliationReport.t :=
  ReconciliationReport.mk (size (wallets d))
    (foldl (ReconciliationService.compare (group_by_wallet d)) [] (snd <$> map_to_list (wallets d))).

Section facts.
Context `{Env}.

Lemma wp_check w now Φ :
  Φ (inr (report_of (db w))) (at_log w [] now) ->
  wp ReconciliationService.check Φ (at_log w [] now).
Proof.
  intros HΦ. apply wp_bind, wp_query, wp_bind, wp_query, wp_ret.
  rewrite apply_writes_nil. unfold ReconciliationService.all_wallets. rewrite length_fmap, length_map_to_list. exact HΦ.
Qed.

Lemma report_drifted d x : wallet_keyed d ->
  x ∈ ReconciliationReport.discrepancies (report_of d) <-> drifted d x.
Proof.
  intros Hk. unfold report_of. simpl. rewrite elem_of_compare. unfold drifted. split.
  - intros [Hx|(w & Hw & Hid & Hc & Hl & Hne)]; [by apply elem_of_nil in Hx|].
    apply list_elem_of_fmap in Hw as ([i w'] & -> & Hi%elem_of_map_to_list). simpl in *.
    apply Hk in Hi as Hwid. exists w'. rewrite Hid, Hwid. rewrite Hl, group_by_wallet_lookup, Hwid in *.
    done.
  - intros (w & Hw & Hc & Hl & Hne). right. exists w. apply Hk in Hw as Hwid.
    rewrite Hwid, group_by_wallet_lookup. split; [|done].
    apply list_elem_of_fmap. exists (Discrepancy.wallet_id x, w).
    by rewrite elem_of_map_to_list.
Qed.

Lemma report_NoDup d : wallet_keyed d ->
  NoDup (Discrepancy.wallet_id <$> ReconciliationReport.discrepancies (report_of d)).
Proof.
  intros Hk. apply NoDup_compare. simpl. rewrite <- list_fmap_compose.
  rewrite (list_fmap_ext _ fst); [apply NoDup_fst_map_to_list|].
  intros n [i w] Hi%list_elem_of_lookup_2%elem_of_map_to_list. by apply Hk.
Qed.

(** The verdict: the report is empty when every balance agrees, and only then. *)
Lemma report_ok d : wallet_keyed d ->
  ReconciliationReport.ok (report_of d) = true <-> balanced d.
Proof.
  intros Hk. unfold ReconciliationReport.ok.
  destruct (ReconciliationReport.discrepancies (report_of d)) as [|x xs] eqn:E; split; try done.
  - intros _ i w Hw. apply dec_stable. intros Hne.
    apply (not_elem_of_nil (Discrepancy.mk i (Wallet.available_balance w)
      (ledger_balance i (ledger_entries d)))).
    rewrite <- E. apply report_drifted; [done|]. exists w. simpl. auto.
  - intros Hb. assert (Hx : drifted d x) by (apply report_drifted; [done|rewrite E; set_solver]).
    destruct Hx as (w & Hw & Hc & Hl & Hne). rewrite Hc, Hl in Hne. by destruct Hne; apply Hb.
Qed.
End facts.
