(* ===== verification/Dags.v ===== *)
(** * The scheduled jobs (src/app/jobs, src/dags)

    What the two jobs log, the exit codes of their modules, and the Airflow DAGs
    whose one task runs such a module from a shell.  Of Airflow and of the shell
    the model has what the DAGs rely on: [python -m] runs a module, a process that
    raises exits with 1, and a BashOperator fails when the exit code is neither 0
    nor 99. *)
From S2P Require Import Prelude PyValues Schema Session Repositories Reconciliation.

(** The log lines, their arguments as values. *)
Inductive job_line :=
  | ReconciliationOK (wallets : nat)
  | ReconciliationFailed (drifted wallets : nat)
  | DriftLine (wallet : uuid) (cached ledger diff : Z)
  | NothingRecorded
  | SnapshotLine (currency type : string) (count total : Z).

(** [run()] of run_reconciliation.py *)
Definition reconciliation_lines (r : ReconciliationReport.t) : list job_line :=
  if ReconciliationReport.ok r then [ReconciliationOK (ReconciliationReport.wallets_checked r)]
  else ReconciliationFailed (length (ReconciliationReport.discrepancies r)) (ReconciliationReport.wallets_checked r)
    :: ((fun d => DriftLine (Discrepancy.wallet_id d) (Discrepancy.cached_balance d)
           (Discrepancy.ledger_balance d) (Discrepancy.diff d)) <$> ReconciliationReport.discrepancies r).

(** [run()] of run_analytics_snapshot.py *)
Definition snapshot_lines (rows : list TransactionStat.row) : list job_line :=
  match rows with
  | [] => [NothingRecorded]
  | _ => (fun s => SnapshotLine (TransactionStat.currency s) (TransactionStat.type s)
            (TransactionStat.count s) (TransactionStat.total_amount s)) <$> rows
  end.

(** The modules' [__main__]: the exit code and the lines. *)
Definition main_reconciliation : prog (Z * list job_line) :=
  report ← ReconciliationService.check;
  mret (if ReconciliationReport.ok report then 0%Z else 1%Z, reconciliation_lines report).

Definition main_analytics_snapshot : prog (Z * list job_line) :=
  stats ← run_analytics_snapshot;
  mret (0%Z, snapshot_lines stats).

Definition python_module (command : string) : option string :=
  if String.prefix "python -m " command
  then Some (String.substring 10 (String.length command - 10) command) else None.

Definition run_module (name : string) : option (prog (Z * list job_line)) :=
  if decide (name = "app.jobs.run_reconciliation") then Some main_reconciliation
  else if decide (name = "app.jobs.run_analytics_snapshot") then Some main_analytics_snapshot
  else None.

(** A module that is not there: Python exits with 1. *)
Definition run_task (bash_command : string) : prog (Z * list job_line) :=
  match python_module bash_command ≫= run_module with
  | Some p => p
  | None => mret (1%Z, [])
  end.

Inductive task_state := TaskSuccess | TaskSkipped | TaskFailed.
#[export] Instance task_state_eq_dec : EqDecision task_state.
Proof. solve_decision. Defined.

Definition state_of_task (r : exn + Z * list job_line) : task_state :=
  match r with
  | inl _ => TaskFailed
  | inr (code, _) => if (code =? 0)%Z then TaskSuccess else if (code =? 99)%Z then TaskSkipped else TaskFailed
  end.

Record dag := Dag {
  dag_id : string; schedule : string; start_date : Z * Z * Z; catchup : bool; tags : list string;
  task_id : string; bash_command : string }.

Definition reconciliation_dag : dag :=
  Dag "wallet_reconciliation" "@daily" (2026, 1, 1)%Z false ["wallet"; "reconciliation"]
    "run_reconciliation" "python -m app.jobs.run_reconciliation".

Definition analytics_snapshot_dag : dag :=
  Dag "wallet_analytics_snapshot" "@daily" (2026, 1, 1)%Z false ["wallet"; "analytics"]
    "run_analytics_snapshot" "python -m app.jobs.run_analytics_snapshot".

(** ** What the tasks come to *)
Section facts.
Context `{Env}.

Lemma wp_reconciliation_task w now :
  wp (run_task (bash_command reconciliation_dag)) (fun r s' =>
    r = inr (if ReconciliationReport.ok (report_of (db w)) then 0 else 1, reconciliation_lines (report_of (db w)))%Z /\
    s' = at_log w [] now) (at_log w [] now).
Proof.
  change (run_task _) with main_reconciliation. by apply wp_bind, wp_check, wp_ret.
Qed.

Lemma wp_snapshot_task w now :
  wp (run_task (bash_command analytics_snapshot_dag)) (fun r s' =>
    r = inr (0%Z, snapshot_lines (TransactionStatRepository.rows (db w))) /\ s' = at_log w [] now) (at_log w [] now).
Proof.
  change (run_task _) with main_analytics_snapshot. apply wp_bind, wp_query, wp_ret. by rewrite apply_writes_nil.
Qed.

Lemma drift_logged d x : wallet_keyed d -> drifted d x ->
  DriftLine (Discrepancy.wallet_id x) (Discrepancy.cached_balance x) (Discrepancy.ledger_balance x) (Discrepancy.diff x)
    ∈ reconciliation_lines (report_of d).
Proof.
  intros Hk Hx. apply (report_drifted d x Hk) in Hx. unfold reconciliation_lines.
  destruct (ReconciliationReport.ok (report_of d)) eqn:E.
  - unfold ReconciliationReport.ok in E. destruct (ReconciliationReport.discrepancies (report_of d)); [|done].
    by apply elem_of_nil in Hx.
  - apply elem_of_cons. right. apply list_elem_of_fmap. by exists x.
Qed.
End facts.
