(* ===== verification/Atomicity.v ===== *)
(** * One commit per operation

    A purely structural property of the programs - on every path, whatever the
    session answers, at most one call is a commit - from which all-or-nothing
    behaviour follows for a process that dies between any two calls. *)
From S2P Require Import Prelude PyValues Schema Session Requests Repositories LedgerService Security.
From S2P Require Import AccountServices Publisher Analytics Reconciliation.

(** ** Structural rules *)

Lemma commits_bind {A B} n (p : prog A) (f : A -> prog B) :
  commits_le 0 p -> (forall a, commits_le n (f a)) -> commits_le n (p ≫= f).
Proof. apply (commits_le_bind 0 n). Qed.

Lemma commits_bind_last {A B} n (p : prog A) (f : A -> prog B) :
  commits_le n p -> (forall a, commits_le 0 (f a)) -> commits_le n (p ≫= f).
Proof. intros Hp Hf. rewrite <- (Nat.add_0_r n). by apply commits_le_bind. Qed.

Lemma commits_ret {A} n (a : A) : commits_le n (mret a).
Proof. done. Qed.

Lemma commits_raise {A} n e : commits_le n (@Raise A e).
Proof. done. Qed.

Lemma commits_call {B} n (c : SessionE B) : ~ is_commit c -> commits_le n (call c).
Proof. destruct c; intros Hc; try (by intros []). by destruct Hc. Qed.

Lemma commits_commit n : commits_le (S n) (call Commit).
Proof. by intros []. Qed.

Lemma commits_or_raise {A} n (o : option A) e : commits_le n (or_raise o e).
Proof. by destruct o. Qed.

Lemma commits_raise_if n b e : commits_le n (raise_if b e).
Proof. by destruct b. Qed.

Lemma commits_add_flush n c : commits_le n (add_flush c).
Proof. intros [e|[]]; [done|]. by intros []. Qed.

Lemma commits_mono n m {A} (p : prog A) : n <= m -> commits_le n p -> commits_le m p.
Proof.
  revert n m. induction p as [a|e|C c k IH]; intros n m Hle; [done..|].
  destruct c; simpl; try (intros Hk r; eapply IH; [done|apply Hk]).
  destruct n; [done|]. destruct m; [lia|]. intros Hk r. apply (IH r n); [lia|apply Hk].
Qed.

(** A handler that does not commit leaves the count as it is. *)
Lemma commits_try {A} n (p : prog A) (h : exn -> option (prog A)) :
  commits_le n p -> (forall e q, h e = Some q -> commits_le 0 q) -> commits_le n (try_except p h).
Proof.
  intros Hp Hh. revert n Hp. induction p as [a|e|C c k IH]; intros n Hp; [done| |].
  - unfold try_except. destruct (h e) as [q|] eqn:E; [|done].
    apply (commits_mono 0 n); [lia|]. by apply (Hh e).
  - destruct c; simpl in *; try (intros r; apply IH; auto).
    destruct n; [done|]. intros r. apply IH; auto.
Qed.

Ltac commits :=
  repeat first
    [ assumption | exact I
    | apply commits_ret | apply commits_raise | apply commits_commit
    | apply commits_or_raise | apply commits_raise_if | apply commits_add_flush
    | apply commits_call; exact (fun H => H)
    | solve [auto with commits nocore]
    | apply commits_bind; [solve [commits]|intros ?]
    | apply commits_bind_last; [|intros ?; solve [commits]]
    | progress cbv zeta
    | match goal with |- commits_le _ (match ?x with _ => _ end) => destruct x end ].

(** A [try] whose handler is given by a test on the exception. *)
Ltac commits_handler :=
  intros ? ?; repeat case_match; intros; simplify_eq; commits.

(** ** Repositories *)
Lemma commits_refresh {R} n (q : Database -> option R) : commits_le n (refresh q).
Proof. unfold refresh. commits. Qed.
#[export] Hint Resolve commits_refresh : commits.

Lemma commits_create_user n a b c : commits_le n (UserRepository.create a b c).
Proof. unfold UserRepository.create. commits. Qed.
Lemma commits_create_wallet n a b : commits_le n (WalletRepository.create a b).
Proof. unfold WalletRepository.create. commits. Qed.
Lemma commits_create_txn n a b c : commits_le n (TransactionRepository.create a b c).
Proof. unfold TransactionRepository.create. commits. Qed.
Lemma commits_mark_completed n t : commits_le n (TransactionRepository.mark_completed t).
Proof. unfold TransactionRepository.mark_completed. commits. Qed.
Lemma commits_create_entry n a b c d e f : commits_le n (LedgerRepository.create_entry a b c d e f).
Proof. unfold LedgerRepository.create_entry. commits. Qed.
Lemma commits_add_event n a b c d : commits_le n (OutboxRepository.add_event a b c d).
Proof. unfold OutboxRepository.add_event. commits. Qed.
Lemma commits_mark_published n e : commits_le n (OutboxRepository.mark_published e).
Proof. unfold OutboxRepository.mark_published. commits. Qed.
Lemma commits_increment n a b c : commits_le n (TransactionStatRepository.increment a b c).
Proof. unfold TransactionStatRepository.increment. commits. Qed.
Lemma commits_lock_each n ids m : commits_le n (WalletRepository.lock_each ids m).
Proof.
  revert m. induction ids as [|i ids IH]; intros m; cbn [WalletRepository.lock_each]; [commits|].
  apply commits_bind; [commits|intros w; apply IH].
Qed.
Lemma commits_lock_ordered n ids : commits_le n (WalletRepository.get_for_update_ordered ids).
Proof. apply commits_lock_each. Qed.
#[export] Hint Resolve commits_create_user commits_create_wallet commits_create_txn
  commits_mark_completed commits_create_entry commits_add_event commits_mark_published
  commits_increment commits_lock_ordered : commits.

Lemma commits_query {R : Set} n (q : Database -> R) : commits_le n (call (Query q)).
Proof. commits. Qed.
Lemma commits_lock n i : commits_le n (WalletRepository.get_with_lock i).
Proof. unfold WalletRepository.get_with_lock. commits. Qed.
#[export] Hint Resolve commits_lock : commits.
#[export] Hint Extern 1 (commits_le _ (UserRepository.get_by_email _)) => apply commits_query : commits.
#[export] Hint Extern 1 (commits_le _ (UserRepository.get_by_id _)) => apply commits_query : commits.
#[export] Hint Extern 1 (commits_le _ (WalletRepository.get_by_id _)) => apply commits_query : commits.
#[export] Hint Extern 1 (commits_le _ (WalletRepository.get_by_user_and_currency _ _)) =>
  apply commits_query : commits.
#[export] Hint Extern 1 (commits_le _ (TransactionRepository.get_by_idempotency_key _)) =>
  apply commits_query : commits.
#[export] Hint Extern 1 (commits_le _ (OutboxRepository.fetch_unpublished _)) =>
  apply commits_query : commits.
#[export] Hint Extern 1 (commits_le _ (ProcessedEventRepository.is_processed _ _)) =>
  apply commits_query : commits.
#[export] Hint Extern 1 (commits_le _ (ProcessedEventRepository.mark_processed _ _)) =>
  apply commits_add_flush : commits.

(** ** LedgerService *)
Lemma commits_set_balance n z r : commits_le n (set_balance z r).
Proof. unfold set_balance. commits. Qed.
Lemma commits_refresh_wallet n r : commits_le n (refresh_wallet r).
Proof. unfold refresh_wallet. commits. Qed.
Lemma commits_refresh_transaction n t : commits_le n (refresh_transaction t).
Proof. unfold refresh_transaction. commits. Qed.
Lemma commits_record_event n a b c d : commits_le n (_record_event a b c d).
Proof. unfold _record_event. commits. Qed.
Lemma commits_replay n key i : commits_le n (replay key i).
Proof. unfold replay. commits. Qed.
#[export] Hint Resolve commits_set_balance commits_refresh_wallet commits_refresh_transaction
  commits_record_event commits_replay : commits.

Lemma commits_commit_keyed n key i : commits_le (S n) (commit_keyed key i).
Proof. apply commits_try; [|commits_handler]. commits. Qed.
#[export] Hint Resolve commits_commit_keyed : commits.

Lemma commits_deposit i r data : commits_le 1 (deposit i r data).
Proof. unfold deposit. commits. Qed.
Lemma commits_transfer i r data key : commits_le 1 (transfer i r data key).
Proof. unfold transfer. commits. Qed.
Lemma commits_withdraw i r data key : commits_le 1 (withdraw i r data key).
Proof. unfold withdraw. commits. Qed.

(** ** The other writers *)
Lemma commits_mark_all n es : commits_le n (mark_all es).
Proof. induction es as [|e es IH]; cbn [mark_all]; commits. Qed.
#[export] Hint Resolve commits_mark_all : commits.

Section writers.
Context `{Env} `{Crypto} `{JsonCodec}.

Lemma commits_register data : commits_le 1 (UserService.register data).
Proof.
  unfold UserService.register, hash_password. commits.
  apply commits_try; [commits|commits_handler].
Qed.

Lemma commits_wallet owner data : commits_le 1 (WalletService.create_wallet owner data).
Proof.
  unfold WalletService.create_wallet. commits.
  apply commits_try; [commits|commits_handler].
Qed.

Lemma commits_publish_turn deliver topic n : commits_le 1 (publish_turn deliver topic n).
Proof.
  unfold publish_turn, publish_batch. apply commits_bind; [|intros [published|]].
  - apply commits_try; [commits|commits_handler].
  - apply commits_try; [commits|commits_handler].
  - commits.
Qed.

Lemma commits_handle_event payload : commits_le 1 (AnalyticsService.handle_event payload).
Proof.
  unfold AnalyticsService.handle_event, AnalyticsService.item, AnalyticsService.to_uuid,
    AnalyticsService.to_int, AnalyticsService.to_text. commits.
  apply commits_try; [commits|commits_handler].
Qed.

(** ** The readers never commit *)
Lemma commits_check n : commits_le n ReconciliationService.check.
Proof. unfold ReconciliationService.check, ReconciliationService._ledger_balances. commits. Qed.
Lemma commits_get_balance n i r : commits_le n (WalletService.get_balance i r).
Proof. unfold WalletService.get_balance. commits. Qed.
Lemma commits_authenticate n e pw : commits_le n (UserService.authenticate e pw).
Proof. unfold UserService.authenticate. commits. Qed.
End writers.
#[export] Hint Resolve commits_check commits_get_balance commits_authenticate : commits.
