(* ===== verification/Invariants.v ===== *)
(** * The ledger's invariants

    What holds of the committed tables at all times ([wf]): identities, the
    double-entry ledger with its cached balances, one outbox event per
    transaction, and the numbering of the entries - and that each way the
    program changes the tables keeps it. *)
From S2P Require Import Prelude PyValues Schema Session Requests Repositories LedgerService Moves.
From S2P Require Import LedgerSpec Reconciliation AccountServices Security Publisher Analytics.

(** ** Users and wallets *)
Record identity_wf (d : Database) : Prop := IdentityWf {
  iw_user_keyed : forall i u, users d !! i = Some u -> User.id u = i;
  iw_email : forall i j u v, users d !! i = Some u -> users d !! j = Some v ->
    User.email u = User.email v -> i = j;
  iw_owner : forall i r, wallets d !! i = Some r -> is_Some (users d !! Wallet.user_id r);
  iw_one_per_currency : forall i j r s, wallets d !! i = Some r -> wallets d !! j = Some s ->
    Wallet.user_id r = Wallet.user_id s -> Wallet.currency r = Wallet.currency s -> i = j;
  iw_unlocked : forall i r, wallets d !! i = Some r -> Wallet.locked_balance r = 0%Z }.

(** ** The double-entry ledger *)

(** An entry is on exactly one side, and a wallet's entry is in its currency. *)
Definition entry_wf (d : Database) (e : LedgerEntry.row) : Prop :=
  (0 < LedgerEntry.amount e <= bigint_max)%Z /\
  is_Some (transactions d !! LedgerEntry.transaction_id e) /\
  match LedgerEntry.wallet_id e with
  | Some i => LedgerEntry.system_account e = None /\
      exists r, wallets d !! i = Some r /\ Wallet.currency r = LedgerEntry.currency e
  | None => LedgerEntry.system_account e = Some SYSTEM_ACCOUNT_FUNDING
  end.

(** The two legs of a transaction: one amount, one currency, opposite sides. *)
Definition double_entry (d : Database) (t : Transaction.row) (e1 e2 : LedgerEntry.row) : Prop :=
  LedgerRepository.entries_for_transaction (Transaction.id t) d = [e1; e2] /\
  LedgerEntry.amount e2 = LedgerEntry.amount e1 /\
  LedgerEntry.entry_type e2 <> LedgerEntry.entry_type e1 /\
  LedgerEntry.currency e1 = Transaction.currency t /\
  LedgerEntry.currency e2 = Transaction.currency t.

Record ledger_wf (d : Database) : Prop := LedgerWf {
  lw_keyed : keyed d;
  lw_balanced : balanced d;
  lw_range : forall i r, wallets d !! i = Some r ->
    (0 <= Wallet.available_balance r <= bigint_max)%Z;
  lw_entries : Forall (entry_wf d) (ledger_entries d);
  lw_entry_ids : NoDup (LedgerEntry.id <$> ledger_entries d);
  lw_double : forall i t, transactions d !! i = Some t ->
    Transaction.status t = COMPLETED /\ varchar 3 (Transaction.currency t) = true /\
    exists e1 e2, double_entry d t e1 e2;
  lw_keys : forall i j t t' k, transactions d !! i = Some t -> transactions d !! j = Some t' ->
    Transaction.idempotency_key t = Some k -> Transaction.idempotency_key t' = Some k -> i = j }.

(** ** The outbox *)

(** The event tells what the transaction did: its header, the amount of its
    legs, the wallet of the first and the counterparty of the second. *)
Definition event_reports (d : Database) (ev : OutboxEvent.row) (t : Transaction.row) : Prop :=
  OutboxEvent.aggregate_type ev = "transaction" /\
  OutboxEvent.aggregate_id ev = Transaction.id t /\
  OutboxEvent.event_type ev = "transaction.completed" /\
  exists e1 e2 wid now, double_entry d t e1 e2 /\ LedgerEntry.wallet_id e1 = Some wid /\
    OutboxEvent.payload ev =
      event_payload t (LedgerEntry.amount e1) wid (LedgerEntry.wallet_id e2) now.

Record outbox_wf (d : Database) : Prop := OutboxWf {
  ow_keyed : outbox_keyed d;
  ow_reports : forall j ev, outbox_events d !! j = Some ev ->
    exists t, transactions d !! OutboxEvent.aggregate_id ev = Some t /\ event_reports d ev t;
  ow_event : forall i t, transactions d !! i = Some t ->
    exists j ev, outbox_events d !! j = Some ev /\ OutboxEvent.aggregate_id ev = i;
  ow_once : forall j j' ev ev', outbox_events d !! j = Some ev -> outbox_events d !! j' = Some ev' ->
    OutboxEvent.aggregate_id ev = OutboxEvent.aggregate_id ev' -> j = j' }.

(** The committed tables are sound. *)
Record wf (d : Database) : Prop := Wf {
  wf_identity : identity_wf d;
  wf_ledger : ledger_wf d;
  wf_outbox : outbox_wf d }.

(** The entries are numbered in the order of their insertion, below [n]. *)
Definition numbered (n : Z) (d : Database) : Prop :=
  StronglySorted Z.lt (LedgerEntry.seq <$> ledger_entries d) /\
  Forall (fun e => LedgerEntry.seq e < n)%Z (ledger_entries d).

(** The world of a fresh installation: identity columns start at 1. *)
Definition empty_world : World := mkWorld empty_db 1 0.

Lemma wf_empty : wf empty_db.
Proof. split; split; try done; simpl; constructor. Qed.

(** ** Moves *)

(** How much a leg adds to the balance of wallet [i]. *)
Definition leg_delta (i : uuid) (amount : Z) (l : leg) : Z :=
  if decide (leg_wallet l = Some i)
  then match leg_type l with CREDIT => amount | DEBIT => - amount end else 0%Z.

Lemma leg_delta_eq i a ty s :
  leg_delta i a (Leg ty (Some i) s) = match ty with CREDIT => a | DEBIT => - a end%Z.
Proof. unfold leg_delta. by rewrite decide_True. Qed.

Lemma leg_delta_ne i a l : leg_wallet l <> Some i -> leg_delta i a l = 0%Z.
Proof. intros. unfold leg_delta. by rewrite decide_False. Qed.

Definition leg_sound (d : Database) (m : move) (l : leg) : Prop :=
  match leg_wallet l with
  | Some i => leg_system l = None /\
      exists r, wallets d !! i = Some r /\ Wallet.currency r = mv_currency m
  | None => leg_system l = Some SYSTEM_ACCOUNT_FUNDING
  end.

(** A move that books what it does to the balances, on two opposite legs. *)
Record sound_move (d : Database) (m : move) : Prop := SoundMove {
  sm_types : leg_type (mv_second m) <> leg_type (mv_first m);
  sm_wallet : leg_wallet (mv_first m) = Some (mv_wallet m);
  sm_counterparty : leg_wallet (mv_second m) = mv_counterparty m;
  sm_first : leg_sound d m (mv_first m);
  sm_second : leg_sound d m (mv_second m);
  sm_distinct : NoDup (mv_sets m).*1;
  sm_sets : forall i z, (i, z) ∈ mv_sets m -> exists r, wallets d !! i = Some r /\
    z = (Wallet.available_balance r + leg_delta i (mv_amount m) (mv_first m)
         + leg_delta i (mv_amount m) (mv_second m))%Z;
  sm_cover : forall i, i ∉ (mv_sets m).*1 ->
    leg_wallet (mv_first m) <> Some i /\ leg_wallet (mv_second m) <> Some i }.

Lemma set_rows_lookup now sets ws i : NoDup sets.*1 ->
  (i ∉ sets.*1 -> set_rows now sets ws !! i = ws !! i) /\
  (forall z, (i, z) ∈ sets -> set_rows now sets ws !! i = set_row z now <$> ws !! i).
Proof.
  unfold set_rows. revert ws. induction sets as [|[j z] sets IH]; intros ws Hnd; simpl.
  { split; [done|]. by intros z ?%elem_of_nil. }
  apply NoDup_cons in Hnd as [Hj Hnd]. destruct (IH (alter (set_row z now) j ws) Hnd) as [IH1 IH2].
  split.
  - intros [Hne Hi]%not_elem_of_cons. rewrite IH1 by done. by rewrite lookup_alter_ne.
  - intros z' [[= -> ->]|Hin]%elem_of_cons.
    + rewrite IH1 by done. by rewrite lookup_alter_eq.
    + rewrite (IH2 z' Hin), lookup_alter_ne; [done|]. intros ->. apply Hj.
      apply list_elem_of_fmap. by exists (i, z').
Qed.

Section preservation.
Context `{Env}.
Implicit Types (w : World) (x : draws) (d : Database) (m : move).

(** *** What a move does to one wallet and to the entries of one transaction *)
Lemma moved_row d x now m i : sound_move d m ->
  (wallets (moved_db d x now m) !! i = None <-> wallets d !! i = None) /\
  forall r', wallets (moved_db d x now m) !! i = Some r' -> exists r,
    wallets d !! i = Some r /\ Wallet.id r' = Wallet.id r /\
    Wallet.user_id r' = Wallet.user_id r /\ Wallet.currency r' = Wallet.currency r /\
    Wallet.locked_balance r' = Wallet.locked_balance r /\
    Wallet.available_balance r' = (Wallet.available_balance r
      + leg_delta i (mv_amount m) (mv_first m) + leg_delta i (mv_amount m) (mv_second m))%Z /\
    (r' = r \/ (i, Wallet.available_balance r') ∈ mv_sets m).
Proof.
  intros Hs. simpl. destruct (set_rows_lookup now (mv_sets m) (wallets d) i) as [H1 H2];
    [apply Hs|].
  destruct (decide (i ∈ (mv_sets m).*1)) as [Hi|Hi].
  - apply list_elem_of_fmap in Hi as ([j z] & -> & Hz). simpl in *. rewrite (H2 z Hz).
    destruct (sm_sets d m Hs _ _ Hz) as (r & Hr & ->). rewrite Hr. split; [done|].
    intros r' [= <-]. exists r. simpl. repeat split; auto.
  - rewrite (H1 Hi). split; [done|]. intros r' Hr'. exists r'.
    destruct (sm_cover d m Hs i Hi) as [Hf Hg]. unfold leg_delta.
    rewrite !decide_False by done. repeat split; auto. lia.
Qed.

Lemma moved_row_back d x now m i r : sound_move d m -> wallets d !! i = Some r ->
  exists r', wallets (moved_db d x now m) !! i = Some r' /\
    Wallet.currency r' = Wallet.currency r.
Proof.
  intros Hs Hr. destruct (moved_row d x now m i Hs) as [Hn Hsome].
  destruct (wallets (moved_db d x now m) !! i) as [r'|] eqn:E.
  - destruct (Hsome r' eq_refl) as (r0 & Hr0 & Hrest). exists r'. split; [done|].
    simplify_eq. tauto.
  - rewrite (proj1 Hn eq_refl) in Hr. done.
Qed.

Lemma moved_entries t d x now m :
  LedgerRepository.entries_for_transaction t (moved_db d x now m) =
    LedgerRepository.entries_for_transaction t d ++
    (if decide (txn_id x = t) then move_entries x now m else []).
Proof.
  unfold LedgerRepository.entries_for_transaction. simpl.
  rewrite filter_app. f_equal. unfold move_entries, leg_entry.
  rewrite !filter_cons. simpl. by case_decide.
Qed.

Lemma no_entries t d : Forall (entry_wf d) (ledger_entries d) -> transactions d !! t = None ->
  LedgerRepository.entries_for_transaction t d = [].
Proof.
  intros He Ht. unfold LedgerRepository.entries_for_transaction.
  induction He as [|e es (_ & Hs & _) _ IH]; [done|]. rewrite filter_cons.
  rewrite decide_False; [done|]. intros Heq. rewrite Heq, Ht in Hs. by destruct Hs.
Qed.

Lemma moved_double d x now m t e1 e2 : Transaction.id t <> txn_id x ->
  double_entry d t e1 e2 -> double_entry (moved_db d x now m) t e1 e2.
Proof.
  intros Hne [He Hrest]. split; [|done]. rewrite moved_entries, decide_False by done.
  by rewrite app_nil_r.
Qed.

Lemma moved_new_double d x now m : ledger_wf d -> sound_move d m -> move_valid d x m ->
  double_entry (moved_db d x now m) (move_txn x now m)
    (leg_entry (first_id x) (first_seq x) x now m (mv_first m))
    (leg_entry (second_id x) (second_seq x) x now m (mv_second m)).
Proof.
  intros Hw Hs Hv. unfold double_entry. simpl. rewrite moved_entries, decide_True by done.
  rewrite no_entries; [|apply Hw|apply Hv]. repeat split; try done. apply Hs.
Qed.

(** *** A committed move keeps the invariants *)
Lemma move_identity d x now m : sound_move d m ->
  identity_wf d -> identity_wf (moved_db d x now m).
Proof.
  intros Hs [Hu He Ho Hc Hl]. split; try done.
  - intros i r' Hr'. destruct (moved_row d x now m i Hs) as [_ Hsome].
    destruct (Hsome r' Hr') as (r & Hr & _ & -> & _). by eapply Ho.
  - intros i j r' s' Hr' Hs'. destruct (moved_row d x now m i Hs) as [_ Hsi].
    destruct (moved_row d x now m j Hs) as [_ Hsj].
    destruct (Hsi r' Hr') as (r & Hr & _ & -> & -> & _).
    destruct (Hsj s' Hs') as (s & Hs0 & _ & -> & -> & _). by eapply Hc.
  - intros i r' Hr'. destruct (moved_row d x now m i Hs) as [_ Hsome].
    destruct (Hsome r' Hr') as (r & Hr & _ & _ & _ & -> & _). by eapply Hl.
Qed.

Lemma leg_entry_delta id n x now m l i :
  (if decide (LedgerEntry.wallet_id (leg_entry id n x now m l) = Some i)
   then signed_amount (leg_entry id n x now m l) else 0%Z) = leg_delta i (mv_amount m) l.
Proof. done. Qed.

Lemma move_balanced d x now m : sound_move d m -> balanced d -> balanced (moved_db d x now m).
Proof.
  intros Hs Hb i r' Hr'. destruct (moved_row d x now m i Hs) as [_ Hsome].
  destruct (Hsome r' Hr') as (r & Hr & _ & _ & _ & _ & -> & _).
  rewrite (Hb i r Hr). unfold moved_db, move_entries. cbn [ledger_entries].
  autorewrite with zsum. rewrite !leg_entry_delta. lia.
Qed.

Lemma move_leg_entry d x now m id n l : sound_move d m -> move_valid d x m ->
  leg_sound d m l -> entry_wf (moved_db d x now m) (leg_entry id n x now m l).
Proof.
  intros Hs Hv Hl. split; [apply Hv|split; [simpl; rewrite lookup_insert_eq; eauto|]].
  unfold leg_sound in Hl. cbn [LedgerEntry.wallet_id leg_entry].
  destruct (leg_wallet l) as [i|]; [|done]. destruct Hl as (Hsys & r & Hr & Hcur).
  split; [done|]. destruct (moved_row_back d x now m i r Hs Hr) as (r' & Hr' & Hc).
  exists r'. cbn [LedgerEntry.currency leg_entry]. split; congruence.
Qed.

Lemma move_entry d x now m e : sound_move d m ->
  entry_wf d e -> entry_wf (moved_db d x now m) e.
Proof.
  intros Hs (Ha & Ht & Hside). split; [done|split].
  - simpl. rewrite lookup_insert_is_Some'. auto.
  - destruct (LedgerEntry.wallet_id e) as [i|]; [|done].
    destruct Hside as (Hsys & r & Hr & Hcur). split; [done|].
    destruct (moved_row_back d x now m i r Hs Hr) as (r' & Hr' & Hc). exists r'.
    split; congruence.
Qed.

Lemma move_ledger d x now m : sound_move d m -> move_valid d x m ->
  ledger_wf d -> ledger_wf (moved_db d x now m).
Proof.
  intros Hs Hv Hw. pose proof Hw as [[Hkw Hkt] Hb Hr He Hid Hd Hk]. split.
  - split; simpl.
    + intros i r' Hr'. destruct (moved_row d x now m i Hs) as [_ Hsome].
      destruct (Hsome r' Hr') as (r & Hr0 & -> & _). by apply Hkw.
    + intros i t. rewrite lookup_insert. case_decide as E; [by intros [= <-]|apply Hkt].
  - by apply move_balanced.
  - intros i r' Hr'. destruct (moved_row d x now m i Hs) as [_ Hsome].
    destruct (Hsome r' Hr') as (r & Hr0 & _ & _ & _ & _ & _ & [->|Hin]); [by eapply Hr|].
    pose proof (mvv_sets _ _ _ Hv) as Hsets. rewrite Forall_forall in Hsets.
    apply (Hsets _ Hin).
  - simpl. apply Forall_app. split.
    + apply (Forall_impl _ _ _ He). intros e. by apply move_entry.
    + unfold move_entries. rewrite !Forall_cons, Forall_nil. split; [|split; [|done]]; apply move_leg_entry; done || apply Hs.
  - simpl. rewrite fmap_app. simpl. apply NoDup_app. split; [done|].
    pose proof (mvv_first_fresh _ _ _ Hv). pose proof (mvv_second_fresh _ _ _ Hv).
    pose proof (mvv_legs_distinct _ _ _ Hv). split; [set_solver|].
    apply NoDup_cons. split; [set_solver|]. apply NoDup_singleton.
  - intros i t. simpl. rewrite lookup_insert. case_decide as E.
    + intros [= <-]. split; [done|]. split; [apply Hv|]. do 2 eexists. by apply moved_new_double.
    + intros Ht. destruct (Hd i t Ht) as (Hst & Hcur & e1 & e2 & Hde). do 2 (split; [done|]).
      exists e1, e2. apply moved_double; [|done]. apply Hkt in Ht. congruence.
  - intros i j t t' k. simpl. rewrite !lookup_insert.
    repeat case_decide; try congruence; simpl.
    + intros [= <-] Ht' Hk1 Hk2. exfalso. by eapply (mvv_key_fresh _ _ _ Hv).
    + intros Ht [= <-] Hk1 Hk2. exfalso. by eapply (mvv_key_fresh _ _ _ Hv).
    + apply Hk.
Qed.

Lemma move_outbox d x now m : sound_move d m -> move_valid d x m ->
  ledger_wf d -> outbox_wf d -> outbox_wf (moved_db d x now m).
Proof.
  intros Hs Hv Hw [Hk Hrep Hev Hone].
  pose proof (mvv_txn_fresh _ _ _ Hv) as Hfresh. pose proof (mvv_event_fresh _ _ _ Hv) as Hefresh.
  assert (Hold : forall j ev, outbox_events d !! j = Some ev -> OutboxEvent.aggregate_id ev <> txn_id x).
  { intros j ev Hj E. destruct (Hrep j ev Hj) as (t & Ht & _). congruence. }
  split; simpl.
  - intros i e. simpl. rewrite lookup_insert. case_decide as E; [by intros [= <-]|apply Hk].
  - intros j ev. rewrite lookup_insert. case_decide as E.
    + intros [= <-]. exists (move_txn x now m). simpl. rewrite lookup_insert_eq. split; [done|].
      repeat split. do 4 eexists. split; [by apply moved_new_double|]. simpl.
      split; [apply Hs|]. rewrite (sm_counterparty _ _ Hs). done.
    + intros Hj. destruct (Hrep j ev Hj) as (t & Ht & H1 & H2 & H3 & e1 & e2 & wid & n & Hde & H4).
      exists t. rewrite lookup_insert_ne by (intros E'; by eapply Hold). split; [done|].
      repeat split; try done. exists e1, e2, wid, n. split; [|done].
      apply moved_double; [|done]. rewrite <- H2. by eapply Hold.
  - intros i t. rewrite lookup_insert. case_decide as E.
    + intros _. exists (event_id x). rewrite lookup_insert_eq. eauto.
    + intros Ht. destruct (Hev i t Ht) as (j & ev & Hj & Hag). exists j, ev.
      rewrite lookup_insert_ne by congruence. done.
  - intros j j' ev ev'. rewrite !lookup_insert.
    repeat case_decide; try congruence; simpl.
    + intros [= <-] Hj' Hag. simpl in Hag. exfalso. by eapply Hold.
    + intros Hj [= <-] Hag. simpl in Hag. exfalso. by eapply Hold.
    + apply Hone.
Qed.

Lemma move_wf d x now m : sound_move d m -> move_valid d x m ->
  wf d -> wf (moved_db d x now m).
Proof.
  intros Hs Hv [Hi Hl Ho]. split.
  - by apply move_identity.
  - by apply move_ledger.
  - by apply move_outbox.
Qed.

(** *** The other changes *)
Lemma new_wallet_wf d wid owner cur now :
  let wal := Wallet.mk wid owner cur 0 0 now now in
  violation d (InsWallet wid owner cur) = None ->
  wf d -> wf (add_wallet wal d).
Proof.
  intros wal Hv [[Hu He Ho Hc Hl] [[Hkw Hkt] Hb Hr Hen Hid Hd Hk] [Hok Hrep Hev Hone]].
  unfold violation, wallet_integrity in Hv. simpl in Hv.
  rewrite check_row_None, !andb_true_iff, !bool_decide_eq_true, no_row_spec in Hv.
  destruct Hv as (_ & (Hfresh & Hnone) & Howner).
  assert (Hentry : forall e, entry_wf d e -> entry_wf (add_wallet wal d) e).
  { intros e (Ha & Ht & Hside). split; [done|split; [done|]].
    destruct (LedgerEntry.wallet_id e) as [i|]; [|done]. destruct Hside as (Hsys & r & Hi & Hcur).
    split; [done|]. exists r. split; [|done]. simpl. rewrite lookup_insert_ne; [done|congruence]. }
  split; [split|split|split]; simpl; try done.
  - intros i r. rewrite lookup_insert. case_decide as E; [by intros [= <-]|apply Ho].
  - intros i j r s. rewrite !lookup_insert. repeat case_decide; try congruence.
    + intros [= <-] Hs Hu' Hc'. destruct (Hnone _ _ Hs). simpl in *. done.
    + intros Hi [= <-] Hu' Hc'. destruct (Hnone _ _ Hi). simpl in *. done.
    + apply Hc.
  - intros i r. rewrite lookup_insert. case_decide as E; [by intros [= <-]|apply Hl].
  - split; simpl; [|done]. intros i r. rewrite lookup_insert.
    case_decide as E; [by intros [= <-]|apply Hkw].
  - intros i r. simpl. rewrite lookup_insert. case_decide as E; [|apply Hb].
    intros [= <-]. symmetry. apply ledger_balance_absent. apply (Forall_impl _ _ _ Hen).
    intros e (_ & _ & Hside) Hi. rewrite Hi in Hside. destruct Hside as (_ & r & Hr0 & _).
    simpl in *. congruence.
  - intros i r. rewrite lookup_insert. case_decide as E; [|apply Hr].
    intros [= <-]. unfold bigint_max. simpl. lia.
  - by apply (Forall_impl _ _ _ Hen).
Qed.

Lemma add_wallet_wf d w now owner cur :
  violation d (InsWallet (Wallet.id (created_wallet w now owner cur)) owner cur) = None ->
  wf d -> wf (add_wallet (created_wallet w now owner cur) d).
Proof. apply new_wallet_wf. Qed.

Lemma add_user_wf d u : violation d (user_change u) = None ->
  wf d -> wf (add_user u d).
Proof.
  intros Hv [[Hu He Ho Hc Hl] [[Hkw Hkt] Hb Hr Hen Hid Hd Hk] [Hok Hrep Hev Hone]].
  unfold violation, user_integrity in Hv. simpl in Hv.
  rewrite check_row_None, !andb_true_iff, !bool_decide_eq_true, no_row_spec in Hv.
  destruct Hv as (_ & Hfresh & Hnone).
  split; [split|split|split]; simpl; try done.
  - intros i v. rewrite lookup_insert. case_decide as E; [by intros [= <-]|apply Hu].
  - intros i j v v'. rewrite !lookup_insert. repeat case_decide; try congruence.
    + intros [= <-] Hs Hm. by destruct (Hnone _ _ Hs).
    + intros Hi [= <-] Hm. by destruct (Hnone _ _ Hi).
    + apply He.
  - intros i r Hi. rewrite lookup_insert_is_Some'. right. by eapply Ho.
Qed.

(** A change of [published_at] only. *)
Lemma with_outbox_wf d o :
  (forall i e, outbox_events d !! i = Some e ->
     exists e', o !! i = Some e' /\ same_event e e') ->
  (forall i e', o !! i = Some e' -> is_Some (outbox_events d !! i)) ->
  wf d -> wf (with_outbox d o).
Proof.
  intros Hto Hfrom [Hi [Hkeyed Hb Hr Hen Hid Hd Hk] [Hok Hrep Hev Hone]].
  assert (Hback : forall i e', o !! i = Some e' ->
    exists e, outbox_events d !! i = Some e /\ same_event e e').
  { intros i e' He'. destruct (Hfrom i e' He') as [e He]. destruct (Hto i e He) as (e'' & H1 & H2).
    exists e. split; [done|]. congruence. }
  split; [by destruct Hi|done|split]; simpl; try done.
  - intros i e' (e & He & Hsame & _)%Hback. rewrite Hsame. by apply Hok.
  - intros j ev' (ev & Hj & S1 & S2 & S3 & S4 & S5 & S6)%Hback.
    destruct (Hrep j ev Hj) as (t0 & Ht & R1 & R2 & R3 & R4). exists t0. rewrite S3.
    split; [done|]. unfold event_reports. rewrite S2, S3, S4, S5. done.
  - intros i t0 Ht. destruct (Hev i t0 Ht) as (j & ev & Hj & Hag).
    destruct (Hto j ev Hj) as (ev' & Hj' & S1 & S2 & S3 & _). exists j, ev'.
    split; congruence.
  - intros j j' ev ev' (e & He & S1 & S2 & S3 & _)%Hback (e' & He' & T1 & T2 & T3 & _)%Hback Hag.
    apply (Hone j j' e e'); congruence.
Qed.

Lemma bumped_wf d now e : wf d -> wf (bumped d now e).
Proof. intros [Hi Hl Ho]. split; [by destruct Hi|by destruct Hl|by destruct Ho]. Qed.

(** *** The guards admit sound moves only *)
Lemma owned_wallet_Some d wid rid r : owned_wallet d wid rid = inr r ->
  wallets d !! wid = Some r /\ Wallet.user_id r = rid.
Proof.
  unfold owned_wallet. destruct (wallets d !! wid) as [r'|]; [|done].
  case_decide; [|done]. by intros [= <-].
Qed.

Lemma deposit_sound d wid rid data m : keyed d ->
  deposit_guard d wid rid data = inr m -> sound_move d m.
Proof.
  intros [Hk _]. unfold deposit_guard.
  destruct (owned_wallet d wid rid) as [|r] eqn:E; [done|]. cbv zeta.
  apply owned_wallet_Some in E as [Hr _]. apply Hk in Hr as Hid.
  case_decide; [|done]. intros [= <-]. rewrite <- Hid in Hr.
  split; unfold leg_sound; simpl; eauto; [apply NoDup_singleton| |set_solver].
  intros i z [= -> ->]%list_elem_of_singleton. exists r. split; [done|].
  cbn [mv_first mv_second mv_amount deposit_move withdraw_move].
  rewrite leg_delta_eq, leg_delta_ne by done. lia.
Qed.

Lemma withdraw_sound d wid rid data key m : keyed d ->
  withdraw_guard d wid rid data key = inr m -> sound_move d m.
Proof.
  intros [Hk _]. unfold withdraw_guard.
  destruct (owned_wallet d wid rid) as [|r] eqn:E; [done|]. cbv zeta.
  apply owned_wallet_Some in E as [Hr _]. apply Hk in Hr as Hid.
  case_decide; [|done]. destruct (_ <? _)%Z; [done|]. intros [= <-]. rewrite <- Hid in Hr.
  split; unfold leg_sound; simpl; eauto; [apply NoDup_singleton| |set_solver].
  intros i z [= -> ->]%list_elem_of_singleton. exists r. split; [done|].
  cbn [mv_first mv_second mv_amount deposit_move withdraw_move].
  rewrite leg_delta_eq, leg_delta_ne by done. lia.
Qed.

Lemma transfer_sound d sid rid data key m : keyed d ->
  sid <> TransferRequest.recipient_wallet_id data ->
  transfer_guard d sid rid data key = inr m -> sound_move d m.
Proof.
  intros [Hk _] Hne. unfold transfer_guard.
  destruct (owned_wallet d sid rid) as [|a] eqn:E; [done|]. cbv zeta.
  apply owned_wallet_Some in E as [Ha _]. apply Hk in Ha as Hid.
  destruct (wallets d !! TransferRequest.recipient_wallet_id data) as [b|] eqn:Eb; [|done]. apply Hk in Eb as Hidb.
  repeat (case_decide; try done). destruct (_ <? _)%Z; [done|]. intros [= <-].
  rewrite <- Hid in Ha. rewrite <- Hidb in Eb. rewrite <- Hid, <- Hidb in Hne.
  split; unfold leg_sound; simpl; eauto; [| |set_solver].
  - apply NoDup_cons. split; [set_solver|apply NoDup_singleton].
  - intros i z [[= -> ->]|[= -> ->]%list_elem_of_singleton]%elem_of_cons;
      [exists a|exists b]; (split; [done|]); cbn [mv_first mv_second mv_amount transfer_move].
    + rewrite leg_delta_eq, leg_delta_ne by (simpl; congruence). lia.
    + rewrite (leg_delta_ne _ _ (Leg DEBIT _ _)), leg_delta_eq by (simpl; congruence). lia.
Qed.
End preservation.
