(* ===== verification/Conservation.v ===== *)
(** * Conservation of money

    In sound tables, the wallets of a currency hold together exactly what came
    in from the external funding account in that currency. *)
From S2P Require Import Prelude PyValues Schema Session Repositories LedgerService Moves LedgerSpec.
From S2P Require Import Reconciliation Invariants.

(** What the wallets of a currency hold. *)
Definition held (d : Database) (cur : string) : Z :=
  map_zsum (fun r => if decide (Wallet.currency r = cur) then Wallet.available_balance r else 0%Z)
    (wallets d).

(** What came in through the funding account: its debits less its credits. *)
Definition funded (d : Database) (cur : string) : Z :=
  (- zsum (signed_amount <$> filter (fun e =>
       LedgerEntry.system_account e = Some SYSTEM_ACCOUNT_FUNDING /\ LedgerEntry.currency e = cur)
     (ledger_entries d)))%Z.

(** The signed amount of an entry of the currency. *)
Definition signed_in (cur : string) (e : LedgerEntry.row) : Z :=
  if decide (LedgerEntry.currency e = cur) then signed_amount e else 0%Z.

(** The entries of a transaction cancel out. *)
Lemma double_entry_cancels d t e1 e2 cur : double_entry d t e1 e2 ->
  zsum (signed_in cur <$> LedgerRepository.entries_for_transaction (Transaction.id t) d) = 0%Z.
Proof.
  intros (-> & Ha & Hty & Hc1 & Hc2). unfold signed_in. simpl. rewrite Hc1, Hc2.
  case_decide; [|done]. unfold signed_amount. rewrite Ha.
  destruct (LedgerEntry.entry_type e1), (LedgerEntry.entry_type e2); done || lia.
Qed.

(** The whole ledger of a currency cancels out: grouped by transaction. *)
Lemma ledger_cancels d cur : ledger_wf d -> zsum (signed_in cur <$> ledger_entries d) = 0%Z.
Proof.
  intros Hw. rewrite (zsum_partition _ LedgerEntry.transaction_id
    (map_to_list (transactions d)).*1) by
    (apply NoDup_fst_map_to_list || (intros e He; pose proof (lw_entries _ Hw) as Hen;
      rewrite Forall_forall in Hen; destruct (Hen e He) as (_ & [t Ht] & _);
      apply list_elem_of_fmap; exists (LedgerEntry.transaction_id e, t);
      by rewrite elem_of_map_to_list)).
  apply zsum_map_zero. intros i ([i' t] & -> & Ht%elem_of_map_to_list)%list_elem_of_fmap.
  simpl. destruct (lw_double _ Hw i' t Ht) as (_ & _ & e1 & e2 & Hde).
  apply (lw_keyed _ Hw) in Ht as <-. exact (double_entry_cancels d t e1 e2 cur Hde).
Qed.

(** The entries of one wallet, in a currency. *)
Lemma wallet_entries_in d cur i r : ledger_wf d -> wallets d !! i = Some r ->
  zsum (signed_in cur <$> filter (fun e => LedgerEntry.wallet_id e = Some i) (ledger_entries d)) =
    if decide (Wallet.currency r = cur) then Wallet.available_balance r else 0%Z.
Proof.
  intros Hw Hr. pose proof (lw_entries _ Hw) as Hen. rewrite Forall_forall in Hen.
  assert (Hcur : forall e, e ∈ filter (fun e => LedgerEntry.wallet_id e = Some i) (ledger_entries d) ->
    LedgerEntry.currency e = Wallet.currency r).
  { intros e [Hi He]%list_elem_of_filter. destruct (Hen e He) as (_ & _ & Hside).
    rewrite Hi in Hside. destruct Hside as (_ & r' & Hr' & Hc). congruence. }
  case_decide as Hc.
  - rewrite (lw_balanced _ Hw i r Hr). apply zsum_map_ext. intros e He. unfold signed_in.
    by rewrite decide_True by (by rewrite (Hcur e He)).
  - apply zsum_map_zero. intros e He. unfold signed_in.
    by rewrite decide_False by (by rewrite (Hcur e He)).
Qed.

(** The entries of the funding account, in a currency. *)
Lemma funding_entries_in `{forall e, Decision (LedgerEntry.wallet_id e = None)} d cur : ledger_wf d ->
  zsum (signed_in cur <$> filter (fun e => LedgerEntry.wallet_id e = None) (ledger_entries d)) =
    (- funded d cur)%Z.
Proof.
  intros Hw. unfold funded. rewrite Z.opp_involutive, !zsum_filter. apply zsum_map_ext.
  intros e He. pose proof (lw_entries _ Hw) as Hen. rewrite Forall_forall in Hen.
  destruct (Hen e He) as (_ & _ & Hside). unfold signed_in.
  destruct (decide (LedgerEntry.wallet_id e = None)) as [E|E].
  - rewrite E in Hside. repeat case_decide; tauto.
  - apply not_eq_None_Some in E as [i Hi]. rewrite Hi in Hside. destruct Hside as [Hs _].
    rewrite decide_False; [done|]. rewrite Hs. by intros [? _].
Qed.

(** Grouped by wallet instead, the ledger splits into balances and funding. *)
Lemma held_funded d cur : ledger_wf d -> held d cur = funded d cur.
Proof.
  intros Hw. pose proof (ledger_cancels d cur Hw) as Hz.
  rewrite (zsum_partition _ LedgerEntry.wallet_id (None :: (Some <$> (map_to_list (wallets d)).*1)))
    in Hz.
  - rewrite fmap_cons, zsum_cons, funding_entries_in, <- !list_fmap_compose in Hz by done.
    enough (held d cur = zsum ((fun ir => zsum (signed_in cur <$>
      filter (fun e => LedgerEntry.wallet_id e = Some ir.1) (ledger_entries d)))
        <$> map_to_list (wallets d))) as -> by (unfold compose in Hz; lia).
    unfold held, map_zsum. apply zsum_map_ext. intros [i r] Hr%elem_of_map_to_list. simpl.
    by rewrite (wallet_entries_in d cur i r).
  - apply NoDup_cons. split.
    + intros (i & [=] & _)%list_elem_of_fmap.
    + apply NoDup_fmap; [apply _|]. apply NoDup_fst_map_to_list.
  - intros e He. pose proof (lw_entries _ Hw) as Hen. rewrite Forall_forall in Hen.
    destruct (Hen e He) as (_ & _ & Hside). destruct (LedgerEntry.wallet_id e) as [i|]; [|set_solver].
    destruct Hside as (_ & r & Hr & _). right. apply list_elem_of_fmap. exists i. split; [done|].
    apply list_elem_of_fmap. exists (i, r). by rewrite elem_of_map_to_list.
Qed.
