(* ===== verification/System.v ===== *)
(** * The system as a whole

    Every program that serves a request or runs in a worker is an [activity];
    the world moves by whole runs of activities, and by runs cut short at any
    call (a crash, a lost connection).  The invariants hold of every world
    reached this way from a fresh installation. *)
From S2P Require Import Prelude PyValues Schema Session Requests Repositories LedgerService Moves.
From S2P Require Import LedgerSpec Security AccountServices Publisher Analytics Reconciliation Atomicity.
From S2P Require Import Invariants.

Section system.
Context `{Env} `{Crypto} `{JsonCodec}.

(** ** Activities *)
Inductive activity : forall A, prog A -> Prop :=
  | act_register data : activity _ (UserService.register data)
  | act_create_wallet owner data : activity _ (WalletService.create_wallet owner data)
  | act_deposit wallet_id requester_id data : activity _ (deposit wallet_id requester_id data)
  | act_transfer sender_id requester_id data key :
      activity _ (transfer sender_id requester_id data key)
  | act_withdraw wallet_id requester_id data key :
      activity _ (withdraw wallet_id requester_id data key)
  | act_publish deliver topic batch_size : activity _ (publish_turn deliver topic batch_size)
  | act_analytics payload : activity _ (AnalyticsService.handle_event payload)
  | act_read A (p : prog A) : commits_le 0 p -> activity A p.   (* balance, history, login, jobs *)

(** The activities behind the API and the jobs. *)
Inductive front : forall A, prog A -> Prop :=
  | front_register data : front _ (UserService.register data)
  | front_create_wallet owner data : front _ (WalletService.create_wallet owner data)
  | front_deposit wallet_id requester_id data : front _ (deposit wallet_id requester_id data)
  | front_transfer sender_id requester_id data key : front _ (transfer sender_id requester_id data key)
  | front_withdraw wallet_id requester_id data key : front _ (withdraw wallet_id requester_id data key)
  | front_read A (p : prog A) : commits_le 0 p -> front A p.

Lemma front_activity {A} (p : prog A) : front A p -> activity A p.
Proof. by destruct 1; constructor. Qed.

(** One activity on a session of its own, run to its end or cut short; the
    session's transaction timestamp is any. *)
Inductive step (w : World) : World -> Prop :=
  | step_run A (p : prog A) now :
      activity A p -> step w (run p (at_log w [] now)).2.1
  | step_crash A (p : prog A) now n :
      activity A p -> step w (run_upto n p (at_log w [] now)).1.

Definition reachable (w : World) : Prop := rtc step empty_world w.

(** ** Numbering, in any program *)
Definition session_numbered (s : session) : Prop :=
  numbered (next_seq s.1) (db s.1) /\ numbered (next_seq s.1) (visible s).

Lemma numbered_le n m d : (n <= m)%Z -> numbered n d -> numbered m d.
Proof. intros Hle [Hs Hn]. split; [done|]. apply (Forall_impl _ _ _ Hn). simpl. lia. Qed.

Lemma draw_seq_le c n : (n <= draw_seq c n)%Z.
Proof. destruct c; simpl; lia. Qed.

Lemma numbered_write now n c d :
  numbered n d -> numbered (draw_seq c n) (apply_write d (mkWrite now n c)).
Proof.
  intros [Hs Hn]. destruct d. destruct c; try exact (conj Hs Hn).
  split; simpl in *.
  - rewrite fmap_app. apply StronglySorted_app. split; [|split; [done|repeat constructor]].
    intros x y (e & -> & He)%list_elem_of_fmap ->%list_elem_of_singleton.
    rewrite Forall_forall in Hn. by apply Hn.
  - apply Forall_app. split; [|repeat constructor; simpl; lia].
    apply (Forall_impl _ _ _ Hn). simpl. lia.
Qed.

Lemma flush_numbered cs s :
  session_numbered s -> session_numbered (flush_changes cs s).2.
Proof.
  revert s. induction cs as [|c cs IH]; intros s [Hd Hv]; simpl; [by split|].
  destruct (violation _ c).
  - pose proof (draw_seq_le c (next_seq s.1)).
    split; simpl; unfold visible; simpl; rewrite ?apply_writes_nil; by eapply numbered_le.
  - apply IH. pose proof (draw_seq_le c (next_seq s.1)). split; simpl.
    + by eapply numbered_le.
    + unfold visible. simpl. rewrite apply_writes_app. by apply numbered_write.
Qed.

Lemma step_numbered {B} (c : SessionE B) s :
  session_numbered s -> session_numbered (session_step c s).2.
Proof.
  intros [Hd Hv]. destruct c; try exact (conj Hd Hv); try exact (conj Hd Hd).
  - simpl. unfold flush. destruct (broken s.2); [by split|]. by apply flush_numbered.
  - simpl. unfold commit, flush. destruct (broken s.2); [by split|].
    pose proof (flush_numbered (pending s.2) s (conj Hd Hv)) as Hf.
    destruct (flush_changes (pending s.2) s) as [[e|[]] s']; [done|]. simpl in *.
    destruct Hf as [_ Hf]. split; done.
Qed.

Lemma run_upto_numbered {A} (p : prog A) n s :
  session_numbered s -> session_numbered (run_upto n p s).
Proof.
  revert n s. induction p as [a|e|B c k IH]; intros [|n] s Hs; simpl; try done.
  pose proof (step_numbered c s Hs). destruct (session_step c s) as [r s']. by apply IH.
Qed.

Lemma run_numbered {A} (p : prog A) s : session_numbered s -> session_numbered (run p s).2.
Proof.
  revert s. induction p as [a|e|B c k IH]; intros s Hs; [done..|].
  rewrite run_vis. by apply IH, step_numbered.
Qed.

(** ** The analytics handler on any payload *)
Lemma pure_item payload k : pure (AnalyticsService.item payload k).
Proof. apply pure_or_raise. Qed.
Lemma pure_to_uuid x : pure (AnalyticsService.to_uuid x).
Proof. destruct x; [right; eauto..|apply pure_or_raise]. Qed.
Lemma pure_to_int x : pure (AnalyticsService.to_int x).
Proof. destruct x; [right; eauto|left; eauto|apply pure_or_raise]. Qed.
Lemma pure_to_text x : pure (AnalyticsService.to_text x).
Proof. destruct x; [right; eauto|left; eauto..]. Qed.

(** Either nothing is committed, or one event is counted. *)
Definition counted_once (w : World) (s' : session) : Prop :=
  db s'.1 = db w \/ exists t e, db s'.1 = bumped (db w) t e.

#[local] Ltac step_pure lem :=
  apply wp_bind, wp_pure; [apply lem|left; reflexivity|intros ?].

Lemma wp_handle_event_any payload w now :
  wp (AnalyticsService.handle_event payload) (fun _ => counted_once w) (at_log w [] now).
Proof.
  unfold AnalyticsService.handle_event.
  step_pure pure_item. apply wp_bind, wp_pure; [apply pure_to_uuid|by left|intros t].
  apply wp_bind, wp_query. case_bool_decide; [by apply wp_ret; left|].
  apply wp_bind, wp_add_flush; [by left|intros _].
  step_pure pure_item. step_pure pure_item. step_pure pure_item.
  apply wp_bind, wp_pure; [apply pure_to_int|by left|intros am].
  apply wp_bind, wp_pure; [apply pure_to_text|by left|intros cur].
  apply wp_bind, wp_pure; [apply pure_to_text|by left|intros ty].
  apply wp_bind, wp_increment; [by left|].
  intros _ L' HL'. apply wp_try_except, wp_bind, wp_commit, wp_ret.
  right. exists now, (StatEvent t cur ty am). cbn [db fst]. cbn [db] in HL'. rewrite HL'.
  rewrite apply_writes_app. by destruct (db w).
Qed.

(** ** What an activity can do to the tables *)
Inductive ledger_effect (d : Database) : Database -> Prop :=
  | eff_none : ledger_effect d d
  | eff_user w now data : violation d (user_change (registered_user w now data)) = None ->
      ledger_effect d (add_user (registered_user w now data) d)
  | eff_wallet w now owner cur :
      violation d (InsWallet (Wallet.id (created_wallet w now owner cur)) owner cur) = None ->
      ledger_effect d (add_wallet (created_wallet w now owner cur) d)
  | eff_move x now m : sound_move d m -> move_valid d x m -> (exists n, txn_id x = uuid4 n) ->
      ledger_effect d (moved_db d x now m).

Inductive effect (d : Database) : Database -> Prop :=
  | eff_ledger d' : ledger_effect d d' -> effect d d'
  | eff_stamped t es : effect d (stamped d t es)
  | eff_bumped now e : effect d (bumped d now e).

(** ** Every activity has one of these effects *)
Lemma outcome_effect {R} w now g (f : Transaction.row -> Wallet.row -> R) r s' :
  (forall m, g = inr m -> sound_move (db w) m) ->
  outcome w now g f r s' -> ledger_effect (db w) (db s'.1).
Proof.
  intros Hg Ho. unfold outcome in Ho. destruct g as [e|m].
  - destruct Ho as [_ ->]. constructor.
  - destruct Ho as [(_ & (-> & _) & _)|(Hv & -> & _)]; [constructor|].
    apply eff_move; [auto|done|]. by exists (tick w).
Qed.

Lemma keyed_outcome_effect w now key i g r s' :
  (forall m, g = inr m -> sound_move (db w) m) ->
  keyed_outcome w now key i g r s' -> ledger_effect (db w) (db s'.1).
Proof.
  intros Hg. unfold keyed_outcome. destruct (known_key _ _); [|by apply outcome_effect].
  intros [_ ->]. constructor.
Qed.

Lemma front_effect {A} (p : prog A) w now :
  front A p -> keyed (db w) -> ledger_effect (db w) (db (run p (at_log w [] now)).2.1).
Proof.
  intros Hp Hk. destruct Hp.
  - pose proof (proj1 (wp_run _ _ _) (wp_register data w now)) as Ho. unfold register_outcome in Ho.
    destruct (email_taken _ _); [destruct Ho as [_ ->]; constructor|].
    destruct (violation _ _) eqn:Hv; [destruct Ho as [_ [-> _]]; constructor|].
    destruct Ho as [_ ->]. by apply eff_user.
  - pose proof (proj1 (wp_run _ _ _) (wp_create_wallet owner data w now)) as Ho.
    unfold create_wallet_outcome in Ho.
    destruct (wallet_of _ _ _); [destruct Ho as [_ ->]; constructor|].
    destruct (violation _ _) eqn:Hv; [destruct Ho as [_ [-> _]]; constructor|].
    destruct Ho as [_ ->]. by apply eff_wallet.
  - eapply outcome_effect; [|exact (proj1 (wp_run _ _ _) (wp_deposit _ _ _ w now Hk))].
    intros m. by apply deposit_sound.
  - destruct (decide (sender_id = TransferRequest.recipient_wallet_id data)) as [He|He].
    + pose proof (proj1 (wp_run _ _ _) (wp_transfer_same sender_id requester_id data key w now He))
        as [_ ->]. constructor.
    + eapply keyed_outcome_effect;
        [|exact (proj1 (wp_run _ _ _) (wp_transfer _ _ _ key w now Hk He))].
      intros m. by apply transfer_sound.
  - eapply keyed_outcome_effect; [|exact (proj1 (wp_run _ _ _) (wp_withdraw _ _ _ key w now Hk))].
    intros m. by apply withdraw_sound.
  - rewrite run_no_commit by done. constructor.
Qed.

Lemma activity_effect {A} (p : prog A) w now :
  activity A p -> keyed (db w) -> effect (db w) (db (run p (at_log w [] now)).2.1).
Proof.
  intros Hp Hk. destruct Hp; try (apply eff_ledger, front_effect; [by constructor|done]).
  - pose proof (proj1 (wp_run _ _ _) (wp_publish_turn deliver topic batch_size w now)) as [_ Ho].
    case_decide; destruct Ho as [_ ->]; [apply eff_ledger, eff_none|apply eff_stamped].
  - pose proof (proj1 (wp_run _ _ _) (wp_handle_event_any payload w now)) as [->|(t & e & ->)];
      [apply eff_ledger, eff_none|apply eff_bumped].
Qed.

(** *** The effects keep the tables sound *)
Lemma stamped_wf d t es : wf d -> wf (stamped d t es).
Proof.
  intros Hw. apply with_outbox_wf; [| |done].
  - intros i e He. destruct (stamped_event d t es i e He) as (e' & He' & Hs & _). eauto.
  - intros i e' He'. destruct (outbox_events d !! i) eqn:E; [eauto|].
    apply (stamped_none d t es i) in E. simpl in E. congruence.
Qed.

Lemma effect_wf d d' : effect d d' -> wf d -> wf d'.
Proof.
  intros [d1 [|w now data Hv|w now owner cur Hv|x now m Hs Hv _]|t es|now e] Hd;
    eauto using add_user_wf, move_wf, stamped_wf, bumped_wf.
  by apply add_wallet_wf.
Qed.

Lemma activity_commits {A} (p : prog A) : activity A p -> commits_le 1 p.
Proof.
  destruct 1; eauto using commits_register, commits_wallet, commits_deposit, commits_transfer,
    commits_withdraw, commits_publish_turn, commits_handle_event.
  apply (commits_mono 0 1); [lia|done].
Qed.

Lemma step_effect w w' : step w w' -> keyed (db w) -> effect (db w) (db w').
Proof.
  intros [A p now Hp|A p now n Hp] Hk; [by apply activity_effect|].
  destruct (run_upto_one_commit p n (at_log w [] now)) as [->| ->];
    [by apply activity_commits|apply eff_ledger; constructor|by apply activity_effect].
Qed.

Lemma step_numbered_world w w' : step w w' ->
  numbered (next_seq w) (db w) -> numbered (next_seq w') (db w').
Proof.
  intros [A p now Hp|A p now n Hp] Hn.
  - by apply (run_numbered p (at_log w [] now)).
  - by apply (run_upto_numbered p n (at_log w [] now)).
Qed.

Lemma step_wf w w' : step w w' -> wf (db w) -> wf (db w').
Proof. intros Hst Hw. eapply effect_wf; [|done]. apply step_effect; [done|apply Hw]. Qed.

Lemma reachable_sound w : reachable w -> wf (db w) /\ numbered (next_seq w) (db w).
Proof.
  revert w. apply (rtc_ind_r (fun w => wf (db w) /\ numbered (next_seq w) (db w))).
  - split; [apply wf_empty|]. split; constructor.
  - intros w w' _ Hst [Hw Hn]. eauto using step_wf, step_numbered_world.
Qed.

(** ** The past is never rewritten *)
Record extends (d d' : Database) : Prop := Extends {
  ext_users : users d ⊆ users d';
  ext_wallets : forall i r, wallets d !! i = Some r -> exists r', wallets d' !! i = Some r' /\
    Wallet.id r' = Wallet.id r /\ Wallet.user_id r' = Wallet.user_id r /\
    Wallet.currency r' = Wallet.currency r;
  ext_transactions : transactions d ⊆ transactions d';
  ext_entries : ledger_entries d `prefix_of` ledger_entries d';
  ext_outbox : forall i e, outbox_events d !! i = Some e ->
    exists e', outbox_events d' !! i = Some e' /\ same_event e e' }.

#[export] Instance extends_preorder : PreOrder extends.
Proof.
  split.
  - intros d. split; eauto. intros i e He. exists e. by repeat split.
  - intros d d' d'' [U1 W1 T1 E1 O1] [U2 W2 T2 E2 O2]. split; try (by etrans).
    + intros i r Hr. destruct (W1 i r Hr) as (r' & Hr' & ? & ? & ?).
      destruct (W2 i r' Hr') as (r'' & Hr'' & ? & ? & ?). exists r''. repeat split; congruence.
    + intros i e He. destruct (O1 i e He) as (e' & He' & S1).
      destruct (O2 i e' He') as (e'' & He'' & S2). exists e''. split; [done|].
      unfold same_event in *. conj; congruence.
Qed.

Lemma extends_same d d' : users d' = users d -> wallets d' = wallets d ->
  transactions d' = transactions d -> ledger_entries d' = ledger_entries d ->
  (forall i e, outbox_events d !! i = Some e ->
     exists e', outbox_events d' !! i = Some e' /\ same_event e e') -> extends d d'.
Proof. intros Hu Hw Ht He Ho. split; rewrite ?Hu, ?Hw, ?Ht, ?He; eauto. Qed.

Lemma move_extends d x now m : sound_move d m -> move_valid d x m ->
  extends d (moved_db d x now m).
Proof.
  intros Hs Hv. split; try done.
  - intros i r Hr. destruct (moved_row d x now m i Hs) as [Hn Hsome].
    destruct (wallets (moved_db d x now m) !! i) as [r'|] eqn:E.
    + destruct (Hsome r' eq_refl) as (r0 & Hr0 & H1' & H2' & H3' & _). exists r'.
      simplify_eq. done.
    + by rewrite (proj1 Hn eq_refl) in Hr.
  - simpl. by apply insert_subseteq, Hv.
  - simpl. by apply prefix_app_r.
  - intros i e He. exists e. simpl. rewrite lookup_insert_ne; [by repeat split|].
    intros <-. rewrite (mvv_event_fresh _ _ _ Hv) in He. done.
Qed.

Lemma effect_extends d d' : effect d d' -> extends d d'.
Proof.
  assert (Hsame : forall (o : gmap uuid OutboxEvent.row) i e, o !! i = Some e ->
    exists e', o !! i = Some e' /\ same_event e e') by (intros o i e He; exists e; by repeat split).
  intros [d1 [|w now data Hv|w now owner cur Hv|x now m Hs Hv _]|t es|now e].
  - reflexivity.
  - apply new_user_fresh in Hv as Hfresh. split; eauto. simpl. by apply insert_subseteq.
  - apply new_wallet_fresh in Hv as Hfresh. simpl in Hfresh. split; eauto. simpl.
    intros i r Hr. exists r. rewrite lookup_insert_ne; [done|]. congruence.
  - by apply move_extends.
  - apply extends_same; try done. intros i e He.
    destruct (stamped_event d t es i e He) as (e' & He' & Hs & _). eauto.
  - apply extends_same; try done. apply Hsame.
Qed.

(** *** Ids *)

(** [uuid.uuid4()] draws 128-bit values. *)
Definition ids128 : Prop := forall n, (uuid4 n < uuid_bound)%N.

Definition sized (d : Database) : Prop :=
  (forall i, is_Some (users d !! i) -> (i < uuid_bound)%N) /\
  (forall i, is_Some (wallets d !! i) -> (i < uuid_bound)%N) /\
  (forall i, is_Some (transactions d !! i) -> (i < uuid_bound)%N).

Lemma effect_sized d d' : ids128 -> effect d d' -> sized d -> sized d'.
Proof.
  intros Hids He Hs. pose proof Hs as (Hu & Hw & Ht).
  destruct He as [d1 [|w now data Hv|w now owner cur Hv|x now m Hm Hv [n Hn]]|t es|now e]; try done.
  - split; [|done]. intros i. simpl. rewrite lookup_insert_is_Some'. intros [<-|]; auto.
  - split; [done|split; [|done]]. intros i. simpl. rewrite lookup_insert_is_Some'. intros [<-|]; auto.
  - split; [done|split].
    + intros i Hi. apply Hw. destruct (wallets d !! i) eqn:E; [eauto|].
      apply (moved_row d x now m i Hm) in E. rewrite E in Hi. by destruct Hi.
    + intros i. simpl. rewrite lookup_insert_is_Some'. intros [<-|]; [rewrite Hn; apply Hids|auto].
Qed.

Lemma reachable_sized w : ids128 -> reachable w -> sized (db w).
Proof.
  intros Hids Hr. enough (Hboth : wf (db w) /\ sized (db w)) by apply Hboth. revert w Hr.
  apply (rtc_ind_r (fun w => wf (db w) /\ sized (db w))).
  - split; [apply wf_empty|]. by repeat split; intros i [].

  - intros w w' _ Hst [Hw Hs]. split; [by apply (step_wf w)|].
    eapply effect_sized; [done| |exact Hs]. apply step_effect; [done|apply Hw].
Qed.

Lemma steps_extend w w' : wf (db w) -> rtc step w w' -> extends (db w) (db w').
Proof.
  intros Hw Hst. induction Hst as [w|w w1 w2 H1' _ IH]; [reflexivity|].
  transitivity (db w1).
  - apply effect_extends, step_effect; [done|apply Hw].
  - apply IH. by apply (step_wf w).
Qed.
End system.
