(* ===== verification/ConcurrentLedger.v ===== *)
(** * Concurrent money requests

    The three operations of LedgerService.v as threads of one pool
    (tests/test_concurrency.py): under any interference that keeps the tables
    sound, each takes effect, if at all, as one [move] its guard allows on the
    tables at the moment of its commit. *)
From S2P Require Import Prelude PyValues Schema Locks Session Interleaving Pool Requests Repositories.
From S2P Require Import SafeRules LedgerService Moves LedgerSpec SafeLedger Invariants System.

(** ** Requests *)
Inductive request :=
  | Deposit (wallet_id requester_id : uuid) (data : DepositRequest.t)
  | Transfer (sender_wallet_id requester_id : uuid) (data : TransferRequest.t)
      (idempotency_key : option string)
  | Withdraw (wallet_id requester_id : uuid) (data : WithdrawalRequest.t)
      (idempotency_key : option string).

Definition answer : Type := Transaction.row * option Wallet.row.

Definition serve (q : request) : prog answer :=
  match q with
  | Deposit i r data => res ← deposit i r data; mret (res.1, Some res.2)
  | Transfer i r data key => transfer i r data key
  | Withdraw i r data key => withdraw i r data key
  end.

Definition request_key (q : request) : option string :=
  match q with Deposit _ _ _ => None | Transfer _ _ _ key | Withdraw _ _ _ key => key end.

(** The wallet whose row is answered. *)
Definition subject (q : request) : uuid :=
  match q with Deposit i _ _ | Transfer i _ _ _ | Withdraw i _ _ _ => i end.

Definition wallets_of (q : request) : list uuid :=
  match q with
  | Deposit i _ _ | Withdraw i _ _ _ => [i]
  | Transfer i _ data _ => [i; TransferRequest.recipient_wallet_id data]
  end.

Definition request_amount (q : request) : Z :=
  match q with
  | Deposit _ _ data => DepositRequest.amount data
  | Transfer _ _ data _ => TransferRequest.amount data
  | Withdraw _ _ data _ => WithdrawalRequest.amount data
  end.

(** ** The atomic specification *)

(** What the request may do on the tables [d], at once. *)
Definition request_guard (d : Database) (q : request) : exn + move :=
  match q with
  | Deposit i r data => deposit_guard d i r data
  | Transfer i r data key =>
      if decide (i = TransferRequest.recipient_wallet_id data) then inl (SameWalletTransferError i)
      else transfer_guard d i r data key
  | Withdraw i r data key => withdraw_guard d i r data key
  end.

Definition books `{Env} (q : request) (d d' : Database) : Prop :=
  exists x now m, request_guard d q = inr m /\ move_valid d x m /\
    (exists n, txn_id x = uuid4 n) /\ d' = moved_db d x now m.

Lemma guard_agree q d d' : (forall i, i ∈ wallets_of q -> wallets d' !! i = wallets d !! i) ->
  request_guard d' q = request_guard d q.
Proof.
  intros Hw. destruct q as [i r data|i r data key|i r data key]; simpl in *.
  - unfold deposit_guard, owned_wallet. rewrite (Hw i) by set_solver. done.
  - unfold transfer_guard, owned_wallet.
    by rewrite (Hw i), (Hw (TransferRequest.recipient_wallet_id data)) by set_solver.
  - unfold withdraw_guard, owned_wallet. rewrite (Hw i) by set_solver. done.
Qed.

Lemma request_sound d q m : keyed d -> request_guard d q = inr m -> sound_move d m.
Proof.
  intros Hk. destruct q as [i r data|i r data key|i r data key]; simpl.
  - by apply deposit_sound.
  - case_decide; [done|]. by apply transfer_sound.
  - by apply withdraw_sound.
Qed.

Lemma request_move d q m : request_guard d q = inr m ->
  mv_key m = request_key q /\ mv_amount m = request_amount q.
Proof.
  destruct q as [i r data|i r data key|i r data key]; simpl;
    unfold deposit_guard, transfer_guard, withdraw_guard, owned_wallet;
    repeat (case_match; try done); by intros [= <-].
Qed.

(** A move touches the wallets its request names. *)
Lemma guard_wallets d q m i : keyed d -> request_guard d q = inr m ->
  (leg_wallet (mv_first m) = Some i \/ leg_wallet (mv_second m) = Some i \/ mv_wallet m = i \/
   exists z, (i, z) ∈ mv_sets m) -> i ∈ wallets_of q.
Proof.
  intros [Hk _].
  destruct q as [j r data|j r data key|j r data key]; simpl;
    unfold deposit_guard, transfer_guard, withdraw_guard, owned_wallet; cbv zeta;
    repeat (case_match; try done); intros [= <-]; simpl;
    repeat match goal with H : wallets d !! _ = Some _ |- _ => apply Hk in H end;
    simplify_eq; set_solver.
Qed.

Lemma guard_subject d q m : keyed d -> request_guard d q = inr m -> mv_wallet m = subject q.
Proof.
  intros [Hk _].
  destruct q as [j r data|j r data key|j r data key]; simpl;
    unfold deposit_guard, transfer_guard, withdraw_guard, owned_wallet; cbv zeta;
    repeat (case_match; try done); intros [= <-]; simpl;
    repeat match goal with H : wallets d !! _ = Some _ |- _ => apply Hk in H end; congruence.
Qed.

(** ** What a request answers *)
Definition replayed (q : request) (txn : Transaction.row) : Prop :=
  exists k, truthy (request_key q) = Some k /\ Transaction.idempotency_key txn = Some k.

(** The request, carried out on the tables [d1], has left [d2] and booked [txn]. *)
Definition carried_out (q : request) (txn : Transaction.row) (d1 d2 : Database) : Prop :=
  exists x now m, request_guard d1 q = inr m /\ d2 = moved_db d1 x now m /\ txn = move_txn x now m.

Definition booked_by (q : request) (txn : Transaction.row) : Prop :=
  exists d x now m, request_guard d q = inr m /\ txn = move_txn x now m.

Lemma carried_booked q txn d1 d2 : carried_out q txn d1 d2 -> booked_by q txn.
Proof. intros (x & now & m & Hg & _ & Ht). by exists d1, x, now, m. Qed.

(** Interference that keeps the tables sound and the past. *)
Class Benign (J : interference) : Prop := {
  benign_wf : forall d, inv J d -> wf d;
  benign_extends : forall d d', grows J d d' -> extends d d' }.

(** A wallet the request names does not exist: the error says so. *)
Definition not_there (q : request) (e : exn) (d : Database) : Prop :=
  exists i, i ∈ wallets_of q /\ wallets d !! i = None /\
    (e = WalletNotFoundError i \/ e = RecipientNotFoundError i).

(** ** Each operation under interference *)
Section operations.
Context `{Env} (J : interference) `{!Benign J}.
Implicit Types (w : World) (K : gset lock) (g : ghost) (x : draws) (m : move) (q : request).

Abbreviation rely := (rely J).

(** The wallet [wal] is read at a moment since [d1]. *)
Definition read_since q (wal : option Wallet.row) (d1 d : Database) : Prop :=
  exists d2, grows J d1 d2 /\ grows J d2 d /\ wal = wallets d2 !! subject q.

(** A request that raises has committed nothing, and was refused by a statement
    or, at some moment, by its guard or for a wallet that did not exist; one that
    returns has its transaction in the tables - the one its commit booked, or the
    one its key stands for - and its wallet as it was at some moment since. *)
Definition answered q (r : exn + answer) (d : Database) g : Prop :=
  match r with
  | inl e => committed g = false /\ ((exists e', e = DBError e') \/
      exists d0, inv J d0 /\ grows J d0 d /\ (request_guard d0 q = inl e \/ not_there q e d0))
  | inr (txn, wal) =>
      transactions d !! Transaction.id txn = Some txn /\
      match booked g with
      | Some (d1, d2) => carried_out q txn d1 d2 /\ read_since q wal d2 d
      | None => replayed q txn /\ exists d1, inv J d1 /\ read_since q wal d1 d
      end
  end.

#[local] Set Default Proof Using "All".

Lemma read_since_grows q wal d1 d d' : read_since q wal d1 d -> grows J d d' -> read_since q wal d1 d'.
Proof. intros (d2 & H1' & H2' & Hw) Hd. exists d2. split; [done|]. split; [by etrans|done]. Qed.

Lemma answered_grows q r d d' g : answered q r d g -> grows J d d' -> answered q r d' g.
Proof.
  intros Ha Hd. destruct r as [e|[txn wal]]; simpl in *.
  - destruct Ha as [Hc [He|(d0 & HI & Hg & He)]]; (split; [done|]); [by left|right].
    exists d0. split; [done|]. split; [by etrans|done].
  - destruct Ha as [Ht Hb]. split.
    + exact (lookup_weaken _ _ _ _ Ht (ext_transactions _ _ (benign_extends _ _ Hd))).
    + destruct (booked g) as [[d1 d2]|].
      * destruct Hb as [Hc Hr]. split; [done|]. by eapply read_since_grows.
      * destruct Hb as (Hk & d1 & HI & Hr). split; [done|]. exists d1. split; [done|]. by eapply read_since_grows.
Qed.

(** The wallets that were looked up FOR UPDATE: locked, or missing then. *)
Definition was_missing (i : uuid) (d : Database) : Prop :=
  exists d0, inv J d0 /\ grows J d0 d /\ wallets d0 !! i = None.

Definition locked w K (wm : gmap uuid (option Wallet.row)) : Prop :=
  forall i o, wm !! i = Some o ->
    match o with
    | Some r => wallets (db w) !! i = Some r /\ RowWallet i ∈ K
    | None => was_missing i (db w)
    end.

Lemma rely_grows K w w' : rely K w w' -> grows J (db w) (db w').
Proof. by intros (_ & _ & ? & _). Qed.

Lemma locked_rely K w w' wm : locked w K wm -> rely K w w' -> locked w' K wm.
Proof.
  intros Hl Hr i o Hi. specialize (Hl i o Hi). destruct o as [r|].
  - destruct Hl as [Ho HK]. split; [|done]. pose proof Hr as (Ha & _). by rewrite (ag_wallet _ _ _ Ha).
  - destruct Hl as (d0 & HI & Hg & Hn). exists d0. split; [done|]. split; [|done].
    etrans; [exact Hg|]. by eapply rely_grows.
Qed.

Lemma locked_mono K K' w wm : K ⊆ K' -> locked w K wm -> locked w K' wm.
Proof. intros HK Hl i o Hi. specialize (Hl i o Hi). destruct o; [set_solver|done]. Qed.

Lemma locked_insert K w wm i : inv J (db w) -> locked w K wm ->
  (is_Some (wallets (db w) !! i) -> RowWallet i ∈ K) ->
  locked w K (<[i := wallets (db w) !! i]> wm).
Proof.
  intros HI Hl Hi j o. rewrite lookup_insert. case_decide as E; [|apply Hl].
  intros [= <-]. subst. destruct (wallets (db w) !! j) eqn:Ej; [split; [done|eauto]|].
  exists (db w). by split.
Qed.

(** Locking in ascending order. *)
Lemma safe_lock_each G ids wm Φ w now K g : inv J (db w) -> locked w K wm ->
  (forall k i, k ∈ K -> i ∈ ids -> exists j, k = RowWallet j /\ (j < i)%N) ->
  only_wallets K -> StronglySorted N.lt ids ->
  (forall w' K' wm', rely K w w' -> only_wallets K' -> locked w' K' wm' ->
     (forall i, i ∈ ids \/ is_Some (wm !! i) -> is_Some (wm' !! i)) ->
     Φ (inr wm') w' (mkLocal [] [] now false) K' g) ->
  safe J G (WalletRepository.lock_each ids wm) Φ w (mkLocal [] [] now false) K g.
Proof.
  revert wm w K. induction ids as [|i ids IH]; intros wm w K HI Hl HK Hw Hs HΦ.
  { apply safe_ret, HΦ; [by apply rely_refl|done..|]. intros i [Hi|]; [by apply elem_of_nil in Hi|done]. }
  apply StronglySorted_inv in Hs as [Hs Hi]. rewrite Forall_forall in Hi.
  assert (Hnext : forall w' K', rely K w w' -> K ⊆ K' -> K' ⊆ K ∪ {[RowWallet i]} ->
    (is_Some (wallets (db w') !! i) -> RowWallet i ∈ K') ->
    safe J G (WalletRepository.lock_each ids (<[i := wallets (db w') !! i]> wm)) Φ w'
      (mkLocal [] [] now false) K' g).
  { intros w' K' Hr HK1 HK2 Hin. apply IH.
    - by eapply rely_inv.
    - apply locked_insert; [by eapply rely_inv| |done]. eapply locked_mono; [exact HK1|]. by eapply locked_rely.
    - intros k j [Hk| ->%elem_of_singleton]%HK2%elem_of_union Hj; [|eauto].
      apply HK; [done|]. by apply list_elem_of_further.
    - intros k [Hk| ->%elem_of_singleton]%HK2%elem_of_union; [by apply Hw|done].
    - done.
    - intros w2 K2 wm2 Hr2 Hw2 Hl2 Hsome. apply HΦ; [|done..|].
      + eapply rely_trans; [exact Hr|]. by eapply rely_mono.
      + intros j Hj. apply Hsome. rewrite lookup_insert_is_Some'. set_solver. }
  apply safe_bind, safe_lock.
  - intros k Hk. apply HK; [done|]. by left.
  - intros w' Hr Hn. simpl in Hn. rewrite apply_writes_nil in Hn. rewrite <- Hn.
    apply Hnext; [done|set_solver..|]. rewrite Hn. by intros [].
  - intros w' r Hr Hn. rewrite apply_writes_nil in Hn. rewrite <- Hn.
    apply Hnext; [done|set_solver..].
Qed.

Lemma safe_lock_ordered G ids Φ w now g : inv J (db w) ->
  (forall w' K' wm', rely ∅ w w' -> only_wallets K' -> locked w' K' wm' ->
     (forall i, i ∈ ids -> is_Some (wm' !! i)) ->
     Φ (inr wm') w' (mkLocal [] [] now false) K' g) ->
  safe J G (WalletRepository.get_for_update_ordered ids) Φ w (mkLocal [] [] now false) ∅ g.
Proof.
  intros HI HΦ. apply safe_lock_each; [done|by intros i o|set_solver|by intros k ?%elem_of_empty| |].
  - apply sorted_set_ascending.
  - intros w' K' wm' Hr Hw Hl Hsome. apply HΦ; [done..|]. intros i Hi. apply Hsome. left.
    by apply sorted_set_elem.
Qed.

(** *** A request whose guard has let it through *)
Record ready q wm m w K g : Prop := Ready {
  rd_inv : inv J (db w);
  rd_locked : locked w K wm;
  rd_found : forall i, i ∈ wallets_of q -> exists r, wm !! i = Some (Some r);
  rd_guard : request_guard (db w) q = inr m;
  rd_fresh : committed g = false }.

Lemma ready_rely q wm m w w' K K' g g' : ready q wm m w K g -> rely K w w' -> K ⊆ K' ->
  committed g' = committed g -> ready q wm m w' K' g'.
Proof.
  intros [HI Hl Hf Hg Hc] Hr HK Hgg. pose proof (locked_rely _ _ _ _ Hl Hr) as Hl'.
  split; [by eapply rely_inv|by eapply locked_mono|done| |congruence].
  rewrite <- Hg. apply guard_agree. intros i Hi. destruct (Hf i Hi) as [r Hr'].
  destruct (Hl i _ Hr') as [-> _]. by destruct (Hl' i _ Hr') as [-> _].
Qed.

Lemma ready_held q wm m w K g i : ready q wm m w K g ->
  (leg_wallet (mv_first m) = Some i \/ leg_wallet (mv_second m) = Some i \/ mv_wallet m = i \/
   exists z, (i, z) ∈ mv_sets m) -> RowWallet i ∈ K.
Proof.
  intros [HI Hl Hf Hg _] Hi.
  pose proof (guard_wallets _ _ _ i (lw_keyed _ (wf_ledger _ (benign_wf _ HI))) Hg Hi) as Hq.
  destruct (Hf i Hq) as [r Hr]. by destruct (Hl i _ Hr) as [_ HK].
Qed.

(** Its header and legs are open. *)
Definition opened x now m w K : Prop :=
  covered w (opened_writes x now m) K /\ RowTransaction (txn_id x) ∈ K /\
  exists n, txn_id x = uuid4 n.

Lemma safe_open_ready {R} G q wm m w K g now (C : Transaction.row -> prog R) Φ :
  ready q wm m w K g -> only_wallets K -> refused J Φ g ->
  (forall w' x K' g', ready q wm m w' K' g' -> opened x now m w' K' ->
     safe J G (C (opened_txn x now m)) Φ w' (mkLocal [] (opened_writes x now m) now false) K' g') ->
  safe J G (txn ← TransactionRepository.create (mv_type m) (mv_currency m) (mv_key m);
        LedgerRepository.create_entry (Transaction.id txn) (leg_type (mv_first m)) (mv_amount m)
          (mv_currency m) (leg_wallet (mv_first m)) (leg_system (mv_first m));;
        LedgerRepository.create_entry (Transaction.id txn) (leg_type (mv_second m)) (mv_amount m)
          (mv_currency m) (leg_wallet (mv_second m)) (leg_system (mv_second m));;
        C txn) Φ w (mkLocal [] [] now false) K g.
Proof.
  intros Hrd HK He Hok. apply safe_open_move; [done| |done|].
  - intros i Hi. eapply ready_held; [done|tauto].
  - intros w' x K' g' Hr Hx HK' Ht Hcov Hg. apply Hok; [|done]. by eapply ready_rely.
Qed.

Lemma safe_set_ready G q wm m w K g x now z r P Φ :
  ready q wm m w K g -> opened x now m w K ->
  (forall w', ready q wm m w' K g -> opened x now m w' K ->
     Φ (inr (Wallet.set_available_balance z r)) w'
       (mkLocal (P ++ [SetBalance (Wallet.id r) z]) (opened_writes x now m) now false) K g) ->
  safe J G (set_balance z r) Φ w (mkLocal P (opened_writes x now m) now false) K g.
Proof.
  intros Hrd (Hcov & Ht & Hx) Hok. apply safe_set_balance. intros w' Hr. apply Hok.
  - by eapply ready_rely.
  - split; [by eapply covered_rely|done].
Qed.

Lemma safe_close_ready {R} G q wm m w K g now x (C : Transaction.row -> prog R) Φ :
  ready q wm m w K g -> opened x now m w K -> refused J Φ g ->
  (forall w' x' K' g', ready q wm m w' K' g' -> covered w' (move_writes x' now m) K' ->
     (exists n, txn_id x' = uuid4 n) ->
     safe J G (C (move_txn x' now m)) Φ w' (mkLocal [] (move_writes x' now m) now false) K' g') ->
  safe J G (txn ← TransactionRepository.mark_completed (opened_txn x now m);
        _record_event txn (mv_amount m) (mv_wallet m) (mv_counterparty m);;
        C txn) Φ w (mkLocal (set_changes m) (opened_writes x now m) now false) K g.
Proof.
  intros Hrd (Hcov & Ht & Hx) He Hok. apply (safe_close_move J G w now x m K g); [done| |done..|].
  - intros i z Hi. eapply ready_held; [done|eauto].
  - intros w' x' K' g' Hr Hx' HK' Hcov' Hg. apply Hok; [by eapply ready_rely|done|]. by rewrite Hx'.
Qed.

(** The commit: the guard still allows the move, as it reads locked wallets only. *)
Lemma safe_commit_ready q wm x now m K g w Φ :
  ready q wm m w K g -> covered w (move_writes x now m) K -> (exists n, txn_id x = uuid4 n) ->
  (forall d w'' t, wf d -> request_guard d q = inr m -> db w'' = moved_db d x now m ->
     Φ (inr tt) w'' (fresh_local t) ∅ (has_committed d (db w'') g)) ->
  safe J (books q) (call Commit) Φ w (mkLocal [] (move_writes x now m) now false) K g.
Proof.
  intros Hrd Hcov Hx HΦ.
  assert (Hguard : forall w', rely K w w' -> request_guard (db w') q = inr m).
  { intros w' Hr. apply (rd_guard q wm m w' K g). by eapply ready_rely. }
  apply safe_commit; [done|apply Hrd|..].
  - intros w' Hr Hv%valid_move. rewrite apply_move. exists x, now, m. auto.
  - intros w' w'' t Hr Hv%valid_move Hd. rewrite apply_move in Hd.
    eapply HΦ; [by eapply benign_wf, rely_inv|by apply Hguard|done].
Qed.

Lemma safe_commit_keyed q wm wid x now m K g w Φ :
  ready q wm m w K g -> covered w (move_writes x now m) K -> (exists n, txn_id x = uuid4 n) ->
  (forall d w'' t, wf d -> request_guard d q = inr m -> db w'' = moved_db d x now m ->
     Φ (inr None) w'' (fresh_local t) ∅ (has_committed d (db w'') g)) ->
  safe J (books q) (commit_keyed (request_key q) wid) Φ w
    (mkLocal [] (move_writes x now m) now false) K g.
Proof.
  intros Hrd Hcov Hx HΦ. apply safe_try_except, safe_bind.
  apply (safe_commit_ready q wm x now m); [done..|]. intros. apply safe_ret. eauto.
Qed.

(** The rows read back after the commit. *)
Lemma safe_refresh_move {R} G (d : Database) x now m wal w t g (C : Wallet.row -> Transaction.row -> prog R) Φ :
  db w = moved_db d x now m -> is_Some (wallets (db w) !! Wallet.id wal) ->
  (forall w' wal' d2, rely ∅ w w' -> transactions (db w') !! txn_id x = Some (move_txn x now m) ->
     grows J (db w) d2 -> grows J d2 (db w') -> wallets d2 !! Wallet.id wal = Some wal' ->
     safe J G (C wal' (move_txn x now m)) Φ w' (fresh_local t) ∅ g) ->
  safe J G (wallet ← refresh_wallet wal;
            txn ← refresh_transaction (move_txn x now m);
            C wallet txn) Φ w (fresh_local t) ∅ g.
Proof.
  intros Hd Hwal HΦ. unfold refresh_wallet, refresh_transaction, fresh_local in *.
  apply safe_bind, safe_refresh. intros w1 Hr1. rewrite apply_writes_nil. pose proof Hr1 as (Ha1 & _).
  destruct (ag_wallet_kept _ _ _ Ha1 _ Hwal) as [wal1 Hwal1]. exists wal1. split; [done|].
  apply safe_bind, safe_refresh. intros w2 Hr2. rewrite apply_writes_nil.
  pose proof (rely_trans _ _ _ _ _ Hr1 Hr2) as Hr. exists (move_txn x now m).
  assert (Ht : transactions (db w2) !! txn_id x = Some (move_txn x now m)).
  { pose proof (benign_extends _ _ (rely_grows _ _ _ Hr)) as He.
    apply (lookup_weaken _ _ _ _) with (2 := ext_transactions _ _ He).
    rewrite Hd. simpl. by rewrite lookup_insert_eq. }
  split; [done|]. apply (HΦ w2 wal1 (db w1)); [done..|by eapply rely_grows|by eapply rely_grows|done].
Qed.

Lemma safe_replay G key wid Φ w now K g :
  (forall w', rely K w w' -> Φ (inr None) w' (mkLocal [] [] now false) K g) ->
  (forall w' k txn wal, rely K w w' -> truthy key = Some k ->
     transactions (db w') !! Transaction.id txn = Some txn ->
     Transaction.idempotency_key txn = Some k ->
     (exists d1, inv J d1 /\ grows J d1 (db w') /\ wal = wallets d1 !! wid) ->
     Φ (inr (Some (txn, wal))) w' (mkLocal [] [] now false) K g) ->
  inv J (db w) ->
  safe J G (replay key wid) Φ w (mkLocal [] [] now false) K g.
Proof.
  intros Hn Hs HI. unfold replay. destruct (truthy key) as [k|]; [|by apply safe_ret, Hn, rely_refl].
  apply safe_bind, safe_query. intros w1 Hr1. rewrite apply_writes_nil.
  destruct (first_row _ (transactions (db w1))) as [txn|] eqn:E; [|by apply safe_ret, Hn].
  apply first_row_Some in E as [Hk [i Hi]].
  apply safe_bind, safe_query. intros w2 Hr2. rewrite apply_writes_nil.
  apply safe_ret, (Hs w2 k txn); [by eapply rely_trans|done| |done|].
  2: { exists (db w2). split; [by eapply rely_inv|done]. }
  destruct (lw_keyed _ (wf_ledger _ (benign_wf _ (rely_inv _ _ _ _ Hr1)))) as [_ Hkey].
  rewrite (Hkey i txn Hi).
  exact (lookup_weaken _ _ _ _ Hi (ext_transactions _ _ (benign_extends _ _ (rely_grows _ _ _ Hr2)))).
Qed.

(** What the request answers, as a postcondition. *)
Definition answers q (r : exn + answer) w (l : Local) K g : Prop := answered q r (db w) g.

Lemma refused_answers q g : committed g = false -> refused J (answers q) g.
Proof. intros Hg w e l K g' _ Hg'. split; [congruence|]. left. eauto. Qed.

Lemma answers_replayed q w k txn wal l K g : booked g = None -> truthy (request_key q) = Some k ->
  transactions (db w) !! Transaction.id txn = Some txn -> Transaction.idempotency_key txn = Some k ->
  (exists d1, inv J d1 /\ grows J d1 (db w) /\ wal = wallets d1 !! subject q) ->
  answers q (inr (txn, wal)) w l K g.
Proof.
  intros Hg Hk Ht Hkt (d1 & HI & Hd1 & Hw). split; [done|]. rewrite Hg. split; [by exists k|].
  exists d1. split; [done|]. by exists d1.
Qed.

Lemma moved_kept q d x now m : wf d -> request_guard d q = inr m ->
  is_Some (wallets (moved_db d x now m) !! mv_wallet m).
Proof.
  intros Hw Hg. apply request_sound in Hg as Hs; [|apply Hw].
  pose proof (sm_first _ _ Hs) as Hf. unfold leg_sound in Hf. rewrite (sm_wallet _ _ Hs) in Hf.
  destruct Hf as (_ & r & Hr & _). destruct (moved_row_back d x now m _ r Hs Hr) as (r' & -> & _). eauto.
Qed.

Lemma answers_own q d x now m w w' d2 wid wal l K g : wf d -> request_guard d q = inr m ->
  db w = moved_db d x now m -> transactions (db w') !! txn_id x = Some (move_txn x now m) ->
  grows J (db w) d2 -> grows J d2 (db w') -> wid = mv_wallet m -> wallets d2 !! wid = Some wal ->
  answers q (inr (move_txn x now m, Some wal)) w' l K (has_committed d (db w) g).
Proof.
  intros Hwf Hg Hd Ht H2 H2' -> Hw. split; [done|]. simpl. split; [by exists x, now, m|].
  exists d2. split; [done|]. split; [done|]. rewrite <- Hw. f_equal.
  eapply guard_subject; [|exact Hg]. exact (lw_keyed _ (wf_ledger _ Hwf)).
Qed.

(** The rows read back after the commit of the request's own move. *)
Lemma safe_answer q d x now m wal w t g : wf d -> request_guard d q = inr m ->
  db w = moved_db d x now m -> Wallet.id wal = mv_wallet m ->
  safe J (books q) (wallet ← refresh_wallet wal;
     txn ← refresh_transaction (move_txn x now m);
     mret (txn, Some wallet)) (answers q) w (fresh_local t) ∅ (has_committed d (db w) g).
Proof.
  intros Hwf Hg Hd Hid. eapply safe_refresh_move; [done|rewrite Hd, Hid; by eapply moved_kept|].
  intros w' wal' d2 Hr Ht H2 H2' Hw. apply safe_ret. by eapply answers_own.
Qed.

Lemma safe_finish_keyed q wm wid x now m K g w wal :
  ready q wm m w K g -> covered w (move_writes x now m) K -> (exists n, txn_id x = uuid4 n) ->
  Wallet.id wal = mv_wallet m ->
  safe J (books q) (winner ← commit_keyed (request_key q) wid;
     match winner with
     | Some r => mret r
     | None => wallet ← refresh_wallet wal;
         txn ← refresh_transaction (move_txn x now m);
         mret (txn, Some wallet)
     end) (answers q) w (mkLocal [] (move_writes x now m) now false) K g.
Proof.
  intros Hrd Hcov Hx Hid. apply safe_bind, (safe_commit_keyed q wm wid x now m); [done..|].
  intros d w' t Hwf Hg Hd. by eapply safe_answer.
Qed.

(** One wallet locked. *)
Lemma ready_one q m w i wal : inv J (db w) -> wallets (db w) !! i = Some wal -> wallets_of q = [i] ->
  request_guard (db w) q = inr m ->
  ready q {[i := Some wal]} m w (∅ ∪ {[RowWallet i]}) unborn.
Proof.
  intros HI Hwal Hq Hg. split; [done| |rewrite Hq|done..].
  - intros j o [<- <-]%lookup_singleton_Some. split; [done|]. set_solver.
  - intros j ->%list_elem_of_singleton. eexists. apply lookup_singleton_eq.
Qed.

Lemma only_one_wallet i : only_wallets (∅ ∪ {[RowWallet i]}).
Proof. intros k Hk. rewrite union_empty_l_L in Hk. by apply elem_of_singleton in Hk as ->. Qed.

Lemma refused_by_guard q e w w' l K : rely ∅ w w' -> request_guard (db w') q = inl e ->
  answers q (inl e) w' l K unborn.
Proof.
  intros Hr Hg. split; [done|]. right. exists (db w'). split; [by eapply rely_inv|]. split; [done|by left].
Qed.

Lemma refused_missing q i e w l K : i ∈ wallets_of q -> e = WalletNotFoundError i \/ e = RecipientNotFoundError i ->
  was_missing i (db w) -> answers q (inl e) w l K unborn.
Proof.
  intros Hi He (d0 & HI & Hg & Hn). split; [done|]. right. exists d0. split; [done|]. split; [done|].
  right. by exists i.
Qed.

#[local] Ltac guard_step Hr Hg := eapply refused_by_guard; [exact Hr|];
  rewrite Hg; by rewrite ?decide_False by done.

Lemma safe_deposit i r data w now : inv J (db w) ->
  let q := Deposit i r data in
  safe J (books q) (serve q) (answers q) w (mkLocal [] [] now false) ∅ unborn.
Proof.
  intros HI q. unfold serve, deposit. apply safe_bind, safe_bind, safe_lock; [by intros k ?%elem_of_empty|..].
  { intros w1 Hr1 Hn. rewrite apply_writes_nil in Hn. apply safe_bind, safe_raise.
    apply (refused_by_guard q _ w w1); [done|]. simpl. unfold deposit_guard, owned_wallet. by rewrite Hn. }
  intros w1 wal Hr1 Hwal. rewrite apply_writes_nil in Hwal.
  assert (Hg : request_guard (db w1) q = deposit_guard (db w1) i r data) by done.
  unfold deposit_guard, owned_wallet in Hg. rewrite Hwal in Hg.
  apply safe_bind, safe_ret, safe_bind, safe_raise_if.
  { intros Hu%bool_decide_eq_true. guard_step Hr1 Hg. }
  intros Hu%bool_decide_eq_false%dec_stable. rewrite decide_True in Hg by done.
  apply safe_bind, safe_raise_if.
  { intros Hc%bool_decide_eq_true. guard_step Hr1 Hg. }
  intros Hc%bool_decide_eq_false%dec_stable. rewrite decide_True in Hg by done. cbv zeta in *.
  set (m := deposit_move wal (DepositRequest.amount data)) in *.
  pose proof (ready_one q m w1 i wal (rely_inv _ _ _ _ Hr1) Hwal eq_refl Hg) as Hrd.
  apply (safe_open_ready (books q) q _ m w1 _ _ _ _ _ Hrd); [apply only_one_wallet|by apply refused_answers|].
  clear Hrd. intros w2 x K g Hrd Hop.
  apply safe_bind, (safe_set_ready (books q) q _ m w2 K g x now _ _ _ _ Hrd Hop). clear Hrd Hop. intros w3 Hrd Hop.
  apply (safe_close_ready (books q) q _ m w3 K g now x _ _ Hrd Hop); [apply refused_answers, Hrd|].
  intros w4 x' K4 g4 Hrd4 Hcov Hx.
  apply safe_bind, (safe_commit_ready q _ x' now m _ _ _ _ Hrd4 Hcov Hx). intros d w5 t Hwf Hgd Hd.
  eapply safe_refresh_move; [done|rewrite Hd; by eapply moved_kept|].
  intros w6 wal' d6 Hr6 Ht6 H6 H6' Hw6. apply safe_ret, safe_ret. by eapply answers_own.
Qed.

Lemma safe_withdraw i r data key w now : inv J (db w) ->
  let q := Withdraw i r data key in
  safe J (books q) (serve q) (answers q) w (mkLocal [] [] now false) ∅ unborn.
Proof.
  intros HI q. unfold serve, withdraw. apply safe_bind, safe_replay; [|intros; apply safe_ret; by eapply answers_replayed|done].
  intros w0 Hr0.
  apply safe_bind, safe_lock; [by intros k ?%elem_of_empty|..].
  { intros w1 Hr1 Hn. rewrite apply_writes_nil in Hn. apply safe_bind, safe_raise.
    apply (refused_by_guard q _ w0 w1); [done|]. simpl. unfold withdraw_guard, owned_wallet. by rewrite Hn. }
  intros w1 wal Hr1 Hwal. rewrite apply_writes_nil in Hwal.
  assert (Hg : request_guard (db w1) q = withdraw_guard (db w1) i r data key) by done.
  unfold withdraw_guard, owned_wallet in Hg. rewrite Hwal in Hg.
  apply safe_bind, safe_ret, safe_bind, safe_raise_if.
  { intros Hu%bool_decide_eq_true. guard_step Hr1 Hg. }
  intros Hu%bool_decide_eq_false%dec_stable. rewrite decide_True in Hg by done.
  apply safe_bind, safe_raise_if.
  { intros Hc%bool_decide_eq_true. guard_step Hr1 Hg. }
  intros Hc%bool_decide_eq_false%dec_stable. rewrite decide_True in Hg by done. cbv zeta in *.
  apply safe_bind, safe_raise_if; [intros Hlt; rewrite Hlt in Hg; guard_step Hr1 Hg|intros Hlt; rewrite Hlt in Hg].
  set (m := withdraw_move wal (WithdrawalRequest.amount data) key) in *.
  pose proof (ready_one q m w1 i wal (rely_inv _ _ _ _ Hr1) Hwal eq_refl Hg) as Hrd.
  apply (safe_open_ready (books q) q _ m w1 _ _ _ _ _ Hrd); [apply only_one_wallet|by apply refused_answers|].
  clear Hrd. intros w2 x K g Hrd Hop.
  apply safe_bind, (safe_set_ready (books q) q _ m w2 K g x now _ _ _ _ Hrd Hop). clear Hrd Hop. intros w3 Hrd Hop.
  apply (safe_close_ready (books q) q _ m w3 K g now x _ _ Hrd Hop); [apply refused_answers, Hrd|].
  intros w4 x' K4 g4 Hrd4 Hcov Hx. by eapply safe_finish_keyed.
Qed.

(** Both wallets locked, in whatever order. *)
Lemma ready_two q m w K wm i j a b : inv J (db w) -> locked w K wm ->
  wm !! i = Some (Some a) -> wm !! j = Some (Some b) -> wallets_of q = [i; j] ->
  request_guard (db w) q = inr m -> ready q wm m w K unborn.
Proof.
  intros HI Hl Hi Hj Hq Hg. split; [done..|rewrite Hq|done|done].
  intros x [->|[->|Hx%elem_of_nil]%elem_of_cons]%elem_of_cons; [eauto..|done].
Qed.

Lemma safe_transfer i r data key w now : inv J (db w) ->
  let q := Transfer i r data key in
  safe J (books q) (serve q) (answers q) w (mkLocal [] [] now false) ∅ unborn.
Proof.
  intros HI q. change (serve q) with (transfer i r data key). unfold transfer. cbv zeta. set (j := TransferRequest.recipient_wallet_id data).
  apply safe_bind, safe_raise_if.
  { intros He%bool_decide_eq_true. apply (refused_by_guard q _ w w); [by apply rely_refl|]. simpl. by rewrite decide_True. }
  intros Hne%bool_decide_eq_false.
  apply safe_bind, safe_replay; [|intros; apply safe_ret; by eapply answers_replayed|done].
  intros w0 Hr0. apply safe_bind, safe_lock_ordered; [by eapply rely_inv|].
  intros w1 K wm Hr1 HK Hl Hsome.
  destruct (Hsome i) as [oa Ha]; [set_solver|]. destruct (Hsome j) as [ob Hb]; [set_solver|].
  pose proof (Hl i _ Ha) as Hla. pose proof (Hl j _ Hb) as Hlb.
  assert (Hg : request_guard (db w1) q = transfer_guard (db w1) i r data key).
  { simpl. by rewrite decide_False. }
  unfold transfer_guard, owned_wallet in Hg. fold j in Hg.
  rewrite Ha. apply safe_bind, safe_ret, safe_bind. rewrite Hb. apply safe_ret.
  apply safe_bind, safe_or_raise; [intros ->; apply (refused_missing q i); [set_solver|by left|done]|intros a ->].
  destruct Hla as [Hwa _]. rewrite Hwa in Hg.
  apply safe_bind, safe_raise_if.
  { intros Hu%bool_decide_eq_true. guard_step Hr1 Hg. }
  intros Hu%bool_decide_eq_false%dec_stable. rewrite (decide_True (P := Wallet.user_id a = r)) in Hg by done.
  apply safe_bind, safe_or_raise; [intros ->; apply (refused_missing q j); [set_solver|by right|done]|intros b ->].
  destruct Hlb as [Hwb _]. rewrite Hwb in Hg. cbv zeta in *.
  apply safe_bind, safe_raise_if.
  { intros Hc%bool_decide_eq_true. guard_step Hr1 Hg. }
  intros Hc%bool_decide_eq_false%dec_stable. rewrite (decide_True (P := Wallet.currency a = _)) in Hg by done.
  apply safe_bind, safe_raise_if.
  { intros Hc'%bool_decide_eq_true. guard_step Hr1 Hg. }
  intros Hc'%bool_decide_eq_false%dec_stable. rewrite decide_True in Hg by done.
  apply safe_bind, safe_raise_if; [intros Hlt; rewrite Hlt in Hg; guard_step Hr1 Hg|intros Hlt; rewrite Hlt in Hg].
  set (m := transfer_move a b (TransferRequest.amount data) key) in *.
  pose proof (ready_two q m w1 K wm i j a b (rely_inv _ _ _ _ Hr1) Hl Ha Hb eq_refl Hg) as Hrd.
  apply (safe_open_ready (books q) q _ m w1 _ _ _ _ _ Hrd); [done|by apply refused_answers|].
  clear Hrd. intros w2 x K2 g Hrd Hop.
  apply safe_bind, (safe_set_ready (books q) q _ m w2 K2 g x now _ _ _ _ Hrd Hop). clear Hrd Hop. intros w3 Hrd Hop.
  apply safe_bind, (safe_set_ready (books q) q _ m w3 K2 g x now _ _ _ _ Hrd Hop). clear Hrd Hop. intros w4 Hrd Hop.
  apply (safe_close_ready (books q) q _ m w4 K2 g now x _ _ Hrd Hop); [apply refused_answers, Hrd|].
  intros w5 x' K5 g5 Hrd5 Hcov Hx. by eapply safe_finish_keyed.
Qed.

(** Every request is safe among benign others. *)
Theorem safe_serve q w now : inv J (db w) ->
  safe J (books q) (serve q) (answers q) w (mkLocal [] [] now false) ∅ unborn.
Proof.
  destruct q; [apply safe_deposit|apply safe_transfer|apply safe_withdraw].
Qed.
End operations.
