(* ===== verification/RequestPools.v ===== *)
(** * Pools of money requests

    Requests that start together, each on a session of its own, over sound
    tables: what every run of such a pool has done to the balances, and what
    the threads that ended have answered. *)
From S2P Require Import Prelude PyValues Schema Locks Session Interleaving Pool Progress Requests.
From S2P Require Import Repositories LedgerService Moves LedgerSpec Reconciliation Invariants System.
From S2P Require Import ConcurrentLedger.

(** What requests do to the tables: they keep the past, and [more]. *)
Record grown (more : relation Database) (d d' : Database) : Prop := Grown {
  gr_extends : extends d d';
  gr_more : more d d' }.

#[export] Instance grown_preorder more `{!PreOrder more} : PreOrder (grown more).
Proof.
  split.
  - intros d. by split.
  - intros d d' d'' [E M] [E' M']. split; by etrans.
Qed.

(** Sound tables that have grown from [d0]. *)
Definition money more `{!PreOrder more} (d0 : Database) : interference :=
  Interference (fun d => wf d /\ grown more d0 d) (grown more) _ true.

#[export] Instance money_benign more `{!PreOrder more} d0 : Benign (money more d0).
Proof. split; simpl; [tauto|by intros d d' []]. Qed.

Section pools.
Context `{Env} (more : relation Database) `{!PreOrder more}.
Implicit Types (q : request) (qs : list (request * Z)) (P : World * list (thread answer)).

(** Each request on a session of its own, with its transaction's timestamp. *)
Definition launch (w : World) qs : World * list (thread answer) :=
  (w, (fun c => newborn (serve c.1) c.2) <$> qs).

Definition nth_books qs (i : nat) (d d' : Database) : Prop :=
  exists c, qs !! i = Some c /\ books c.1 d d'.

Definition nth_answered (d0 : Database) qs (i : nat) (r : exn + answer) (d : Database) (g : ghost) : Prop :=
  exists c, qs !! i = Some c /\ answered (money more d0) c.1 r d g.

Lemma books_grown q d d' : wf d -> books q d d' -> (more d d') -> wf d' /\ grown more d d'.
Proof.
  intros Hw (x & now & m & Hg & Hv & _ & ->) Hm. apply request_sound in Hg as Hs; [|apply Hw].
  split; [by apply move_wf|]. split; [by apply move_extends|done].
Qed.

Context (qs : list (request * Z)) (d0 : Database).
Context (Hmore : forall c d d', c ∈ qs -> wf d -> books c.1 d d' -> more d d').

Lemma nth_books_keeps i d d' : inv (money more d0) d -> nth_books qs i d d' ->
  inv (money more d0) d' /\ grows (money more d0) d d'.
Proof using Hmore.
  intros [Hw Hg] (q & Hq & Hb).
  destruct (books_grown q.1 d d' Hw Hb) as [Hw' Hg']; [by eapply Hmore; [eapply list_elem_of_lookup_2|..]|].
  split; [|done]. split; [done|]. by etrans.
Qed.

Lemma nth_answered_grows i r d d' g : nth_answered d0 qs i r d g ->
  inv (money more d0) d' -> grows (money more d0) d d' -> nth_answered d0 qs i r d' g.
Proof using H.
  intros (c & Hc & Ha) _ Hg. exists c. split; [done|]. by eapply answered_grows; [apply _|..].
Qed.

Lemma start_ok w : wf (db w) -> db w = d0 ->
  pool_ok (money more d0) (nth_books qs) (nth_answered d0 qs) (launch w qs).
Proof.
  intros Hw Hd. apply pool_ok_start; [by rewrite Hd in *|].
  intros i t. rewrite list_lookup_fmap. intros (q & Hq & ->)%fmap_Some_1.
  exists (serve q.1), q.2. split; [done|].
  assert (HI : inv (money more d0) (db w)) by (rewrite Hd in *; done).
  eapply safe_mono; [|eapply safe_weaken; [|apply (safe_serve (money more d0) q.1 w q.2 HI)]].
  - intros r w' l K g Ha. by exists q.
  - intros d d' Hb. by exists q.
Qed.

(** What the pool has done, and what its threads have answered. *)
Lemma run_served w order P : wf (db w) -> db w = d0 -> runs (launch w qs) order P ->
  inv (money more d0) (db P.1) /\ serial (nth_books qs) order d0 (db P.1) /\ NoDup order /\
  (forall i t, P.2 !! i = Some t -> (i ∈ order <-> committed (ghost_of t) = true)) /\
  (forall i r g, P.2 !! i = Some (Finished r g) -> nth_answered d0 qs i r (db P.1) g).
Proof using Hmore.
  intros Hw Hd Hr. destruct (runs_serial (money more d0) (nth_books qs) (nth_answered d0 qs)
    nth_books_keeps nth_answered_grows _ _ _ (start_ok w Hw Hd) Hr) as (Hok & Hs & Hnd & Hfresh & Hc).
  split; [apply Hok|]. split; [by rewrite <- Hd|]. split; [done|]. split.
  - intros i t Hi. split.
    + intros Hin. destruct (proj2 (Hc i) (or_intror Hin)) as (t' & Ht' & Hg). by simplify_eq.
    + intros Hg. destruct (proj1 (Hc i)) as [(t' & Ht' & Hg')|]; [by exists t| |done].
      simpl in Ht'. rewrite list_lookup_fmap in Ht'. by apply fmap_Some_1 in Ht' as (c & _ & ->).
  - intros i r g Hi. exact (po_threads _ _ _ _ Hok i _ Hi).
Qed.
End pools.

(** ** Balances *)
Definition balance (i : uuid) (d : Database) : Z :=
  match wallets d !! i with Some r => Wallet.available_balance r | None => 0%Z end.

(** What the request, carried out, adds to the balance of wallet [i]. *)
Definition request_delta (i : uuid) (q : request) : Z :=
  match q with
  | Deposit j _ data => if decide (j = i) then DepositRequest.amount data else 0
  | Transfer j _ data _ =>
      (if decide (j = i) then - TransferRequest.amount data else 0)
      + (if decide (TransferRequest.recipient_wallet_id data = i) then TransferRequest.amount data else 0)
  | Withdraw j _ data _ => if decide (j = i) then - WithdrawalRequest.amount data else 0
  end%Z.

Definition nth_delta (i : uuid) (qs : list (request * Z)) (j : nat) : Z :=
  match qs !! j with Some c => request_delta i c.1 | None => 0%Z end.

Lemma move_delta d q m i : keyed d -> request_guard d q = inr m ->
  (leg_delta i (mv_amount m) (mv_first m) + leg_delta i (mv_amount m) (mv_second m))%Z = request_delta i q.
Proof.
  intros [Hk _].
  destruct q as [j r data|j r data key|j r data key]; simpl;
    unfold deposit_guard, transfer_guard, withdraw_guard, owned_wallet; cbv zeta;
    repeat (case_match; try done); intros [= <-];
    repeat match goal with H : wallets d !! _ = Some _ |- _ => apply Hk in H end;
    unfold leg_delta; simpl; repeat (case_decide; simplify_eq/=); first [lia | congruence].
Qed.

Section balances.
Context `{Env}.

Lemma books_balance q d d' i : wf d -> books q d d' ->
  balance i d' = (balance i d + request_delta i q)%Z.
Proof.
  intros Hw (x & now & m & Hg & Hv & _ & ->).
  apply request_sound in Hg as Hs; [|apply Hw].
  rewrite <- (move_delta d q m i) by (done || apply Hw).
  destruct (moved_row d x now m i Hs) as [Hn Hsome]. unfold balance.
  destruct (wallets (moved_db d x now m) !! i) as [r'|] eqn:E.
  - destruct (Hsome r' eq_refl) as (r & -> & _ & _ & _ & _ & -> & _). lia.
  - pose proof (proj1 Hn eq_refl) as Hd. rewrite Hd. unfold leg_delta.
    assert (Hno : forall l, leg_sound d m l -> leg_wallet l <> Some i).
    { intros l Hl Hi. unfold leg_sound in Hl. rewrite Hi in Hl. destruct Hl as (_ & r & Hr & _).
      congruence. }
    rewrite !decide_False by (apply Hno, Hs). lia.
Qed.

Lemma serial_balance qs order d d' i : wf d -> serial (nth_books qs) order d d' ->
  balance i d' = (balance i d + zsum (nth_delta i qs <$> order))%Z.
Proof.
  intros Hw Hs. induction Hs as [d|j order d d1 d2 (c & Hc & Hb) _ IH]; [simpl; lia|].
  rewrite fmap_cons, zsum_cons, IH, (books_balance c.1 d d1 i Hw Hb).
  - unfold nth_delta at 2. rewrite Hc. lia.
  - destruct (books_grown (fun _ _ => True) c.1 d d1 Hw Hb I) as [Hw1 _]. exact Hw1.
Qed.
End balances.

#[export] Instance true_preorder {A} : PreOrder (fun _ _ : A => True).
Proof. by split. Qed.

(** ** Idempotency keys *)
Section keys.
Context `{Env}.

Definition key_used (k : string) (d : Database) : Prop :=
  exists i t, transactions d !! i = Some t /\ Transaction.idempotency_key t = Some k.

Lemma booked_key q txn : booked_by q txn -> Transaction.idempotency_key txn = request_key q.
Proof. intros (d & x & now & m & Hg & ->). by destruct (request_move d q m Hg) as [<- _]. Qed.

Lemma books_key q d d' k : request_key q = Some k -> books q d d' -> ~ key_used k d /\ key_used k d'.
Proof.
  intros Hk (x & now & m & Hg & Hv & _ & ->). destruct (request_move d q m Hg) as [Hmk _]. split.
  - intros (i & t & Ht & Htk). eapply (mvv_key_fresh _ _ _ Hv k i t); congruence.
  - exists (txn_id x), (move_txn x now m). simpl. rewrite lookup_insert_eq. split; [done|]. congruence.
Qed.

Lemma books_keeps_key q d d' k : books q d d' -> key_used k d -> key_used k d'.
Proof.
  intros (x & now & m & Hg & Hv & _ & ->) (i & t & Ht & Hk). exists i, t. split; [|done].
  simpl. rewrite lookup_insert_ne; [done|]. intros <-. by rewrite (mvv_txn_fresh _ _ _ Hv) in Ht.
Qed.

Lemma serial_used qs order d d' k j c : serial (nth_books qs) order d d' -> key_used k d ->
  qs !! j = Some c -> request_key c.1 = Some k -> j ∉ order.
Proof.
  intros Hs Hu Hj Hk. induction Hs as [d|i order d d1 d2 (ci & Hi & Hb) _ IH]; [by apply not_elem_of_nil|].
  apply not_elem_of_cons. split.
  - intros <-. simplify_eq. by destruct (books_key _ _ _ _ Hk Hb) as [[] _].
  - apply IH. by eapply books_keeps_key.
Qed.

(** Of the requests with one key, one can commit. *)
Lemma serial_key_once qs order d d' k i j ci cj : serial (nth_books qs) order d d' ->
  qs !! i = Some ci -> qs !! j = Some cj -> request_key ci.1 = Some k -> request_key cj.1 = Some k ->
  i ∈ order -> j ∈ order -> i = j.
Proof.
  intros Hs Hi Hj Hki Hkj. induction Hs as [d|h order d d1 d2 (c & Hc & Hb) Hs IH];
    [by intros ?%elem_of_nil|].
  intros [->|Hio]%elem_of_cons [->|Hjo]%elem_of_cons; [done| | |auto]; exfalso.
  - simplify_eq. destruct (books_key _ _ _ _ Hki Hb) as [_ Hu]. by eapply serial_used.
  - simplify_eq. destruct (books_key _ _ _ _ Hkj Hb) as [_ Hu]. by eapply serial_used.
Qed.
End keys.

(** ** Withdrawals of one amount from one wallet *)
Lemma pigeon (n : nat) (order : list nat) : length order < n -> exists j, j < n /\ j ∉ order.
Proof.
  intros Hlt. destruct (decide (Forall (fun j => j ∈ order) (seq 0 n))) as [Hall|Hn].
  - rewrite Forall_forall in Hall.
    pose proof (submseteq_length _ _ (NoDup_submseteq (seq 0 n) order (NoDup_seq 0 n) Hall)) as Hle.
    rewrite length_seq in Hle. lia.
  - apply not_Forall_Exists, Exists_exists in Hn as (j & Hj & Hno); [|apply _].
    exists j. split; [|done]. apply elem_of_seq in Hj. lia.
Qed.

Section withdrawals.
Context `{Env} (i : uuid) (wal : Wallet.row) (data : WithdrawalRequest.t) (nows : list Z) (d0 : Database).
Context (Hwal : wallets d0 !! i = Some wal) (Hwf : wf d0).
Context (Hcur : Wallet.currency wal = upper (WithdrawalRequest.currency data)).
Context (Hpos : (0 < WithdrawalRequest.amount data)%Z).

Definition withdrawal : request := Withdraw i (Wallet.user_id wal) data None.
Definition withdrawals : list (request * Z) := (fun now => (withdrawal, now)) <$> nows.

(** Only withdrawals: the balance does not grow. *)
Definition poorer (d d' : Database) : Prop := (balance i d' <= balance i d)%Z.

#[export] Instance poorer_preorder : PreOrder poorer.
Proof. unfold poorer. split; [intros d; lia|intros d d' d''; lia]. Qed.

Lemma withdrawals_nth j c : withdrawals !! j = Some c -> c.1 = withdrawal.
Proof. unfold withdrawals. rewrite list_lookup_fmap. by intros (now & _ & ->)%fmap_Some_1. Qed.

Lemma withdrawals_poorer c d d' : c ∈ withdrawals -> wf d -> books c.1 d d' -> poorer d d'.
Proof using Hpos.
  intros [j Hj]%list_elem_of_lookup Hw Hb. rewrite (withdrawals_nth j c Hj) in Hb.
  unfold poorer. rewrite (books_balance _ _ _ i Hw Hb). simpl. rewrite decide_True by done. lia.
Qed.

Lemma withdrawals_sum order d : serial (nth_books withdrawals) order d0 d ->
  balance i d = (Wallet.available_balance wal - Z.of_nat (length order) * WithdrawalRequest.amount data)%Z /\
  forall j, j ∈ order -> j < length nows.
Proof using Hwal Hwf.
  intros Hs. split.
  - rewrite (serial_balance _ _ _ _ i Hwf Hs). unfold balance. rewrite Hwal.
    enough (zsum (nth_delta i withdrawals <$> order) = - Z.of_nat (length order) * WithdrawalRequest.amount data)%Z by lia.
    clear Hwal Hwf. induction Hs as [d|j order d d1 d2 (c & Hc & Hb) _ IH]; [done|].
    rewrite fmap_cons, zsum_cons, IH. unfold nth_delta. rewrite Hc, (withdrawals_nth j c Hc). simpl.
    rewrite decide_True by done. lia.
  - clear Hwal Hwf. induction Hs as [d|j order d d1 d2 (c & Hc & Hb) _ IH]; [by intros j ?%elem_of_nil|].
    intros j' [->|Hj]%elem_of_cons; [|auto]. apply lookup_lt_Some in Hc. unfold withdrawals in Hc.
    by rewrite length_fmap in Hc.
Qed.

(** Who is refused by the guard, is so for lack of funds. *)
Lemma withdrawal_refused d e : grown poorer d0 d -> request_guard d withdrawal = inl e ->
  e = InsufficientFundsError i /\ (balance i d < WithdrawalRequest.amount data)%Z.
Proof using Hwal Hcur.
  intros [Hext _] He. destruct (ext_wallets _ _ Hext _ _ Hwal) as (r & Hr & _ & Hu & Hc).
  simpl in He. unfold withdraw_guard, owned_wallet in He. rewrite Hr in He. cbv zeta in He.
  rewrite Hu, decide_True in He by done. rewrite Hc, decide_True in He by done.
  destruct (_ <? _)%Z eqn:E; [|done]. injection He as <-. split; [done|].
  unfold balance. rewrite Hr. by apply Z.ltb_lt in E.
Qed.
End withdrawals.
