(* ===== verification/SideWrites.v ===== *)
(** * Writes beside the ledger

    What registration, wallet creation, the publisher and the analytics
    consumer add to a session - users, empty wallets, publication times,
    rollups - keeps sound tables sound and the past, whenever the statements
    are acceptable; so a program that adds nothing else and commits once is
    safe under any interference that knows this much. *)
From S2P Require Import Prelude PyValues Schema Locks Session Interleaving Requests Repositories.
From S2P Require Import LedgerService Security AccountServices Publisher Analytics Reconciliation.
From S2P Require Import Atomicity Invariants System SafeRules.

(** ** What a program adds to its session *)

(** On every path, each [db.add] is of a change that [may] allows. *)
Definition adds (may : change -> bool) {B} (c : SessionE B) : Prop :=
  match c with Add c => may c = true | _ => True end.

Fixpoint adds_only (may : change -> bool) {A} (p : prog A) : Prop :=
  match p with
  | Ret _ | Raise _ => True
  | Vis c k => adds may c /\ forall r, adds_only may (k r)
  end.

Section rules.
Context (may : change -> bool).

Lemma adds_bind {A B} (p : prog A) (f : A -> prog B) :
  adds_only may p -> (forall a, adds_only may (f a)) -> adds_only may (p ≫= f).
Proof.
  intros Hp Hf. induction p as [a|e|C c k IH]; [exact (Hf a)|done|]. destruct Hp as [Hc Hk].
  split; [done|]. intros r. by apply IH.
Qed.

Lemma adds_try {A} (p : prog A) (h : exn -> option (prog A)) :
  adds_only may p -> (forall e q, h e = Some q -> adds_only may q) -> adds_only may (try_except p h).
Proof.
  intros Hp Hh. induction p as [a|e|C c k IH]; [done| |].
  - change (try_except (Raise e) h) with (match h e with Some q => q | None => Raise e end).
    destruct (h e) eqn:E; [by eapply Hh|done].
  - destruct Hp as [Hc Hk]. split; [done|]. intros r. by apply IH.
Qed.

Lemma adds_ret {A} (a : A) : adds_only may (mret a).
Proof. done. Qed.
Lemma adds_raise {A} e : adds_only may (@Raise A e).
Proof. done. Qed.
Lemma adds_call {B} (c : SessionE B) : adds may c -> adds_only may (call c).
Proof. intros Hc. split; [done|]. by intros []. Qed.
Lemma adds_or_raise {A} (o : option A) e : adds_only may (or_raise o e).
Proof. by destruct o. Qed.
Lemma adds_raise_if b e : adds_only may (raise_if b e).
Proof. by destruct b. Qed.
Lemma adds_add_flush c : may c = true -> adds_only may (add_flush c).
Proof. intros Hc. apply adds_bind; [by apply adds_call|]. intros []. by apply adds_call. Qed.
Lemma adds_refresh {R : Set} (q : Database -> option R) : adds_only may (refresh q).
Proof. apply adds_bind; [by apply adds_call|]. intros. apply adds_or_raise. Qed.
End rules.

Ltac adds :=
  repeat first
    [ assumption | exact I
    | apply adds_ret | apply adds_raise | apply adds_or_raise | apply adds_raise_if
    | apply adds_refresh
    | apply adds_add_flush; first [reflexivity | by apply bool_decide_eq_true]
    | apply adds_call; exact I
    | solve [auto with adds nocore]
    | apply adds_try; [|intros ? ?; repeat case_match; intros; simplify_eq]
    | apply adds_bind; [|intros ?]
    | progress cbv zeta
    | match goal with |- adds_only _ (match ?x with _ => _ end) => destruct x end ].

(** ** The writers beside the ledger *)
Definition inserts_user (c : change) : bool := match c with InsUser _ _ _ _ => true | _ => false end.
Definition inserts_wallet (c : change) : bool := match c with InsWallet _ _ _ => true | _ => false end.
Definition registers (data : UserCreate.t) (c : change) : bool :=
  match c with
  | InsUser _ n e _ => bool_decide (n = UserCreate.name data /\ e = UserCreate.email data)
  | _ => false
  end.
Definition opens (owner : uuid) (cur : string) (c : change) : bool :=
  match c with InsWallet _ u cur' => bool_decide (u = owner /\ cur' = cur) | _ => false end.
Definition publishes (c : change) : bool := match c with SetPublished _ _ => true | _ => false end.
Definition counts (c : change) : bool :=
  match c with InsProcessed _ _ | InsStat _ _ _ _ | SetStat _ _ _ _ => true | _ => false end.

Section writers.
Context `{Env} `{Crypto} `{JsonCodec}.

Lemma adds_register data : adds_only (registers data) (UserService.register data).
Proof.
  unfold UserService.register, UserRepository.get_by_email, hash_password, UserRepository.create. adds.
Qed.

Lemma adds_create_wallet owner data :
  adds_only (opens owner (upper (WalletCreate.currency data))) (WalletService.create_wallet owner data).
Proof.
  unfold WalletService.create_wallet, WalletRepository.get_by_user_and_currency, WalletRepository.create. adds.
Qed.

Lemma adds_mark_all es : adds_only publishes (mark_all es).
Proof. induction es as [|e es IH]; cbn [mark_all]; unfold OutboxRepository.mark_published; adds. Qed.
#[local] Hint Resolve adds_mark_all : adds.

Lemma adds_publish_turn deliver topic n : adds_only publishes (publish_turn deliver topic n).
Proof. unfold publish_turn, publish_batch, OutboxRepository.fetch_unpublished. adds. Qed.

Lemma adds_handle_event payload : adds_only counts (AnalyticsService.handle_event payload).
Proof.
  unfold AnalyticsService.handle_event, AnalyticsService.item, AnalyticsService.to_uuid,
    AnalyticsService.to_int, AnalyticsService.to_text, ProcessedEventRepository.is_processed,
    ProcessedEventRepository.mark_processed, TransactionStatRepository.increment. adds.
Qed.
End writers.

(** ** Acceptable writes beside the ledger keep the tables sound *)

(** Some writes that [may] allows, all accepted, committed at once. *)
Definition written (may : change -> bool) (d d' : Database) : Prop :=
  exists ws, Forall (fun x => may (wr_change x) = true) ws /\ valid_writes d ws /\ d' = apply_writes d ws.

Definition beside_ledger (c : change) : bool :=
  inserts_user c || inserts_wallet c || publishes c || counts c.

Lemma alter_event_same (o : gmap uuid OutboxEvent.row) j t :
  let o' := alter (OutboxEvent.set_published_at t) j o in
  (forall i e, o !! i = Some e -> exists e', o' !! i = Some e' /\ same_event e e') /\
  (forall i e', o' !! i = Some e' -> is_Some (o !! i)).
Proof.
  split; intros i e; rewrite lookup_alter; case_decide as E; subst; try (by eauto).
  - intros He. rewrite He. eexists. split; [done|]. by repeat split.
  - intros He. exists e. by repeat split.
  - destruct (o !! i); [eauto|done].
Qed.

Lemma beside_write d x : beside_ledger (wr_change x) = true -> violation d (wr_change x) = None ->
  wf d -> wf (apply_write d x) /\ extends d (apply_write d x).
Proof.
  assert (Hsame : forall (o : gmap uuid OutboxEvent.row) i e, o !! i = Some e ->
    exists e', o !! i = Some e' /\ same_event e e') by (intros o i e He; exists e; by repeat split).
  destruct x as [now n c]. intros Hc Hv Hw. destruct c; try done; simpl in Hv; clear Hc.
  - apply (add_user_wf d (User.mk id name email password_hash now)) in Hw as Hw'; [|done].
    split; [by destruct d|]. apply new_user_fresh in Hv. destruct d. split; eauto.
    simpl in *. by apply insert_subseteq.
  - apply (new_wallet_wf d id user_id currency now) in Hw as Hw'; [|done].
    split; [by destruct d|]. apply new_wallet_fresh in Hv. destruct d. simpl in Hv. split; eauto. simpl.
    intros i r Hr. exists r. rewrite lookup_insert_ne; [done|]. congruence.
  - destruct Hw as [Hi Hl Ho], d. split; [split; [by destruct Hi|by destruct Hl|by destruct Ho]|].
    by apply extends_same, Hsame.
  - destruct Hw as [Hi Hl Ho], d. split; [split; [by destruct Hi|by destruct Hl|by destruct Ho]|].
    by apply extends_same, Hsame.
  - destruct (alter_event_same (outbox_events d) event published_at) as [Hto Hfrom]. split.
    + pose proof (with_outbox_wf d _ Hto Hfrom Hw). by destruct d.
    + destruct d. by apply extends_same.
  - destruct Hw as [Hi Hl Ho], d. split; [split; [by destruct Hi|by destruct Hl|by destruct Ho]|].
    by apply extends_same, Hsame.
Qed.

Lemma written_sound may d d' : (forall c, may c = true -> beside_ledger c = true) ->
  written may d d' -> wf d -> wf d' /\ extends d d'.
Proof.
  intros Hmay (ws & Hws & Hv & ->). revert d Hv. induction Hws as [|x ws Hx _ IH]; intros d Hv Hw; [done|].
  destruct Hv as [Hvx Hv]. destruct (beside_write d x) as [Hw' He]; [auto|done..|].
  destruct (IH _ Hv Hw') as [Hw'' He']. split; [done|]. by etrans.
Qed.

(** ** Safety *)
Section safety.
Context `{Env} (J : interference) (Hfree : ordered J = false).
Context (may : change -> bool).

(** All that the session holds is of the kind that [may] allows. *)
Definition only_may (l : Local) : Prop :=
  Forall (fun c => may c = true) (pending l) /\ Forall (fun x => may (wr_change x) = true) (log l).

Lemma only_may_nothing now b : only_may (mkLocal [] [] now b).
Proof. done. Qed.

Lemma flush_only_may w l : only_may l -> only_may (flush (w, l)).2.2.
Proof.
  destruct l as [P L now []]; [done|]. intros [Hp Hl]. unfold flush. cbn -[flush_changes] in *.
  destruct (flush_changes_log P w P L now) as (_ & [(_ & ws & -> & <- & _)|[_ ->]]); [|done].
  split; [done|]. apply Forall_app. split; [done|]. by apply Forall_fmap in Hp.
Qed.

Lemma step_only_may {B} (c : SessionE B) w l : adds may c -> only_may l ->
  only_may (session_step c (w, l)).2.2.
Proof.
  intros Hc Hl. destruct c; try exact Hl; try apply only_may_nothing.
  - destruct Hl. split; [|done]. apply Forall_app. by repeat constructor.
  - by apply flush_only_may.
  - simpl. unfold commit. pose proof (flush_only_may w l Hl) as Hf.
    destruct (flush (w, l)) as [[e|[]] s']; [exact Hf|apply only_may_nothing].
Qed.

(** A COMMIT that goes through has written what the session held. *)
Lemma commit_written {B} (c : SessionE B) w l L : log_ok w l L -> only_may l ->
  committing c (session_step c (w, l)).1 = true ->
  written may (db w) (db (session_step c (w, l)).2.1).
Proof.
  intros (Hs & _ & Hv) [Hp Hl] Hc. destruct c; try done. simpl in *. unfold commit in *.
  destruct (flush_log (w, l) Hs) as (_ & _ & [(_ & _ & ws & Hf & Hws & Hvs)|([e He] & _)]);
    pose proof (flush_db (w, l)) as Hd; destruct (flush (w, l)) as [r s']; simpl in *.
  - exists (log l ++ ws). split.
    + apply Forall_app. split; [done|]. rewrite <- Hws in Hp. by apply Forall_fmap in Hp.
    + split; [by apply valid_writes_app|]. destruct r; [done|]. simpl. unfold visible. by rewrite Hf, Hd.
  - by subst r.
Qed.

(** A program that adds nothing else and commits at most once is safe. *)
Lemma safe_adds_only {A} (p : prog A) n (Φ : exn + A -> World -> Local -> gset lock -> ghost -> Prop) w l L g :
  adds_only may p -> commits_le n p -> n <= 1 -> (committed g = true -> n = 0) ->
  log_ok w l L -> only_may l -> (forall r w' l' L' g', Φ r w' l' L' g') ->
  safe J (written may) p Φ w l L g.
Proof using Hfree.
  intros Hadds Hcom Hn Hg Hlog Hl HΦ. revert n w l L g Hcom Hn Hg Hlog Hl.
  induction p as [a|e|B c k IH]; intros n w l L g Hcom Hn Hg Hlog Hl; [apply HΦ..|].
  destruct Hadds as [Hc Hk]. intros w' Hr out.
  assert (Hlog' : log_ok w' l L).
  { destruct Hlog as (Hs & HL & Hv). split; [done|]. split; [done|]. eapply agree_valid; [apply Hr|done..]. }
  split; [by rewrite Hfree|].
  assert (Hrest : exists m, commits_le m (k out.1) /\ m <= 1 /\
    (committed (mark c w' out.2.1 out.1 g) = true -> m = 0) /\ (committing c out.1 = true -> committed g = false)).
  { destruct (decide (is_commit c)) as [Hi|Hi].
    - destruct c; try done. destruct n as [|n]; [done|]. exists n. split; [apply Hcom|]. split; [lia|].
      split; [lia|]. intros _. apply not_true_is_false. by intros ?%Hg.
    - assert (Hq : committing c out.1 = false) by (unfold committing; by destruct (is_commit c); [destruct Hi|]).
      exists n. split; [by destruct c; try apply Hcom; destruct Hi|]. split; [done|].
      split; [|by rewrite Hq]. by rewrite mark_committed, Hq. }
  destruct Hrest as (m & Hm & Hm1 & Hmg & Hfirst). split.
  - intros Ho. split; [by apply Hfirst|]. by eapply commit_written.
  - apply (IH out.1 (Hk out.1) m); [done..|by apply step_log_ok|by apply step_only_may].
Qed.

(** One that does not commit, whatever it adds. *)
Lemma safe_no_commit {A} G (p : prog A) (Φ : exn + A -> World -> Local -> gset lock -> ghost -> Prop) w l L g :
  commits_le 0 p -> (forall r w' l' L' g', Φ r w' l' L' g') -> safe J G p Φ w l L g.
Proof using Hfree.
  intros Hcom HΦ. revert w l L g. induction p as [a|e|B c k IH]; intros w l L g; [apply HΦ..|].
  intros w' Hr. split; [by rewrite Hfree|]. destruct c; (split; [done|]; apply IH; apply Hcom) || done.
Qed.
End safety.
