(* ===== verification/Jobs.v ===== *)
(** * Everything at once

    The API's requests, the publisher, the analytics consumer and the readers
    as threads of one pool: what each may commit, and that each is safe under
    interference that keeps the tables sound and the past. *)
From S2P Require Import Prelude PyValues Schema Locks Session Interleaving Pool Requests Repositories.
From S2P Require Import LedgerService Moves LedgerSpec Security AccountServices Publisher Analytics.
From S2P Require Import Reconciliation Atomicity Invariants System SafeRules ConcurrentLedger RequestPools.
From S2P Require Import SideWrites.

(** ** Jobs *)
Inductive job `{JsonCodec} :=
  | Request (q : request)                                        (* deposits, transfers, withdrawals *)
  | Register (data : UserCreate.t)
  | CreateWallet (owner : uuid) (data : WalletCreate.t)
  | Publish (deliver : list Message.t -> list ack) (topic : string) (batch_size : nat)
  | Count (payload : dict)                                       (* one analytics event *)
  | Reading (A : Type) (p : prog A).           (* balance, history, login, reconciliation *)

Section jobs.
Context `{Env} `{Crypto} `{JsonCodec}.
Implicit Types (j : job) (js : list (job * Z)) (P : World * list (thread (option answer))).

Definition work j : prog (option answer) :=
  match j with
  | Request q => a ← serve q; mret (Some a)
  | Register data => UserService.register data;; mret None
  | CreateWallet owner data => WalletService.create_wallet owner data;; mret None
  | Publish deliver topic n => publish_turn deliver topic n;; mret None
  | Count payload => AnalyticsService.handle_event payload;; mret None
  | Reading _ p => p;; mret None
  end.

(** A reader does not commit. *)
Definition honest j : Prop := match j with Reading _ p => commits_le 0 p | _ => True end.

Definition job_may j : change -> bool :=
  match j with
  | Register data => registers data
  | CreateWallet owner data => opens owner (upper (WalletCreate.currency data))
  | Publish _ _ _ => publishes
  | Count _ => counts
  | Request _ | Reading _ _ => fun _ => false
  end.

(** What the job commits, at once. *)
Definition job_effect j : relation Database :=
  match j with
  | Request q => books q
  | Reading _ _ => fun _ _ => False
  | _ => written (job_may j)
  end.

Definition job_delta (i : uuid) j : Z := match j with Request q => request_delta i q | _ => 0%Z end.

Lemma job_may_beside j c : job_may j c = true -> beside_ledger c = true.
Proof. unfold beside_ledger. destruct j, c; simpl; done. Qed.

Lemma job_effect_cases j d d' : job_effect j d d' ->
  (exists q, j = Request q /\ books q d d') \/
  (written (job_may j) d d' /\ forall i, job_delta i j = 0%Z).
Proof. destruct j; simpl; eauto. done. Qed.

Lemma job_effect_sound j d d' : wf d -> job_effect j d d' -> wf d' /\ extends d d'.
Proof.
  intros Hw [(q & -> & Hb)|[Hb _]]%job_effect_cases.
  - by destruct (books_grown (fun _ _ => True) q d d' Hw Hb I) as [? []].
  - eapply written_sound; [apply job_may_beside|done..].
Qed.

(** Wallets in the making are empty, and the rest moves no money. *)
Lemma beside_balance d x i : beside_ledger (wr_change x) = true -> violation d (wr_change x) = None ->
  balance i (apply_write d x) = balance i d.
Proof.
  destruct x as [now n c]. unfold balance. destruct d, c; try done; simpl; intros _ Hv.
  apply new_wallet_fresh in Hv. simpl in Hv. rewrite lookup_insert. case_decide as E; [|done].
  subst. by rewrite Hv.
Qed.

Lemma written_balance may d d' i : (forall c, may c = true -> beside_ledger c = true) ->
  written may d d' -> balance i d' = balance i d.
Proof.
  intros Hmay (ws & Hws & Hv & ->). revert d Hv.
  induction Hws as [|x ws Hx _ IH]; intros d Hv; [done|]. destruct Hv as [Hvx Hv].
  transitivity (balance i (apply_write d x)); [by apply IH|]. apply beside_balance; [by apply Hmay|done].
Qed.

Lemma job_balance j d d' i : wf d -> job_effect j d d' ->
  balance i d' = (balance i d + job_delta i j)%Z.
Proof.
  intros Hw [(q & -> & Hb)|[Hb ->]]%job_effect_cases; [by apply books_balance|].
  rewrite Z.add_0_r. eapply written_balance; [apply job_may_beside|exact Hb].
Qed.

(** ** Each job is safe among the others *)
Definition tables : interference := Interference wf extends _ false.

#[export] Instance tables_benign : Benign tables.
Proof. by split. Qed.

(** What is known of a job that has ended. *)
Definition job_ended j (r : exn + option answer) (d : Database) (g : ghost) : Prop :=
  match j, r with
  | Request q, inl e => answered tables q (inl e) d g
  | Request q, inr (Some a) => answered tables q (inr a) d g
  | Request _, inr None => False
  | _, _ => True
  end.

Lemma job_ended_grows j r d d' g : job_ended j r d g -> extends d d' -> job_ended j r d' g.
Proof using H.
  intros He Hd. destruct j; [|done..]. destruct r as [e|[a|]]; [| |done];
    exact (answered_grows tables _ _ d d' g He Hd).
Qed.

Lemma safe_beside {A} (p : prog A) (may : change -> bool) Φ w now :
  adds_only may p -> commits_le 1 p -> (forall r w l L g, Φ r w l L g) ->
  safe tables (written may) (p;; mret (None : option answer)) Φ w (mkLocal [] [] now false) ∅ unborn.
Proof.
  intros Hp Hc HΦ. apply (safe_adds_only tables eq_refl may _ 1).
  - by apply adds_bind.
  - by apply commits_bind_last.
  - done.
  - done.
  - split; [done|]. split; [unfold needs_log, needs_all; simpl; set_solver|done].
  - apply only_may_nothing.
  - done.
Qed.

Theorem safe_job j w now : honest j -> wf (db w) ->
  safe tables (job_effect j) (work j) (fun r w l L g => job_ended j r (db w) g) w
    (mkLocal [] [] now false) ∅ unborn.
Proof.
  intros Hh Hw. destruct j as [q|data|owner data|deliver topic n|payload|A p]; unfold work.
  - apply safe_bind. eapply safe_mono; [|by apply (safe_serve tables q w now)].
    intros [e|a] w' l K g Ha; exact Ha.
  - apply safe_beside; [apply adds_register|apply commits_register|done].
  - apply safe_beside; [apply adds_create_wallet|apply commits_wallet|done].
  - apply safe_beside; [apply adds_publish_turn|apply commits_publish_turn|done].
  - apply safe_beside; [apply adds_handle_event|apply commits_handle_event|done].
  - apply safe_no_commit; [done| |done]. by apply commits_bind.
Qed.

(** ** Pools of jobs *)

(** Each job on a session of its own, with its transaction's timestamp. *)
Definition muster (w : World) js : World * list (thread (option answer)) :=
  (w, (fun c => newborn (work c.1) c.2) <$> js).

Definition nth_effect js (i : nat) (d d' : Database) : Prop :=
  exists c, js !! i = Some c /\ job_effect c.1 d d'.
Definition nth_ended js (i : nat) (r : exn + option answer) (d : Database) (g : ghost) : Prop :=
  exists c, js !! i = Some c /\ job_ended c.1 r d g.
Definition nth_job_delta (x : uuid) js (i : nat) : Z :=
  match js !! i with Some c => job_delta x c.1 | None => 0%Z end.

Lemma nth_effect_keeps js i d d' : wf d -> nth_effect js i d d' -> wf d' /\ extends d d'.
Proof. intros Hw (c & _ & He). by eapply job_effect_sound. Qed.

Lemma muster_ok js w : wf (db w) -> Forall (fun c => honest c.1) js ->
  pool_ok tables (nth_effect js) (nth_ended js) (muster w js).
Proof.
  intros Hw Hh. apply pool_ok_start; [done|].
  intros i t. rewrite list_lookup_fmap. intros (c & Hc & ->)%fmap_Some_1.
  exists (work c.1), c.2. split; [done|]. rewrite Forall_forall in Hh.
  eapply safe_mono; [|eapply safe_weaken; [|apply (safe_job c.1 w c.2); [|done]]].
  - intros r w' l K g Ha. by exists c.
  - intros d d' Hb. by exists c.
  - apply Hh. by eapply list_elem_of_lookup_2.
Qed.

(** What a run of the pool amounts to. *)
Record jobs_done js (w : World) (order : list nat) P : Prop := JobsDone {
  jd_wf : wf (db P.1);
  jd_extends : extends (db w) (db P.1);
  jd_serial : serial (nth_effect js) order (db w) (db P.1);
  jd_once : NoDup order;
  jd_committed : forall i t, P.2 !! i = Some t -> (i ∈ order <-> committed (ghost_of t) = true);
  jd_booked : forall i t dd, P.2 !! i = Some t -> booked (ghost_of t) = Some dd ->
    booked_in (nth_effect js) order (db w) (db P.1) i dd;
  jd_ended : forall i r g, P.2 !! i = Some (Finished r g) -> nth_ended js i r (db P.1) g }.

Lemma serial_extends js order d d' : wf d -> serial (nth_effect js) order d d' -> wf d' /\ extends d d'.
Proof.
  intros Hw Hs. revert Hw. induction Hs as [d|i order d d1 d2 Hb _ IH]; intros Hw; [done|].
  destruct (nth_effect_keeps js i d d1 Hw Hb) as [Hw1 He]. destruct (IH Hw1). split; [done|]. by etrans.
Qed.

Lemma muster_unbooked js w i t : (muster w js).2 !! i = Some t -> booked (ghost_of t) = None.
Proof. simpl. rewrite list_lookup_fmap. by intros (c & _ & ->)%fmap_Some_1. Qed.

Lemma nth_ended_grows js i r d d' g : nth_ended js i r d g -> wf d' -> extends d d' -> nth_ended js i r d' g.
Proof using H. intros (c & Hc & He) _ Hd. exists c. split; [done|]. by eapply job_ended_grows. Qed.

Lemma run_mustered js w order P : wf (db w) -> Forall (fun c => honest c.1) js ->
  runs (muster w js) order P -> jobs_done js w order P.
Proof.
  intros Hw Hh Hr. pose proof (muster_ok js w Hw Hh) as Hok0.
  destruct (runs_serial tables _ _ (nth_effect_keeps js) (nth_ended_grows js) _ _ _ Hok0 Hr)
    as (Hok & Hs & Hnd & _ & Hc).
  split; [apply Hok|by apply (serial_extends js order (db w))|done..| | |].
  - intros i t Hi. split.
    + intros Hin. destruct (proj2 (Hc i) (or_intror Hin)) as (t' & Ht' & Hg). by simplify_eq.
    + intros Hg. destruct (proj1 (Hc i)) as [(t' & Ht' & Hg')|]; [by exists t| |done].
      apply muster_unbooked in Ht'. unfold committed in Hg'. by rewrite Ht' in Hg'.
  - intros i t dd Ht Hd.
    destruct (runs_booked tables _ _ (nth_effect_keeps js) (nth_ended_grows js) _ _ _ Hok0 Hr i t dd Ht Hd)
      as [(t0 & Ht0 & Hd0)|]; [|done].
    apply muster_unbooked in Ht0. congruence.
  - intros i r g Hi. exact (po_threads _ _ _ _ Hok i _ Hi).
Qed.

(** The answer of request [i]: booked at its place in the order, on the tables it
    found there, or replayed; with a wallet read since. *)
Definition linearized js (order : list nat) (d0 dn : Database) (i : nat) (q : request)
    (txn : Transaction.row) (wal : option Wallet.row) : Prop :=
  (exists o1 o2 d1 d2, order = o1 ++ i :: o2 /\ serial (nth_effect js) o1 d0 d1 /\
     nth_effect js i d1 d2 /\ carried_out q txn d1 d2 /\ serial (nth_effect js) o2 d2 dn /\ read_since tables q wal d2 dn) \/
  ((i ∉ order) /\ replayed q txn /\ exists d1, wf d1 /\ read_since tables q wal d1 dn).

Lemma answer_linearized js w order P i q now txn wal g : jobs_done js w order P ->
  js !! i = Some (Request q, now) -> P.2 !! i = Some (Finished (inr (Some (txn, wal))) g) ->
  transactions (db P.1) !! Transaction.id txn = Some txn /\
  linearized js order (db w) (db P.1) i q txn wal.
Proof.
  intros Hd Hi Ht. destruct (jd_ended _ _ _ _ Hd i _ g Ht) as (c & Hc & Ha). simplify_eq. simpl in Ha.
  destruct Ha as [Htx Ha]. split; [done|].
  pose proof (fun dd => jd_booked _ _ _ _ Hd i _ dd Ht) as Hb. simpl in Hb.
  pose proof (jd_committed _ _ _ _ Hd i _ Ht) as Hin. unfold committed in Hin. simpl in Hin.
  destruct (booked g) as [[d1 d2]|]; [left|right].
  - destruct (Hb _ eq_refl) as (o1 & o2 & Ho & Hs1 & He & Hs2). destruct Ha as [Ha Hr].
    exists o1, o2, d1, d2. done.
  - destruct Ha as (Hk & Hr). split; [|done]. intros Hin'. by apply Hin in Hin'.
Qed.

Lemma mustered_balance js order d d' i : wf d -> serial (nth_effect js) order d d' ->
  balance i d' = (balance i d + zsum (nth_job_delta i js <$> order))%Z.
Proof.
  intros Hw Hs. induction Hs as [d|k order d d1 d2 (c & Hc & Hb) _ IH]; [simpl; lia|].
  rewrite fmap_cons, zsum_cons, IH, (job_balance c.1 d d1 i Hw Hb).
  - unfold nth_job_delta at 2. rewrite Hc. lia.
  - by eapply job_effect_sound.
Qed.
End jobs.
