(* ===== verification/EndToEnd.v ===== *)
(** * From the ledger to the rollup

    What the published messages say, read back by the analytics consumer:
    however often and in whatever order the events of the outbox are delivered,
    once each of them has arrived the rollup is the ledger, counted per
    currency and type. *)
From S2P Require Import Prelude PyValues Schema Session Repositories LedgerService Moves.
From S2P Require Import LedgerSpec Publisher Analytics Reconciliation Invariants System.

(** The amount a transaction moved: that of its first leg. *)
Definition moved_amount (d : Database) (t : Transaction.row) : Z :=
  match LedgerRepository.entries_for_transaction (Transaction.id t) d with
  | e :: _ => LedgerEntry.amount e
  | [] => 0%Z
  end.

Definition stat_event_of (d : Database) (t : Transaction.row) : stat_event :=
  StatEvent (Transaction.id t) (Transaction.currency t) (type_value (Transaction.type t))
    (moved_amount d t).

(** What an outbox event reports, by the transaction it belongs to. *)
Definition reported (d : Database) (ev : OutboxEvent.row) : stat_event :=
  match transactions d !! OutboxEvent.aggregate_id ev with
  | Some t => stat_event_of d t
  | None => StatEvent (OutboxEvent.aggregate_id ev) "" "" 0
  end.

(** The rollup the ledger calls for. *)
Definition ledger_stats (d : Database) (k : string * string) : Z * Z :=
  let ts := filter (fun t => (Transaction.currency t, type_value (Transaction.type t)) = k)
              (snd <$> map_to_list (transactions d)) in
  (Z.of_nat (length ts), zsum (moved_amount d <$> ts)).

(** The types of the values in an event. *)
Inductive json_type := TStr | TInt | TOptStr.

Definition has_type (v : json) (t : json_type) : bool :=
  match t, v with
  | TStr, JStr _ | TInt, JInt _ | TOptStr, JStr _ | TOptStr, JNull => true
  | _, _ => false
  end.

Definition event_schema : list (string * json_type) :=
  [("transaction_id", TStr); ("type", TStr); ("status", TStr); ("currency", TStr); ("amount", TInt);
   ("wallet_id", TStr); ("counterparty_wallet_id", TOptStr); ("occurred_at", TStr)].

(** Exactly the fields of the schema, each of its type. *)
Definition conforms (payload : dict) : Prop :=
  dom payload = list_to_set event_schema.*1 /\
  Forall (fun kt => exists v, payload !! kt.1 = Some v /\ has_type v kt.2 = true) event_schema.

Lemma event_payload_conforms t a wid cp now : conforms (event_payload t a wid cp now).
Proof.
  split; [unfold event_payload; by rewrite dom_list_to_map_L|].
  unfold event_schema. repeat (apply Forall_cons; split); [..|by apply Forall_nil];
    (eexists; split; [reflexivity|]); try done. by destruct cp.
Qed.

(** The ids of the transactions have the width of a UUID, so that their text can
    be read back. *)
Definition txn_ids_fit (d : Database) : Prop :=
  forall i, is_Some (transactions d !! i) -> (i < uuid_bound)%N.

Lemma sized_txns d : sized d -> txn_ids_fit d.
Proof. by intros (_ & _ & Ht). Qed.

Section facts.
Context `{Env}.

Lemma moved_amount_double d t e1 e2 : double_entry d t e1 e2 -> moved_amount d t = LedgerEntry.amount e1.
Proof. intros [He _]. unfold moved_amount. by rewrite He. Qed.

Lemma payload_carries d ev t : txn_ids_fit d -> keyed d ->
  transactions d !! OutboxEvent.aggregate_id ev = Some t -> event_reports d ev t ->
  carries (OutboxEvent.payload ev) (reported d ev).
Proof.
  intros Hsize [_ Hk] Ht (_ & Hag & _ & e1 & e2 & wid & now & Hde & Hwid & Hp).
  unfold reported. rewrite Ht. unfold carries, stat_event_of. simpl.
  rewrite (moved_amount_double _ _ _ _ Hde), Hp. unfold event_payload.
  split; [|split; [|split]]; [|reflexivity..].
  eexists. split; [reflexivity|]. apply uuid_parse_str_aux, Hsize. apply Hk in Ht as Hid.
  rewrite Hid, Ht. eauto.
Qed.

Lemma first_deliveries_NoDup done es : NoDup (se_txn <$> first_deliveries done es) /\
  forall e, e ∈ first_deliveries done es -> e ∈ es /\ se_txn e ∉ done.
Proof.
  revert done. induction es as [|e es IH]; intros done; simpl.
  { split; [constructor|]. by intros e ?%elem_of_nil. }
  case_decide as Hd.
  - destruct (IH done) as [H1 H2]. split; [done|]. intros e' He'. destruct (H2 e' He'). set_solver.
  - destruct (IH ({[se_txn e]} ∪ done)) as [H1 H2]. split.
    + rewrite fmap_cons. apply NoDup_cons. split; [|done].
      intros (e' & Heq & He')%list_elem_of_fmap. destruct (H2 e' He'). set_solver.
    + intros e' [->|He']%elem_of_cons; [set_solver|]. destruct (H2 e' He'). set_solver.
Qed.

Lemma first_deliveries_covers done es e : e ∈ es -> se_txn e ∉ done ->
  exists e', e' ∈ first_deliveries done es /\ se_txn e' = se_txn e.
Proof.
  revert done. induction es as [|e0 es IH]; intros done He Hd; [by apply elem_of_nil in He|].
  simpl. apply elem_of_cons in He as [->|He].
  - rewrite decide_False by done. exists e0. set_solver.
  - case_decide as E; [by apply IH|]. destruct (decide (se_txn e = se_txn e0)) as [Eq|Ne].
    + exists e0. set_solver.
    + destruct (IH ({[se_txn e0]} ∪ done) He) as (e' & He' & Eq); [set_solver|]. exists e'. set_solver.
Qed.

Lemma reported_txn d ev : wf d -> (exists j, outbox_events d !! j = Some ev) ->
  exists t, transactions d !! OutboxEvent.aggregate_id ev = Some t /\ reported d ev = stat_event_of d t /\
    event_reports d ev t.
Proof.
  intros [_ _ Ho] [j Hj]. destruct (ow_reports _ Ho j ev Hj) as (t & Ht & Hr).
  exists t. unfold reported. by rewrite Ht.
Qed.

(** Each transaction counts exactly once, whatever the deliveries. *)
Lemma firsts_are_transactions d evs : wf d ->
  (forall ev, ev ∈ evs <-> exists j, outbox_events d !! j = Some ev) ->
  first_deliveries ∅ (reported d <$> evs) ≡ₚ stat_event_of d <$> (snd <$> map_to_list (transactions d)).
Proof.
  intros Hw Hevs. pose proof (lw_keyed _ (wf_ledger _ Hw)) as [_ Hk].
  destruct (first_deliveries_NoDup ∅ (reported d <$> evs)) as [Hnd Hin].
  apply NoDup_Permutation.
  - by apply NoDup_fmap_1 in Hnd.
  - apply (NoDup_fmap_1 se_txn). rewrite <- !list_fmap_compose.
    rewrite (list_fmap_ext _ fst); [apply NoDup_fst_map_to_list|].
    intros n [i t] Hi%list_elem_of_lookup_2%elem_of_map_to_list. by apply Hk.
  - intros e. split.
    + intros He. apply Hin in He as [(ev & -> & Hev)%list_elem_of_fmap _].
      destruct (reported_txn d ev Hw) as (t & Ht & -> & _); [by apply Hevs|].
      apply list_elem_of_fmap_2, list_elem_of_fmap. exists (OutboxEvent.aggregate_id ev, t).
      by rewrite elem_of_map_to_list.
    + intros (t & -> & ([i t'] & -> & Hi%elem_of_map_to_list)%list_elem_of_fmap)%list_elem_of_fmap.
      simpl. destruct (ow_event _ (wf_outbox _ Hw) i t' Hi) as (j & ev & Hj & Hag).
      destruct (reported_txn d ev Hw) as (t & Ht & Hrep & _); [eauto|].
      rewrite Hag in Ht. simplify_eq.
      destruct (first_deliveries_covers ∅ (reported d <$> evs) (reported d ev)) as (e' & He' & Heq);
        [apply list_elem_of_fmap_2, Hevs; eauto|set_solver|].
      assert (e' = stat_event_of d t') as <-; [|done].
      apply Hin in He' as [(ev' & -> & Hev')%list_elem_of_fmap _]. rewrite Hrep in Heq.
      destruct (reported_txn d ev' Hw) as (t2 & Ht' & Hrep' & _); [by apply Hevs|].
      rewrite Hrep' in *. simpl in Heq. apply Hk in Ht' as Hid'. apply Hk in Hi as Hid.
      rewrite Hid', Hid in Heq. congruence.
Qed.

Lemma counted_ledger d es k : es ≡ₚ stat_event_of d <$> (snd <$> map_to_list (transactions d)) ->
  stat_of d k = (0, 0)%Z -> counted d es k = ledger_stats d k.
Proof.
  intros Hes Hz. unfold counted, ledger_stats, of_key. rewrite Hz, Hes. simpl.
  set (ts := snd <$> map_to_list (transactions d)).
  assert (Hf : filter (fun e => (se_currency e, se_type e) = k) (stat_event_of d <$> ts) =
    stat_event_of d <$> filter (fun t => (Transaction.currency t, type_value (Transaction.type t)) = k) ts).
  { clear. induction ts as [|t ts IH]; [done|]. rewrite fmap_cons, !filter_cons, IH.
    by repeat case_decide. }
  rewrite Hf, length_fmap, <- list_fmap_compose. done.
Qed.

Lemma reported_ok d ev : wf d -> (exists j, outbox_events d !! j = Some ev) -> event_ok (reported d ev).
Proof.
  intros Hw Hj. destruct (reported_txn d ev Hw Hj) as (t & Ht & -> & _).
  destruct (lw_double _ (wf_ledger _ Hw) _ t Ht) as (_ & Hcur & e1 & e2 & Hde).
  split; [done|]. split; [simpl; by destruct (Transaction.type t)|]. simpl.
  rewrite (moved_amount_double _ _ _ _ Hde). destruct Hde as [He _].
  assert (Hin : e1 ∈ LedgerRepository.entries_for_transaction (Transaction.id t) d)
    by (rewrite He; set_solver).
  apply list_elem_of_filter in Hin as [_ Hin]. pose proof (lw_entries _ (wf_ledger _ Hw)) as Hall.
  rewrite Forall_forall in Hall. destruct (Hall e1 Hin) as [? _]. lia.
Qed.
End facts.

(** ** The rollup of some of the transactions *)
Definition recorded (d : Database) (X : gset uuid) : list Transaction.row :=
  filter (fun t => Transaction.id t ∈ X) (snd <$> map_to_list (transactions d)).

Definition stats_of (d : Database) (k : string * string) (ts : list Transaction.row) : Z * Z :=
  let ts := filter (fun t => (Transaction.currency t, type_value (Transaction.type t)) = k) ts in
  (Z.of_nat (length ts), zsum (moved_amount d <$> ts)).

Definition stats_over (d : Database) (X : gset uuid) (k : string * string) : Z * Z :=
  stats_of d k (recorded d X).

(** The ledger's own statistics fit the rollup's columns. *)
Definition stats_fit (d : Database) : Prop :=
  forall k, ((ledger_stats d k).1 <= bigint_max /\ (ledger_stats d k).2 <= bigint_max)%Z.

Section stats.
Context `{Env}.

Lemma elem_of_recorded d X t : keyed d ->
  t ∈ recorded d X <-> Transaction.id t ∈ X /\ transactions d !! Transaction.id t = Some t.
Proof.
  intros [_ Hk]. unfold recorded. rewrite list_elem_of_filter, elem_of_values. split.
  - intros [Hx [i Hi]]. split; [done|]. by rewrite (Hk _ _ Hi).
  - intros [Hx Ht]. eauto.
Qed.

Lemma NoDup_recorded d X : keyed d -> NoDup (recorded d X).
Proof.
  intros [_ Hk]. apply NoDup_filter, (NoDup_fmap_1 Transaction.id). rewrite <- list_fmap_compose.
  rewrite (list_fmap_ext _ fst); [apply NoDup_fst_map_to_list|].
  intros n [i t] Hi%list_elem_of_lookup_2%elem_of_map_to_list. by apply Hk.
Qed.

Lemma recorded_add d X t : keyed d -> transactions d !! Transaction.id t = Some t -> Transaction.id t ∉ X ->
  recorded d ({[Transaction.id t]} ∪ X) ≡ₚ t :: recorded d X.
Proof.
  intros Hk Ht Hx. apply NoDup_Permutation.
  - by apply NoDup_recorded.
  - apply NoDup_cons. split; [|by apply NoDup_recorded]. rewrite elem_of_recorded by done. tauto.
  - intros u. rewrite elem_of_cons, !elem_of_recorded, elem_of_union, elem_of_singleton by done. split.
    + intros [[He|Hu] Hl]; [left; rewrite He in Hl; congruence|right; done].
    + intros [->|[Hu Hl]]; auto.
Qed.

Lemma recorded_all d X : keyed d -> dom (transactions d) ⊆ X -> recorded d X ≡ₚ snd <$> map_to_list (transactions d).
Proof.
  intros Hk HX. unfold recorded. rewrite filter_every; [done|].
  intros t Ht%elem_of_values. destruct Ht as [i Hi]. rewrite (proj2 Hk _ _ Hi). apply HX, elem_of_dom. eauto.
Qed.

#[export] Instance stats_of_perm d k : Proper ((≡ₚ) ==> eq) (stats_of d k).
Proof. intros l l' Hl. unfold stats_of. by rewrite Hl. Qed.

Lemma stats_over_all d X k : keyed d -> dom (transactions d) ⊆ X -> stats_over d X k = ledger_stats d k.
Proof. intros Hk HX. unfold stats_over. by rewrite recorded_all. Qed.

Lemma stats_over_add d X t k : keyed d -> transactions d !! Transaction.id t = Some t -> Transaction.id t ∉ X ->
  stats_over d ({[Transaction.id t]} ∪ X) k =
    if decide ((Transaction.currency t, type_value (Transaction.type t)) = k)
    then ((stats_over d X k).1 + 1, (stats_over d X k).2 + moved_amount d t)%Z else stats_over d X k.
Proof.
  intros Hk Ht Hx. unfold stats_over. rewrite recorded_add by done. unfold stats_of. rewrite filter_cons.
  case_decide; [|done]. rewrite fmap_cons, zsum_cons, length_cons. simpl. f_equal; lia.
Qed.

Lemma moved_amount_nonneg d t : wf d -> transactions d !! Transaction.id t = Some t -> (0 <= moved_amount d t)%Z.
Proof.
  intros Hw Ht. destruct (lw_double _ (wf_ledger _ Hw) _ t Ht) as (_ & _ & e1 & e2 & Hde).
  rewrite (moved_amount_double _ _ _ _ Hde). destruct Hde as [He _].
  assert (Hin : e1 ∈ LedgerRepository.entries_for_transaction (Transaction.id t) d) by (rewrite He; set_solver).
  apply list_elem_of_filter in Hin as [_ Hin]. pose proof (lw_entries _ (wf_ledger _ Hw)) as Hall.
  rewrite Forall_forall in Hall. destruct (Hall e1 Hin) as [? _]. lia.
Qed.

(** A part of the transactions counts no more than all of them. *)
Lemma stats_over_le d X k : wf d ->
  ((stats_over d X k).1 <= (ledger_stats d k).1 /\ (stats_over d X k).2 <= (ledger_stats d k).2)%Z.
Proof.
  intros Hw. pose proof (lw_keyed _ (wf_ledger _ Hw)) as Hk.
  rewrite <- (stats_over_all d (dom (transactions d)) k) by done. unfold stats_over.
  assert (Hs : recorded d X ⊆+ recorded d (dom (transactions d))).
  { apply NoDup_submseteq; [by apply NoDup_recorded|]. intros t. rewrite !elem_of_recorded by done.
    intros [_ Ht]. split; [|done]. apply elem_of_dom. eauto. }
  apply submseteq_Permutation in Hs as [l Hl]. unfold stats_of. cbn [fst snd].
  assert (Hn : (0 <= zsum (moved_amount d <$>
     filter (fun t => (Transaction.currency t, type_value (Transaction.type t)) = k) l))%Z).
  { apply zsum_map_nonneg. intros t [_ Ht]%list_elem_of_filter. apply moved_amount_nonneg; [done|].
    apply (elem_of_recorded d (dom (transactions d))); [done|]. rewrite Hl. set_solver. }
  rewrite Hl, filter_app, fmap_app, zsum_app, length_app. lia.
Qed.

(** What is booked later leaves the amounts of earlier transactions alone. *)
Lemma moved_amount_extends d d' t : wf d -> wf d' -> extends d d' -> transactions d !! Transaction.id t = Some t ->
  moved_amount d' t = moved_amount d t.
Proof.
  intros Hw Hw' He Ht. pose proof (lookup_weaken _ _ _ _ Ht (ext_transactions _ _ He)) as Ht'.
  destruct (lw_double _ (wf_ledger _ Hw) _ t Ht) as (_ & _ & e1 & e2 & Hde & _).
  destruct (lw_double _ (wf_ledger _ Hw') _ t Ht') as (_ & _ & f1 & f2 & Hdf & _).
  destruct (ext_entries _ _ He) as [l Hl]. unfold moved_amount, LedgerRepository.entries_for_transaction in *.
  rewrite Hl, filter_app, Hde. done.
Qed.

Lemma stats_over_extends d d' X k : wf d -> wf d' -> extends d d' -> X ⊆ dom (transactions d) ->
  stats_over d' X k = stats_over d X k.
Proof.
  intros Hw Hw' He HX. pose proof (lw_keyed _ (wf_ledger _ Hw)) as Hk. pose proof (lw_keyed _ (wf_ledger _ Hw')) as Hk'.
  assert (Hp : recorded d' X ≡ₚ recorded d X).
  { apply NoDup_Permutation; [by apply NoDup_recorded..|]. intros t. rewrite !elem_of_recorded by done.
    split; intros [Hx Ht]; (split; [done|]).
    - apply HX, elem_of_dom in Hx as [t0 Ht0]. pose proof (lookup_weaken _ _ _ _ Ht0 (ext_transactions _ _ He)). congruence.
    - by eapply lookup_weaken, ext_transactions. }
  unfold stats_over. rewrite Hp. unfold stats_of. f_equal. f_equal.
  apply list_fmap_ext. intros i t [_ Ht]%list_elem_of_lookup_2%list_elem_of_filter.
  apply moved_amount_extends; try done. by apply (elem_of_recorded d X).
Qed.

Lemma stats_fit_before d d' : wf d -> wf d' -> extends d d' -> stats_fit d' -> stats_fit d.
Proof.
  intros Hw Hw' He Hf k. specialize (Hf k). pose proof (lw_keyed _ (wf_ledger _ Hw)) as Hk.
  pose proof (stats_over_le d' (dom (transactions d)) k Hw') as Hle.
  rewrite (stats_over_extends d d'), stats_over_all in Hle by done. lia.
Qed.
(** It suffices that the totals over all keys fit. *)
Lemma fits_total d : wf d -> (Z.of_nat (size (transactions d)) <= bigint_max)%Z ->
  (zsum (moved_amount d <$> (snd <$> map_to_list (transactions d))) <= bigint_max)%Z -> stats_fit d.
Proof.
  intros Hw Hn Hz k. unfold ledger_stats. cbn [fst snd]. rewrite <- length_map_to_list in Hn.
  pose proof (length_filter (fun t => (Transaction.currency t, type_value (Transaction.type t)) = k)
    (snd <$> map_to_list (transactions d))) as Hl. rewrite length_fmap in Hl. split; [lia|].
  etrans; [|exact Hz]. apply zsum_filter_le. intros t [i Ht]%elem_of_values.
  apply moved_amount_nonneg; [done|]. by rewrite (proj2 (lw_keyed _ (wf_ledger _ Hw)) _ _ Ht).
Qed.

End stats.
