(* ===== verification/Pipeline.v ===== *)
(** * The back end with its workers and Kafka

    What the whole deployment does, one step at a time: the API serves requests,
    many at once and call by call, or loses them, the publisher takes its turns, the analytics and the
    notification consumers read the topic, commit their offsets, crash and start
    again.  The invariant [flows] says where the news of a transaction is on its
    way from the outbox to the rollup and the notifications. *)
From S2P Require Import Prelude PyValues Schema Session Interleaving Pool Requests Repositories.
From S2P Require Import LedgerService Moves LedgerSpec Security AccountServices Publisher Analytics.
From S2P Require Import Atomicity Invariants System ConcurrentLedger SideWrites Jobs Notification Kafka.
From S2P Require Import EndToEnd.

(** What the API serves, as a job. *)
Definition front_job `{JsonCodec} (j : job) : Prop :=
  match j with
  | Request _ | Register _ | CreateWallet _ _ => True
  | Reading _ p => commits_le 0 p
  | Publish _ _ _ | Count _ => False
  end.

Section pipeline.
Context `{Env} `{Crypto} `{JsonCodec} {K : Type} `{Kafka K}.
Variable st : Settings.t.

Definition publisher : OutboxPublisher.t := OutboxPublisher.init st None.
Definition topic : string := Settings.kafka_topic_transactions st.

(** The tables and the cluster; the positions of the two consumers on each
    partition; what the notification process remembers, and the lines it has
    logged. *)
Record pipeline := Pipeline {
  tables : World; cluster : K;
  analytics_at : nat -> nat; notifier_at : nat -> nat;
  memory : NotificationConsumer.state (St := list (list json)) }.

(** The messages of the next turn, and the turn when it gets these reports. *)
Definition batch (w : World) : list Message.t :=
  message_of (OutboxPublisher.topic publisher) <$>
    OutboxRepository.unpublished (OutboxPublisher.batch_size publisher) (db w).
Definition turn (acks : list ack) : prog nat :=
  publish_turn (fun _ => acks) (OutboxPublisher.topic publisher) (OutboxPublisher.batch_size publisher).

(** [flush] waited long enough: every message was reported on. *)
Definition flushed (w : World) (acks : list ack) (k k' : K) : Prop :=
  produced (build_producer st) (batch w) acks k k' /\ length acks = length (batch w) /\ Outstanding ∉ acks.

Definition with_tables (P : pipeline) (w : World) : pipeline :=
  Pipeline w (cluster P) (analytics_at P) (notifier_at P) (memory P).
Definition published (P : pipeline) (w : World) (k : K) : pipeline :=
  Pipeline w k (analytics_at P) (notifier_at P) (memory P).
Definition analytics_read (P : pipeline) (w : World) (positions : nat -> nat) : pipeline :=
  Pipeline w (cluster P) positions (notifier_at P) (memory P).
Definition notifier_read (P : pipeline) (positions : nat -> nat) mem : pipeline :=
  Pipeline (tables P) (cluster P) (analytics_at P) positions mem.

Abbreviation analytics := (analytics_consumer st) (only parsing).
Abbreviation notifier := (notification_consumer st) (only parsing).

Inductive pipe_step (P : pipeline) : pipeline -> Prop :=
  | ps_front A (p : prog A) now : front A p ->
      pipe_step P (with_tables P (run p (at_log (tables P) [] now)).2.1)
  | ps_front_crash A (p : prog A) now n : front A p ->
      pipe_step P (with_tables P (run_upto n p (at_log (tables P) [] now)).1)
  (* requests in flight together, call by call, each served or lost *)
  | ps_pool js order Q : Forall (fun c => front_job c.1) js -> runs (muster (tables P) js) order Q ->
      pipe_step P (with_tables P Q.1)
  | ps_publish acks now k : flushed (tables P) acks (cluster P) k ->
      pipe_step P (published P (run (turn acks) (at_log (tables P) [] now)).2.1 k)
  | ps_publish_crash acks now n k : flushed (tables P) acks (cluster P) k ->
      pipe_step P (published P (run_upto n (turn acks) (at_log (tables P) [] now)).1 k)
  (* the process is lost while messages are on their way *)
  | ps_publish_lost acks k : produced (build_producer st) (batch (tables P)) acks (cluster P) k ->
      pipe_step P (published P (tables P) k)
  | ps_count p m r w : stored (cluster P) topic p !! analytics_at P p = Some m ->
      consume (Message.value m) (tables P) = Some (r, w) ->
      pipe_step P (analytics_read P w (step_to p (analytics_at P)))
  | ps_count_crash p m payload now n : stored (cluster P) topic p !! analytics_at P p = Some m ->
      json_loads (Message.value m) = Some payload ->
      pipe_step P (analytics_read P (run_upto n (AnalyticsService.handle_event payload) (at_log (tables P) [] now)).1
        (start_at analytics topic (cluster P)))
  | ps_count_commit p n k : may_commit analytics (analytics_at P p) n ->
      offset_committed (cc_group_id analytics) topic p n (cluster P) k ->
      pipe_step P (published P (tables P) k)
  | ps_count_restart : pipe_step P (analytics_read P (tables P) (start_at analytics topic (cluster P)))
  | ps_notify p m payload b mem : stored (cluster P) topic p !! notifier_at P p = Some m ->
      json_loads (Message.value m) = Some payload ->
      NotificationConsumer.handle_event NotificationConsumer._default_handler payload (memory P) = (Some b, mem) ->
      pipe_step P (notifier_read P (step_to p (notifier_at P)) mem)
  | ps_notify_commit p n k : may_commit notifier (notifier_at P p) n ->
      offset_committed (cc_group_id notifier) topic p n (cluster P) k ->
      pipe_step P (published P (tables P) k)
  (* the set of seen ids is lost, the log is not *)
  | ps_notify_restart :
      pipe_step P (notifier_read P (start_at notifier topic (cluster P))
        (NotificationConsumer.State ∅ (NotificationConsumer.world (memory P)))).

(** Before the first request: empty tables, nothing on the topic. *)
Definition installed (P : pipeline) : Prop :=
  tables P = empty_world /\
  (forall p, stored (cluster P) topic p = []) /\ (forall g p, committed (cluster P) g topic p = None) /\
  (forall p, analytics_at P p = start_at analytics topic (cluster P) p) /\
  (forall p, notifier_at P p = start_at notifier topic (cluster P) p) /\
  memory P = NotificationConsumer.State ∅ [].

Definition deployed (P : pipeline) : Prop := exists P0, installed P0 /\ rtc pipe_step P0 P.

(** Nothing is left to publish or to read. *)
Definition caught_up (P : pipeline) : Prop :=
  pending_events (db (tables P)) = ∅ /\
  forall p, analytics_at P p = length (stored (cluster P) topic p) /\
    notifier_at P p = length (stored (cluster P) topic p).

(** ** Where the news of a transaction is *)
Definition event_message (d : Database) (m : Message.t) : Prop :=
  exists j ev, outbox_events d !! j = Some ev /\ m = message_of topic ev.
Definition counted_message (d : Database) (m : Message.t) : Prop :=
  exists j ev, outbox_events d !! j = Some ev /\ m = message_of topic ev /\
    OutboxEvent.aggregate_id ev ∈ processed_txns d.
Definition noted_message (handled : list dict) (m : Message.t) : Prop :=
  exists payload q, json_loads (Message.value m) = Some payload /\ q ∈ handled /\
    NotificationConsumer.event_id q = NotificationConsumer.event_id payload.

(** What the notification process has handled: one line for each, all of them
    payloads of the outbox, and every id it remembers is among theirs. *)
Definition handled_by (d : Database) (mem : NotificationConsumer.state (St := list (list json)))
    (handled : list dict) : Prop :=
  NotificationConsumer.world mem = NotificationConsumer.notice <$> handled /\
  (forall q, q ∈ handled -> exists j ev, outbox_events d !! j = Some ev /\ q = OutboxEvent.payload ev) /\
  (forall i, i ∈ NotificationConsumer.seen mem -> exists q, q ∈ handled /\ NotificationConsumer.event_id q = i).

Record flows (P : pipeline) : Prop := Flows {
  fl_wf : wf (db (tables P));
  fl_ids : txn_ids_fit (db (tables P));
  fl_sent : forall p m, m ∈ stored (cluster P) topic p -> event_message (db (tables P)) m;
  fl_kept : forall j ev, outbox_events (db (tables P)) !! j = Some ev -> OutboxEvent.published_at ev <> None ->
    exists p, message_of topic ev ∈ stored (cluster P) topic p;
  fl_processed : processed_txns (db (tables P)) ⊆ dom (transactions (db (tables P)));
  fl_rollup : stats_fit (db (tables P)) -> forall k,
    stat_of (db (tables P)) k = stats_over (db (tables P)) (processed_txns (db (tables P))) k;
  fl_counted : stats_fit (db (tables P)) ->
    group_ok analytics topic (cluster P) (counted_message (db (tables P))) (analytics_at P);
  fl_noted : exists handled, handled_by (db (tables P)) (memory P) handled /\
    group_ok notifier topic (cluster P) (noted_message handled) (notifier_at P) }.

(** ** Events keep their message *)
Lemma same_event_message ev ev' : same_event ev ev' -> message_of topic ev' = message_of topic ev.
Proof. intros (_ & _ & Ha & Ht & Hp & _). unfold message_of. by rewrite Ha, Ht, Hp. Qed.

Lemma event_message_extends d d' m : extends d d' -> event_message d m -> event_message d' m.
Proof.
  intros He (j & ev & Hj & ->). destruct (ext_outbox _ _ He j ev Hj) as (ev' & Hj' & Hs).
  exists j, ev'. split; [done|]. symmetry. by apply same_event_message.
Qed.

Lemma counted_message_extends d d' m : extends d d' -> processed_txns d ⊆ processed_txns d' ->
  counted_message d m -> counted_message d' m.
Proof.
  intros He Hp (j & ev & Hj & -> & Ha). destruct (ext_outbox _ _ He j ev Hj) as (ev' & Hj' & Hs).
  exists j, ev'. split; [done|]. split; [symmetry; by apply same_event_message|].
  destruct Hs as (_ & _ & -> & _). set_solver.
Qed.

Lemma handled_extends d d' mem handled : extends d d' -> handled_by d mem handled -> handled_by d' mem handled.
Proof.
  intros He (Hl & Hh & Hs). split; [done|]. split; [|done]. intros q Hq.
  destruct (Hh q Hq) as (j & ev & Hj & ->). destruct (ext_outbox _ _ He j ev Hj) as (ev' & Hj' & _ & _ & _ & _ & Hp & _).
  by exists j, ev'.
Qed.

(** ** Front ends and the publisher leave the rollup alone *)

(** The tables change on the side of the ledger, and messages of events are
    appended, among them those of the events that are now stamped. *)
Definition beside_rollup (d d' : Database) : Prop :=
  wf d' /\ txn_ids_fit d' /\ extends d d' /\
  processed_events d' = processed_events d /\ transaction_stats d' = transaction_stats d.

Lemma flows_beside P w k : flows P -> beside_rollup (db (tables P)) (db w) ->
  (forall p, exists l, stored k topic p = stored (cluster P) topic p ++ l /\
     forall m, m ∈ l -> event_message (db (tables P)) m) ->
  (forall g p, committed k g topic p = committed (cluster P) g topic p) ->
  (forall j ev, outbox_events (db w) !! j = Some ev -> OutboxEvent.published_at ev <> None ->
     outbox_events (db (tables P)) !! j = Some ev \/ exists p, message_of topic ev ∈ stored k topic p) ->
  flows (published P w k).
Proof.
  intros [Hw Hz Hsent Hkept Hp Hroll Hcnt (handled & Hh & Hg)] (Hw' & Hz' & He & Hpe & Hts) Hst Hco Hout.
  assert (Happ : forall p, exists l, stored k topic p = stored (cluster P) topic p ++ l).
  { intros p. destruct (Hst p) as (l & Hl & _). eauto. }
  assert (Hpt : processed_txns (db w) = processed_txns (db (tables P))) by (unfold processed_txns; by rewrite Hpe).
  assert (Hdom : dom (transactions (db (tables P))) ⊆ dom (transactions (db w))).
  { apply subseteq_dom, ext_transactions, He. }
  split; simpl; rewrite ?Hpt; try done.
  - intros p m Hm. destruct (Hst p) as (l & Hl & Hall). rewrite Hl in Hm.
    apply elem_of_app in Hm as [Hm|Hm]; eapply event_message_extends; eauto.
  - intros j ev Hj Hpub. destruct (Hout j ev Hj Hpub) as [Hj'|Hm]; [|done].
    destruct (Hkept j ev Hj' Hpub) as [p Hm]. exists p. destruct (Happ p) as [l ->]. set_solver.
  - set_solver.
  - intros Hf kk. assert (stat_of (db w) kk = stat_of (db (tables P)) kk) as -> by (unfold stat_of; by rewrite Hts).
    rewrite Hroll by (by eapply stats_fit_before). symmetry. by apply stats_over_extends.
  - intros Hf. apply (group_mono _ _ _ (counted_message (db (tables P)))).
    { intros m. apply counted_message_extends; [done|by rewrite Hpt]. }
    apply (group_appended _ _ (cluster P)); [done..|]. apply Hcnt. by eapply stats_fit_before.
  - exists handled. split; [by eapply handled_extends|]. by apply (group_appended _ _ (cluster P)).
Qed.
Lemma reports_kept acks es : es <> [] -> foldl _on_delivery es acks <> [].
Proof.
  revert es. induction acks as [|a acks IH]; intros es He; [done|]. apply IH. destruct a; simpl; try done.
  by destruct es.
Qed.

Lemma failed_reported acks err : Failed err ∈ acks -> delivery_errors acks <> [].
Proof.
  intros [l1 [l2 ->]]%list_elem_of_split. unfold delivery_errors. rewrite foldl_app. simpl.
  apply reports_kept. by destruct (foldl _ _ _).
Qed.

(** *** The front end *)
(** The tables after requests of the API. *)
Record ledger_side (d d' : Database) : Prop := LedgerSide {
  ls_wf : wf d';
  ls_extends : extends d d';
  ls_ids : txn_ids_fit d -> txn_ids_fit d';
  ls_processed : processed_events d' = processed_events d;
  ls_stats : transaction_stats d' = transaction_stats d;
  ls_unstamped : forall j ev, outbox_events d' !! j = Some ev -> OutboxEvent.published_at ev <> None ->
    outbox_events d !! j = Some ev }.

Lemma ledger_side_refl d : wf d -> ledger_side d d.
Proof. by split. Qed.

Lemma ledger_side_trans d d1 d2 : ledger_side d d1 -> ledger_side d1 d2 -> ledger_side d d2.
Proof.
  intros [Hw1 He1 Hi1 Hp1 Hs1 Ho1] [Hw2 He2 Hi2 Hp2 Hs2 Ho2]. split; [done|by etrans|auto|congruence|congruence|auto].
Qed.

Lemma ledger_effect_side d d' : ids128 -> ledger_effect d d' -> wf d -> ledger_side d d'.
Proof.
  intros Hids He Hw. pose proof (eff_ledger _ _ He) as Heff. pose proof (effect_wf _ _ Heff Hw) as Hw'.
  pose proof (effect_extends _ _ Heff) as Hext.
  destruct He as [|w now data|w now owner cur|x now m Hs Hv [n Hn]]; split; try done.
  - intros Ht i. simpl. rewrite lookup_insert_is_Some'. intros [<-|]; [rewrite Hn; apply Hids|auto].
  - intros j ev. simpl. rewrite lookup_insert_Some. by intros [[<- <-]|[_ Hj]] Hp.
Qed.

(** New users and empty wallets, as they are flushed. *)
Lemma opening_side d x : inserts_user (wr_change x) || inserts_wallet (wr_change x) = true ->
  violation d (wr_change x) = None -> wf d -> ledger_side d (apply_write d x).
Proof.
  intros Hc Hv Hw. destruct (beside_write d x) as [Hw' He]; [|done..|].
  - unfold beside_ledger. by rewrite Hc.
  - destruct x as [now n []]; try done; by destruct d.
Qed.

Lemma written_side may d d' : (forall c, may c = true -> inserts_user c || inserts_wallet c = true) ->
  written may d d' -> wf d -> ledger_side d d'.
Proof.
  intros Hmay (ws & Hws & Hv & ->). revert d Hv. induction Hws as [|x ws Hx _ IH]; intros d Hv Hw.
  { by apply ledger_side_refl. }
  destruct Hv as [Hvx Hv]. pose proof (opening_side d x (Hmay _ Hx) Hvx Hw) as Hs.
  eapply ledger_side_trans; [exact Hs|]. apply IH; [done|apply Hs].
Qed.

Lemma front_job_side j d d' : ids128 -> front_job j -> job_effect j d d' -> wf d -> ledger_side d d'.
Proof using H H0 H1.
  intros Hids Hj He Hw. destruct j as [q|data|owner data| | |A p]; try done.
  - destruct He as (x & now & m & Hg & Hv & Hn & ->). apply ledger_effect_side; [done| |done].
    apply eff_move; [by eapply request_sound; [apply Hw|]|done..].
  - eapply written_side; [|exact He|done]. by intros [].
  - eapply written_side; [|exact He|done]. by intros [].
Qed.

(** Requests in flight together: their commits, one after the other. *)
Lemma pool_side js w order Q : ids128 -> wf (db w) -> Forall (fun c => front_job c.1) js ->
  runs (muster w js) order Q -> ledger_side (db w) (db Q.1).
Proof using H H0 H1.
  intros Hids Hw Hjs Hr.
  assert (Hh : Forall (fun c => honest c.1) js).
  { eapply Forall_impl; [exact Hjs|]. by intros [[] now]. }
  pose proof (jd_serial _ _ _ _ (run_mustered js w order Q Hw Hh Hr)) as Hs. clear Hr. revert Hs Hw.
  generalize (db w), (db Q.1). intros d d' Hs.
  induction Hs as [d|i order' d d1 d2 (c & Hc & He) _ IH]; intros Hw; [by apply ledger_side_refl|].
  rewrite Forall_forall in Hjs. apply list_elem_of_lookup_2 in Hc.
  pose proof (front_job_side c.1 d d1 Hids (Hjs c Hc) He Hw) as Hd.
  eapply ledger_side_trans; [exact Hd|]. apply IH, Hd.
Qed.

Lemma flows_ledger P w : flows P -> ledger_side (db (tables P)) (db w) -> flows (with_tables P w).
Proof using All.
  intros Hf [Hw He Hi Hp Hs Ho]. apply flows_beside; [done| | |done|].
  - unfold beside_rollup. pose proof (fl_ids _ Hf). auto.
  - intros p. exists []. rewrite app_nil_r. split; [done|]. by intros m ?%elem_of_nil.
  - intros j ev Hj Hpub. left. eauto.
Qed.

(** *** The publisher *)
Lemma batch_events w m : m ∈ batch w -> event_message (db w) m.
Proof.
  intros (ev & -> & Hev)%list_elem_of_fmap. unfold OutboxRepository.unpublished in Hev.
  apply elem_of_take in Hev as (i & Hev & _). apply list_elem_of_lookup_2 in Hev.
  rewrite merge_sort_Permutation in Hev. apply list_elem_of_filter in Hev as [_ Hev].
  apply elem_of_values in Hev as [j Hj]. by exists j, ev.
Qed.

Lemma produced_grows w acks k k' : produced (build_producer st) (batch w) acks k k' ->
  forall p, exists l, stored k' topic p = stored k topic p ++ l /\ forall m, m ∈ l -> event_message (db w) m.
Proof.
  intros Hp p. destruct (produced_appends _ _ _ _ _ Hp topic p) as (l & Hl & Hall). exists l. split; [done|].
  intros m Hm. by apply batch_events, Hall.
Qed.

(** A turn that stamps had every message acknowledged, so the topic has them. *)
Lemma turn_stamps w acks k k' now : flushed w acks k k' ->
  let w' := (run (turn acks) (at_log w [] now)).2.1 in
  db w' = db w \/
  db w' = stamped (db w) (tick w) (OutboxRepository.unpublished 100 (db w)) /\
    forall m, m ∈ batch w -> exists p, m ∈ stored k' topic p.
Proof.
  intros (Hp & Hl & Ho). pose proof (proj1 (wp_run _ _ _)
    (wp_publish_turn (fun _ => acks) topic 100 w now)) as [_ Ht]. cbv zeta.
  change (turn acks) with (publish_turn (fun _ => acks) topic 100).
  case_decide as E; destruct Ht as [_ ->]; [by left|right]. split; [done|]. intros m Hm.
  assert (Hack : forall i a, acks !! i = Some a -> a = Acked).
  { assert (Hne : OutboxRepository.unpublished 100 (db w) <> []).
    { intros Hn. unfold batch in Hm. simpl in Hm. rewrite Hn in Hm. by apply elem_of_nil in Hm. }
    assert (Herr : delivery_errors acks = []) by (destruct (delivery_errors acks); [done|exfalso; by apply E]).
    intros i [|err|] Hi; [done| |exfalso; by apply Ho, list_elem_of_lookup; exists i].
    apply list_elem_of_lookup_2 in Hi. exfalso. by apply (failed_reported acks err). }
  apply list_elem_of_lookup in Hm as [i Hi]. pose proof (lookup_lt_Some _ _ _ Hi) as Hlt. rewrite <- Hl in Hlt.
  apply lookup_lt_is_Some in Hlt as [a Ha]. pose proof (Hack i a Ha) as ->.
  destruct (produced_acked (build_producer st) _ _ _ _ eq_refl Hp i m Hi Ha) as [p Hin]. exists p.
  assert (Message.topic m = topic) as <-; [|done].
  apply list_elem_of_lookup_2 in Hi. by apply list_elem_of_fmap in Hi as (ev & -> & _).
Qed.

Lemma flows_published P w k : flows P ->
  (forall p, exists l, stored k topic p = stored (cluster P) topic p ++ l /\
     forall m, m ∈ l -> event_message (db (tables P)) m) ->
  (forall g p, committed k g topic p = committed (cluster P) g topic p) ->
  db w = db (tables P) \/
  db w = stamped (db (tables P)) (tick (tables P)) (OutboxRepository.unpublished 100 (db (tables P))) /\
    (forall m, m ∈ batch (tables P) -> exists p, m ∈ stored k topic p) ->
  flows (published P w k).
Proof using All.
  intros Hf Hs Hc [Hd|[Hd Hm]]; apply flows_beside; try done; unfold beside_rollup; rewrite Hd;
    pose proof (fl_wf _ Hf) as Hw; pose proof (fl_ids _ Hf) as Hz.
  - done.
  - auto.
  - split_and!; try done; [by apply stamped_wf|]. by apply effect_extends, eff_stamped.
  - intros j ev' Hj Hp. destruct (outbox_events (db (tables P)) !! j) as [ev|] eqn:E.
    + destruct (stamped_event (db (tables P)) (tick (tables P)) (OutboxRepository.unpublished 100 (db (tables P))) j ev E)
        as (ev2 & Hj2 & Hs2 & Hsame). assert (ev2 = ev') as -> by congruence.
      destruct (decide (j ∈ OutboxEvent.id <$> OutboxRepository.unpublished 100 (db (tables P)))) as [Hin|Hnin].
      * right. rewrite (same_event_message _ _ Hs2). apply Hm. unfold batch.
        apply list_elem_of_fmap in Hin as (ev0 & -> & Hin). apply list_elem_of_fmap. exists ev0. split; [|done].
        apply unpublished_elem in Hin; [|apply Hw]. apply map_lookup_filter_Some in Hin as [Hin _].
        assert (ev0 = ev) as -> by congruence. done.
      * left. by rewrite (Hsame Hnin).
    + exfalso. apply (stamped_none _ (tick (tables P)) (OutboxRepository.unpublished 100 (db (tables P)))) in E. congruence.
Qed.

(** *** The analytics consumer *)
Lemma message_event d m : wf d -> txn_ids_fit d -> event_message d m -> exists j ev t,
  outbox_events d !! j = Some ev /\ m = message_of topic ev /\
  transactions d !! Transaction.id t = Some t /\ Transaction.id t = OutboxEvent.aggregate_id ev /\
  json_loads (Message.value m) = Some (OutboxEvent.payload ev) /\
  carries (OutboxEvent.payload ev) (stat_event_of d t).
Proof.
  intros Hw Hz (j & ev & Hj & ->). destruct (reported_txn d ev Hw) as (t & Ht & Hrep & Hev); [eauto|].
  exists j, ev, t. pose proof (proj2 (lw_keyed _ (wf_ledger _ Hw)) _ _ Ht) as Hid.
  split; [done|]. split; [done|]. split; [by rewrite Hid|]. split; [done|]. split; [apply loads_dumps|].
  rewrite <- Hrep. by apply (payload_carries _ _ t); [|apply Hw|..].
Qed.

Lemma stat_event_ok d t : wf d -> transactions d !! Transaction.id t = Some t -> event_ok (stat_event_of d t).
Proof.
  intros Hw Ht. destruct (lw_double _ (wf_ledger _ Hw) _ t Ht) as (_ & Hcur & _).
  split; [done|]. split; [simpl; by destruct (Transaction.type t)|]. simpl. by apply moved_amount_nonneg.
Qed.

(** While the ledger's statistics fit, so does the row of a transaction not
    counted yet. *)
Lemma next_fits d t : wf d -> stats_fit d -> transactions d !! Transaction.id t = Some t ->
  (forall k, stat_of d k = stats_over d (processed_txns d) k) -> ~ seen d (Transaction.id t) ->
  event_fits d (stat_event_of d t) = true.
Proof.
  intros Hw Hf Ht Hr Hs. pose proof (lw_keyed _ (wf_ledger _ Hw)) as Hk.
  destruct (stat_event_ok d t Hw Ht) as (Hc & Hy & Ha). unfold event_fits, stat_data_ok. rewrite Hc, Hy. cbn [andb].
  set (k := (se_currency (stat_event_of d t), se_type (stat_event_of d t))).
  pose proof (stats_over_le d ({[Transaction.id t]} ∪ processed_txns d) k Hw) as Hle.
  rewrite stats_over_add in Hle by (try done; by rewrite elem_of_processed_txns).
  rewrite decide_True in Hle by done. rewrite <- Hr in Hle. simpl in Hle. specialize (Hf k).
  assert (Hpos : (0 <= (stat_of d k).1 /\ 0 <= (stat_of d k).2)%Z).
  { rewrite Hr. unfold stats_over, stats_of. simpl. split; [lia|]. apply zsum_map_nonneg.
    intros u [_ Hu]%list_elem_of_filter. apply elem_of_recorded in Hu as [_ Hu]; [|done]. by apply moved_amount_nonneg. }
  rewrite andb_true_iff, !in_bigint_spec. unfold bigint_min. subst k. simpl in *. lia.
Qed.

Lemma flows_counted P w t now positions : flows P ->
  transactions (db (tables P)) !! Transaction.id t = Some t ->
  db w = db (tables P) \/
  db w = bumped (db (tables P)) now (stat_event_of (db (tables P)) t) /\ ~ seen (db (tables P)) (Transaction.id t) ->
  (stats_fit (db (tables P)) -> group_ok analytics topic (cluster P) (counted_message (db w)) positions) ->
  flows (analytics_read P w positions).
Proof.
  intros [Hw Hz Hsent Hkept Hp Hroll Hcnt Hnote] Ht Hd Hg.
  destruct Hd as [Hd|[Hd Hs]]; split; simpl; rewrite ?Hd in *; try done.
  - by apply bumped_wf.
  - rewrite processed_bumped. intros i. rewrite elem_of_union, elem_of_singleton. intros [->|Hi]; [|by apply Hp].
    simpl. apply elem_of_dom. eauto.
  - intros Hf k. rewrite stat_of_bumped, processed_bumped.
    change (stats_over (bumped ?d ?n ?e)) with (stats_over d). simpl.
    rewrite stats_over_add; [|apply Hw|done|by rewrite elem_of_processed_txns].
    by rewrite Hroll.
Qed.

(** What handling a message leads to, run to its end or cut short. *)
Lemma handled_message P m w now : flows P -> event_message (db (tables P)) m ->
  (exists r, consume (Message.value m) (tables P) = Some (r, w) /\ now = clock (tick (tables P))) \/
  (exists payload n, json_loads (Message.value m) = Some payload /\
     w = (run_upto n (AnalyticsService.handle_event payload) (at_log (tables P) [] now)).1) ->
  exists t, transactions (db (tables P)) !! Transaction.id t = Some t /\
  (db w = db (tables P) \/
   db w = bumped (db (tables P)) now (stat_event_of (db (tables P)) t) /\ ~ seen (db (tables P)) (Transaction.id t)).
Proof.
  intros Hf Hm Hh. destruct (message_event _ m (fl_wf _ Hf) (fl_ids _ Hf) Hm)
    as (j & ev & t & Hj & -> & Ht & Hid & Hl & Hc). exists t. split; [done|].
  destruct Hh as [(r & Hcons & ->)|(payload & n & Hl' & ->)].
  - destruct (consume_event _ _ _ (tables P) Hl Hc) as [r' Hcons']. rewrite Hcons in Hcons'. injection Hcons' as _ ->.
    simpl. repeat case_match; auto.
  - rewrite Hl in Hl'. injection Hl' as <-.
    destruct (run_upto_one_commit (AnalyticsService.handle_event (OutboxEvent.payload ev)) n (at_log (tables P) [] now))
      as [->| ->]; [apply commits_handle_event|by left|].
    pose proof (proj1 (wp_run _ _ _) (wp_handle_event _ _ (tables P) now Hc)) as Ho. simpl in Ho.
    repeat case_match; destruct Ho as [_ ->]; auto.
Qed.

Lemma counted_now P m r w : flows P -> event_message (db (tables P)) m -> stats_fit (db (tables P)) ->
  consume (Message.value m) (tables P) = Some (r, w) -> counted_message (db w) m.
Proof.
  intros Hf Hm Hfit Hcons. pose proof (fl_wf _ Hf) as Hw.
  destruct (message_event _ m Hw (fl_ids _ Hf) Hm) as (j & ev & t & Hj & -> & Ht & Hid & Hl & Hc).
  destruct (consume_event _ _ _ (tables P) Hl Hc) as [r' Hcons']. rewrite Hcons in Hcons'. injection Hcons' as _ ->.
  exists j, ev. rewrite elem_of_processed_txns, <- Hid. case_decide as Hs; [done|].
  rewrite next_fits by (try done; by apply fl_rollup). split; [done|]. split; [done|]. apply seen_bumped. by left.
Qed.

(** *** The notification consumer *)
Lemma notify_handled d mem mem' handled m payload b : wf d -> txn_ids_fit d -> event_message d m ->
  handled_by d mem handled -> json_loads (Message.value m) = Some payload ->
  NotificationConsumer.handle_event NotificationConsumer._default_handler payload mem = (Some b, mem') ->
  exists handled', handled_by d mem' handled' /\ (forall q, q ∈ handled -> q ∈ handled') /\ noted_message handled' m.
Proof.
  intros Hw Hz Hm (Hl & Hh & Hs) Hp. destruct (message_event d m Hw Hz Hm) as (j & ev & t & Hj & -> & _ & _ & Hl' & _).
  rewrite Hl' in Hp. injection Hp as <-. unfold NotificationConsumer.handle_event. case_decide as Hin; simpl; intros [= <- <-].
  - exists handled. split; [done|]. split; [done|]. destruct (Hs _ Hin) as (q & Hq & He).
    exists (OutboxEvent.payload ev), q. done.
  - exists (handled ++ [OutboxEvent.payload ev]). split; [split; [|split]|split].
    + simpl. by rewrite Hl, fmap_app.
    + intros q [Hq| ->%list_elem_of_singleton]%elem_of_app; [by apply Hh|]. eauto.
    + simpl. intros i [->%elem_of_singleton|Hi]%elem_of_union.
      * exists (OutboxEvent.payload ev). set_solver.
      * destruct (Hs i Hi) as (q & Hq & He). exists q. set_solver.
    + set_solver.
    + exists (OutboxEvent.payload ev), (OutboxEvent.payload ev). set_solver.
Qed.

Lemma noted_more handled handled' m : (forall q, q ∈ handled -> q ∈ handled') ->
  noted_message handled m -> noted_message handled' m.
Proof. intros Hs (p & q & Hp & Hq & He). exists p, q. auto. Qed.

Lemma flows_notifier P positions mem handled' : flows P -> handled_by (db (tables P)) mem handled' ->
  group_ok notifier topic (cluster P) (noted_message handled') positions ->
  flows (notifier_read P positions mem).
Proof. intros [Hw Hz Hsent Hkept Hp Hroll Hcnt _] Hh Hg. split; try done. by exists handled'. Qed.

(** *** Offsets *)
Lemma flows_committed P g p n k : flows P -> offset_committed g topic p n (cluster P) k ->
  (g = cc_group_id analytics -> n <= analytics_at P p) ->
  (g = cc_group_id notifier -> n <= notifier_at P p) -> flows (published P (tables P) k).
Proof.
  intros [Hw Hz Hsent Hkept Hp Hroll Hcnt (handled & Hh & Hg)] Ho Ha Hn. split; simpl; try done.
  - intros q m. rewrite (committed_keeps _ _ _ _ _ _ Ho). apply Hsent.
  - intros j ev Hj Hpub. destruct (Hkept j ev Hj Hpub) as [q Hq]. exists q.
    by rewrite (committed_keeps _ _ _ _ _ _ Ho).
  - intros Hf. by eapply group_commit; [exact Ho| |apply Hcnt].
  - exists handled. split; [done|]. by eapply group_commit; [exact Ho| |].
Qed.

Lemma may_commit_le st' g position n : may_commit (build_consumer st' g) position n -> n <= position.
Proof. by intros [|[Hf _]]. Qed.

(** ** Every step keeps the news on its way *)
Lemma pipe_step_flows P P' : ids128 -> pipe_step P P' -> flows P -> flows P'.
Proof using All.
  intros Hids Hst Hf. pose proof (fl_wf _ Hf) as Hw.
  destruct Hst as [A p now Hp|A p now n Hp|js order Q Hjs Hr|acks now k Hk|acks now n k Hk|acks k Hk|p m r w Hm Hc|p m payload now n Hm Hl
    |p n k Hn Ho| |p m payload b mem Hm Hl Hh|p n k Hn Ho| ].
  - apply flows_ledger, ledger_effect_side; [done..| |done]. apply front_effect; [done|apply Hw].
  - apply flows_ledger, ledger_effect_side; [done..| |done].
    destruct (run_upto_one_commit p n (at_log (tables P) [] now)) as [->| ->];
      [by apply activity_commits, front_activity|apply eff_none|apply front_effect; [done|apply Hw]].
  - apply flows_ledger; [done|]. by eapply pool_side.
  - pose proof Hk as (Hpr & _). apply flows_published; [done| | |by eapply turn_stamps].
    + by eapply produced_grows.
    + intros g p. by eapply produced_offsets.
  - pose proof Hk as (Hpr & _). apply flows_published; [done|by eapply produced_grows|intros g p; by eapply produced_offsets|].
    destruct (run_upto_one_commit (turn acks) n (at_log (tables P) [] now)) as [->| ->];
      [apply commits_publish_turn|by left|by eapply turn_stamps].
  - apply flows_published; [done|by eapply produced_grows|intros g p; by eapply produced_offsets|by left].
  - assert (Hev : event_message (db (tables P)) m) by (eapply fl_sent, list_elem_of_lookup_2; eauto).
    destruct (handled_message P m w (clock (tick (tables P))) Hf Hev) as (t & Ht & Hd); [left; eauto|].
    eapply flows_counted; [done|exact Ht|exact Hd|]. intros Hfit. eapply group_step; [exact Hm|by eapply counted_now|].
    eapply group_mono; [|by apply fl_counted]. intros m'. apply counted_message_extends.
    + destruct Hd as [->|[-> _]]; [done|]. apply effect_extends, eff_bumped.
    + destruct Hd as [->|[-> _]]; [done|]. rewrite processed_bumped. set_solver.
  - assert (Hev : event_message (db (tables P)) m) by (eapply fl_sent, list_elem_of_lookup_2; eauto).
    destruct (handled_message P m (run_upto n (AnalyticsService.handle_event payload) (at_log (tables P) [] now)).1 now Hf Hev)
      as (t & Ht & Hd); [right; eauto|].
    eapply flows_counted; [done|exact Ht|exact Hd|]. intros Hfit. eapply group_start; [done|].
    eapply group_mono; [|by apply fl_counted]. intros m'. apply counted_message_extends.
    + destruct Hd as [->|[-> _]]; [done|]. apply effect_extends, eff_bumped.
    + destruct Hd as [->|[-> _]]; [done|]. rewrite processed_bumped. set_solver.
  - apply may_commit_le in Hn. by eapply flows_committed.
  - destruct Hf as [? ? ? ? ? ? Hcnt ?]. split; try done. intros Hfit. eapply group_start; [done|by apply Hcnt].
  - assert (Hev : event_message (db (tables P)) m) by (eapply fl_sent, list_elem_of_lookup_2; eauto).
    destruct (fl_noted _ Hf) as (handled & Hb & Hg).
    destruct (notify_handled _ _ _ _ _ _ _ Hw (fl_ids _ Hf) Hev Hb Hl Hh) as (handled' & Hb' & Hs & Hm').
    eapply flows_notifier; [done..|]. eapply group_step; [done..|]. eapply group_mono; [|exact Hg].
    intros m'. by apply noted_more.
  - apply may_commit_le in Hn. by eapply flows_committed.
  - destruct (fl_noted _ Hf) as (handled & (Hl & Hh & Hs) & Hg). apply (flows_notifier _ _ _ handled); [done| |].
    + split; [done|]. split; [done|]. by intros i ?%elem_of_empty.
    + by eapply group_start.
Qed.
End pipeline.
