(* ===== verification/Migrations.v ===== *)
(** * The database schema and its migrations (alembic/versions, src/app/db/models)

    The schema as data: tables with their columns and constraints, and the
    indexes.  [apply] is what one DDL statement does, [None] when PostgreSQL
    rejects it.  A revision is a file of alembic/versions with its operations
    as written; [metadata] is what the ORM models declare. *)
From S2P Require Import Prelude.

Inductive sql_type :=
  | UUID
  | String_ (length : nat)
  | BigInteger
  | DateTime
  | JSONB
  | Enum (labels : list string) (name : string) (length : nat).

#[export] Instance sql_type_eq_dec : EqDecision sql_type.
Proof. solve_decision. Defined.

Module Column.
Record t := mk {
  type_ : sql_type; nullable : bool; server_default : option string; identity : bool }.

#[global] Instance t_eq_dec : EqDecision t.
Proof. solve_decision. Defined.
End Column.

Inductive constraint :=
  | PrimaryKeyConstraint (columns : list string)
  | ForeignKeyConstraint (column ref_table ref_column ondelete : string)
  | UniqueConstraint (columns : list string) (name : string)
  | CheckConstraint (columns : list string) (sql name : string).

#[export] Instance constraint_eq_dec : EqDecision constraint.
Proof. solve_decision. Defined.

Definition constraint_code (c : constraint) :=
  match c with
  | PrimaryKeyConstraint cs => inl (inl cs)
  | ForeignKeyConstraint c r rc d => inl (inr (c, r, rc, d))
  | UniqueConstraint cs n => inr (inl (cs, n))
  | CheckConstraint cs s n => inr (inr (cs, s, n))
  end.
Definition constraint_decode c : constraint :=
  match c with
  | inl (inl cs) => PrimaryKeyConstraint cs
  | inl (inr (c, r, rc, d)) => ForeignKeyConstraint c r rc d
  | inr (inl (cs, n)) => UniqueConstraint cs n
  | inr (inr (cs, s, n)) => CheckConstraint cs s n
  end.
#[export] Instance constraint_countable : Countable constraint.
Proof. refine (inj_countable' constraint_code constraint_decode _). by intros []. Defined.

Module Table.
Record t := mk { columns : gmap string Column.t; constraints : gset constraint }.

#[global] Instance t_eq_dec : EqDecision t.
Proof. solve_decision. Defined.
End Table.

Module Index.
Record t := mk { table : string; columns : list string; unique : bool; where_ : option string }.

#[global] Instance t_eq_dec : EqDecision t.
Proof. solve_decision. Defined.
End Index.

Record schema := Schema { tables : gmap string Table.t; indexes : gmap string Index.t }.

#[export] Instance schema_eq_dec : EqDecision schema.
Proof. solve_decision. Defined.

Definition empty_schema : schema := Schema ∅ ∅.

(** The columns a constraint is about, and the table it references. *)
Definition constraint_columns (c : constraint) : list string :=
  match c with
  | PrimaryKeyConstraint cs | UniqueConstraint cs _ | CheckConstraint cs _ _ => cs
  | ForeignKeyConstraint c _ _ _ => [c]
  end.

Definition references (c : constraint) : option string :=
  match c with ForeignKeyConstraint _ r _ _ => Some r | _ => None end.

(** ** DDL statements *)
Inductive op :=
  | create_table (name : string) (columns : list (string * Column.t)) (cs : list constraint)
  | drop_table (name : string)
  | add_column (table name : string) (c : Column.t)
  | drop_column (table name : string)
  | create_index (name table : string) (columns : list string) (unique : bool)
      (where_ : option string)
  | drop_index (name : string).

(** A constraint can be put on a table with these columns. *)
Definition constraint_ok (ts : gmap string Table.t) (cols : gmap string Column.t) (c : constraint)
    : Prop :=
  Forall (fun x => is_Some (cols !! x)) (constraint_columns c) /\
  match references c with Some r => is_Some (ts !! r) | None => True end.

#[export] Instance constraint_ok_dec ts cols c : Decision (constraint_ok ts cols c).
Proof. unfold constraint_ok. destruct (references c); apply _. Defined.

Definition references_table (name : string) (t : Table.t) : Prop :=
  set_Exists (fun c => references c = Some name) (Table.constraints t).

(** PostgreSQL refuses what exists already or does not exist yet, and to drop a
    table another one references; a dropped table or column takes its indexes
    and constraints along. *)
Definition apply (o : op) (s : schema) : option schema :=
  match o with
  | create_table name cols cs =>
      let columns := list_to_map cols in
      if decide (tables s !! name = None /\ NoDup cols.*1 /\ Forall (constraint_ok (tables s) columns) cs)
      then Some (Schema (<[name := Table.mk columns (list_to_set cs)]> (tables s)) (indexes s))
      else None
  | drop_table name =>
      if decide (is_Some (tables s !! name) /\
                 map_Forall (fun n t => n = name \/ ~ references_table name t) (tables s))
      then Some (Schema (delete name (tables s)) (filter (fun ni => Index.table ni.2 <> name) (indexes s)))
      else None
  | add_column table name c =>
      match tables s !! table with
      | Some t =>
          if decide (Table.columns t !! name = None)
          then Some (Schema (<[table := Table.mk (<[name := c]> (Table.columns t)) (Table.constraints t)]> (tables s))
                      (indexes s))
          else None
      | None => None
      end
  | drop_column table name =>
      match tables s !! table with
      | Some t =>
          if decide (is_Some (Table.columns t !! name))
          then Some (Schema
                 (<[table := Table.mk (delete name (Table.columns t))
                               (filter (fun c => name ∉ constraint_columns c) (Table.constraints t))]> (tables s))
                 (filter (fun ni => ~ (Index.table ni.2 = table /\ name ∈ Index.columns ni.2)) (indexes s)))
          else None
      | None => None
      end
  | create_index name table cols unique where_ =>
      match tables s !! table with
      | Some t =>
          if decide (indexes s !! name = None /\ Forall (fun x => is_Some (Table.columns t !! x)) cols)
          then Some (Schema (tables s) (<[name := Index.mk table cols unique where_]> (indexes s)))
          else None
      | None => None
      end
  | drop_index name =>
      if decide (is_Some (indexes s !! name)) then Some (Schema (tables s) (delete name (indexes s)))
      else None
  end.

Fixpoint apply_all (os : list op) (s : schema) : option schema :=
  match os with
  | [] => Some s
  | o :: os => s ← apply o s; apply_all os s
  end.

(** ** The revisions *)
Module Revision.
Record t := mk {
  revision : string; down_revision : option string; upgrade : list op; downgrade : list op }.
End Revision.

Definition col (ty : sql_type) : Column.t := Column.mk ty false None false.
Definition null (ty : sql_type) : Column.t := Column.mk ty true None false.
Definition with_default (d : string) (ty : sql_type) : Column.t := Column.mk ty false (Some d) false.

Definition init : Revision.t := Revision.mk "bb91eeb72b09" None [] [].

Definition create_users_table : Revision.t := Revision.mk "03aeff243be4" (Some "bb91eeb72b09")
  [ create_table "users"
      [ ("id", col UUID); ("name", col (String_ 255)); ("email", col (String_ 255));
        ("password_hash", col (String_ 255)); ("created_at", with_default "now()" DateTime) ]
      [ PrimaryKeyConstraint ["id"] ];
    create_index "ix_users_email" "users" ["email"] true None ]
  [ drop_index "ix_users_email"; drop_table "users" ].

Definition create_wallets_table : Revision.t := Revision.mk "ace04db20b32" (Some "03aeff243be4")
  [ create_table "wallets"
      [ ("id", col UUID); ("user_id", col UUID); ("currency", col (String_ 3));
        ("available_balance", with_default "0" BigInteger);
        ("locked_balance", with_default "0" BigInteger);
        ("created_at", with_default "now()" DateTime); ("updated_at", with_default "now()" DateTime) ]
      [ CheckConstraint ["available_balance"] "available_balance >= 0" "ck_wallet_available_nonneg";
        CheckConstraint ["locked_balance"] "locked_balance >= 0" "ck_wallet_locked_nonneg";
        ForeignKeyConstraint "user_id" "users" "id" "CASCADE";
        PrimaryKeyConstraint ["id"];
        UniqueConstraint ["user_id"; "currency"] "uq_wallet_user_currency" ];
    create_index "ix_wallets_user_id" "wallets" ["user_id"] false None ]
  [ drop_index "ix_wallets_user_id"; drop_table "wallets" ].

Definition transaction_type : sql_type :=
  Enum ["DEPOSIT"; "TRANSFER"; "WITHDRAWAL"] "transaction_type" 20.
Definition transaction_status : sql_type :=
  Enum ["PENDING"; "COMPLETED"; "FAILED"] "transaction_status" 20.
Definition entry_type : sql_type := Enum ["CREDIT"; "DEBIT"] "entry_type" 10.

Definition exactly_one_side_sql : string :=
  "(wallet_id IS NOT NULL)::int + (system_account IS NOT NULL)::int = 1".

Definition create_transactions_and_ledger_entries : Revision.t :=
  Revision.mk "c3f9a1d72b40" (Some "ace04db20b32")
  [ create_table "transactions"
      [ ("id", col UUID); ("type", col transaction_type); ("status", col transaction_status);
        ("currency", col (String_ 3)); ("created_at", with_default "now()" DateTime) ]
      [ PrimaryKeyConstraint ["id"] ];
    create_table "ledger_entries"
      [ ("id", col UUID); ("transaction_id", col UUID); ("entry_type", col entry_type);
        ("amount", col BigInteger); ("currency", col (String_ 3)); ("wallet_id", null UUID);
        ("system_account", null (String_ 50)); ("created_at", with_default "now()" DateTime) ]
      [ CheckConstraint ["amount"] "amount > 0" "ck_ledger_amount_positive";
        CheckConstraint ["wallet_id"; "system_account"] exactly_one_side_sql "ck_ledger_exactly_one_side";
        ForeignKeyConstraint "transaction_id" "transactions" "id" "RESTRICT";
        ForeignKeyConstraint "wallet_id" "wallets" "id" "RESTRICT";
        PrimaryKeyConstraint ["id"] ];
    create_index "ix_ledger_entries_transaction_id" "ledger_entries" ["transaction_id"] false None;
    create_index "ix_ledger_entries_wallet_id" "ledger_entries" ["wallet_id"] false None ]
  [ drop_index "ix_ledger_entries_wallet_id"; drop_index "ix_ledger_entries_transaction_id";
    drop_table "ledger_entries"; drop_table "transactions" ].

Definition add_idempotency_key_to_transactions : Revision.t :=
  Revision.mk "a7b8c9d0e1f2" (Some "c3f9a1d72b40")
  [ add_column "transactions" "idempotency_key" (null (String_ 255));
    create_index "ix_transactions_idempotency_key" "transactions" ["idempotency_key"] true None ]
  [ drop_index "ix_transactions_idempotency_key"; drop_column "transactions" "idempotency_key" ].

Definition create_outbox_events_table : Revision.t :=
  Revision.mk "b8c9d0e1f2a3" (Some "a7b8c9d0e1f2")
  [ create_table "outbox_events"
      [ ("id", col UUID); ("aggregate_type", col (String_ 50)); ("aggregate_id", col UUID);
        ("event_type", col (String_ 100)); ("payload", col JSONB);
        ("created_at", with_default "now()" DateTime); ("published_at", null DateTime) ]
      [ PrimaryKeyConstraint ["id"] ];
    create_index "ix_outbox_events_aggregate_id" "outbox_events" ["aggregate_id"] false None;
    create_index "ix_outbox_unpublished" "outbox_events" ["created_at"] false
      (Some "published_at IS NULL") ]
  [ drop_index "ix_outbox_unpublished"; drop_index "ix_outbox_events_aggregate_id";
    drop_table "outbox_events" ].

Definition create_analytics_and_processed_events : Revision.t :=
  Revision.mk "d0e1f2a3b4c5" (Some "b8c9d0e1f2a3")
  [ create_table "transaction_stats"
      [ ("currency", col (String_ 3)); ("type", col (String_ 20));
        ("count", with_default "0" BigInteger); ("total_amount", with_default "0" BigInteger);
        ("updated_at", with_default "now()" DateTime) ]
      [ PrimaryKeyConstraint ["currency"; "type"] ];
    create_table "processed_events"
      [ ("consumer", col (String_ 50)); ("transaction_id", col UUID);
        ("processed_at", with_default "now()" DateTime) ]
      [ PrimaryKeyConstraint ["consumer"; "transaction_id"] ] ]
  [ drop_table "processed_events"; drop_table "transaction_stats" ].

Definition add_seq_to_ledger_entries : Revision.t :=
  Revision.mk "e1f2a3b4c5d6" (Some "d0e1f2a3b4c5")
  [ add_column "ledger_entries" "seq" (Column.mk BigInteger false None true);
    create_index "ix_ledger_entries_seq" "ledger_entries" ["seq"] false None ]
  [ drop_index "ix_ledger_entries_seq"; drop_column "ledger_entries" "seq" ].

(** The files of the directory, by name. *)
Definition versions : list Revision.t :=
  [ create_users_table; add_idempotency_key_to_transactions; create_wallets_table;
    create_outbox_events_table; init; create_transactions_and_ledger_entries;
    create_analytics_and_processed_events; add_seq_to_ledger_entries ].

(** [alembic upgrade head]: from a revision on, the one that follows it, if it
    is the only one, and so forth. *)
Definition successors (vs : list Revision.t) (at_ : option string) : list Revision.t :=
  filter (fun r => Revision.down_revision r = at_) vs.

Fixpoint path (fuel : nat) (vs : list Revision.t) (at_ : option string) : option (list Revision.t) :=
  match successors vs at_ with
  | [] => Some []
  | [r] =>
      match fuel with
      | 0 => None   (* the links run in a circle *)
      | S fuel => rs ← path fuel vs (Some (Revision.revision r)); Some (r :: rs)
      end
  | _ => None   (* several heads *)
  end.

Definition history (vs : list Revision.t) : option (list Revision.t) := path (length vs) vs None.

Definition upgrade_head (vs : list Revision.t) (s : schema) : option schema :=
  rs ← history vs; apply_all (concat (Revision.upgrade <$> rs)) s.

(** [alembic downgrade base] *)
Definition downgrade_base (vs : list Revision.t) (s : schema) : option schema :=
  rs ← history vs; apply_all (concat (Revision.downgrade <$> reverse rs)) s.

(** ** What the models declare ([Base.metadata]) *)

(** [mapped_column(...)] *)
Record mapped_column := Mapped {
  mc_name : string; mc_column : Column.t; mc_primary_key : bool; mc_unique : bool; mc_index : bool;
  mc_foreign_key : option (string * string * string) }.

Definition plain (name : string) (c : Column.t) : mapped_column := Mapped name c false false false None.
Definition primary (name : string) (ty : sql_type) : mapped_column :=
  Mapped name (col ty) true false false None.
Definition indexed (name : string) (c : Column.t) : mapped_column := Mapped name c false false true None.
Definition unique_indexed (name : string) (c : Column.t) : mapped_column :=
  Mapped name c false true true None.
Definition foreign (name : string) (c : Column.t) (table ref ondelete : string) : mapped_column :=
  Mapped name c false false true (Some (table, ref, ondelete)).

Module Model.
Record t := mk {
  tablename : string; columns : list mapped_column; table_args : list constraint;
  more_indexes : list (string * Index.t) }.

Definition table (m : t) : Table.t :=
  Table.mk (list_to_map ((fun c => (mc_name c, mc_column c)) <$> columns m))
    (list_to_set (PrimaryKeyConstraint (mc_name <$> filter (fun c => mc_primary_key c = true) (columns m))
       :: omap (fun c => match mc_foreign_key c with
                         | Some (t, r, d) => Some (ForeignKeyConstraint (mc_name c) t r d)
                         | None => None
                         end) (columns m)
       ++ table_args m)).

(** [index=True]: [ix_<table>_<column>], unique with [unique=True]. *)
Definition indexes (m : t) : list (string * Index.t) :=
  ((fun c => ("ix_" +:+ tablename m +:+ "_" +:+ mc_name c,
              Index.mk (tablename m) [mc_name c] (mc_unique c) None))
     <$> filter (fun c => mc_index c = true) (columns m)) ++ more_indexes m.
End Model.

Definition User_model : Model.t := Model.mk "users"
  [ primary "id" UUID; plain "name" (col (String_ 255)); unique_indexed "email" (col (String_ 255));
    plain "password_hash" (col (String_ 255)); plain "created_at" (with_default "now()" DateTime) ]
  [] [].

Definition Wallet_model : Model.t := Model.mk "wallets"
  [ primary "id" UUID; foreign "user_id" (col UUID) "users" "id" "CASCADE";
    plain "currency" (col (String_ 3));
    plain "available_balance" (with_default "0" BigInteger);
    plain "locked_balance" (with_default "0" BigInteger);
    plain "created_at" (with_default "now()" DateTime); plain "updated_at" (with_default "now()" DateTime) ]
  [ UniqueConstraint ["user_id"; "currency"] "uq_wallet_user_currency";
    CheckConstraint ["available_balance"] "available_balance >= 0" "ck_wallet_available_nonneg";
    CheckConstraint ["locked_balance"] "locked_balance >= 0" "ck_wallet_locked_nonneg" ] [].

Definition Transaction_model : Model.t := Model.mk "transactions"
  [ primary "id" UUID; plain "type" (col transaction_type); plain "status" (col transaction_status);
    plain "currency" (col (String_ 3)); unique_indexed "idempotency_key" (null (String_ 255));
    plain "created_at" (with_default "now()" DateTime) ] [] [].

Definition LedgerEntry_model : Model.t := Model.mk "ledger_entries"
  [ primary "id" UUID; indexed "seq" (Column.mk BigInteger false None true);
    foreign "transaction_id" (col UUID) "transactions" "id" "RESTRICT";
    plain "entry_type" (col entry_type); plain "amount" (col BigInteger);
    plain "currency" (col (String_ 3)); foreign "wallet_id" (null UUID) "wallets" "id" "RESTRICT";
    plain "system_account" (null (String_ 50)); plain "created_at" (with_default "now()" DateTime) ]
  [ CheckConstraint ["amount"] "amount > 0" "ck_ledger_amount_positive";
    CheckConstraint ["wallet_id"; "system_account"] exactly_one_side_sql "ck_ledger_exactly_one_side" ] [].

Definition OutboxEvent_model : Model.t := Model.mk "outbox_events"
  [ primary "id" UUID; plain "aggregate_type" (col (String_ 50)); indexed "aggregate_id" (col UUID);
    plain "event_type" (col (String_ 100)); plain "payload" (col JSONB);
    plain "created_at" (with_default "now()" DateTime); plain "published_at" (null DateTime) ]
  [] [ ("ix_outbox_unpublished",
        Index.mk "outbox_events" ["created_at"] false (Some "published_at IS NULL")) ].

Definition TransactionStat_model : Model.t := Model.mk "transaction_stats"
  [ primary "currency" (String_ 3); primary "type" (String_ 20);
    plain "count" (with_default "0" BigInteger); plain "total_amount" (with_default "0" BigInteger);
    plain "updated_at" (with_default "now()" DateTime) ] [] [].

Definition ProcessedEvent_model : Model.t := Model.mk "processed_events"
  [ primary "consumer" (String_ 50); primary "transaction_id" UUID;
    plain "processed_at" (with_default "now()" DateTime) ] [] [].

(** The registry of db/models/__init__.py. *)
Definition models : list Model.t :=
  [ User_model; Wallet_model; Transaction_model; LedgerEntry_model; OutboxEvent_model;
    TransactionStat_model; ProcessedEvent_model ].

Definition metadata : schema :=
  Schema (list_to_map ((fun m => (Model.tablename m, Model.table m)) <$> models))
    (list_to_map (concat (Model.indexes <$> models))).
