(* ===== verification/Cache.v ===== *)
(** * Balance cache (src/app/cache/redis_cache.py)

    [BalanceCache] is duck-typed over its client: the class [RedisClient], whose
    operations may raise.  The documented behaviour of a client that works is
    the class [RedisLaws]. *)
From S2P Require Import Prelude PyValues Schema Publisher.

(** [None] / [false]: the client raised. *)
Class RedisClient (C : Type) := {
  client_get : string -> C -> option (option string);
  client_setex : string -> Z -> string -> C -> bool * C;
  client_delete : list string -> C -> bool * C }.

Module BalanceCache.
Section cache.
Context {C : Type} `{RedisClient C} `{JsonCodec}.

Definition default_ttl : Z := 30.

Definition _key (wallet_id : uuid) : string := "wallet:balance:" +:+ uuid_str wallet_id.

(** A client that raises, an empty value and an unreadable one are misses. *)
Definition get (wallet_id : uuid) (c : C) : option dict :=
  match client_get (_key wallet_id) c with
  | None => None
  | Some raw => match truthy raw with Some text => json_loads text | None => None end
  end.

Definition set (ttl_seconds : Z) (wallet_id : uuid) (payload : dict) (c : C) : C :=
  (client_setex (_key wallet_id) ttl_seconds (json_dumps payload) c).2.

Definition keys (wallet_ids : list (option uuid)) : list string :=
  omap (fun w => _key <$> w) wallet_ids.

Definition invalidate (wallet_ids : list (option uuid)) (c : C) : C :=
  match keys wallet_ids with
  | [] => c
  | ks => (client_delete ks c).2
  end.
End cache.
End BalanceCache.

(** What a client may do to the keys it is not asked about - expire them - and
    to those it is: hold the value or not, and, while it works, drop them. *)
Class RedisLaws (C : Type) `{RedisClient C} (works : C -> Prop) := {
  works_setex : forall k ttl v c, works c -> works (client_setex k ttl v c).2;
  works_delete : forall ks c, works c -> works (client_delete ks c).2;
  get_setex : forall k ttl v c raw, client_get k (client_setex k ttl v c).2 = Some (Some raw) ->
    raw = v \/ client_get k c = Some (Some raw);
  get_setex_ne : forall k k' ttl v c raw, k <> k' ->
    client_get k' (client_setex k ttl v c).2 = Some (Some raw) -> client_get k' c = Some (Some raw);
  get_delete : forall ks k c raw, works c -> k ∈ ks ->
    client_get k (client_delete ks c).2 <> Some (Some raw);
  get_delete_other : forall ks k c raw,
    client_get k (client_delete ks c).2 = Some (Some raw) -> client_get k c = Some (Some raw) }.

Section facts.
Context {C : Type} `{RedisClient C} `{JsonCodec} (works : C -> Prop) `{!RedisLaws C works}.

Lemma key_inj i j : (i < uuid_bound)%N -> (j < uuid_bound)%N ->
  BalanceCache._key i = BalanceCache._key j -> i = j.
Proof.
  intros Hi Hj He. unfold BalanceCache._key in He. apply (inj (String.append "wallet:balance:")) in He.
  by apply uuid_str_inj.
Qed.

Lemma get_raw i (c : C) p : BalanceCache.get i c = Some p <->
  exists raw, client_get (BalanceCache._key i) c = Some (Some raw) /\ raw <> "" /\
    json_loads raw = Some p.
Proof.
  unfold BalanceCache.get. destruct (client_get _ c) as [[raw|]|].
  - destruct (truthy (Some raw)) as [t|] eqn:E.
    + apply truthy_Some in E as [Hr Hne]. injection Hr as ->. split; [eauto|].
      intros (raw2 & Hr2 & _ & Hj). by injection Hr2 as <-.
    + split; [done|]. intros (raw2 & Hr2 & Hne & _). injection Hr2 as <-.
      assert (truthy (Some raw) = Some raw) as E2 by by apply truthy_Some. congruence.
  - split; [done|]. by intros (raw2 & ? & _).
  - split; [done|]. by intros (raw2 & ? & _).
Qed.

(** An entry after [set] is the payload just set, or was there before. *)
Lemma get_after_set ttl i j payload (c : C) p : (i < uuid_bound)%N -> (j < uuid_bound)%N ->
  BalanceCache.get j (BalanceCache.set ttl i payload c) = Some p ->
  (i = j /\ p = payload) \/ BalanceCache.get j c = Some p.
Proof using All.
  intros Hi Hj (raw & Hraw & Hne & Hp)%get_raw. unfold BalanceCache.set in Hraw.
  destruct (decide (i = j)) as [<-|Hij].
  - apply get_setex in Hraw as [->|Hraw].
    + rewrite loads_dumps in Hp. left. split; congruence.
    + right. apply get_raw. eauto.
  - apply get_setex_ne in Hraw; [|by intros ?%key_inj]. right. apply get_raw. eauto.
Qed.

(** A working client forgets what it is told to invalidate, and makes nothing up. *)
Lemma get_after_invalidate ids j (c : C) p :
  BalanceCache.get j (BalanceCache.invalidate ids c) = Some p ->
  BalanceCache.get j c = Some p /\ (works c -> Some j ∉ ids).
Proof using All.
  intros (raw & Hraw & Hne & Hp)%get_raw. unfold BalanceCache.invalidate in Hraw.
  destruct (BalanceCache.keys ids) as [|k ks] eqn:Ek.
  - split; [apply get_raw; eauto|]. intros _ Hin.
    assert (BalanceCache._key j ∈ BalanceCache.keys ids) as Hk.
    { unfold BalanceCache.keys. apply list_elem_of_omap. exists (Some j). by split. }
    rewrite Ek in Hk. by apply elem_of_nil in Hk.
  - split; [apply get_raw; exists raw; eauto using get_delete_other|].
    intros Hworks Hin. apply (get_delete (k :: ks) (BalanceCache._key j) c raw Hworks); [|done].
    rewrite <- Ek. unfold BalanceCache.keys. apply list_elem_of_omap. exists (Some j). by split.
Qed.

Lemma invalidate_works ids (c : C) : works c -> works (BalanceCache.invalidate ids c).
Proof using All.
  intros Hc. unfold BalanceCache.invalidate. destruct (BalanceCache.keys ids); [done|].
  by apply works_delete.
Qed.

Lemma set_works ttl i p (c : C) : works c -> works (BalanceCache.set ttl i p c).
Proof using All. apply works_setex. Qed.
End facts.
