(* ===== verification/Observability.v ===== *)
(** * Logging, metrics and the request middleware

    core/logging.py, core/metrics.py and api/middleware.py: log records become
    JSON lines with the request id of the context they are written in; the
    middleware sets that id, counts what is answered and writes the access
    line.  The clock's floats are read as integers, and the rounding of a
    duration is a parameter. *)
From S2P Require Import Prelude PyValues Session Publisher.

(** [None], [""] and [0] are falsy. *)
Definition truthy_json (v : option json) : option json :=
  match v with
  | Some (JStr EmptyString) | Some (JInt 0) | Some JNull | None => None
  | Some v => Some v
  end.

Module Logging.
(** A [logging.LogRecord]; [attributes] are those that [extra=] has set. *)
Record LogRecord := mkRecord {
  created : Z; levelno : Z; levelname : string; name : string; message : string;
  attributes : dict; exc_info : option string }.

Definition INFO : Z := 20.
Definition _EXTRA_FIELDS : list string := ["method"; "path"; "status"; "duration_ms"].

(** [payload["..."] = ...] for the attributes that are there. *)
Definition add_extra (record : LogRecord) (payload : dict) (field : string) : dict :=
  match attributes record !! field with
  | Some v => <[field := v]> payload
  | None => payload
  end.

(** [JsonFormatter.format], up to the final [json.dumps]. *)
Definition format (format_time : Z -> string) (request_id_var : option string) (record : LogRecord) : dict :=
  let payload := list_to_map [
    ("ts", JStr (format_time (created record)));
    ("level", JStr (levelname record));
    ("logger", JStr (name record));
    ("message", JStr (message record)) ] in
  let request_id :=
    match truthy_json (attributes record !! "request_id") with
    | Some v => Some v
    | None => JStr <$> truthy request_id_var
    end in
  let payload := match request_id with Some v => <["request_id" := v]> payload | None => payload end in
  let payload := foldl (add_extra record) payload _EXTRA_FIELDS in
  match exc_info record with
  | Some text => <["exc_info" := JStr text]> payload
  | None => payload
  end.

(** The root logger: whether each handler formats as JSON, and the level; and
    the module's flag. *)
Record config := mkConfig { _configured : bool; handlers : list bool; level : Z }.

(** Before anything is configured: no handler, WARNING. *)
Definition unconfigured : config := mkConfig false [] 30.

Definition configure_logging (lvl : Z) (c : config) : config :=
  if _configured c then c else mkConfig true [true] lvl.
End Logging.

(** ** What a process shows of itself *)
Record telemetry := mkTelemetry {
  request_count : gmap (string * string * Z) nat;      (* http_requests_total *)
  request_latency : gmap (string * string) (list Z);   (* http_request_duration_seconds *)
  log_lines : list string }.

Section observe.
Context `{JsonCodec} (format_time : Z -> string).

(** [log.info(...)]: one line per JSON handler, if the level lets it through. *)
Definition emit (c : Logging.config) (request_id_var : option string) (r : Logging.LogRecord)
    (t : telemetry) : telemetry :=
  if (Logging.level c <=? Logging.levelno r)%Z then
    mkTelemetry (request_count t) (request_latency t)
      (log_lines t ++ ((fun _ => json_dumps (Logging.format format_time request_id_var r))
                         <$> filter (fun h => h = true) (Logging.handlers c)))
  else t.

Definition count_request (method path : string) (status : Z) (t : telemetry) : telemetry :=
  mkTelemetry (partial_alter (fun n => Some (S (default 0 n))) (method, path, status) (request_count t))
    (request_latency t) (log_lines t).

Definition observe_latency (method path : string) (duration : Z) (t : telemetry) : telemetry :=
  mkTelemetry (request_count t)
    (partial_alter (fun ds => Some (default [] ds ++ [duration])) (method, path) (request_latency t))
    (log_lines t).
End observe.

Record Request := mkRequest {
  rq_method : string; rq_url_path : string;
  rq_request_id : option string }.         (* the inbound X-Request-ID header *)
Record Response := mkResponse { rs_status : Z; rs_headers : gmap string string }.

Definition REQUEST_ID_HEADER : string := "X-Request-ID".

(** [uuid.uuid4().hex] *)
Definition uuid_hex (u : uuid) : string := String.string_of_list_ascii (hex_of 32 u).

Module ObservabilityMiddleware.
Section middleware.
Context `{JsonCodec} (format_time : Z -> string) (duration_ms : Z -> json).

(** What lies behind the middleware: it runs in a task of its own, with a copy
    of the context it is given; the path of the route it has matched. *)
Definition endpoint : Type := option string -> telemetry -> (exn + Response) * option string * telemetry.

(** [dispatch], with the id [uuid4] would draw and the readings of the clock. *)
Definition dispatch (c : Logging.config) (request : Request) (call_next : endpoint) (fresh : uuid)
    (started stopped : Z) (request_id_var : option string) (t : telemetry)
    : (exn + Response) * option string * telemetry :=
  let request_id := default (uuid_hex fresh) (truthy (rq_request_id request)) in
  let '(outcome, route_path, t) := call_next (Some request_id) t in
  (* request_id_var.reset(token), in any case *)
  match outcome with
  | inl e => (inl e, request_id_var, t)
  | inr response =>
      let duration := (stopped - started)%Z in
      let path := default (rq_url_path request) route_path in
      let t :=
        if decide (path <> "/metrics") then
          emit format_time c request_id_var
            (Logging.mkRecord stopped Logging.INFO "INFO" "app.access" "request"
               (list_to_map [("method", JStr (rq_method request)); ("path", JStr path);
                  ("status", JInt (rs_status response)); ("duration_ms", duration_ms duration)]) None)
            (observe_latency (rq_method request) path duration
               (count_request (rq_method request) path (rs_status response) t))
        else t in
      (inr (mkResponse (rs_status response) (<[REQUEST_ID_HEADER := request_id]> (rs_headers response))),
       request_id_var, t)
  end.
End middleware.
End ObservabilityMiddleware.

(** ** The probes of main.py *)
Definition health : string * string := ("status", "ok").

(** [readiness]: the status code and the [db] field of the body. *)
Definition readiness : prog (Z * string) :=
  try_except (call (Query (fun _ => tt));; mret (200%Z, "ok")) (fun _ => Some (mret (503%Z, "down"))).
