(* ===== verification/Api.v ===== *)
(** * HTTP routes (src/app/api)

    A request is served on a session of its own, closed at the end.  A route
    runs its dependencies (the current user), validates its body, calls the
    service inside [try], maps the exceptions it names to HTTP errors and, when
    balances moved, busts the cache.  An exception no one catches is the
    framework's 500. *)
From S2P Require Import Prelude PyValues Schema Session Requests Repositories LedgerService.
From S2P Require Import Security AccountServices Publisher Cache.

Inductive response (A : Type) : Type :=
  | Reply (body : A)
  | HTTPError (status : Z) (detail : string)
  | ServerError (e : exn).
Arguments Reply {A} body.
Arguments HTTPError {A} status detail.
Arguments ServerError {A} e.

(** More response bodies (src/app/schemas). *)
Module UserRead.
Record t := mk { id : uuid; name : string; email : string; created_at : Z }.

(** [response_model=UserRead]: the address is validated once more. *)
Definition of_row `{EmailValidator} (u : User.row) : response t :=
  match email_str (User.email u) with
  | Some e => Reply (mk (User.id u) (User.name u) e (User.created_at u))
  | None => ServerError ValueError
  end.
End UserRead.

Module WalletRead.
Record t := mk {
  id : uuid; user_id : uuid; currency : string; available_balance : Z; locked_balance : Z;
  created_at : Z }.
Definition of_row (w : Wallet.row) : t :=
  mk (Wallet.id w) (Wallet.user_id w) (Wallet.currency w) (Wallet.available_balance w)
    (Wallet.locked_balance w) (Wallet.created_at w).
End WalletRead.

Module TransactionHistory.
Record t := mk { items : list HistoryItem.t; limit : nat; offset : nat }.
End TransactionHistory.

Module Token.
Record t := mk { access_token : string; token_type : string }.
End Token.

Section api.
Context `{Env} `{Crypto} `{JsonCodec} {C : Type} `{RedisClient C}.
Variable st : Settings.t.

(** [get_db]: a session per request; closing it discards what was not committed. *)
Definition serve {A} (p : prog (response A)) (w : World) : response A * World :=
  let '(r, s) := run p (w, fresh_local (clock (tick w))) in
  (match r with inl e => ServerError e | inr resp => resp end, s.1).

(** [current_user: User = Depends(get_current_user)] *)
Definition authenticated {A} (token : string) (route : User.row -> prog (response A))
    : prog (response A) :=
  now ← call Now;
  user ← get_current_user st now token;
  match user with
  | None => mret (HTTPError 401 "Could not validate credentials")
  | Some u => route u
  end.

(** A body that fails its [Field] constraints. *)
Definition validated {A} (valid : bool) (route : prog (response A)) : prog (response A) :=
  if valid then route else mret (HTTPError 422 "").

(** [try: ... except ...: raise HTTPException(...)] *)
Definition http {A} (p : prog A) (errors : exn -> option (Z * string)) : prog (response A) :=
  try_except (a ← p; mret (Reply a))
    (fun e => match errors e with
              | Some (status, detail) => Some (mret (HTTPError status detail))
              | None => None
              end).

Definition map_reply {A B} (f : A -> response B) (r : response A) : response B :=
  match r with
  | Reply a => f a
  | HTTPError status detail => HTTPError status detail
  | ServerError e => ServerError e
  end.

(** *** api/routes/users.py and auth.py *)
Definition register_user `{EmailValidator} (data : UserCreate.t) : prog (response UserRead.t) :=
  match UserCreate.parse data with
  | None => mret (HTTPError 422 "")
  | Some data =>
      r ← http (UserService.register data)
            (fun e => match e with
                      | EmailAlreadyExistsError _ => Some (409%Z, "A user with this email already exists")
                      | _ => None
                      end);
      mret (map_reply UserRead.of_row r)
  end.

Definition read_me `{EmailValidator} (token : string) : prog (response UserRead.t) :=
  authenticated token (fun u => mret (UserRead.of_row u)).

Definition login (username password : string) : prog (response Token.t) :=
  user ← UserService.authenticate username password;
  match user with
  | None => mret (HTTPError 401 "Incorrect email or password")
  | Some u =>
      now ← call Now;
      mret (Reply (Token.mk (create_access_token st now (uuid_str (User.id u)) None) "bearer"))
  end.

(** *** api/routes/wallets.py *)
Definition create_wallet (token : string) (data : WalletCreate.t) : prog (response WalletRead.t) :=
  authenticated token (fun u => validated (WalletCreate.valid data)
    (http (w ← WalletService.create_wallet (User.id u) data; mret (WalletRead.of_row w))
       (fun e => match e with
                 | WalletAlreadyExistsError _ =>
                     Some (409%Z, "You already have a wallet in this currency.")
                 | _ => None
                 end))).

Definition not_found (e : exn) : option (Z * string) :=
  match e with
  | WalletNotFoundError _ | WalletAccessDeniedError _ => Some (404%Z, "Wallet not found.")
  | _ => None
  end.

(** What [get_balance] puts into the cache. *)
Definition balance_payload (w : Wallet.row) : dict :=
  list_to_map [
    ("id", JStr (uuid_str (Wallet.id w)));
    ("user_id", JStr (uuid_str (Wallet.user_id w)));
    ("currency", JStr (Wallet.currency w));
    ("available_balance", JInt (Wallet.available_balance w));
    ("locked_balance", JInt (Wallet.locked_balance w));
    ("updated_at", JStr (isoformat (Wallet.updated_at w))) ].

Definition balance_of_row (w : Wallet.row) : BalanceRead.t :=
  BalanceRead.mk (Wallet.id w) (Wallet.currency w) (Wallet.available_balance w)
    (Wallet.locked_balance w) (isoformat (Wallet.updated_at w)).

(** [BalanceRead(id=cached["id"], ...)]: a missing key is a KeyError, a value
    of the wrong type pydantic's ValidationError, a ValueError. *)
Definition balance_of_cached (p : dict) : response BalanceRead.t :=
  match p !! "id", p !! "currency", p !! "available_balance", p !! "locked_balance",
        p !! "updated_at" with
  | Some i, Some cur, Some a, Some l, Some u =>
      match i, cur, a, l, u with
      | JStr i, JStr cur, JInt a, JInt l, JStr u =>
          match uuid_parse i with
          | Some i => Reply (BalanceRead.mk i cur a l u)
          | None => ServerError ValueError
          end
      | _, _, _, _, _ => ServerError ValueError
      end
  | _, _, _, _, _ => ServerError KeyError
  end.

(** A cache hit is checked against the requester without the database. *)
Definition balance_hit (u : User.row) (p : dict) : response BalanceRead.t :=
  match p !! "user_id" with
  | None => ServerError KeyError
  | Some owner =>
      if decide (owner = JStr (uuid_str (User.id u))) then balance_of_cached p
      else HTTPError 404 "Wallet not found."
  end.

Definition get_balance (token : string) (wallet_id : uuid) (wc : World * C)
    : response BalanceRead.t * (World * C) :=
  let '(w, c) := wc in
  let '(r, w') := serve (authenticated token (fun u =>
    match BalanceCache.get wallet_id c with
    | Some p => mret (map_reply (fun b => Reply (inl b)) (balance_hit u p))
    | None =>
        http (r ← WalletService.get_balance wallet_id (User.id u); mret (inr r)) not_found
    end)) w in
  match r with
  | Reply (inr row) =>
      (Reply (balance_of_row row),
       (w', BalanceCache.set BalanceCache.default_ttl wallet_id (balance_payload row) c))
  | Reply (inl b) => (Reply b, (w', c))
  | HTTPError status detail => (HTTPError status detail, (w', c))
  | ServerError e => (ServerError e, (w', c))
  end.

Definition history_item (e : LedgerEntry.row) : HistoryItem.t :=
  HistoryItem.mk (LedgerEntry.transaction_id e) (entry_value (LedgerEntry.entry_type e))
    (LedgerEntry.amount e) (LedgerEntry.currency e) (LedgerEntry.created_at e).

Definition list_transactions (token : string) (wallet_id : uuid) (limit offset : nat)
    : prog (response TransactionHistory.t) :=
  authenticated token (fun u => validated ((1 <=? limit) && (limit <=? 100)) (
    wallet ← WalletRepository.get_by_id wallet_id;
    match wallet with
    | None => mret (HTTPError 404 "Wallet not found.")
    | Some r =>
        if decide (Wallet.user_id r <> User.id u) then mret (HTTPError 404 "Wallet not found.")
        else
          entries ← LedgerRepository.get_entries_for_wallet wallet_id limit offset;
          mret (Reply (TransactionHistory.mk (history_item <$> entries) limit offset))
    end)).

(** The cache is busted once the service returned, before the reply is built. *)
Definition busting {A B} (p : prog (response A)) (ids : list (option uuid)) (f : A -> response B)
    (wc : World * C) : response B * (World * C) :=
  let '(w, c) := wc in
  let '(r, w') := serve p w in
  (map_reply f r, (w', match r with Reply _ => BalanceCache.invalidate ids c | _ => c end)).

Definition deposit_errors (e : exn) : option (Z * string) :=
  match e with
  | CurrencyMismatchError _ => Some (409%Z, "Deposit currency does not match the wallet.")
  | _ => not_found e
  end.

Definition post_deposit (token : string) (wallet_id : uuid) (data : DepositRequest.t)
    : World * C -> response DepositResponse.t * (World * C) :=
  busting (authenticated token (fun u => validated (DepositRequest.valid data)
             (http (deposit wallet_id (User.id u) data) deposit_errors)))
    [Some wallet_id]
    (fun tw => Reply (DepositResponse.mk (Transaction.id tw.1) (Wallet.available_balance tw.2)
                        (Wallet.currency tw.2))).

Definition transfer_errors (e : exn) : option (Z * string) :=
  match e with
  | RecipientNotFoundError _ => Some (404%Z, "Recipient wallet not found.")
  | CurrencyMismatchError _ => Some (409%Z, "Sender and recipient currencies must match.")
  | SameWalletTransferError _ => Some (422%Z, "Cannot transfer to the same wallet.")
  | InsufficientFundsError _ => Some (422%Z, "Insufficient funds.")
  | _ => not_found e
  end.

(** [sender.available_balance] of a wallet that is [None] raises. *)
Definition move_response (tw : Transaction.row * option Wallet.row) : response MoveResponse.t :=
  match tw.2 with
  | None => ServerError AttributeError
  | Some w =>
      Reply (MoveResponse.mk (Transaction.id tw.1) (status_value (Transaction.status tw.1))
               (Wallet.available_balance w) (Wallet.currency w))
  end.

Definition post_transfer (token : string) (wallet_id : uuid) (data : TransferRequest.t)
    (idempotency_key : option string) : World * C -> response MoveResponse.t * (World * C) :=
  busting (authenticated token (fun u => validated (TransferRequest.valid data)
             (http (transfer wallet_id (User.id u) data idempotency_key) transfer_errors)))
    [Some wallet_id; Some (TransferRequest.recipient_wallet_id data)] move_response.

Definition withdraw_errors (e : exn) : option (Z * string) :=
  match e with
  | CurrencyMismatchError _ => Some (409%Z, "Withdrawal currency does not match the wallet.")
  | InsufficientFundsError _ => Some (422%Z, "Insufficient funds.")
  | _ => not_found e
  end.

Definition post_withdraw (token : string) (wallet_id : uuid) (data : WithdrawalRequest.t)
    (idempotency_key : option string) : World * C -> response MoveResponse.t * (World * C) :=
  busting (authenticated token (fun u => validated (WithdrawalRequest.valid data)
             (http (withdraw wallet_id (User.id u) data idempotency_key) withdraw_errors)))
    [Some wallet_id] move_response.
End api.
