(* ===== verification/App.v ===== *)
(** * The application (src/app/main.py)

    The routers with their paths, methods and status codes, put together under
    /api/v1 beside the two probes; what becomes of a request on its way through
    the middleware and the route that matches.  FastAPI itself - matching a path
    with the routes, reading header, query and body fields - is the class
    [WebFramework]; so are the pages it adds and the mounted Prometheus app. *)
From S2P Require Import Prelude PyValues Schema Session Requests Repositories LedgerService.
From S2P Require Import Security AccountServices Publisher Cache Observability Api.

(** ** Routes *)
Inductive handler :=
  | Login | RegisterUser | ReadMe | CreateWallet | GetBalance | ListTransactions
  | PostDeposit | PostTransfer | PostWithdraw | Health | Readiness.

#[export] Instance handler_eq_dec : EqDecision handler.
Proof. solve_decision. Defined.

Record route := mkRoute { rt_method : string; rt_path : string; rt_handler : handler; rt_status : Z }.

(** [APIRouter(prefix=...)], [app.include_router(router, prefix=...)] *)
Definition prefixed (prefix : string) (rs : list route) : list route :=
  (fun r => mkRoute (rt_method r) (prefix +:+ rt_path r) (rt_handler r) (rt_status r)) <$> rs.

Definition auth_router : list route := prefixed "/auth" [mkRoute "POST" "/login" Login 200].

Definition users_router : list route := prefixed "/users"
  [mkRoute "POST" "" RegisterUser 201; mkRoute "GET" "/me" ReadMe 200].

Definition wallets_router : list route := prefixed "/wallets"
  [mkRoute "POST" "" CreateWallet 201;
   mkRoute "GET" "/{wallet_id}/balance" GetBalance 200;
   mkRoute "GET" "/{wallet_id}/transactions" ListTransactions 200;
   mkRoute "POST" "/{wallet_id}/deposit" PostDeposit 200;
   mkRoute "POST" "/{wallet_id}/transfer" PostTransfer 200;
   mkRoute "POST" "/{wallet_id}/withdraw" PostWithdraw 200].

Definition routes : list route :=
  prefixed "/api/v1" auth_router ++ prefixed "/api/v1" users_router ++
  prefixed "/api/v1" wallets_router ++
  [mkRoute "GET" "/health" Health 200; mkRoute "GET" "/health/ready" Readiness 200].

(** ** Requests and replies *)
Inductive payload :=
  | NoBody
  | Unreadable                     (* text that is no JSON *)
  | Json (body : dict)
  | Form (fields : gmap string string).

Record http_request := mkHttp {
  method : string; path : string; authorization : option string; request_id : option string;
  idempotency_key : option string; query : gmap string string; body : payload }.

Inductive content :=
  | AToken (t : Token.t) | AUser (u : UserRead.t) | AWallet (w : WalletRead.t)
  | ABalance (b : BalanceRead.t) | AHistory (h : TransactionHistory.t)
  | ADeposit (r : DepositResponse.t) | AMove (r : MoveResponse.t)
  | AStatus (fields : list (string * string)) | Detail (text : string) | APage.

Record reply := mkReply { status : Z; answer : content }.

(** What the router finds: a route with the values of its path parameters; a
    path whose routes have other methods; the path but for a final slash; a page
    of FastAPI's own or of the mounted Prometheus app, with its status. *)
Inductive found :=
  | Full (r : route) (args : list string)
  | OtherMethod (r : route)
  | Slashed
  | Elsewhere (status : Z)
  | Nowhere.

(** Documented behaviour of the router: a full match is a route of the table
    with the method of the request. *)
Class WebFramework := {
  find : list route -> http_request -> found;
  bearer : option string -> option string;             (* OAuth2PasswordBearer *)
  path_uuid : string -> option uuid;
  query_int : string -> option Z;
  read_login : payload -> option (string * string);    (* OAuth2PasswordRequestForm *)
  read_user : payload -> option UserCreate.t;
  read_wallet : payload -> option WalletCreate.t;
  read_deposit : payload -> option DepositRequest.t;
  read_transfer : payload -> option TransferRequest.t;
  read_withdrawal : payload -> option WithdrawalRequest.t;
  find_full : forall rs rq r args, find rs rq = Full r args -> r ∈ rs /\ rt_method r = method rq }.

Section app.
Context `{Env} `{Crypto} `{JsonCodec} {C : Type} `{RedisClient C} `{EmailValidator} `{WebFramework}.
Variable st : Settings.t.
Abbreviation state := (World * C)%type (only parsing).
Abbreviation served := ((exn + reply) * (World * C))%type (only parsing).

(** The reply of a route whose function returned, raised [HTTPException], or
    raised anything else. *)
Definition of_response {A} (ok : Z) (f : A -> content) (r : response A) : exn + reply :=
  match r with
  | Reply a => inr (mkReply ok (f a))
  | HTTPError code detail => inr (mkReply code (Detail detail))
  | ServerError e => inl e
  end.

(** Routes that do not use the cache. *)
Definition plain {A} (ok : Z) (f : A -> content) (p : prog (response A)) (wc : state) : served :=
  let '(r, w) := serve p wc.1 in (of_response ok f r, (w, wc.2)).

Definition cached {A} (ok : Z) (f : A -> content) (route : state -> response A * state) (wc : state) : served :=
  let '(r, wc) := route wc in (of_response ok f r, wc).

Definition refuse (code : Z) (detail : string) (wc : state) : served :=
  (inr (mkReply code (Detail detail)), wc).

(** [Depends(oauth2_scheme)]: without a bearer token nothing else is tried. *)
Definition with_token (rq : http_request) (k : string -> state -> served) : state -> served :=
  match bearer (authorization rq) with
  | None => refuse 401 "Not authenticated"
  | Some token => k token
  end.

(** Parameters that do not validate: 422, after the user was found. *)
Definition invalid (token : string) : state -> served :=
  plain 422 Detail (authenticated st token (fun _ => mret (HTTPError 422 ""))).

(** A JSON body that cannot be read is refused before anything else. *)
Definition readable (rq : http_request) (k : state -> served) : state -> served :=
  match body rq with Unreadable => refuse 422 "" | _ => k end.

Definition with_wallet (args : list string) (token : string) (k : uuid -> state -> served) : state -> served :=
  match args with
  | [s] => match path_uuid s with Some i => k i | None => invalid token end
  | _ => invalid token
  end.

Definition with_body {D} (d : option D) (token : string) (k : D -> state -> served) : state -> served :=
  match d with Some d => k d | None => invalid token end.

(** [limit: int = Query(20, ge=1, le=100)], [offset: int = Query(0, ge=0)]; the
    upper bounds are tested by the route. *)
Definition query_nat (rq : http_request) (name : string) (default : nat) : option nat :=
  match query rq !! name with
  | None => Some default
  | Some text => z ← query_int text; if (0 <=? z)%Z then Some (Z.to_nat z) else None
  end.

Definition ready_reply (r : Z * string) : reply :=
  mkReply r.1 (AStatus [("status", if (r.1 =? 200)%Z then "ready" else "not ready"); ("db", r.2)]).

Definition handle (r : route) (rq : http_request) (args : list string) : state -> served :=
  let ok := rt_status r in
  match rt_handler r with
  | Login =>
      match read_login (body rq) with
      | None => refuse 422 ""
      | Some (username, password) => plain ok AToken (login st username password)
      end
  | RegisterUser =>
      readable rq
        match read_user (body rq) with
        | None => refuse 422 ""
        | Some data => plain ok AUser (register_user data)
        end
  | ReadMe => with_token rq (fun token => plain ok AUser (read_me st token))
  | CreateWallet =>
      readable rq (with_token rq (fun token =>
        with_body (read_wallet (body rq)) token (fun data => plain ok AWallet (create_wallet st token data))))
  | GetBalance =>
      with_token rq (fun token => with_wallet args token (fun i =>
        cached ok ABalance (get_balance st token i)))
  | ListTransactions =>
      with_token rq (fun token => with_wallet args token (fun i =>
        match query_nat rq "limit" 20, query_nat rq "offset" 0 with
        | Some limit, Some offset => plain ok AHistory (list_transactions st token i limit offset)
        | _, _ => invalid token
        end))
  | PostDeposit =>
      readable rq (with_token rq (fun token => with_wallet args token (fun i =>
        with_body (read_deposit (body rq)) token (fun data =>
          cached ok ADeposit (post_deposit st token i data)))))
  | PostTransfer =>
      readable rq (with_token rq (fun token => with_wallet args token (fun i =>
        with_body (read_transfer (body rq)) token (fun data =>
          cached ok AMove (post_transfer st token i data (idempotency_key rq))))))
  | PostWithdraw =>
      readable rq (with_token rq (fun token => with_wallet args token (fun i =>
        with_body (read_withdrawal (body rq)) token (fun data =>
          cached ok AMove (post_withdraw st token i data (idempotency_key rq))))))
  | Health => fun wc => (inr (mkReply ok (AStatus [health])), wc)
  | Readiness => fun wc =>
      let '(r, s) := run readiness (wc.1, fresh_local (clock (tick wc.1))) in
      (match r with inl e => inl e | inr r => inr (ready_reply r) end, (s.1, wc.2))
  end.

(** The request behind the middleware, with the path of the route it matches. *)
Definition respond (rq : http_request) (wc : state) : (exn + reply) * option string * state :=
  match find routes rq with
  | Full r args => let '(out, wc) := handle r rq args wc in (out, Some (rt_path r), wc)
  | OtherMethod r => (inr (mkReply 405 (Detail "Method Not Allowed")), Some (rt_path r), wc)
  | Slashed => (inr (mkReply 307 APage), None, wc)
  | Elsewhere code => (inr (mkReply code APage), None, wc)
  | Nowhere => (inr (mkReply 404 (Detail "Not Found")), None, wc)
  end.

Definition headers_of (r : reply) : gmap string string :=
  if (status r =? 401)%Z then {["WWW-Authenticate" := "Bearer"]} else ∅.

(** The request id the middleware draws when none came in. *)
Definition draw_request_id (rq : http_request) (w : World) : uuid * World :=
  match truthy (request_id rq) with
  | Some _ => (0%N, w)
  | None => (uuid4 (tick w), mkWorld (db w) (next_seq w) (S (tick w)))
  end.

(** One request from the outside; [started] and [stopped] are the readings of
    [time.perf_counter()]. *)
Definition app (format_time : Z -> string) (duration_ms : Z -> json) (cfg : Logging.config)
    (rq : http_request) (started stopped : Z) (wc : state) (var : option string) (t : telemetry)
    : (exn + (Response * content)) * state * option string * telemetry :=
  let '(fresh, w) := draw_request_id rq wc.1 in
  let '(out, route_path, wc') := respond rq (w, wc.2) in
  let endpoint : ObservabilityMiddleware.endpoint := fun _ t =>
    (match out with inl e => inl e | inr r => inr (mkResponse (status r) (headers_of r)) end, route_path, t) in
  let '(res, var, t) := ObservabilityMiddleware.dispatch format_time duration_ms cfg
    (mkRequest (method rq) (path rq) (request_id rq)) endpoint fresh started stopped var t in
  (match res, out with inr resp, inr r => inr (resp, answer r) | inr _, inl e | inl e, _ => inl e end,
   wc', var, t).
End app.
