(* ===== verification/SystemTheorems.v ===== *)
(** * Theorems about the system as a whole

    Soundness of every reachable world, conservation of money, append-only
    history, all-or-nothing behaviour of a crash, and the verdict of the
    reconciliation job. *)
From S2P Require Import Prelude PyValues Schema Session Requests Repositories LedgerService Moves.
From S2P Require Import LedgerSpec Security AccountServices Publisher Analytics Reconciliation Atomicity.
From S2P Require Import Invariants Conservation System Demo.

Section theorems.
Context `{Env} `{Crypto} `{JsonCodec}.

(** C1. In every reachable world (any requests, worker turns, crashes, and
    read-only programs, in any order) every cached balance is the sum of its
    ledger entries and lies between 0 and the BIGINT maximum, every
    transaction is COMPLETED with two opposite legs of one amount and
    currency, idempotency keys are unique, every transaction has exactly one
    outbox event reporting it, users and wallets are unique by email and by
    (owner, currency), and the entries are numbered in insertion order. *)
Theorem reachable_tables_sound w :
  reachable w -> wf (db w) /\ numbered (next_seq w) (db w).
Proof. apply reachable_sound. Qed.

(** C7. Money is conserved: in every reachable world the wallets of a currency
    hold together exactly what was booked in from the external funding
    account, less what was booked out, in that currency. *)
Theorem reachable_money_conserved w cur : reachable w -> held (db w) cur = funded (db w) cur.
Proof. intros [Hw _]%reachable_sound. apply held_funded, Hw. Qed.

(** C17. The past is never rewritten: from a reachable world on, transactions
    and ledger entries are only added, a wallet keeps its id, owner and
    currency, and an outbox event keeps everything but [published_at]. *)
Theorem history_append_only w w' : reachable w -> rtc step w w' -> extends (db w) (db w').
Proof. intros [Hw _]%reachable_sound. by apply steps_extend. Qed.

(** C11. A crash is all-or-nothing: on any session engine, when an activity is
    cut short after any number of its calls, the committed tables are those
    of before it or those of its complete run. *)
Theorem crash_atomic {S} `{!SessionEngine S} {A} (p : prog A) n (s : S) : activity A p ->
  db (view (run_upto_on n p s)).1 = db (view s).1 \/
  db (view (run_upto_on n p s)).1 = db (view (run_on p s).2).1.
Proof.
  intros Hp%activity_commits. rewrite run_upto_on_view.
  destruct (run_on_view p s) as [_ ->]. by apply run_upto_one_commit.
Qed.

(** The reconciliation job exits with 0 in every reachable world, having
    checked all wallets and found no drift. *)
Theorem reconciliation_accepts_reachable w now : reachable w ->
  run ReconciliationService.check (at_log w [] now) =
    (inr (ReconciliationReport.mk (size (wallets (db w))) []), at_log w [] now) /\
  (run run_reconciliation (at_log w [] now)).1 = inr 0%Z.
Proof.
  intros [[_ Hl _] _]%reachable_sound.
  assert (Hok : ReconciliationReport.ok (report_of (db w)) = true).
  { apply report_ok; [exact (proj1 (lw_keyed _ Hl))|apply Hl]. }
  split.
  - assert (Hc : wp ReconciliationService.check (fun r s' => r = inr (report_of (db w)) /\
      s' = at_log w [] now) (at_log w [] now)) by by apply wp_check.
    apply wp_run in Hc. destruct (run _ _) as [r s']. simpl in Hc. destruct Hc as [-> ->]. simpl.
    unfold ReconciliationReport.ok, report_of in *. simpl in *. by destruct (foldl _ _ _).
  - assert (Hc : wp run_reconciliation (fun r _ => r = inr 0%Z) (at_log w [] now)).
    { apply wp_bind, wp_check, wp_ret. by rewrite Hok. }
    by apply wp_run in Hc.
Qed.
End theorems.

(** ** Witnesses *)
Import Demo.

Lemma reachable_tables_sound_witness :
  reachable world_paid /\ wf (db world_paid) /\ numbered (next_seq world_paid) (db world_paid).
Proof. split; [apply paid_reachable|]. apply (reachable_tables_sound _ paid_reachable). Defined.

Lemma reachable_money_conserved_witness :
  held (db world_paid) "USD" = funded (db world_paid) "USD" /\ funded (db world_paid) "USD" = 500%Z.
Proof. split; [exact (reachable_money_conserved _ "USD" paid_reachable)|computes]. Defined.

Lemma history_append_only_witness : extends (db world_funded) (db world_paid).
Proof.
  apply (history_append_only _ _ funded_reachable). eapply rtc_l; [|apply rtc_refl].
  apply step_run. constructor.
Defined.

Lemma crash_atomic_witness :
  let p := transfer alice_wallet alice_id payment (Some "key-1") in
  db (view (run_upto_on 20 p (start world_funded))).1 = db (view (start world_funded)).1 \/
  db (view (run_upto_on 20 p (start world_funded))).1 = db (view (run_on p (start world_funded)).2).1.
Proof. intros p. apply crash_atomic. constructor. Defined.

Lemma reconciliation_accepts_reachable_witness :
  (run run_reconciliation (at_log world_paid [] 0%Z)).1 = inr 0%Z.
Proof. apply (reconciliation_accepts_reachable _ 0%Z paid_reachable). Defined.
