(* ===== verification/Accepted.v ===== *)
(** * Accepted money operations

    When the database accepts a move, what an accepted operation answers and
    leaves behind, the guards read backwards, and what keyed requests leave
    for their retries. *)
From S2P Require Import Prelude PyValues Schema Session Requests Repositories LedgerService Moves.
From S2P Require Import LedgerSpec Security AccountServices Publisher Analytics Reconciliation.
From S2P Require Import Atomicity Invariants System.

(** ** When the database accepts a move *)

(** The ids the operation will draw are not in use. *)
Record fresh_ids `{Env} (w : World) : Prop := FreshIds {
  fi_txn : transactions (db w) !! txn_id w = None;
  fi_first : first_id w ∉ (LedgerEntry.id <$> ledger_entries (db w));
  fi_second : second_id w ∉ (LedgerEntry.id <$> ledger_entries (db w));
  fi_distinct : first_id w <> second_id w;
  fi_event : outbox_events (db w) !! event_id w = None }.

(** The idempotency key fits its column and no transaction carries it. *)
Definition usable_key (d : Database) (key : option string) : Prop :=
  varchar_opt 255 key = true /\
  forall k i t, key = Some k -> transactions d !! i = Some t ->
    Transaction.idempotency_key t <> Some k.

(** Everything the money operation [m] on [w] leaves behind. *)
Record booked `{Env} (w w' : World) (now : Z) (m : move) (txn : Transaction.row) : Prop := Booked {
  bk_txn : txn = Transaction.mk (txn_id w) (mv_type m) COMPLETED (mv_currency m) (mv_key m) now;
  bk_transactions : transactions (db w') = <[txn_id w := txn]> (transactions (db w));
  bk_entries : exists e1 e2, ledger_entries (db w') = ledger_entries (db w) ++ [e1; e2] /\
    double_entry (db w') txn e1 e2 /\ LedgerEntry.amount e1 = mv_amount m /\
    LedgerEntry.wallet_id e1 = Some (mv_wallet m) /\
    LedgerEntry.wallet_id e2 = mv_counterparty m;
  bk_event : exists ev, outbox_events (db w') = <[event_id w := ev]> (outbox_events (db w)) /\
    event_reports (db w') ev txn /\ OutboxEvent.published_at ev = None;
  bk_users : users (db w') = users (db w) }.

Section facts.
Context `{Env}.

Lemma leg_sound_valid d m l : leg_sound d m l -> leg_valid d l.
Proof.
  unfold leg_sound, leg_valid. destruct (leg_wallet l) as [i|].
  - intros (-> & r & Hr & _). eauto.
  - intros ->. done.
Qed.

Lemma sound_move_valid w m : fresh_ids w -> sound_move (db w) m ->
  varchar 3 (mv_currency m) = true -> usable_key (db w) (mv_key m) ->
  (0 < mv_amount m <= bigint_max)%Z -> Forall (fun iz => 0 <= iz.2 <= bigint_max)%Z (mv_sets m) ->
  move_valid (db w) w m.
Proof.
  intros [] [] Hcur [Hlen Hkey] Ham Hsets. split; eauto using leg_sound_valid.
Qed.

Lemma move_booked w now m : ledger_wf (db w) -> sound_move (db w) m -> move_valid (db w) w m ->
  booked w (moved_world w now m) now m (move_txn w now m).
Proof.
  intros Hw Hs Hv. split; try done.
  - do 2 eexists. split; [done|]. split; [by apply moved_new_double|]. simpl.
    split; [done|]. split; apply Hs.
  - exists (move_event w now m). split; [done|]. split; [|done]. repeat split.
    do 4 eexists. split; [by apply moved_new_double|]. simpl. split; [apply Hs|].
    by rewrite (sm_counterparty _ _ Hs).
Qed.

(** The guards in terms of what they test. *)
Lemma transfer_guard_ok d sid rid data key a b :
  wallets d !! sid = Some a -> wallets d !! TransferRequest.recipient_wallet_id data = Some b ->
  Wallet.user_id a = rid -> Wallet.currency a = upper (TransferRequest.currency data) ->
  Wallet.currency b = Wallet.currency a ->
  (TransferRequest.amount data <= Wallet.available_balance a)%Z ->
  transfer_guard d sid rid data key = inr (transfer_move a b (TransferRequest.amount data) key).
Proof.
  intros Ha Hb Hr Hc Hcb Ham. unfold transfer_guard, owned_wallet. rewrite Ha, Hb. cbv zeta.
  rewrite !decide_True by done. by apply Z.ltb_ge in Ham as ->.
Qed.

Lemma withdraw_guard_ok d wid rid data key a :
  wallets d !! wid = Some a -> Wallet.user_id a = rid ->
  Wallet.currency a = upper (WithdrawalRequest.currency data) ->
  (WithdrawalRequest.amount data <= Wallet.available_balance a)%Z ->
  withdraw_guard d wid rid data key = inr (withdraw_move a (WithdrawalRequest.amount data) key).
Proof.
  intros Ha Hr Hc Ham. unfold withdraw_guard, owned_wallet. rewrite Ha. cbv zeta.
  rewrite !decide_True by done. by apply Z.ltb_ge in Ham as ->.
Qed.

Lemma deposit_guard_ok d wid rid data a :
  wallets d !! wid = Some a -> Wallet.user_id a = rid ->
  Wallet.currency a = upper (DepositRequest.currency data) ->
  deposit_guard d wid rid data = inr (deposit_move a (DepositRequest.amount data)).
Proof.
  intros Ha Hr Hc. unfold deposit_guard, owned_wallet. rewrite Ha. cbv zeta.
  by rewrite !decide_True by done.
Qed.

Lemma known_key_None d key : usable_key d key -> known_key d key = None.
Proof.
  intros [_ Hk]. unfold known_key. destruct (truthy key) as [k|] eqn:E; [|done].
  apply truthy_Some in E as [-> _]. apply first_row_None. intros i t Ht. by eapply Hk.
Qed.

Lemma valid_currency c a cur : length_between 3 3 c = true -> a = upper c -> cur = a ->
  varchar 3 cur = true.
Proof.
  unfold length_between, varchar. intros [_ Hle]%andb_true_iff -> ->. by rewrite length_upper.
Qed.
End facts.

(** ** Requests the operations accept *)
Record may_transfer (d : Database) (sid rid : uuid) (data : TransferRequest.t) (a b : Wallet.row)
    : Prop := MayTransfer {
  mt_request : TransferRequest.valid data = true;
  mt_other : sid <> TransferRequest.recipient_wallet_id data;
  mt_sender : wallets d !! sid = Some a;
  mt_recipient : wallets d !! TransferRequest.recipient_wallet_id data = Some b;
  mt_owner : Wallet.user_id a = rid;
  mt_currency : Wallet.currency a = upper (TransferRequest.currency data);
  mt_same_currency : Wallet.currency b = Wallet.currency a;
  mt_funds : (TransferRequest.amount data <= Wallet.available_balance a)%Z;
  mt_room : (Wallet.available_balance b + TransferRequest.amount data <= bigint_max)%Z }.

Record may_withdraw (d : Database) (wid rid : uuid) (data : WithdrawalRequest.t) (a : Wallet.row)
    : Prop := MayWithdraw {
  mw_request : WithdrawalRequest.valid data = true;
  mw_wallet : wallets d !! wid = Some a;
  mw_owner : Wallet.user_id a = rid;
  mw_currency : Wallet.currency a = upper (WithdrawalRequest.currency data);
  mw_funds : (WithdrawalRequest.amount data <= Wallet.available_balance a)%Z }.

Record may_deposit (d : Database) (wid rid : uuid) (data : DepositRequest.t) (a : Wallet.row)
    : Prop := MayDeposit {
  md_request : DepositRequest.valid data = true;
  md_wallet : wallets d !! wid = Some a;
  md_owner : Wallet.user_id a = rid;
  md_currency : Wallet.currency a = upper (DepositRequest.currency data);
  md_room : (Wallet.available_balance a + DepositRequest.amount data <= bigint_max)%Z }.

(** The wallets of [w'] are those of [w], but for the balances in [sets]. *)
Definition balances_set (w w' : World) (sets : list (uuid * Z)) : Prop :=
  (forall i z, (i, z) ∈ sets -> exists r, wallets (db w') !! i = Some r /\
     Wallet.available_balance r = z) /\
  forall i, i ∉ sets.*1 -> wallets (db w') !! i = wallets (db w) !! i.

Section success.
Context `{Env}.

Lemma move_balances_set w now m : sound_move (db w) m ->
  balances_set w (moved_world w now m) (mv_sets m).
Proof.
  intros Hs. split.
  - intros i z Hz. destruct (set_rows_lookup now (mv_sets m) (wallets (db w)) i) as [_ Hset];
      [apply Hs|]. destruct (sm_sets _ _ Hs i z Hz) as (r & Hr & _).
    exists (set_row z now r). simpl. by rewrite (Hset z Hz), Hr.
  - intros i Hi. destruct (set_rows_lookup now (mv_sets m) (wallets (db w)) i) as [Hout _];
      [apply Hs|]. by apply Hout.
Qed.

(** What an accepted operation answers and leaves behind. *)
Definition accepted {S} `{!SessionEngine S} (w : World) (now : Z) (m : move) (txn : Transaction.row)
    (wal : Wallet.row) (s : S) : Prop :=
  let w' := (view s).1 in
  booked w w' now m txn /\ balances_set w w' (mv_sets m) /\
  wallets (db w') !! mv_wallet m = Some wal.

Lemma outcome_accepted {S} `{!SessionEngine S} {R} w now m f (r : exn + R) (s : S) :
  ledger_wf (db w) -> sound_move (db w) m -> move_valid (db w) w m ->
  outcome w now (inr m) f r (view s) ->
  exists txn wal, r = inr (f txn wal) /\ accepted w now m txn wal s.
Proof.
  intros Hw Hs Hv [(Hn & _)|(_ & Hview & wal & Hwal & Hr)]; [done|].
  exists (move_txn w now m), wal. split; [done|]. unfold accepted. rewrite Hview. simpl.
  split; [by apply move_booked|]. split; [by apply move_balances_set|exact Hwal].
Qed.

Lemma accepted_balance {S} `{!SessionEngine S} w now m txn wal (s : S) z :
  accepted w now m txn wal s -> (mv_wallet m, z) ∈ mv_sets m -> Wallet.available_balance wal = z.
Proof.
  intros (_ & [Hset _] & Hwal) Hz. destruct (Hset _ _ Hz) as (r & Hr & Hb). congruence.
Qed.

(** The operation [p] whose guard gave [m], run on an engine. *)
Lemma guard_accepts {S} `{!SessionEngine S} {R} (p : prog R) f w now m z (s : S) :
  view s = at_log w [] now -> wf (db w) -> sound_move (db w) m -> move_valid (db w) w m ->
  (mv_wallet m, z) ∈ mv_sets m -> wp p (outcome w now (inr m) f) (at_log w [] now) ->
  exists txn wal, (run_on p s).1 = inr (f txn wal) /\ Wallet.available_balance wal = z /\
    accepted w now m txn wal (run_on p s).2.
Proof.
  intros Hs [_ Hl _] Hso Hv Hz Hp. rewrite <- Hs in Hp. apply run_on_wp in Hp.
  eapply outcome_accepted in Hp as (txn & wal & Hans & Hacc); [|done..].
  exists txn, wal. eauto using accepted_balance.
Qed.

Lemma keyed_accepts {S} `{!SessionEngine S} p i w now key m z (s : S) :
  view s = at_log w [] now -> wf (db w) -> usable_key (db w) key -> sound_move (db w) m ->
  move_valid (db w) w m -> (mv_wallet m, z) ∈ mv_sets m ->
  wp p (keyed_outcome w now key i (inr m)) (at_log w [] now) ->
  exists txn wal, (run_on p s).1 = inr (txn, Some wal) /\ Wallet.available_balance wal = z /\
    accepted w now m txn wal (run_on p s).2.
Proof.
  intros Hs Hw Hk Hso Hv Hz Hp.
  apply (guard_accepts p (fun txn wal => (txn, Some wal)) w now m z s); [done..|].
  unfold keyed_outcome in Hp. by rewrite known_key_None in Hp.
Qed.

Lemma transfer_move_valid w sid rid data key a b : wf (db w) -> fresh_ids w ->
  usable_key (db w) key -> may_transfer (db w) sid rid data a b ->
  move_valid (db w) w (transfer_move a b (TransferRequest.amount data) key).
Proof.
  intros [_ Hl _] Hf Hk [Hreq Hne Ha Hb Hr Hc Hcb Ham Hroom].
  pose proof (lw_range _ Hl _ _ Ha). pose proof (lw_range _ Hl _ _ Hb).
  apply andb_true_iff in Hreq as [Hpos%Z.ltb_lt Hlen].
  apply sound_move_valid; try done; simpl.
  - eapply (transfer_sound _ sid rid data); [apply Hl|done|by apply transfer_guard_ok].
  - by eapply valid_currency.
  - lia.
  - repeat constructor; simpl; lia.
Qed.

Lemma withdraw_move_valid w wid rid data key a : wf (db w) -> fresh_ids w ->
  usable_key (db w) key -> may_withdraw (db w) wid rid data a ->
  move_valid (db w) w (withdraw_move a (WithdrawalRequest.amount data) key).
Proof.
  intros [_ Hl _] Hf Hk [Hreq Ha Hr Hc Ham]. pose proof (lw_range _ Hl _ _ Ha).
  apply andb_true_iff in Hreq as [Hpos%Z.ltb_lt Hlen].
  apply sound_move_valid; try done; simpl.
  - eapply (withdraw_sound _ wid rid data); [apply Hl|by apply withdraw_guard_ok].
  - by eapply valid_currency.
  - lia.
  - repeat constructor; simpl; lia.
Qed.

Lemma deposit_move_valid w wid rid data a : wf (db w) -> fresh_ids w ->
  may_deposit (db w) wid rid data a ->
  move_valid (db w) w (deposit_move a (DepositRequest.amount data)).
Proof.
  intros [_ Hl _] Hf [Hreq Ha Hr Hc Hroom]. pose proof (lw_range _ Hl _ _ Ha).
  apply andb_true_iff in Hreq as [Hpos%Z.ltb_lt Hlen].
  apply sound_move_valid; try done; simpl.
  - eapply (deposit_sound _ wid rid data); [apply Hl|by apply deposit_guard_ok].
  - by eapply valid_currency.
  - lia.
  - repeat constructor; simpl; lia.
Qed.
End success.

(** ** The guards read backwards *)
Lemma deposit_guard_inv d wid rid data m : deposit_guard d wid rid data = inr m ->
  exists a, wallets d !! wid = Some a /\ Wallet.user_id a = rid /\
    m = deposit_move a (DepositRequest.amount data).
Proof.
  unfold deposit_guard. destruct (owned_wallet d wid rid) as [|a] eqn:E; [done|]. cbv zeta.
  apply owned_wallet_Some in E as [Ha Hr]. case_decide; [|done]. intros [= <-]. eauto.
Qed.

Lemma withdraw_guard_inv d wid rid data key m : withdraw_guard d wid rid data key = inr m ->
  exists a, wallets d !! wid = Some a /\ Wallet.user_id a = rid /\
    m = withdraw_move a (WithdrawalRequest.amount data) key.
Proof.
  unfold withdraw_guard. destruct (owned_wallet d wid rid) as [|a] eqn:E; [done|]. cbv zeta.
  apply owned_wallet_Some in E as [Ha Hr]. case_decide; [|done]. destruct (_ <? _)%Z; [done|].
  intros [= <-]. eauto.
Qed.

Lemma transfer_guard_inv d sid rid data key m : transfer_guard d sid rid data key = inr m ->
  exists a b, wallets d !! sid = Some a /\ Wallet.user_id a = rid /\
    wallets d !! TransferRequest.recipient_wallet_id data = Some b /\
    m = transfer_move a b (TransferRequest.amount data) key.
Proof.
  unfold transfer_guard. destruct (owned_wallet d sid rid) as [|a] eqn:E; [done|]. cbv zeta.
  apply owned_wallet_Some in E as [Ha Hr].
  destruct (wallets d !! TransferRequest.recipient_wallet_id data) as [b|] eqn:Eb; [|done].
  repeat (case_decide; try done). destruct (_ <? _)%Z; [done|]. intros [= <-]. eauto 6.
Qed.

(** ** Who spends *)
Section spending.
Context `{Env} `{Crypto} `{JsonCodec}.

(** The program is a request of [owner] to move [amount] out of wallet [i]. *)
Inductive spends (i owner : uuid) (amount : Z) : forall A : Type, prog A -> Prop :=
  | spends_transfer data key : TransferRequest.amount data = amount ->
      spends i owner amount _ (transfer i owner data key)
  | spends_withdraw data key : WithdrawalRequest.amount data = amount ->
      spends i owner amount _ (withdraw i owner data key).

(** The balance of wallet [i] went down from [d] to [d']. *)
Definition debited (i : uuid) (d d' : Database) (amount : Z) : Prop :=
  (0 < amount)%Z /\ exists r r', wallets d !! i = Some r /\ wallets d' !! i = Some r' /\
    Wallet.available_balance r' = (Wallet.available_balance r - amount)%Z.

Lemma debited_same i d d' amount : wallets d' = wallets d -> ~ debited i d d' amount.
Proof. intros He (Hpos & r & r' & Hr & Hr' & Hb). rewrite He in Hr'. simplify_eq. lia. Qed.

Lemma debited_move i d w now m amount : sound_move d m ->
  debited i d (moved_db d w now m) amount ->
  (leg_delta i (mv_amount m) (mv_first m) + leg_delta i (mv_amount m) (mv_second m) = - amount)%Z.
Proof.
  intros Hs (Hpos & r & r' & Hr & Hr' & Hb).
  destruct (moved_row d w now m i Hs) as [_ Hsome].
  destruct (Hsome r' Hr') as (r0 & Hr0 & _ & _ & _ & _ & Hbal & _). simplify_eq. lia.
Qed.

(** A committed move of an operation is the only way to debit. *)
Lemma debited_outcome {R} w now g (f : Transaction.row -> Wallet.row -> R) r s' i amount :
  outcome w now g f r s' -> debited i (db w) (db s'.1) amount ->
  exists m, g = inr m /\ move_valid (db w) w m /\ db s'.1 = moved_db (db w) w now m.
Proof.
  intros Ho Hd. unfold outcome in Ho. destruct g as [e|m].
  - destruct Ho as [_ ->]. by eapply debited_same in Hd.
  - destruct Ho as [(_ & (He & _) & _)|(Hv & -> & _)].
    + rewrite He in Hd. by eapply debited_same in Hd.
    + eauto.
Qed.

Lemma debited_keyed_outcome w now key j g r s' i amount :
  keyed_outcome w now key j g r s' -> debited i (db w) (db s'.1) amount ->
  exists m, g = inr m /\ move_valid (db w) w m /\ db s'.1 = moved_db (db w) w now m.
Proof.
  unfold keyed_outcome. destruct (known_key _ _); [|by apply debited_outcome].
  intros [_ ->] Hd. by eapply debited_same in Hd.
Qed.

Lemma deposit_never_debits wid rid data w now i amount : keyed (db w) ->
  ~ debited i (db w) (db (run (deposit wid rid data) (at_log w [] now)).2.1) amount.
Proof.
  intros Hk Hd. pose proof (proj1 (wp_run _ _ _) (wp_deposit wid rid data w now Hk)) as Ho.
  destruct (debited_outcome _ _ _ _ _ _ _ _ Ho Hd) as (m & Hg & Hv & He). rewrite He in Hd.
  apply debited_move in Hd as Hsum; [|by eapply deposit_sound].
  apply deposit_guard_inv in Hg as (a & _ & _ & ->). destruct Hd as [Hpos _].
  pose proof (mvv_amount _ _ _ Hv) as Ham. cbn [mv_first mv_second mv_amount deposit_move] in *.
  rewrite (leg_delta_ne _ _ (Leg DEBIT None _)) in Hsum by done.
  destruct (decide (Wallet.id a = i)) as [E|];
    [rewrite E, leg_delta_eq in Hsum|rewrite leg_delta_ne in Hsum by (simpl; congruence)]; lia.
Qed.

Lemma withdraw_debits wid rid data key w now i amount : keyed (db w) ->
  debited i (db w) (db (run (withdraw wid rid data key) (at_log w [] now)).2.1) amount ->
  wid = i /\ WithdrawalRequest.amount data = amount /\
  exists r, wallets (db w) !! i = Some r /\ Wallet.user_id r = rid.
Proof.
  intros Hk Hd. pose proof (proj1 (wp_run _ _ _) (wp_withdraw wid rid data key w now Hk)) as Ho.
  destruct (debited_keyed_outcome _ _ _ _ _ _ _ _ _ Ho Hd) as (m & Hg & Hv & He). rewrite He in Hd.
  apply debited_move in Hd as Hsum; [|by eapply withdraw_sound].
  apply withdraw_guard_inv in Hg as (a & Ha & Hr & ->). destruct Hd as [Hpos _].
  apply (proj1 Hk) in Ha as Hid. 
  cbn [mv_first mv_second mv_amount withdraw_move] in *.
  rewrite (leg_delta_ne _ _ (Leg CREDIT None _)) in Hsum by done.
  destruct (decide (Wallet.id a = i)) as [E|];
    [|rewrite leg_delta_ne in Hsum by (simpl; congruence); lia].
  rewrite E, leg_delta_eq in Hsum. simplify_eq. split; [done|]. split; [lia|eauto].
Qed.

Lemma transfer_debits sid rid data key w now i amount : keyed (db w) ->
  debited i (db w) (db (run (transfer sid rid data key) (at_log w [] now)).2.1) amount ->
  sid = i /\ TransferRequest.amount data = amount /\
  exists r, wallets (db w) !! i = Some r /\ Wallet.user_id r = rid.
Proof.
  intros Hk Hd. destruct (decide (sid = TransferRequest.recipient_wallet_id data)) as [Hse|Hne].
  { pose proof (proj1 (wp_run _ _ _) (wp_transfer_same sid rid data key w now Hse)) as [_ He].
    rewrite He in Hd. by eapply debited_same in Hd. }
  pose proof (proj1 (wp_run _ _ _) (wp_transfer sid rid data key w now Hk Hne)) as Ho.
  destruct (debited_keyed_outcome _ _ _ _ _ _ _ _ _ Ho Hd) as (m & Hg & Hv & He). rewrite He in Hd.
  apply debited_move in Hd as Hsum; [|by eapply transfer_sound].
  apply transfer_guard_inv in Hg as (a & b & Ha & Hr & Hb & ->). destruct Hd as [Hpos _].
  apply (proj1 Hk) in Ha as Hid. apply (proj1 Hk) in Hb as Hidb.
  pose proof (mvv_amount _ _ _ Hv) as Ham. cbn [mv_first mv_second mv_amount transfer_move] in *.
  destruct (decide (Wallet.id b = i)) as [Eb|].
  { rewrite Eb, leg_delta_eq, leg_delta_ne in Hsum by (simpl; congruence). lia. }
  rewrite (leg_delta_ne _ _ (Leg CREDIT _ _)) in Hsum by (simpl; congruence).
  destruct (decide (Wallet.id a = i)) as [E|];
    [|rewrite leg_delta_ne in Hsum by (simpl; congruence); lia].
  rewrite E, leg_delta_eq in Hsum. simplify_eq. split; [done|]. split; [lia|eauto].
Qed.

Lemma activity_debits {A} (p : prog A) w now i amount : activity A p -> keyed (db w) ->
  debited i (db w) (db (run p (at_log w [] now)).2.1) amount ->
  exists r, wallets (db w) !! i = Some r /\ spends i (Wallet.user_id r) amount A p.
Proof.
  intros Hp Hk. destruct Hp; intros Hd.
  - pose proof (proj1 (wp_run _ _ _) (wp_register data w now)) as Ho. unfold register_outcome in Ho.
    destruct (email_taken _ _); [destruct Ho as [_ He]; rewrite He in Hd; by eapply debited_same in Hd|].
    destruct (violation _ _); [destruct Ho as [_ [He _]]|destruct Ho as [_ He]]; rewrite He in Hd;
      by eapply debited_same in Hd.
  - pose proof (proj1 (wp_run _ _ _) (wp_create_wallet owner data w now)) as Ho.
    unfold create_wallet_outcome in Ho.
    destruct (wallet_of _ _ _); [destruct Ho as [_ He]; rewrite He in Hd; by eapply debited_same in Hd|].
    destruct (violation _ _) eqn:Hv; destruct Ho as [_ He];
      [destruct He as [He _]; rewrite He in Hd; by eapply debited_same in Hd|]. rewrite He in Hd.
    apply new_wallet_fresh in Hv. destruct Hd as (Hpos & r & r' & Hr & Hr' & Hb).
    simpl in Hr'. simpl in Hv. rewrite lookup_insert_ne in Hr' by congruence. simplify_eq. lia.
  - by eapply deposit_never_debits in Hd.
  - apply transfer_debits in Hd as (-> & Ham & r & Hr & <-); [|done]. exists r.
    split; [done|by constructor].
  - apply withdraw_debits in Hd as (-> & Ham & r & Hr & <-); [|done]. exists r.
    split; [done|by constructor].
  - pose proof (proj1 (wp_run _ _ _) (wp_publish_turn deliver topic batch_size w now)) as [_ Ho].
    case_decide; destruct Ho as [_ He]; rewrite He in Hd; by eapply debited_same in Hd.
  - pose proof (proj1 (wp_run _ _ _) (wp_handle_event_any payload w now)) as [He|(t & e & He)];
      rewrite He in Hd; by eapply debited_same in Hd.
  - rewrite run_no_commit in Hd by done. by eapply debited_same in Hd.
Qed.
End spending.

(** ** Keyed requests *)
Section retry.
Context `{Env}.

(** The table holds the transaction of the key. *)
Definition recorded (d : Database) (key : option string) (txn : Transaction.row) : Prop :=
  exists k i, truthy key = Some k /\ transactions d !! i = Some txn /\
    Transaction.idempotency_key txn = Some k.

Lemma recorded_known d key txn : ledger_wf d -> recorded d key txn -> known_key d key = Some txn.
Proof.
  intros Hw (k & i & Hk & Hi & Ht). unfold known_key. rewrite Hk.
  apply (first_row_unique _ _ i); [done..|]. intros j t Hj Htk.
  assert (i = j) as <- by by eapply (lw_keys _ Hw). congruence.
Qed.

Lemma recorded_extends d d' key txn : extends d d' -> recorded d key txn -> recorded d' key txn.
Proof.
  intros He (k & i & Hk & Hi & Ht). exists k, i. split; [done|]. split; [|done].
  eapply lookup_weaken; [done|apply He].
Qed.

Lemma known_recorded d key txn : known_key d key = Some txn -> recorded d key txn.
Proof.
  unfold known_key. destruct (truthy key) as [k|] eqn:E; [|done].
  intros [Hk [i Hi]]%first_row_Some. exists k, i. by rewrite E.
Qed.

(** A keyed operation that answered has its transaction on record. *)
Lemma answered_recorded w now key i g txn wal s' :
  truthy key <> None -> (forall m, g = inr m -> mv_key m = key) ->
  keyed_outcome w now key i g (inr (txn, wal)) s' -> recorded (db s'.1) key txn.
Proof.
  intros Hkey Hg. unfold keyed_outcome. destruct (known_key _ _) as [t|] eqn:Ek.
  - intros [[= -> ->] ->]. by apply known_recorded.
  - unfold outcome. destruct g as [e|m]; [by intros [? _]|].
    intros [(_ & _ & e & ?)|(_ & -> & wal' & _ & [= -> ->])]; [done|].
    destruct (truthy key) as [k|] eqn:E; [|done]. exists k, (txn_id w). split; [done|].
    simpl. rewrite lookup_insert_eq. split; [done|]. rewrite (Hg m) by done.
    by apply truthy_Some in E as [-> _].
Qed.

Lemma recorded_replays w now key i g r s' txn : ledger_wf (db w) -> recorded (db w) key txn ->
  keyed_outcome w now key i g r s' ->
  r = inr (txn, wallets (db w) !! i) /\ s' = at_log w [] now.
Proof. intros Hw Hr. unfold keyed_outcome. by rewrite (recorded_known _ _ _ Hw Hr). Qed.

Lemma transfer_key d sid rid data key m :
  transfer_guard d sid rid data key = inr m -> mv_key m = key.
Proof. by intros (a & b & _ & _ & _ & ->)%transfer_guard_inv. Qed.

Lemma withdraw_key d wid rid data key m :
  withdraw_guard d wid rid data key = inr m -> mv_key m = key.
Proof. by intros (a & _ & _ & ->)%withdraw_guard_inv. Qed.

(** The transaction an answer names carries the request's key. *)
Lemma transfer_recorded w now sid rid data key txn wal : wf (db w) -> truthy key <> None ->
  (run (transfer sid rid data key) (at_log w [] now)).1 = inr (txn, wal) ->
  recorded (db (run (transfer sid rid data key) (at_log w [] now)).2.1) key txn.
Proof.
  intros Hw Hkey Hr. pose proof (lw_keyed _ (wf_ledger _ Hw)) as Hk.
  destruct (decide (sid = TransferRequest.recipient_wallet_id data)) as [Hse|Hne].
  - pose proof (proj1 (wp_run _ _ _) (wp_transfer_same sid rid data key w now Hse)) as [He _].
    congruence.
  - pose proof (proj1 (wp_run _ _ _) (wp_transfer sid rid data key w now Hk Hne)) as Ho.
    rewrite Hr in Ho. eapply answered_recorded; [done| |exact Ho]. intros m. apply transfer_key.
Qed.

Lemma withdraw_recorded w now wid rid data key txn wal : wf (db w) -> truthy key <> None ->
  (run (withdraw wid rid data key) (at_log w [] now)).1 = inr (txn, wal) ->
  recorded (db (run (withdraw wid rid data key) (at_log w [] now)).2.1) key txn.
Proof.
  intros Hw Hkey Hr. pose proof (lw_keyed _ (wf_ledger _ Hw)) as Hk.
  pose proof (proj1 (wp_run _ _ _) (wp_withdraw wid rid data key w now Hk)) as Ho.
  rewrite Hr in Ho. eapply answered_recorded; [done| |exact Ho]. intros m. apply withdraw_key.
Qed.

Lemma transfer_replays w now sid rid data key txn : wf (db w) -> recorded (db w) key txn ->
  sid <> TransferRequest.recipient_wallet_id data ->
  run (transfer sid rid data key) (at_log w [] now) =
    (inr (txn, wallets (db w) !! sid), at_log w [] now).
Proof.
  intros Hw Hrec Hne. pose proof (lw_keyed _ (wf_ledger _ Hw)) as Hk.
  pose proof (proj1 (wp_run _ _ _) (wp_transfer sid rid data key w now Hk Hne)) as Ho.
  eapply recorded_replays in Ho as [H1 H2]; [|apply Hw|done].
  by rewrite (surjective_pairing (run _ _)), H1, H2.
Qed.

Lemma withdraw_replays w now wid rid data key txn : wf (db w) -> recorded (db w) key txn ->
  run (withdraw wid rid data key) (at_log w [] now) =
    (inr (txn, wallets (db w) !! wid), at_log w [] now).
Proof.
  intros Hw Hrec. pose proof (lw_keyed _ (wf_ledger _ Hw)) as Hk.
  pose proof (proj1 (wp_run _ _ _) (wp_withdraw wid rid data key w now Hk)) as Ho.
  eapply recorded_replays in Ho as [H1 H2]; [|apply Hw|done].
  by rewrite (surjective_pairing (run _ _)), H1, H2.
Qed.
End retry.

(** ** Statements (history pages) *)
Lemma sorted_same_seq (es : list LedgerEntry.row) x y :
  StronglySorted Z.lt (LedgerEntry.seq <$> es) -> x ∈ es -> y ∈ es ->
  LedgerEntry.seq x = LedgerEntry.seq y -> x = y.
Proof.
  induction es as [|e es IH]; intros Hs Hx Hy Heq; [by apply elem_of_nil in Hx|].
  rewrite fmap_cons in Hs. apply StronglySorted_inv in Hs as [Hs He]. rewrite Forall_fmap in He.
  rewrite Forall_forall in He.
  rewrite elem_of_cons in Hx, Hy. destruct Hx as [->|Hx], Hy as [->|Hy]; [done|..|by apply IH].
  - specialize (He y Hy). simpl in He. lia.
  - specialize (He x Hx). simpl in He. lia.
Qed.

Lemma StronglySorted_filter {A B} (R : B -> B -> Prop) (f : A -> B) (P : A -> Prop)
    `{!forall x, Decision (P x)} l : StronglySorted R (f <$> l) -> StronglySorted R (f <$> filter P l).
Proof.
  induction l as [|a l IH]; [done|]. rewrite fmap_cons, filter_cons.
  intros [Hs Ha]%StronglySorted_inv. case_decide; [|auto]. rewrite fmap_cons. constructor; [auto|].
  apply Forall_fmap, Forall_forall. intros x [_ Hx]%list_elem_of_filter.
  rewrite Forall_fmap, Forall_forall in Ha. by apply Ha.
Qed.

Lemma StronglySorted_reverse_newer es :
  StronglySorted Z.lt (LedgerEntry.seq <$> es) -> StronglySorted LedgerRepository.newer (reverse es).
Proof.
  induction es as [|e es IH]; [constructor|]. rewrite fmap_cons, reverse_cons.
  intros [Hs He]%StronglySorted_inv. apply StronglySorted_app. split; [|split; [auto|repeat constructor]].
  intros x y Hx ->%list_elem_of_singleton. rewrite elem_of_reverse in Hx.
  rewrite Forall_fmap, Forall_forall in He. specialize (He x Hx). simpl in He.
  unfold LedgerRepository.newer. lia.
Qed.

#[local] Existing Instance LedgerRepository.newer_dec.
#[export] Instance newer_transitive : Transitive LedgerRepository.newer.
Proof. unfold LedgerRepository.newer. intros x y z. lia. Qed.
#[export] Instance newer_total : Total LedgerRepository.newer.
Proof. unfold LedgerRepository.newer. intros x y. lia. Qed.

(** Of ascending numbers, newest first is the reverse order. *)
Lemma merge_sort_ascending es : StronglySorted Z.lt (LedgerEntry.seq <$> es) ->
  merge_sort LedgerRepository.newer es = reverse es.
Proof.
  intros Hf. apply (StronglySorted_unique_strong LedgerRepository.newer).
  - intros x y Hx Hy Hxy Hyx. rewrite merge_sort_Permutation in Hx. rewrite elem_of_reverse in Hy.
    apply (sorted_same_seq _ _ _ Hf); [done..|]. unfold LedgerRepository.newer in *. lia.
  - apply (StronglySorted_merge_sort LedgerRepository.newer).
  - by apply StronglySorted_reverse_newer.
  - by rewrite merge_sort_Permutation, reverse_Permutation.
Qed.

(** In numbered tables, newest first is the reverse of the insertion order. *)
Lemma merge_sort_newest n d (P : LedgerEntry.row -> Prop) `{!forall e, Decision (P e)} : numbered n d ->
  merge_sort LedgerRepository.newer (filter P (ledger_entries d)) =
    reverse (filter P (ledger_entries d)).
Proof. intros [Hs _]. by apply merge_sort_ascending, StronglySorted_filter. Qed.
