(* ===== verification/Bank.v ===== *)
(** * The ledger as a bank

    What the money operations promise, without tables: a bank has accounts with
    an owner, a currency and funds, and keeps a receipt of everything it has
    done.  A request is refused, recognised by its idempotency key, or settled
    at once.  The detailed program - sessions, double entry, cached balances,
    outbox, locks - implements this bank under the abstraction [bank_of]. *)
From S2P Require Import Prelude PyValues Schema Session Requests Repositories LedgerService Moves.
From S2P Require Import LedgerSpec Security AccountServices Publisher Analytics Reconciliation.
From S2P Require Import Atomicity Invariants System Accepted ConcurrentLedger.

(** ** The specification *)
Module Bank.

Record account := Account { owner : uuid; currency : string; funds : Z }.
Record receipt := Receipt {
  number : uuid; kind : TransactionType; money : string; amount : Z;
  account_no : option uuid; counterparty : option uuid; key : option string }.
Record t := mk { accounts : gmap uuid account; receipts : gmap uuid receipt }.

Definition pay (i : uuid) (z : Z) (b : t) : t :=
  mk (alter (fun a => Account (owner a) (currency a) (funds a + z)) i (accounts b)) (receipts b).
Definition file (r : receipt) (b : t) : t := mk (accounts b) (<[number r := r]> (receipts b)).
Definition open (i owner : uuid) (cur : string) (b : t) : t :=
  mk (<[i := Account owner cur 0]> (accounts b)) (receipts b).

Definition fits (b : t) : Prop := map_Forall (fun _ a => (funds a <= bigint_max)%Z) (accounts b).

Definition account_for (i requester : uuid) (b : t) : exn + account :=
  match accounts b !! i with
  | None => inl (WalletNotFoundError i)
  | Some a => if decide (owner a = requester) then inr a else inl (WalletAccessDeniedError i)
  end.

(** What a new request with receipt number [id] is due. *)
Definition settle (id : uuid) (q : request) (b : t) : exn + t :=
  match q with
  | Deposit i requester data =>
      match account_for i requester b with
      | inl e => inl e
      | inr a =>
          let cur := upper (DepositRequest.currency data) in
          let z := DepositRequest.amount data in
          if decide (currency a = cur)
          then inr (file (Receipt id DEPOSIT cur z (Some i) None None) (pay i z b))
          else inl (currency_mismatch "Wallet" (currency a) cur)
      end
  | Withdraw i requester data key =>
      match account_for i requester b with
      | inl e => inl e
      | inr a =>
          let cur := upper (WithdrawalRequest.currency data) in
          let z := WithdrawalRequest.amount data in
          if decide (currency a = cur) then
            if (funds a <? z)%Z then inl (InsufficientFundsError i)
            else inr (file (Receipt id WITHDRAWAL cur z (Some i) None key) (pay i (- z) b))
          else inl (currency_mismatch "Wallet" (currency a) cur)
      end
  | Transfer i requester data key =>
      let j := TransferRequest.recipient_wallet_id data in
      let z := TransferRequest.amount data in
      match account_for i requester b with
      | inl e => inl e
      | inr a =>
          match accounts b !! j with
          | None => inl (RecipientNotFoundError j)
          | Some a' =>
              let cur := upper (TransferRequest.currency data) in
              if decide (currency a = cur) then
                if decide (currency a' = currency a) then
                  if (funds a <? z)%Z then inl (InsufficientFundsError i)
                  else inr (file (Receipt id TRANSFER cur z (Some i) (Some j) key)
                              (pay j z (pay i (- z) b)))
                else inl (currency_mismatch "Recipient wallet" (currency a') (currency a))
              else inl (currency_mismatch "Sender wallet" (currency a) cur)
          end
      end
  end.

(** The receipt an idempotency key stands for; the empty key stands for none. *)
Definition recall (key : option string) (b : t) : option receipt :=
  match truthy key with
  | None => None
  | Some k => first_row (fun r => Bank.key r = Some k) (receipts b)
  end.

Inductive outcome :=
  | Refused (e : exn)
  | Known (r : receipt)
  | Overflow
  | Settled (b : t).

#[export] Instance fits_dec b : Decision (fits b).
Proof. unfold fits. apply _. Defined.

(** A transfer to the sender's own account. *)
Definition to_self (q : request) : bool :=
  match q with
  | Transfer i _ data _ => bool_decide (i = TransferRequest.recipient_wallet_id data)
  | _ => false
  end.

Definition attempt (id : uuid) (q : request) (b : t) : outcome :=
  if to_self q then Refused (SameWalletTransferError (subject q))
  else match recall (request_key q) b with
       | Some r => Known r
       | None =>
           match settle id q b with
           | inl e => Refused e
           | inr b' => if decide (fits b') then Settled b' else Overflow
           end
       end.
End Bank.

(** ** What the tables stand for *)
Definition account_of (r : Wallet.row) : Bank.account :=
  Bank.Account (Wallet.user_id r) (Wallet.currency r) (Wallet.available_balance r).

(** A header with its two legs. *)
Definition receipt_of (d : Database) (t : Transaction.row) : Bank.receipt :=
  let es := LedgerRepository.entries_for_transaction (Transaction.id t) d in
  Bank.Receipt (Transaction.id t) (Transaction.type t) (Transaction.currency t)
    (from_option LedgerEntry.amount 0%Z (es !! 0)) (es !! 0 ≫= LedgerEntry.wallet_id)
    (es !! 1 ≫= LedgerEntry.wallet_id) (Transaction.idempotency_key t).

Definition bank_of (d : Database) : Bank.t :=
  Bank.mk (account_of <$> wallets d) (receipt_of d <$> transactions d).

Lemma fmap_alter_agree {V W} (h : V -> W) (f : V -> V) (g : W -> W) i (m : gmap uuid V) :
  (forall r, m !! i = Some r -> h (f r) = g (h r)) -> h <$> alter f i m = alter g i (h <$> m).
Proof.
  intros Hfg. apply map_eq. intros j. rewrite lookup_fmap, !lookup_alter. case_decide as E.
  - subst. rewrite lookup_fmap. destruct (m !! j) as [r|]; [|done]. simpl. by rewrite Hfg.
  - by rewrite lookup_fmap.
Qed.

(** Filing the receipt of a move. *)
Lemma moved_receipts d x now m : keyed d -> Forall (entry_wf d) (ledger_entries d) ->
  transactions d !! txn_id x = None ->
  receipt_of (moved_db d x now m) <$> transactions (moved_db d x now m) =
    <[txn_id x := Bank.Receipt (txn_id x) (mv_type m) (mv_currency m) (mv_amount m)
        (leg_wallet (mv_first m)) (leg_wallet (mv_second m)) (mv_key m)]>
      (receipt_of d <$> transactions d).
Proof.
  intros [_ Hk] He Hn. cbn [transactions moved_db]. rewrite fmap_insert. f_equal.
  - unfold receipt_of. cbn [Transaction.id move_txn]. rewrite moved_entries, decide_True, no_entries by done. done.
  - apply map_fmap_ext. intros i t Ht. unfold receipt_of. rewrite moved_entries, decide_False, app_nil_r; [done|].
    intros Hi. rewrite (Hk i t Ht) in Hi. congruence.
Qed.

(** ** The guards are the bank's *)
Lemma account_for_owned d i requester : Bank.account_for i requester (bank_of d) =
  match owned_wallet d i requester with inl e => inl e | inr r => inr (account_of r) end.
Proof.
  unfold Bank.account_for, owned_wallet, bank_of. simpl. rewrite lookup_fmap.
  destruct (wallets d !! i) as [r|]; simpl; [|done]. by case_decide.
Qed.

Lemma settle_refused d id q e : Bank.to_self q = false -> request_guard d q = inl e ->
  Bank.settle id q (bank_of d) = inl e.
Proof.
  destruct q as [i r data|i r data key|i r data key]; simpl; rewrite account_for_owned.
  - intros _. unfold deposit_guard. destruct (owned_wallet d i r) as [|a]; [by intros [= ->]|].
    cbv zeta. simpl. by case_decide; [|intros [= ->]].
  - rewrite bool_decide_eq_false. intros Hne. rewrite decide_False by done. unfold transfer_guard.
    destruct (owned_wallet d i r) as [|a]; [by intros [= ->]|]. rewrite lookup_fmap.
    destruct (wallets d !! _) as [b|]; [|by intros [= ->]]. cbv zeta. simpl.
    do 2 (case_decide; [|by intros [= ->]]). by destruct (_ <? _)%Z; [intros [= ->]|].
  - intros _. unfold withdraw_guard. destruct (owned_wallet d i r) as [|a]; [by intros [= ->]|].
    cbv zeta. simpl. case_decide; [|by intros [= ->]]. by destruct (_ <? _)%Z; [intros [= ->]|].
Qed.

Section settling.
Context (d : Database) (x : draws) (now : Z) (Hw : ledger_wf d) (Hx : transactions d !! txn_id x = None).

(** A move sets the balances to what the bank pays. *)
Lemma pay_set i (r : Wallet.row) z (ws : gmap uuid Wallet.row) : ws !! i = Some r ->
  alter (fun a => Bank.Account (Bank.owner a) (Bank.currency a) (Bank.funds a + z)) i (account_of <$> ws) =
    account_of <$> alter (set_row (Wallet.available_balance r + z) now) i ws.
Proof using Type. intros Hr. symmetry. apply fmap_alter_agree. intros r' Hr'. by simplify_eq. Qed.

Lemma settle_moved q m : Bank.to_self q = false -> request_guard d q = inr m ->
  Bank.settle (txn_id x) q (bank_of d) = inr (bank_of (moved_db d x now m)).
Proof using All.
  pose proof (lw_keyed _ Hw) as Hkd. pose proof Hkd as [Hk _].
  assert (Hbank : forall m, bank_of (moved_db d x now m) =
    Bank.mk (account_of <$> set_rows now (mv_sets m) (wallets d))
      (<[txn_id x := Bank.Receipt (txn_id x) (mv_type m) (mv_currency m) (mv_amount m)
        (leg_wallet (mv_first m)) (leg_wallet (mv_second m)) (mv_key m)]> (receipt_of d <$> transactions d))).
  { intros m'. unfold bank_of at 1. rewrite moved_receipts by (done || apply Hw). done. }
  destruct q as [i r data|i r data key|i r data key]; simpl; rewrite account_for_owned.
  - intros _. unfold deposit_guard. destruct (owned_wallet d i r) as [|a] eqn:Ea; [done|].
    apply owned_wallet_Some in Ea as [Ha _]. cbv zeta. cbn [account_of Bank.currency].
    case_decide as Hc; [|done]. intros [= <-]. rewrite Hbank. unfold set_rows, Bank.file, Bank.pay. simpl.
    rewrite (Hk i a Ha). do 2 f_equal; [by apply pay_set|]. by rewrite Hc.
  - rewrite bool_decide_eq_false. intros Hne. rewrite decide_False by done. unfold transfer_guard.
    destruct (owned_wallet d i r) as [|a] eqn:Ea; [done|]. apply owned_wallet_Some in Ea as [Ha _].
    rewrite lookup_fmap. destruct (wallets d !! TransferRequest.recipient_wallet_id data) as [b|] eqn:Eb; [|done].
    cbv zeta. simpl. case_decide as Hc; [|done]. case_decide; [|done]. destruct (_ <? _)%Z; [done|]. intros [= <-].
    rewrite Hbank. unfold set_rows, Bank.file, Bank.pay. simpl. rewrite (Hk i a Ha), (Hk _ b Eb).
    do 2 f_equal; [|by rewrite Hc]. rewrite (pay_set i a) by done. apply pay_set.
    by rewrite lookup_alter_ne.
  - intros _. unfold withdraw_guard. destruct (owned_wallet d i r) as [|a] eqn:Ea; [done|].
    apply owned_wallet_Some in Ea as [Ha _]. cbv zeta. cbn [account_of Bank.currency Bank.funds].
    case_decide as Hc; [|done]. destruct (_ <? _)%Z; [done|]. intros [= <-]. rewrite Hbank.
    unfold set_rows, Bank.file, Bank.pay. simpl.
    rewrite (Hk i a Ha). do 2 f_equal; [by apply pay_set|]. by rewrite Hc.
Qed.
End settling.

(** Keys. *)
Lemma recall_known d key : ledger_wf d ->
  Bank.recall key (bank_of d) = receipt_of d <$> known_key d key.
Proof.
  intros Hw. unfold Bank.recall, known_key. destruct (truthy key) as [k|]; [|done]. simpl.
  destruct (first_row (fun t => Transaction.idempotency_key t = Some k) (transactions d)) as [t|] eqn:E.
  - apply first_row_Some in E as [Hk [i Hi]]. simpl. apply (first_row_unique _ _ i); [|done|].
    + by rewrite lookup_fmap, Hi.
    + intros j r. rewrite lookup_fmap. intros (t' & Ht' & ->)%fmap_Some_1 Hk'.
      destruct (lw_keys _ Hw i j t t' k Hi Ht' Hk Hk'). congruence.
  - simpl. apply first_row_None. intros i r. rewrite lookup_fmap. intros (t & Ht & ->)%fmap_Some_1.
    by apply (proj1 (first_row_None _ _) E i).
Qed.

(** ** When the database takes the move *)
Definition valid_request (q : request) : Prop :=
  match q with
  | Deposit _ _ data => DepositRequest.valid data = true
  | Transfer _ _ data _ => TransferRequest.valid data = true
  | Withdraw _ _ data _ => WithdrawalRequest.valid data = true
  end.

Lemma fits_bank d : ledger_wf d -> Bank.fits (bank_of d).
Proof.
  intros Hw i a. unfold bank_of. cbn [Bank.accounts]. rewrite lookup_fmap.
  intros (r & Hr & ->)%fmap_Some_1. simpl. by eapply lw_range.
Qed.

Section requests.
Context `{Env}.

Lemma fits_set d x now m i z : sound_move d m -> Bank.fits (bank_of (moved_db d x now m)) ->
  (i, z) ∈ mv_sets m -> (z <= bigint_max)%Z.
Proof.
  intros Hs Hf Hz. destruct (set_rows_lookup now (mv_sets m) (wallets d) i) as [_ Hset]; [apply Hs|].
  destruct (sm_sets _ _ Hs i z Hz) as (r & Hr & _). specialize (Hset z Hz). rewrite Hr in Hset.
  apply (Hf i (account_of (set_row z now r))). unfold bank_of. cbn [Bank.accounts moved_db wallets].
  by rewrite lookup_fmap, Hset.
Qed.

Lemma fits_valid w now q m : wf (db w) -> fresh_ids w -> valid_request q ->
  usable_key (db w) (request_key q) -> Bank.to_self q = false -> request_guard (db w) q = inr m ->
  Bank.fits (bank_of (moved_db (db w) w now m)) -> move_valid (db w) w m.
Proof.
  intros Hw Hf Hv Hk Hself Hg Hfits. pose proof (lw_keyed _ (wf_ledger _ Hw)) as Hkd.
  pose proof (request_sound _ _ _ Hkd Hg) as Hs.
  pose proof (fun i z => fits_set (db w) w now m i z Hs Hfits) as Hroom.
  destruct q as [i r data|i r data key|i r data key]; simpl in *.
  - unfold deposit_guard in Hg. destruct (owned_wallet _ i r) as [|a] eqn:Ea; [done|].
    apply owned_wallet_Some in Ea as [Ha Hr]. cbv zeta in Hg. case_decide; [|done]. injection Hg as <-.
    apply (deposit_move_valid w i r data); [done..|]. split; try done. eapply Hroom. by apply list_elem_of_singleton.
  - apply bool_decide_eq_false in Hself. rewrite decide_False in Hg by done.
    unfold transfer_guard in Hg. destruct (owned_wallet _ i r) as [|a] eqn:Ea; [done|].
    apply owned_wallet_Some in Ea as [Ha Hr].
    destruct (wallets (db w) !! TransferRequest.recipient_wallet_id data) as [b|] eqn:Eb; [|done].
    cbv zeta in Hg. do 2 (case_decide; [|done]). destruct (_ <? _)%Z eqn:El; [done|]. injection Hg as <-.
    apply Z.ltb_ge in El. apply (transfer_move_valid w i r); [done..|]. split; try done.
    eapply Hroom. apply elem_of_cons. right. by apply list_elem_of_singleton.
  - unfold withdraw_guard in Hg. destruct (owned_wallet _ i r) as [|a] eqn:Ea; [done|].
    apply owned_wallet_Some in Ea as [Ha Hr]. cbv zeta in Hg. case_decide; [|done].
    destruct (_ <? _)%Z eqn:El; [done|]. injection Hg as <-.
    apply Z.ltb_ge in El. by apply (withdraw_move_valid w i r).
Qed.

(** ** One request on a session of its own *)
Lemma wp_serve q w now : keyed (db w) -> Bank.to_self q = false ->
  wp (serve q) (keyed_outcome w now (request_key q) (subject q) (request_guard (db w) q)) (at_log w [] now).
Proof.
  intros Hk. destruct q as [i r data|i r data key|i r data key]; simpl.
  - intros _. apply wp_bind. eapply wp_mono; [by apply wp_deposit|]. intros res s' Ho.
    unfold keyed_outcome, outcome in *. simpl. destruct (deposit_guard _ i r data) as [e|m].
    + destruct Ho as [-> ->]. done.
    + destruct Ho as [(Hn & Hu & e & ->)|(Hv & -> & wal & Hwal & ->)]; [left; eauto|].
      apply wp_ret. right. eauto.
  - rewrite bool_decide_eq_false. intros Hne. rewrite decide_False by done. by apply wp_transfer.
  - intros _. by apply wp_withdraw.
Qed.

(** What a request answers and leaves behind, told by the bank. *)
Definition as_the_bank (q : request) (w w' : World) (r : exn + answer) : Prop :=
  match Bank.attempt (txn_id w) q (bank_of (db w)) with
  | Bank.Refused e => r = inl e /\ db w' = db w
  | Bank.Overflow => (exists e, r = inl (DBError e)) /\ db w' = db w
  | Bank.Known rc => exists txn, r = inr (txn, wallets (db w) !! subject q) /\
      transactions (db w) !! Bank.number rc = Some txn /\ db w' = db w
  | Bank.Settled b => exists txn wal, r = inr (txn, Some wal) /\ Transaction.id txn = txn_id w /\
      Bank.accounts b !! subject q = Some (account_of wal) /\ bank_of (db w') = b
  end.

Lemma serve_as_the_bank q w now : wf (db w) -> fresh_ids w -> valid_request q ->
  varchar_opt 255 (request_key q) = true ->
  (request_key q = Some "" -> forall i t, transactions (db w) !! i = Some t ->
     Transaction.idempotency_key t <> Some "") ->
  wp (serve q) (fun r s' => as_the_bank q w s'.1 r) (at_log w [] now).
Proof.
  intros Hw Hf Hv Hlen Hempty. pose proof (wf_ledger _ Hw) as Hl. pose proof (lw_keyed _ Hl) as Hk.
  unfold as_the_bank, Bank.attempt. destruct (Bank.to_self q) eqn:Es.
  { destruct q as [|i r data key|]; try done. apply bool_decide_eq_true in Es.
    eapply wp_mono; [by apply wp_transfer_same|]. by intros r' s' [-> ->]. }
  eapply wp_mono; [by apply wp_serve|]. intros r s' Ho. unfold keyed_outcome in Ho.
  rewrite recall_known by done. destruct (known_key (db w) (request_key q)) as [txn|] eqn:Ek;
    cbn [fmap option_fmap option_map].
  { destruct Ho as [-> ->]. exists txn. split; [done|]. split; [|done]. unfold known_key in Ek.
    destruct (truthy _); [|done]. apply first_row_Some in Ek as [_ [i Hi]].
    destruct Hk as [_ Hk]. simpl. by rewrite (Hk i txn Hi). }
  assert (Hkey : usable_key (db w) (request_key q)).
  { split; [done|]. intros k i t Hqk Ht. unfold known_key in Ek. rewrite Hqk in *.
    destruct (decide (k = "")) as [->|Hne]; [by eapply Hempty|].
    unfold truthy in Ek. destruct k as [|c k]; [done|].
    by eapply (proj1 (first_row_None _ _) Ek). }
  unfold outcome in Ho. destruct (request_guard (db w) q) as [e|m] eqn:Eg.
  { rewrite (settle_refused _ _ _ e) by done. by destruct Ho as [-> ->]. }
  rewrite (settle_moved (db w) w now Hl (fi_txn _ Hf) q m) by done.
  destruct Ho as [(Hn & (Hd & _) & e & ->)|(Hvm & -> & wal & Hwal & ->)].
  - rewrite decide_False by (intros Hfits; by eapply Hn, (fits_valid w now)). eauto.
  - pose proof (request_sound _ _ _ Hk Eg) as Hs.
    rewrite decide_True by (by apply fits_bank, move_ledger).
    exists (move_txn w now m), wal. split; [done|]. split; [done|]. split; [|done].
    rewrite <- (guard_subject _ _ _ Hk Eg). unfold bank_of. cbn [Bank.accounts moved_db wallets].
    rewrite lookup_fmap. unfold moved_wallet in Hwal. by rewrite Hwal.
Qed.
End requests.
