(* ===== verification/BankPools.v ===== *)
(** * The concurrent back end as a bank

    Each job that commits is, seen through [bank_of], one operation of the bank
    on its state at that moment; so a run of any number of jobs is a run of the
    bank, in the order of the commits. *)
From S2P Require Import Prelude PyValues Schema Locks Session Interleaving Pool Requests Repositories.
From S2P Require Import LedgerService Moves LedgerSpec Security AccountServices Publisher Analytics.
From S2P Require Import Reconciliation Atomicity Invariants System SafeRules ConcurrentLedger RequestPools.
From S2P Require Import SideWrites Jobs Accepted Bank.

Section bank.
Context `{Env} `{Crypto} `{JsonCodec}.
Implicit Types (j : job) (js : list (job * Z)) (b : Bank.t).

(** A new empty account, of another currency than the owner's others. *)
Definition opened_account (owner : uuid) (cur : string) b b' : Prop :=
  exists i, Bank.accounts b !! i = None /\ b' = Bank.open i owner cur b /\
    forall k a, Bank.accounts b !! k = Some a -> ~ (Bank.owner a = owner /\ Bank.currency a = cur).

(** What a job may do to the bank. *)
Definition bank_effect j b b' : Prop :=
  match j with
  | Request q => exists id, Bank.receipts b !! id = None /\ Bank.attempt id q b = Bank.Settled b'
  | CreateWallet owner data => b' = b \/ opened_account owner (upper (WalletCreate.currency data)) b b'
  | Reading _ _ => False
  | _ => b' = b
  end.

Definition nth_bank_effect js (i : nat) b b' : Prop :=
  exists c, js !! i = Some c /\ bank_effect c.1 b b'.

(** *** Requests *)
Lemma guard_not_self d q m : request_guard d q = inr m -> Bank.to_self q = false.
Proof.
  destruct q as [|i r data key|]; simpl; [done| |done]. case_decide; [done|].
  intros _. by apply bool_decide_eq_false.
Qed.

Lemma move_settles q d x now m : wf d -> request_guard d q = inr m -> move_valid d x m ->
  Bank.attempt (txn_id x) q (bank_of d) = Bank.Settled (bank_of (moved_db d x now m)).
Proof.
  intros Hw Hg Hv. pose proof (wf_ledger _ Hw) as Hl. pose proof (lw_keyed _ Hl) as Hk.
  unfold Bank.attempt. rewrite (guard_not_self _ _ _ Hg), recall_known by done.
  assert (known_key d (request_key q) = None) as ->.
  { unfold known_key. destruct (truthy _) as [k|] eqn:Ek; [|done]. apply truthy_Some in Ek as [Ek _].
    apply first_row_None. intros i t Ht. eapply mvv_key_fresh; [exact Hv| |exact Ht].
    destruct (request_move _ _ _ Hg) as [-> _]. done. }
  cbn [fmap option_fmap option_map].
  rewrite (settle_moved d x now Hl (mvv_txn_fresh _ _ _ Hv) q m (guard_not_self _ _ _ Hg) Hg).
  rewrite decide_True; [done|]. apply fits_bank, move_ledger; [by eapply request_sound|done..].
Qed.

Lemma no_receipt d id : transactions d !! id = None -> Bank.receipts (bank_of d) !! id = None.
Proof. intros Hn. simpl. by rewrite lookup_fmap, Hn. Qed.

(** *** The other writers *)
Lemma other_write_bank d x : beside_ledger (wr_change x) = true -> inserts_wallet (wr_change x) = false ->
  bank_of (apply_write d x) = bank_of d.
Proof. destruct x as [now n c], d, c; done. Qed.

Lemma written_bank may d d' :
  (forall c, may c = true -> beside_ledger c = true /\ inserts_wallet c = false) ->
  written may d d' -> bank_of d' = bank_of d.
Proof.
  intros Hmay (ws & Hws & _ & ->). revert d.
  induction Hws as [|x ws Hx _ IH]; intros d; [done|]. rewrite apply_writes_cons, IH.
  by apply other_write_bank; apply Hmay.
Qed.

Lemma insert_wallet_bank d now n i owner cur :
  bank_of (apply_write d (mkWrite now n (InsWallet i owner cur))) = Bank.open i owner cur (bank_of d).
Proof. destruct d. unfold bank_of, Bank.open. simpl. by rewrite fmap_insert. Qed.

Lemma opens_bank owner cur d d' : written (opens owner cur) d d' ->
  bank_of d' = bank_of d \/ opened_account owner cur (bank_of d) (bank_of d').
Proof.
  intros ([|[now n c] ws] & Hws & Hv & ->); [by left|right].
  apply Forall_cons in Hws as [Hc Hws]. destruct Hv as [Hvc Hv]. destruct c; try done. simpl in Hc.
  apply bool_decide_eq_true in Hc as [-> ->].
  assert (ws = []) as ->.
  { destruct ws as [|[now' n' c'] ws]; [done|exfalso]. apply Forall_cons in Hws as [Hc' _].
    destruct Hv as [Hv' _]. destruct c'; try done. simpl in Hc'. apply bool_decide_eq_true in Hc' as [-> ->].
    clear Hvc. cbn [wr_change] in Hv'. unfold violation, wallet_integrity in Hv'.
    rewrite check_row_None, !andb_true_iff, no_row_spec in Hv'. destruct Hv' as [_ [[_ Hno] _]].
    eapply (Hno id); [destruct d; simpl; by rewrite lookup_insert_eq|done]. }
  exists id. cbn [wr_change] in Hvc. unfold violation, wallet_integrity in Hvc.
  rewrite check_row_None, !andb_true_iff, no_row_spec, bool_decide_eq_true in Hvc.
  destruct Hvc as [_ [[Hn Hno] _]]. split; [simpl; by rewrite lookup_fmap, Hn|]. split.
  - apply insert_wallet_bank.
  - intros k a. simpl. rewrite lookup_fmap. intros (r & Hr & ->)%fmap_Some_1. simpl. by apply (Hno k).
Qed.

(** *** Jobs *)
Lemma job_effect_bank j d d' : wf d -> job_effect j d d' -> bank_effect j (bank_of d) (bank_of d').
Proof.
  intros Hw. destruct j as [q|data|owner data|deliver topic n|payload|A p]; simpl.
  - intros (x & now & m & Hg & Hv & _ & ->). exists (txn_id x). split; [by apply no_receipt, Hv|].
    by apply move_settles.
  - apply written_bank. by intros [].
  - apply opens_bank.
  - apply written_bank. by intros [].
  - apply written_bank. by intros [].
  - done.
Qed.

Lemma serial_bank js order d d' : wf d -> serial (nth_effect js) order d d' ->
  serial (nth_bank_effect js) order (bank_of d) (bank_of d').
Proof.
  intros Hw Hs. revert Hw. induction Hs as [d|i order d d1 d2 (c & Hc & Hb) Hs IH]; intros Hw; [constructor|].
  econstructor; [exists c; split; [done|]; by apply job_effect_bank|]. apply IH.
  by eapply job_effect_sound.
Qed.

(** *** Answers *)
Lemma moved_same_txn d x now m x' now' m' : moved_db d x now m = moved_db d x' now' m' ->
  transactions d !! txn_id x' = None -> txn_id x = txn_id x'.
Proof.
  intros Hd Hn. destruct (decide (txn_id x = txn_id x')) as [|Hne]; [done|exfalso].
  apply (f_equal (fun d => transactions d !! txn_id x')) in Hd. simpl in Hd.
  rewrite lookup_insert_ne, lookup_insert_eq, Hn in Hd by done. done.
Qed.

Lemma carried_out_settles q txn d d' : wf d -> books q d d' -> carried_out q txn d d' ->
  Bank.attempt (Transaction.id txn) q (bank_of d) = Bank.Settled (bank_of d').
Proof.
  intros Hw (x' & now' & m' & Hg' & Hv & _ & ->) (x & now & m & Hg & Hd & ->). simpl.
  rewrite (moved_same_txn d x now m x' now' m' (eq_sym Hd)) by apply Hv. by apply move_settles.
Qed.

Lemma recall_replayed q txn d : ledger_wf d -> replayed q txn ->
  transactions d !! Transaction.id txn = Some txn ->
  Bank.recall (request_key q) (bank_of d) = Some (receipt_of d txn).
Proof.
  intros Hw (k & Hk & Hkt) Ht. rewrite recall_known by done. unfold known_key. rewrite Hk.
  rewrite (first_row_unique _ _ (Transaction.id txn) txn); [done..|].
  intros i t Hi Hki. pose proof (lw_keys _ Hw i _ t txn k Hi Ht Hki Hkt). congruence.
Qed.

(** The bank's view of a request's answer. *)
Definition bank_answer js (order : list nat) (b0 bn : Bank.t) (i : nat) (q : request)
    (txn : Transaction.row) : Prop :=
  (exists o1 o2 b1 b2, order = o1 ++ i :: o2 /\ serial (nth_bank_effect js) o1 b0 b1 /\
     Bank.attempt (Transaction.id txn) q b1 = Bank.Settled b2 /\ serial (nth_bank_effect js) o2 b2 bn) \/
  ((i ∉ order) /\ exists rc, Bank.recall (request_key q) bn = Some rc /\ Bank.number rc = Transaction.id txn).

Lemma linearized_bank js order d dn i q now txn wal : wf d -> wf dn -> js !! i = Some (Request q, now) ->
  transactions dn !! Transaction.id txn = Some txn -> linearized js order d dn i q txn wal ->
  bank_answer js order (bank_of d) (bank_of dn) i q txn.
Proof.
  intros Hw Hwn Hi Ht [(o1 & o2 & d1 & d2 & -> & Hs1 & He & Hc & Hs2 & _)|(Hn & Hr & _)]; [left|right].
  - destruct (serial_extends _ _ _ _ Hw Hs1) as [Hw1 _]. destruct (nth_effect_keeps _ _ _ _ Hw1 He) as [Hw2 _].
    destruct He as (c & Hc' & He). simplify_eq. exists o1, o2, (bank_of d1), (bank_of d2).
    split; [done|]. split; [by apply serial_bank|]. split; [by apply carried_out_settles|by apply serial_bank].
  - split; [done|]. exists (receipt_of dn txn). split; [|done]. apply recall_replayed; [apply Hwn|done..].
Qed.
End bank.
