(* ===== verification/Statements.v ===== *)
(** * The order of a wallet's statement, under concurrency

    The identity column [seq] numbers the entries when they are inserted, not
    when they are committed: among concurrent transactions the numbers of the
    committed entries need not ascend.  Those of one wallet do, because whoever
    inserts an entry holds the lock of its wallet until he has committed. *)
From S2P Require Import Prelude PyValues Schema Locks Session Interleaving Pool Requests Repositories.
From S2P Require Import LedgerService Moves LedgerSpec Security AccountServices Publisher Invariants System Accepted Jobs.

(** ** Numbers *)

(** The entries of wallet [i], in the order of their commits. *)
Definition statement (i : uuid) (es : list LedgerEntry.row) : list LedgerEntry.row :=
  filter (fun e => LedgerEntry.wallet_id e = Some i) es.

Definition ascending (es : list LedgerEntry.row) : Prop := StronglySorted Z.lt (LedgerEntry.seq <$> es).
Definition below_seq (n : Z) (es : list LedgerEntry.row) : Prop := Forall (fun e => LedgerEntry.seq e < n)%Z es.
Definition from_seq (n : Z) (es : list LedgerEntry.row) : Prop := Forall (fun e => n <= LedgerEntry.seq e)%Z es.

Lemma below_seq_le n m es : (n <= m)%Z -> below_seq n es -> below_seq m es.
Proof. intros Hle Hn. eapply Forall_impl; [exact Hn|]. simpl. lia. Qed.

Lemma from_seq_le n m es : (n <= m)%Z -> from_seq m es -> from_seq n es.
Proof. intros Hle Hn. eapply Forall_impl; [exact Hn|]. simpl. lia. Qed.

Lemma Forall_statement P i es : Forall P es -> Forall P (statement i es).
Proof. rewrite !Forall_forall. intros HP e [_ He]%list_elem_of_filter. auto. Qed.

Lemma statement_app i es es' : statement i (es ++ es') = statement i es ++ statement i es'.
Proof. apply filter_app. Qed.

(** Later numbers may be added at the end. *)
Lemma ascending_app n es es' : ascending es -> below_seq n es -> ascending es' -> from_seq n es' ->
  ascending (es ++ es').
Proof.
  intros Hs Hn Hs' Hn'. unfold ascending. rewrite fmap_app. apply StronglySorted_app.
  split; [|done]. intros x y (e & -> & He)%list_elem_of_fmap (e' & -> & He')%list_elem_of_fmap.
  unfold below_seq, from_seq in *. rewrite Forall_forall in Hn, Hn'.
  specialize (Hn e He). specialize (Hn' e' He'). simpl in *. lia.
Qed.

Lemma ascending_statement i es : ascending es -> ascending (statement i es).
Proof.
  unfold ascending, statement. induction es as [|e es IH]; simpl; [constructor|].
  intros [Hs Hf]%StronglySorted_inv. rewrite filter_cons. case_decide; [|by apply IH].
  simpl. constructor; [by apply IH|]. rewrite Forall_fmap in *. by apply Forall_statement.
Qed.

(** ** The entries a log inserts *)
Definition inserted_by (x : write) : list LedgerEntry.row :=
  match wr_change x with
  | InsEntry i t ty a c wid sys => [LedgerEntry.mk i (wr_seq x) t ty a c wid sys (wr_now x)]
  | _ => []
  end.
Definition inserted (ws : list write) : list LedgerEntry.row := ws ≫= inserted_by.

Lemma inserted_cons x ws : inserted (x :: ws) = inserted_by x ++ inserted ws.
Proof. done. Qed.

Lemma inserted_app ws ws' : inserted (ws ++ ws') = inserted ws ++ inserted ws'.
Proof. apply bind_app. Qed.

Lemma entries_after d ws : ledger_entries (apply_writes d ws) = ledger_entries d ++ inserted ws.
Proof.
  revert d. induction ws as [|x ws IH]; intros d; [by rewrite app_nil_r|].
  rewrite apply_writes_cons, IH, inserted_cons, app_assoc. f_equal.
  destruct x as [now n c], d, c; simpl; by rewrite ?app_nil_r.
Qed.

(** Who inserts an entry of a wallet needs its lock. *)
Lemma inserted_locked i ws : RowWallet i ∉ needs_log ws -> statement i (inserted ws) = [].
Proof.
  induction ws as [|[now n c] ws IH]; [done|]. rewrite needs_log_cons, not_elem_of_union.
  intros [Hc Hws]. rewrite inserted_cons, statement_app, IH by done. rewrite app_nil_r.
  destruct c as [| | | | | | | | | |]; try done. unfold statement. simpl in *. unfold inserted_by. simpl.
  rewrite filter_cons_False; [done|]. simpl. intros ->. set_solver.
Qed.

(** A flush numbers its entries on from the next number. *)
Lemma flush_changes_numbers cs w P L now :
  let out := flush_changes cs (w, mkLocal P L now false) in
  (next_seq w <= next_seq out.2.1)%Z /\
  exists ws, (log out.2.2 = L ++ ws \/ log out.2.2 = []) /\
    ascending (inserted ws) /\ from_seq (next_seq w) (inserted ws) /\
    below_seq (next_seq out.2.1) (inserted ws).
Proof.
  revert w L P. induction cs as [|c cs IH]; intros w L P; simpl.
  { split; [done|]. exists []. rewrite app_nil_r. split; [by left|]. repeat constructor. }
  pose proof (draw_seq_le c (next_seq w)) as Hd.
  destruct (violation _ c); simpl.
  { split; [done|]. exists []. split; [by right|]. repeat constructor. }
  destruct (IH (mkWorld (db w) (draw_seq c (next_seq w)) (tick w)) (L ++ [mkWrite now (next_seq w) c]) P)
    as (Hle & ws & Hl & Ha & Hf & Hb). simpl in *.
  split; [lia|]. exists (mkWrite now (next_seq w) c :: ws). rewrite <- app_assoc in Hl. split; [exact Hl|].
  rewrite inserted_cons.
  assert (Hone : ascending (inserted_by (mkWrite now (next_seq w) c)) /\
    from_seq (next_seq w) (inserted_by (mkWrite now (next_seq w) c)) /\
    below_seq (draw_seq c (next_seq w)) (inserted_by (mkWrite now (next_seq w) c))).
  { destruct c; repeat constructor; simpl; lia. }
  destruct Hone as (Ha1 & Hf1 & Hb1). split; [by eapply ascending_app|]. split.
  - apply Forall_app. split; [done|]. by eapply from_seq_le.
  - apply Forall_app. split; [|done]. by eapply below_seq_le.
Qed.

(** ** One call *)
Section call.
Context `{Env}.

(** All numbers given so far are below the next one, and the statements ascend. *)
Definition well_numbered (w : World) : Prop :=
  below_seq (next_seq w) (ledger_entries (db w)) /\ forall i, ascending (statement i (ledger_entries (db w))).

(** So they do with what a session has inserted and not committed. *)
Definition log_numbered (w : World) (l : Local) : Prop :=
  below_seq (next_seq w) (inserted (log l)) /\
  forall i, ascending (statement i (ledger_entries (db w) ++ inserted (log l))).

Lemma log_numbered_nil w l : well_numbered w -> log l = [] -> log_numbered w l.
Proof. intros [_ Ha] Hl. unfold log_numbered. rewrite Hl. split; [constructor|]. intros i. by rewrite app_nil_r. Qed.

Lemma history_numbered_le w w' : well_numbered w -> db w' = db w -> (next_seq w <= next_seq w')%Z -> well_numbered w'.
Proof. intros [Hb Ha] Hd Hle. unfold well_numbered. rewrite Hd. split; [by eapply below_seq_le|done]. Qed.

Lemma log_numbered_le w w' l l' : log_numbered w l -> db w' = db w -> (next_seq w <= next_seq w')%Z ->
  log l' = log l -> log_numbered w' l'.
Proof.
  intros [Hb Ha] Hd Hle Hl. unfold log_numbered. rewrite Hd, Hl. split; [by eapply below_seq_le|done].
Qed.

(** Someone else's commit. *)
Lemma log_numbered_others w w' l L : log_numbered w l -> needs_log (log l) ⊆ L -> well_numbered w' ->
  (next_seq w <= next_seq w')%Z ->
  (forall i, RowWallet i ∈ L -> statement i (ledger_entries (db w')) = statement i (ledger_entries (db w))) ->
  log_numbered w' l.
Proof.
  intros [Hb Ha] HL [_ Ha'] Hle Hst. split; [by eapply below_seq_le|]. intros i. specialize (Ha i).
  rewrite statement_app in *. destruct (decide (RowWallet i ∈ needs_log (log l))) as [Hi|Hi].
  - by rewrite Hst by set_solver.
  - rewrite (inserted_locked i (log l)) by done. by rewrite app_nil_r.
Qed.

(** A flush. *)
Lemma flush_log_numbered w l : sane l -> well_numbered w -> log_numbered w l ->
  (next_seq w <= next_seq (flush (w, l)).2.1)%Z /\
  log_numbered (flush (w, l)).2.1 (flush (w, l)).2.2.
Proof.
  intros Hs Hn [Hb Ha]. pose proof (flush_db (w, l)) as Hd.
  destruct (flush_log (w, l) Hs) as (_ & _ & [(_ & Hbr & ws & Hl & _ & _)|(_ & Hl & _)]);
    destruct l as [P L now b]; unfold flush in *; simpl in *.
  - subst b. destruct (flush_changes_numbers P w P L now) as (Hle & ws' & Hl' & Ha' & Hf' & Hb').
    split; [done|]. rewrite Hl in Hl'. simpl in Hl'. unfold log_numbered. rewrite Hl, Hd. simpl.
    rewrite inserted_app.
    assert (Hws : inserted ws = inserted ws' \/ inserted ws = []).
    { destruct Hl' as [->%app_inv_head|[_ ->]%app_eq_nil]; auto. }
    assert (Hws3 : ascending (inserted ws) /\ from_seq (next_seq w) (inserted ws) /\
      below_seq (next_seq (flush_changes P (w, mkLocal P L now false)).2.1) (inserted ws)).
    { destruct Hws as [->| ->]; [done|]. repeat constructor. }
    destruct Hws3 as (Ha3 & Hf3 & Hb3). split.
    + apply Forall_app. split; [by eapply below_seq_le|done].
    + intros i. rewrite app_assoc, statement_app. eapply ascending_app; [done| | |].
      * apply Forall_statement, Forall_app. split; [apply Hn|done].
      * by apply ascending_statement.
      * by apply Forall_statement.
  - destruct b; [split; [done|]; by apply log_numbered_nil|].
    destruct (flush_changes_numbers P w P L now) as (Hle & _). split; [done|].
    apply log_numbered_nil; [|done]. by eapply history_numbered_le.
Qed.

Lemma step_log_numbered {B} (c : SessionE B) w l L : log_ok w l L -> well_numbered w -> log_numbered w l ->
  let out := session_step c (w, l) in
  (next_seq w <= next_seq out.2.1)%Z /\ well_numbered out.2.1 /\ log_numbered out.2.1 out.2.2 /\
  forall i, RowWallet i ∉ L ∪ wants c (w, l) ->
    statement i (ledger_entries (db out.2.1)) = statement i (ledger_entries (db w)).
Proof.
  intros (Hs & HL & _) Hn Hl. destruct c; simpl; try done;
    try (split; [done|]; split; [exact Hn|]; split; [exact Hl|done]).
  - (* flush *) destruct (flush_log_numbered w l Hs Hn Hl) as [Hle Hl'].
    pose proof (flush_db (w, l)) as Hd. split; [done|]. split; [by eapply history_numbered_le|].
    split; [done|]. intros i _. by rewrite Hd.
  - (* commit *) destruct (flush_log_numbered w l Hs Hn Hl) as [Hle Hl'].
    pose proof (flush_db (w, l)) as Hd. unfold commit.
    destruct (flush_log (w, l) Hs) as (_ & _ & [(Hr & Hbr & ws & Hlog & Hc & _)|([e Hr] & _)]);
      destruct (flush (w, l)) as [r s']; simpl in *; subst r; simpl.
    + assert (Hes : ledger_entries (visible s') = ledger_entries (db w) ++ inserted (log s'.2)).
      { unfold visible. by rewrite Hd, entries_after. }
      assert (Hn' : well_numbered (mkWorld (visible s') (next_seq s'.1) (tick s'.1))).
      { destruct Hl' as [Hb Ha]. split; simpl; rewrite Hes; [|by rewrite <- Hd].
        apply Forall_app. split; [|done]. eapply below_seq_le; [exact Hle|apply Hn]. }
      split; [done|]. split; [done|]. split; [by apply log_numbered_nil|].
      intros i Hi. rewrite Hes, statement_app, inserted_locked; [by rewrite app_nil_r|].
      rewrite Hlog. simpl. rewrite needs_log_app. unfold needs_log at 2. rewrite Hc, Hbr in *. set_solver.
    + split; [done|]. split; [by eapply history_numbered_le|]. split; [done|]. intros i _. by rewrite Hd.
  - (* rollback *) split; [done|]. split; [done|]. split; [by apply log_numbered_nil|done].
Qed.
End call.

(** ** Pools of any programs *)
Section pool.
Context `{Env} {R : Type}.
Implicit Types (P : World * list (thread R)).

Record numbered_pool P : Prop := NumberedPool {
  np_world : well_numbered P.1;
  np_threads : forall i p l L g, P.2 !! i = Some (Running p l L g) -> log_ok P.1 l L /\ log_numbered P.1 l;
  np_locks : forall i j t t', i <> j -> P.2 !! i = Some t -> P.2 !! j = Some t' -> held t ## held t' }.

Lemma numbered_pool_close w ts i t t' : numbered_pool (w, ts) -> ts !! i = Some t ->
  (forall p l L g, t' <> Running p l L g) -> numbered_pool (w, <[i := t']> ts).
Proof.
  intros [Hw Hts Hlk] Hi Ht'. simpl in *.
  assert (Hheld : held t' = ∅) by (destruct t'; [by edestruct Ht'|done..]).
  split; [done|..]; simpl.
  - intros j p l L g. rewrite list_lookup_insert. case_decide; [intros [= ->]; by edestruct Ht'|apply Hts].
  - intros j j' u u' Hne. rewrite !list_lookup_insert.
    case_decide; case_decide; [intuition congruence|..]; [intros [= <-] _|intros _ [= <-]|by apply Hlk];
      rewrite Hheld; set_solver.
Qed.

Lemma pool_step_numbered P o P' : numbered_pool P -> pool_step P o P' -> numbered_pool P'.
Proof.
  intros Hok Hst.
  destruct Hst as [P o P' [i w ts B c k l L g Hi Hb out|i w ts p l L g r Hi Hr]|i w ts p l L g Hi];
    [|by eapply numbered_pool_close..].
  pose proof Hok as [Hw Hts Hlk]. simpl in *. destruct (Hts i _ _ _ _ Hi) as [Hlog Hnum].
  destruct (step_log_numbered c w l L Hlog Hw Hnum) as (Hle & Hw' & Hnum' & Hst). fold out in Hle, Hw', Hnum', Hst.
  assert (Hothers : forall j t, j <> i -> ts !! j = Some t -> held t ## L ∪ wants c (w, l)).
  { intros j t Hne Hj. apply disjoint_union_r. split; [by apply (Hlk j i t _ Hne Hj Hi)|by eapply not_blocked]. }
  assert (Hlt : i < length ts) by by eapply lookup_lt_Some.
  split; [done|..]; simpl.
  - intros j p l' L' g'. rewrite list_lookup_insert. case_decide as E.
    + intros [= <- <- <- <-]. split; [by apply step_log_ok|done].
    + intros Hj. destruct (Hts j _ _ _ _ Hj) as [(Hs & HL & Hv) Hnumj].
      assert (Hd : L' ## L ∪ wants c (w, l)) by (apply (Hothers j _) in Hj; [done|]; intros ->; by destruct E).
      split; [split; [done|split; [done|]]|].
      * eapply agree_valid; [by apply (step_agree c w l L)|done|done].
      * eapply log_numbered_others; [done..|]. intros x Hx. apply Hst. set_solver.
  - intros j j' t t' Hne. rewrite !list_lookup_insert. pose proof (keeps_subset c (w, l) out.2 L) as Hk.
    case_decide as E; case_decide as E'; [intuition congruence|..].
    + intros [= <-] Hj'. simpl. destruct E as [<- _]. specialize (Hothers j' t'). set_solver.
    + intros Hj [= <-]. simpl. destruct E' as [<- _]. specialize (Hothers j t). set_solver.
    + by apply Hlk.
Qed.

Lemma runs_numbered P order P' : numbered_pool P -> runs P order P' -> numbered_pool P'.
Proof. intros Hok Hr. induction Hr as [|P P1 P2 o order Hst _ IH]; [done|]. by eapply IH, pool_step_numbered. Qed.

(** A pool of new threads. *)
Lemma numbered_start w ts : well_numbered w ->
  (forall i t, ts !! i = Some t -> exists (p : prog R) now, t = newborn p now) -> numbered_pool (w, ts).
Proof.
  intros Hw Hts. split; [done|..]; simpl.
  - intros i p l L g Hi. destruct (Hts i _ Hi) as (p' & now & [= -> -> -> ->]).
    split; [|by apply log_numbered_nil]. split; [done|]. split; [|done]. unfold needs_log, needs_all. simpl. set_solver.
  - intros i j t t' _ Hi _. destruct (Hts i _ Hi) as (p & now & ->). simpl. apply disjoint_empty_l.
Qed.
End pool.

(** ** Reading a statement *)
Section statements.
Context `{Env} `{Crypto} `{JsonCodec}.

(** The page of a wallet's statement: its entries, newest first, [limit] of them
    from [offset] on; numbers past INTEGER are refused by the database. *)
Definition page (i : uuid) (limit offset : nat) (d : Database) : exn + list LedgerEntry.row :=
  if LedgerRepository.page_fits limit offset
  then inr (take limit (drop offset (reverse (statement i (ledger_entries d)))))
  else inl (DBError DataError).

Lemma statement_read w now i limit offset : ascending (statement i (ledger_entries (db w))) ->
  run (LedgerRepository.get_entries_for_wallet i limit offset) (at_log w [] now) =
    (page i limit offset (db w), at_log w [] now).
Proof.
  intros Ha. unfold page, LedgerRepository.get_entries_for_wallet.
  destruct (LedgerRepository.page_fits limit offset); [|done].
  assert (Hp : wp (raise_if false (DBError DataError);; call (Query (LedgerRepository.entries_for_wallet i limit offset)))
    (fun r s' => r = inr (take limit (drop offset (reverse (statement i (ledger_entries (db w)))))) /\
       s' = at_log w [] now) (at_log w [] now)).
  { apply wp_bind, wp_ret, wp_query. rewrite apply_writes_nil. unfold LedgerRepository.entries_for_wallet.
    fold (statement i (ledger_entries (db w))). by rewrite (merge_sort_ascending _ Ha). }
  apply wp_run in Hp as [H1' H2']. rewrite (surjective_pairing (run _ _)). by f_equal.
Qed.

Lemma reachable_numbered w : reachable w -> well_numbered w.
Proof.
  intros [_ [Hs Hb]]%reachable_sound. split; [done|]. intros i. by apply ascending_statement.
Qed.

Lemma muster_numbered js w : reachable w -> numbered_pool (muster w js).
Proof.
  intros Hw. apply numbered_start; [by apply reachable_numbered|]. intros i t Hi.
  apply list_lookup_fmap_Some in Hi as ([j now] & -> & _). by exists (work j), now.
Qed.
End statements.
