(* ===== verification/ApiFacts.v ===== *)
(** * What a request does to the tables and the cache

    Rules for the pieces a route is made of, the effect of every route on the
    wallets, and the coherence of the cache over any sequence of requests. *)
From S2P Require Import Prelude PyValues Schema Session Requests Repositories LedgerService Moves.
From S2P Require Import LedgerSpec Security AccountServices Publisher Analytics Reconciliation.
From S2P Require Import Atomicity Invariants System Accepted Cache Api.

Section facts.
Context `{Env} `{Crypto} `{JsonCodec} {C : Type} `{RedisClient C}.
Variable st : Settings.t.

(** ** Rules *)
Definition response_of {A} (r : exn + response A) : response A :=
  match r with inl e => ServerError e | inr resp => resp end.

Lemma serve_wp {A} (p : prog (response A)) (Ψ : response A -> World -> Prop) w :
  wp p (fun r s' => Ψ (response_of r) s'.1) (at_log w [] (clock (tick w))) ->
  Ψ (serve p w).1 (serve p w).2.
Proof.
  intros Hp%wp_run. unfold serve, fresh_local. by destruct (run p _) as [r s'].
Qed.

(** The world once the current time was read. *)
Definition asked (w : World) : World := mkWorld (db w) (next_seq w) (S (tick w)).

(** The user a token stands for when the request arrives. *)
Definition token_user (w : World) (token : string) : option User.row :=
  match decode_access_token st (clock (tick w)) token with
  | None => None
  | Some sub => match uuid_parse sub with Some i => users (db w) !! i | None => None end
  end.

Lemma wp_authenticated {A} token (route : User.row -> prog (response A)) Φ w now :
  (token_user w token = None ->
     Φ (inr (HTTPError 401 "Could not validate credentials")) (at_log (asked w) [] now)) ->
  (forall u, token_user w token = Some u -> wp (route u) Φ (at_log (asked w) [] now)) ->
  wp (authenticated st token route) Φ (at_log w [] now).
Proof.
  unfold token_user. intros Hno Hok. unfold authenticated.
  apply wp_bind, wp_now, wp_bind. unfold get_current_user.
  destruct (decode_access_token _ _ _) as [sub|]; [|by apply wp_ret, wp_ret, Hno].
  destruct (uuid_parse sub) as [i|]; [|by apply wp_ret, wp_ret, Hno].
  apply wp_query. rewrite apply_writes_nil. simpl.
  destruct (users (db w) !! i) as [u|] eqn:Eu; [by apply Hok|by apply wp_ret, Hno].
Qed.

(** The answer of every protected route to a stranger. *)
Definition unauthorized {A} : response A := HTTPError 401 "Could not validate credentials".

Lemma serve_stranger {A} token (route : User.row -> prog (response A)) w :
  token_user w token = None -> serve (authenticated st token route) w = (unauthorized, asked w).
Proof.
  intros Hno. rewrite (surjective_pairing (serve _ _)).
  apply (serve_wp (authenticated st token route) (fun r w' => (r, w') = (unauthorized, asked w))).
  apply wp_authenticated; [done|]. intros u Hu. by rewrite Hno in Hu.
Qed.

Lemma serve_known {A} token (route : User.row -> prog (response A)) w u Ψ :
  token_user w token = Some u ->
  wp (route u) (fun r s' => Ψ (response_of r) s'.1) (at_log (asked w) [] (clock (tick w))) ->
  Ψ (serve (authenticated st token route) w).1 (serve (authenticated st token route) w).2.
Proof.
  intros Hu Hroute. apply (serve_wp (authenticated st token route)), wp_authenticated; intros.
  - by rewrite Hu in *.
  - congruence.
Qed.

Lemma wp_validated {A} b (route : prog (response A)) Φ s :
  Φ (inr (HTTPError 422 "")) s -> (b = true -> wp route Φ s) -> wp (validated b route) Φ s.
Proof. intros Hno Hok. destruct b; [by apply Hok|by apply wp_ret]. Qed.

Lemma wp_http {A} (p : prog A) errors Φ s :
  wp p (fun r s' => match r with
                    | inl e => match errors e with
                               | Some (status, detail) => Φ (inr (HTTPError status detail)) s'
                               | None => Φ (inl e) s'
                               end
                    | inr a => Φ (inr (Reply a)) s'
                    end) s ->
  wp (http p errors) Φ s.
Proof.
  intros Hp. unfold http. apply wp_try_except, wp_bind. eapply wp_mono; [exact Hp|].
  intros [e|a] s' HΦ; simpl in *.
  - destruct (errors e) as [[status detail]|]; [by apply wp_ret|done].
  - by apply wp_ret.
Qed.

(** A service that raises an exception the route names. *)
Lemma serve_refused {A} token (op : User.row -> prog A) errors w u e code detail :
  token_user w token = Some u -> errors e = Some (code, detail) ->
  wp (op u) (fun r s' => r = inl e /\ db s'.1 = db w) (at_log (asked w) [] (clock (tick w))) ->
  let out := serve (authenticated st token (fun u => validated true (http (op u) errors))) w in
  out.1 = HTTPError code detail /\ db out.2 = db w.
Proof.
  intros Hu He Hop. apply (serve_known token _ w u (fun r w' => r = HTTPError code detail /\ db w' = db w) Hu).
  apply wp_http. eapply wp_mono; [exact Hop|]. intros r s' [-> Hdb]. by rewrite He.
Qed.

(** Nothing is busted when the service refuses. *)
Lemma busting_refused {A B} (p : prog (response A)) ids (f : A -> response B) w (c : C) code detail :
  (let out := serve p w in out.1 = HTTPError code detail /\ db out.2 = db w) ->
  let out := busting p ids f (w, c) in
  out.1 = HTTPError code detail /\ db out.2.1 = db w /\ out.2.2 = c.
Proof. unfold busting. destruct (serve p w) as [r w']. simpl. by intros [-> Hdb]. Qed.

(** A wallet the user has no business with: missing, or another user's. *)
Definition hidden (d : Database) (i : uuid) (u : User.row) : Prop :=
  forall r, wallets d !! i = Some r -> Wallet.user_id r <> User.id u.

Lemma hidden_not_found d i u : hidden d i u ->
  exists e, owned_wallet d i (User.id u) = inl e /\
    (e = WalletNotFoundError i \/ e = WalletAccessDeniedError i).
Proof.
  intros Hh. unfold owned_wallet. destruct (wallets d !! i) as [r|] eqn:Er; [|eauto].
  rewrite decide_False by by apply Hh. eauto.
Qed.

Lemma deposit_hidden d i u data : hidden d i u ->
  exists e, deposit_guard d i (User.id u) data = inl e /\
    deposit_errors e = Some (404%Z, "Wallet not found.").
Proof.
  intros (e & He & Hor)%hidden_not_found. exists e. unfold deposit_guard. rewrite He.
  by destruct Hor as [->| ->].
Qed.

Lemma withdraw_hidden d i u data key : hidden d i u ->
  exists e, withdraw_guard d i (User.id u) data key = inl e /\
    withdraw_errors e = Some (404%Z, "Wallet not found.").
Proof.
  intros (e & He & Hor)%hidden_not_found. exists e. unfold withdraw_guard. rewrite He.
  by destruct Hor as [->| ->].
Qed.

Lemma transfer_hidden d i u data key : hidden d i u ->
  exists e, transfer_guard d i (User.id u) data key = inl e /\
    transfer_errors e = Some (404%Z, "Wallet not found.").
Proof.
  intros (e & He & Hor)%hidden_not_found. exists e. unfold transfer_guard. rewrite He.
  by destruct Hor as [->| ->].
Qed.

Lemma outcome_refused {R} w now e (f : Transaction.row -> Wallet.row -> R) r s' :
  outcome w now (inl e) f r s' -> r = inl e /\ db s'.1 = db w.
Proof. by intros [-> ->]. Qed.

(** Each route on a hidden wallet. *)
Section hidden_routes.
Context (w : World) (c : C) (token : string) (u : User.row) (i : uuid).
Context (Hk : keyed (db w)) (Hu : token_user w token = Some u) (Hh : hidden (db w) i u).

Definition concealed {A} (out : response A * (World * C)) : Prop :=
  out.1 = HTTPError 404 "Wallet not found." /\ db out.2.1 = db w /\ out.2.2 = c.

Lemma deposit_concealed data : DepositRequest.valid data = true ->
  concealed (post_deposit st token i data (w, c)).
Proof using Hk Hu Hh.
  intros Hv. destruct (deposit_hidden _ _ _ data Hh) as (e & Hg & He).
  apply busting_refused. rewrite Hv. apply (serve_refused token _ _ w u e); [done..|].
  eapply wp_mono; [by apply wp_deposit|]. intros r s'. simpl. rewrite Hg.
  intros Ho%outcome_refused. exact Ho.
Qed.

Lemma withdraw_concealed data key : WithdrawalRequest.valid data = true ->
  known_key (db w) key = None -> concealed (post_withdraw st token i data key (w, c)).
Proof using Hk Hu Hh.
  intros Hv Hn. destruct (withdraw_hidden _ _ _ data key Hh) as (e & Hg & He).
  apply busting_refused. rewrite Hv. apply (serve_refused token _ _ w u e); [done..|].
  eapply wp_mono; [by apply wp_withdraw|]. intros r s'. unfold keyed_outcome. simpl.
  rewrite Hn, Hg. intros Ho%outcome_refused. exact Ho.
Qed.

Lemma transfer_concealed data key : TransferRequest.valid data = true ->
  known_key (db w) key = None -> i <> TransferRequest.recipient_wallet_id data ->
  concealed (post_transfer st token i data key (w, c)).
Proof using Hk Hu Hh.
  intros Hv Hn Hne. destruct (transfer_hidden _ _ _ data key Hh) as (e & Hg & He).
  apply busting_refused. rewrite Hv. apply (serve_refused token _ _ w u e); [done..|].
  eapply wp_mono; [by apply wp_transfer|]. intros r s'. unfold keyed_outcome. simpl.
  rewrite Hn, Hg. intros Ho%outcome_refused. exact Ho.
Qed.

Lemma statement_concealed limit offset : 1 <= limit <= 100 ->
  let out := serve (list_transactions st token i limit offset) w in
  out.1 = HTTPError 404 "Wallet not found." /\ db out.2 = db w.
Proof using Hk Hu Hh.
  intros [Hlo Hhi]. apply (serve_known token _ w u
    (fun r w' => r = HTTPError 404 "Wallet not found." /\ db w' = db w) Hu).
  apply Nat.leb_le in Hlo as ->, Hhi as ->.
  apply wp_bind, wp_query. rewrite apply_writes_nil. simpl.
  destruct (wallets (db w) !! i) as [r|] eqn:Er; [|by apply wp_ret].
  rewrite decide_True by by apply Hh. by apply wp_ret.
Qed.
End hidden_routes.

(** ** What the services do to the wallets *)

(** Only wallets in [ids] may change, and only when there is an answer. *)
Definition only_touches {R} (w : World) (ids : list uuid) (r : exn + R) (s' : session) : Prop :=
  wallets (db s'.1) = wallets (db w) \/
  ((exists a, r = inr a) /\ forall j, j ∉ ids -> wallets (db s'.1) !! j = wallets (db w) !! j).

Lemma outcome_touches {R} w now g (f : Transaction.row -> Wallet.row -> R) r s' ids :
  (forall m, g = inr m -> sound_move (db w) m /\ (mv_sets m).*1 = ids) ->
  outcome w now g f r s' -> only_touches w ids r s'.
Proof.
  intros Hg Ho. unfold outcome in Ho. destruct g as [e|m].
  - destruct Ho as [_ ->]. by left.
  - destruct Ho as [(_ & (Hdb & _) & _)|(Hv & -> & wal & _ & Hr)].
    + left. by rewrite Hdb.
    + right. split; [eauto|]. intros j Hj. destruct (Hg m eq_refl) as [Hs He].
      simpl. apply set_rows_lookup; [apply Hs|by rewrite He].
Qed.

Lemma keyed_outcome_touches w now key i g r s' ids :
  (forall m, g = inr m -> sound_move (db w) m /\ (mv_sets m).*1 = ids) ->
  keyed_outcome w now key i g r s' -> only_touches w ids r s'.
Proof.
  intros Hg. unfold keyed_outcome. destruct (known_key _ _); [|by apply outcome_touches].
  intros [_ ->]. by left.
Qed.

Lemma deposit_touches w now wid rid data : keyed (db w) ->
  wp (deposit wid rid data) (only_touches w [wid]) (at_log w [] now).
Proof.
  intros Hk. eapply wp_mono; [by apply wp_deposit|]. intros r s'. apply outcome_touches.
  intros m Hg. split; [by eapply deposit_sound|].
  apply deposit_guard_inv in Hg as (a & Ha & _ & ->). simpl. by rewrite (proj1 Hk _ _ Ha).
Qed.

Lemma withdraw_touches w now wid rid data key : keyed (db w) ->
  wp (withdraw wid rid data key) (only_touches w [wid]) (at_log w [] now).
Proof.
  intros Hk. eapply wp_mono; [by apply wp_withdraw|]. intros r s'. apply keyed_outcome_touches.
  intros m Hg. split; [by eapply withdraw_sound|].
  apply withdraw_guard_inv in Hg as (a & Ha & _ & ->). simpl. by rewrite (proj1 Hk _ _ Ha).
Qed.

Lemma transfer_touches w now sid rid data key : keyed (db w) ->
  wp (transfer sid rid data key)
    (only_touches w [sid; TransferRequest.recipient_wallet_id data]) (at_log w [] now).
Proof.
  intros Hk. destruct (decide (sid = TransferRequest.recipient_wallet_id data)) as [He|Hne].
  - eapply wp_mono; [by apply wp_transfer_same|]. intros r s' [_ ->]. by left.
  - eapply wp_mono; [by apply wp_transfer|]. intros r s'. apply keyed_outcome_touches.
    intros m Hg. split; [by eapply transfer_sound|].
    apply transfer_guard_inv in Hg as (a & b & Ha & _ & Hb & ->). simpl.
    by rewrite (proj1 Hk _ _ Ha), (proj1 Hk _ _ Hb).
Qed.

(** The wallet a service answers with is the row the tables then hold. *)
Definition answers_row {R} (i : uuid) (row_of : R -> option Wallet.row) (r : exn + R) (s' : session)
    : Prop :=
  match r with
  | inl _ => True
  | inr a => forall wal, row_of a = Some wal -> wallets (db s'.1) !! i = Some wal
  end.

Lemma outcome_answers_row {R} w now g (f : Transaction.row -> Wallet.row -> R) r s' i row_of :
  (forall m, g = inr m -> mv_wallet m = i) -> (forall t wal, row_of (f t wal) = Some wal) ->
  outcome w now g f r s' -> answers_row i row_of r s'.
Proof.
  intros Hg Hf. unfold outcome. destruct g as [e|m]; [by intros [-> _]|].
  intros [(_ & _ & e & ->)|(_ & -> & wal & Hwal & ->)]; [done|].
  intros wal'. rewrite Hf. intros [= <-]. by rewrite <- (Hg m eq_refl).
Qed.

Lemma keyed_outcome_answers_row w now key i g r s' :
  (forall m, g = inr m -> mv_wallet m = i) ->
  keyed_outcome w now key i g r s' -> answers_row i snd r s'.
Proof.
  intros Hg. unfold keyed_outcome. destruct (known_key _ _); [|by apply outcome_answers_row].
  by intros [-> ->] wal.
Qed.

Lemma deposit_answers_row i rid data w now : keyed (db w) ->
  wp (deposit i rid data) (answers_row i (fun tw => Some tw.2)) (at_log w [] now).
Proof.
  intros Hk. eapply wp_mono; [by apply wp_deposit|]. intros r s'. apply outcome_answers_row; [|done].
  intros m (a & Ha & _ & ->)%deposit_guard_inv. by apply (proj1 Hk) in Ha.
Qed.

Lemma withdraw_answers_row i rid data key w now : keyed (db w) ->
  wp (withdraw i rid data key) (answers_row i snd) (at_log w [] now).
Proof.
  intros Hk. eapply wp_mono; [by apply wp_withdraw|]. intros r s'. apply keyed_outcome_answers_row.
  intros m (a & Ha & _ & ->)%withdraw_guard_inv. by apply (proj1 Hk) in Ha.
Qed.

Lemma transfer_answers_row i rid data key w now : keyed (db w) ->
  wp (transfer i rid data key) (answers_row i snd) (at_log w [] now).
Proof.
  intros Hk. destruct (decide (i = TransferRequest.recipient_wallet_id data)) as [He|Hne].
  - eapply wp_mono; [by apply wp_transfer_same|]. by intros r s' [-> _].
  - eapply wp_mono; [by apply wp_transfer|]. intros r s'. apply keyed_outcome_answers_row.
    intros m (a & b & Ha & _ & _ & ->)%transfer_guard_inv. by apply (proj1 Hk) in Ha.
Qed.

(** The same of a served money route. *)
Lemma serve_answers_row {A} token valid (op : User.row -> prog A) errors w i row_of a :
  (forall u now, wp (op u) (answers_row i row_of) (at_log (asked w) [] now)) ->
  let out := serve (authenticated st token (fun u => validated valid (http (op u) errors))) w in
  out.1 = Reply a -> forall wal, row_of a = Some wal -> wallets (db out.2) !! i = Some wal.
Proof.
  intros Hop. apply (serve_wp (authenticated st token _) (fun r w' => r = Reply a ->
    forall wal, row_of a = Some wal -> wallets (db w') !! i = Some wal)).
  apply wp_authenticated; [done|]. intros u _. apply wp_validated; [done|]. intros _.
  apply wp_http. eapply wp_mono; [apply Hop|]. intros [e|b] s' Hb; simpl.
  - by destruct (errors e) as [[]|].
  - by intros [= <-].
Qed.

(** The served part of a money route. *)
Lemma serve_touches {A} token (valid : bool) (op : User.row -> prog A) errors w ids :
  (forall u now, wp (op u) (only_touches (asked w) ids) (at_log (asked w) [] now)) ->
  let p := authenticated st token (fun u => validated valid (http (op u) errors)) in
  wallets (db (serve p w).2) = wallets (db w) \/
  ((exists a, (serve p w).1 = Reply a) /\
   forall j, j ∉ ids -> wallets (db (serve p w).2) !! j = wallets (db w) !! j).
Proof.
  intros Hop p. apply (serve_wp p (fun r w' => wallets (db w') = wallets (db w) \/
    ((exists a, r = Reply a) /\ forall j, j ∉ ids -> wallets (db w') !! j = wallets (db w) !! j))).
  apply wp_authenticated; [intros _; by left|]. intros u _. apply wp_validated; [by left|]. intros _.
  apply wp_http. eapply wp_mono; [apply Hop|].
  intros r s' [Hsame|[[a ->] Hj]]; [|right; eauto].
  destruct r as [e|a]; [destruct (errors e) as [[]|]|]; by left.
Qed.

Lemma wp_part_effect {A} token (valid : bool) (op : User.row -> prog A) errors w now :
  (forall u, activity A (op u)) -> keyed (db w) ->
  wp (authenticated st token (fun u => validated valid (http (op u) errors)))
    (fun _ s' => effect (db w) (db s'.1)) (at_log w [] now).
Proof.
  intros Hop Hk.
  apply wp_authenticated; [intros; apply eff_ledger, eff_none|]. intros u _.
  apply wp_validated; [intros; apply eff_ledger, eff_none|]. intros _.
  apply wp_http. apply (wp_mono _ (fun _ s' => effect (db w) (db s'.1))).
  - apply wp_run. exact (activity_effect (op u) (asked w) _ (Hop u) Hk).
  - intros [e|a] s' He; [destruct (errors e) as [[]|]|]; exact He.
Qed.

Lemma serve_effect {A} token (valid : bool) (op : User.row -> prog A) errors w :
  (forall u, activity A (op u)) -> keyed (db w) ->
  let p := authenticated st token (fun u => validated valid (http (op u) errors)) in
  effect (db w) (db (serve p w).2).
Proof.
  intros Hop Hk p. apply (serve_wp p (fun _ w' => effect (db w) (db w'))). by apply wp_part_effect.
Qed.

(** ** The balance route without its cache *)
Definition balance_spec (w : World) (token : string) (i : uuid) : response BalanceRead.t :=
  match token_user w token with
  | None => HTTPError 401 "Could not validate credentials"
  | Some u =>
      match wallets (db w) !! i with
      | Some r => if decide (Wallet.user_id r = User.id u) then Reply (balance_of_row r)
                  else HTTPError 404 "Wallet not found."
      | None => HTTPError 404 "Wallet not found."
      end
  end.

(** What the cache may hold: the current row of an existing wallet. *)
Definition coherent (wc : World * C) : Prop :=
  forall j p, (j < uuid_bound)%N -> BalanceCache.get j wc.2 = Some p ->
    exists r, wallets (db wc.1) !! j = Some r /\ p = balance_payload r.

Lemma balance_payload_read r : (Wallet.id r < uuid_bound)%N ->
  balance_of_cached (balance_payload r) = Reply (balance_of_row r).
Proof.
  intros Hr. unfold balance_of_cached.
  change (match uuid_parse (uuid_str (Wallet.id r)) with
          | Some i => Reply (BalanceRead.mk i (Wallet.currency r) (Wallet.available_balance r)
              (Wallet.locked_balance r) (isoformat (Wallet.updated_at r)))
          | None => ServerError ValueError
          end = Reply (balance_of_row r)).
  by rewrite uuid_parse_str_aux.
Qed.

Lemma balance_hit_owned u r : (Wallet.user_id r < uuid_bound)%N -> (User.id u < uuid_bound)%N ->
  (Wallet.id r < uuid_bound)%N ->
  balance_hit u (balance_payload r) =
    if decide (Wallet.user_id r = User.id u) then Reply (balance_of_row r)
    else HTTPError 404 "Wallet not found.".
Proof.
  intros Ho Hu Hi. unfold balance_hit.
  change (balance_payload r !! "user_id") with (Some (JStr (uuid_str (Wallet.user_id r)))). cbv iota.
  case_decide as E; case_decide as E'.
  - by apply balance_payload_read.
  - assert (uuid_str (Wallet.user_id r) = uuid_str (User.id u)) as E2 by congruence.
    by apply uuid_str_inj in E2.
  - by rewrite E' in E.
  - done.
Qed.

Lemma token_user_keyed w token u : wf (db w) -> token_user w token = Some u ->
  users (db w) !! User.id u = Some u.
Proof.
  intros [Hi _ _]. unfold token_user. destruct (decode_access_token _ _ _) as [sub|]; [|done].
  destruct (uuid_parse sub) as [i|]; [|done]. intros Hu. by rewrite (iw_user_keyed _ Hi _ _ Hu).
Qed.

Lemma wp_get_balance i rid Φ w now :
  Φ (match owned_wallet (db w) i rid with inl e => inl e | inr r => inr r end) (at_log w [] now) ->
  wp (WalletService.get_balance i rid) Φ (at_log w [] now).
Proof.
  unfold WalletService.get_balance, owned_wallet. intros HΦ. apply wp_bind, wp_query.
  rewrite apply_writes_nil. destruct (wallets (db w) !! i) as [r|]; [|by apply wp_bind, wp_raise].
  apply wp_bind, wp_ret, wp_bind, wp_raise_if.
  - intros Hne%bool_decide_eq_true. by rewrite decide_False in HΦ.
  - intros Hne%bool_decide_eq_false%dec_stable. rewrite decide_True in HΦ by done. by apply wp_ret.
Qed.

(** With a coherent cache the route answers as if it had none, from the tables,
    and stores nothing but the current row. *)
Lemma get_balance_spec token i w c : wf (db w) -> sized (db w) -> (i < uuid_bound)%N ->
  coherent (w, c) ->
  let out := get_balance st token i (w, c) in
  out.1 = balance_spec w token i /\ db out.2.1 = db w /\
  (out.2.2 = c \/ exists r, wallets (db w) !! i = Some r /\
     out.2.2 = BalanceCache.set BalanceCache.default_ttl i (balance_payload r) c).
Proof.
  intros Hw (Hus & Hws & _) Hi Hco. cbv zeta. unfold get_balance. set (p := authenticated st token _).
  pose proof (serve_wp p (fun r w' => db w' = db w /\
    match r with
    | Reply (inl b) => balance_spec w token i = Reply b
    | Reply (inr r) => wallets (db w) !! i = Some r /\ balance_spec w token i = Reply (balance_of_row r)
    | HTTPError a b => balance_spec w token i = HTTPError a b
    | ServerError e => False
    end) w) as Hs.
  destruct (serve p w) as [resp w']. simpl in Hs.
  assert (Hpost : db w' = db w /\ match resp with
    | Reply (inl b) => balance_spec w token i = Reply b
    | Reply (inr r) => wallets (db w) !! i = Some r /\ balance_spec w token i = Reply (balance_of_row r)
    | HTTPError a b => balance_spec w token i = HTTPError a b
    | ServerError e => False
    end).
  { apply Hs. unfold p. apply wp_authenticated; unfold balance_spec.
    - intros Hno. by rewrite Hno.
    - intros u Hu. rewrite Hu. pose proof (token_user_keyed _ _ _ Hw Hu) as Huk.
      destruct (BalanceCache.get i c) as [payload|] eqn:Ec.
      + apply wp_ret. split; [done|]. simpl.
        destruct (Hco i payload Hi Ec) as (r & Hr & ->). simpl in Hr.
        rewrite balance_hit_owned; [|apply Hus; by eapply iw_owner; [apply Hw|]|apply Hus; eauto|].
        * rewrite Hr. by case_decide.
        * rewrite (proj1 (lw_keyed _ (wf_ledger _ Hw)) _ _ Hr). done.
      + apply wp_http, wp_bind, wp_get_balance. simpl. unfold owned_wallet.
        destruct (wallets (db w) !! i) as [r|]; [|done].
        case_decide; [|done]. by apply wp_ret. }
  clear Hs. destruct Hpost as [Hdb Hresp].
  destruct resp as [[b|r]|a b|e]; simpl; [by eauto| |by eauto|done].
  destruct Hresp as [Hr ->]. eauto 6.
Qed.

(** ** Any sequence of requests *)
Context (works : C -> Prop) `{!RedisLaws C works}.

(** One request, or anything that leaves the wallets that exist as they are
    (registrations, new wallets, the workers, crashes of these), or the cache
    dropping entries on its own. *)
Inductive server_step : World * C -> World * C -> Prop :=
  | srv_deposit token i data wc : (i < uuid_bound)%N ->
      server_step wc (post_deposit st token i data wc).2
  | srv_transfer token i data key wc : (i < uuid_bound)%N ->
      (TransferRequest.recipient_wallet_id data < uuid_bound)%N ->
      server_step wc (post_transfer st token i data key wc).2
  | srv_withdraw token i data key wc : (i < uuid_bound)%N ->
      server_step wc (post_withdraw st token i data key wc).2
  | srv_balance token i wc : (i < uuid_bound)%N -> server_step wc (get_balance st token i wc).2
  | srv_quiet w w' c : step w w' ->
      (forall i r, wallets (db w) !! i = Some r -> wallets (db w') !! i = Some r) ->
      server_step (w, c) (w', c)
  | srv_expiry w c c' : works c' ->
      (forall j p, BalanceCache.get j c' = Some p -> BalanceCache.get j c = Some p) ->
      server_step (w, c) (w, c').

Definition server_inv (wc : World * C) : Prop :=
  wf (db wc.1) /\ sized (db wc.1) /\ works wc.2 /\ coherent wc.

Lemma coherent_same w w' c : coherent (w, c) ->
  (forall i r, wallets (db w) !! i = Some r -> wallets (db w') !! i = Some r) -> coherent (w', c).
Proof. intros Hco Hw j p Hj Hp. destruct (Hco j p Hj Hp) as (r & Hr & ->). eauto. Qed.

(** A money route: the wallets it may have changed are the ones it busts. *)
Lemma busting_inv {A B} token valid (op : User.row -> prog A) errors ids
    (f : A -> response B) wc : ids128 ->
  (forall u, activity A (op u)) ->
  (forall w u now, keyed (db w) -> wp (op u) (only_touches w ids) (at_log w [] now)) ->
  server_inv wc ->
  server_inv (busting (authenticated st token (fun u => validated valid (http (op u) errors)))
                (Some <$> ids) f wc).2.
Proof using All.
  destruct wc as [w c]. intros Hids Hact Htouch (Hw & Hs & Hworks & Hco). unfold busting.
  pose proof (lw_keyed _ (wf_ledger _ Hw)) as Hk.
  pose proof (serve_effect token valid op errors w Hact Hk) as He.
  pose proof (serve_touches token valid op errors w ids) as Ht. cbv zeta in *.
  destruct (serve _ w) as [r w']. simpl in *.
  assert (Hsame : wallets (db w') = wallets (db w) -> coherent (w', c)).
  { intros Heq. apply (coherent_same w); [done|]. by rewrite Heq. }
  split; [by apply (effect_wf (db w))|]. split; [by apply (effect_sized (db w))|].
  destruct Ht as [Heq|[[a ->] Hj]]; [intros u now; by apply Htouch| |].
  - destruct r as [a| |]; [|by split; [|apply Hsame]..]. split; [by apply invalidate_works|].
    intros j p Hj Hp. apply (get_after_invalidate works) in Hp as [Hp _]. by apply Hsame.
  - split; [by apply invalidate_works|]. intros j p Hjb Hp.
    apply (get_after_invalidate works) in Hp as [Hp Hnin]. specialize (Hnin Hworks).
    destruct (Hco j p Hjb Hp) as (r & Hr & ->). exists r. split; [|done]. simpl in *.
    rewrite Hj; [done|]. intros Hin. apply Hnin. by apply list_elem_of_fmap_2.
Qed.

Lemma server_step_inv wc wc' : ids128 -> server_step wc wc' -> server_inv wc -> server_inv wc'.
Proof using All.
  intros Hids [token i data wc0 Hi|token i data key wc0 Hi Hr|token i data key wc0 Hi|
    token i [w c] Hi|w w' c Hst Hq|w c c' Hc' Hexp] Hinv.
  - apply (busting_inv _ _ (fun u => deposit i (User.id u) data) _ [i]); [done|constructor| |done].
    intros w u now. apply deposit_touches.
  - apply (busting_inv _ _ (fun u => transfer i (User.id u) data key) _
      [i; TransferRequest.recipient_wallet_id data]); [done|constructor| |done].
    intros w u now. apply transfer_touches.
  - apply (busting_inv _ _ (fun u => withdraw i (User.id u) data key) _ [i]); [done|constructor| |done].
    intros w u now. apply withdraw_touches.
  - destruct Hinv as (Hw & Hs & Hworks & Hco).
    destruct (get_balance_spec token i w c Hw Hs Hi Hco) as (_ & Hdb & Hc).
    destruct (get_balance st token i (w, c)) as [resp [w' c']]. simpl in *.
    unfold server_inv, coherent. simpl. rewrite Hdb. split; [done|]. split; [done|].
    destruct Hc as [->|(r & Hr & ->)]; [done|]. split; [by apply (set_works works)|].
    intros j p Hj [[<- ->]|Hp]%(get_after_set works); by eauto.
  - destruct Hinv as (Hw & Hs & Hworks & Hco). split; [by apply (step_wf w)|]. split.
    + eapply effect_sized; [done| |exact Hs]. apply step_effect; [done|apply Hw].
    + split; [done|]. by apply (coherent_same w).
  - destruct Hinv as (Hw & Hs & Hworks & Hco). do 3 (split; [done|]).
    intros j p Hj Hp. by apply Hco, Hexp.
Qed.

(** Whatever a money route answers for a wallet, the balance route then agrees. *)
Lemma balance_agrees wc token i wal b : server_inv wc -> (i < uuid_bound)%N ->
  wallets (db wc.1) !! i = Some wal -> (get_balance st token i wc).1 = Reply b ->
  BalanceRead.available_balance b = Wallet.available_balance wal.
Proof using All.
  destruct wc as [w c]. intros (Hw & Hs & _ & Hco) Hi Hwal.
  rewrite (proj1 (get_balance_spec token i w c Hw Hs Hi Hco)). unfold balance_spec. simpl in Hwal.
  destruct (token_user w token); [|done]. rewrite Hwal. case_decide; [|done]. by intros [= <-].
Qed.

Lemma busting_reply {A B} (p : prog (response A)) ids (f : A -> response B) (wc : World * C) b :
  (busting p ids f wc).1 = Reply b ->
  exists a, (serve p wc.1).1 = Reply a /\ f a = Reply b /\
    (busting p ids f wc).2.1 = (serve p wc.1).2.
Proof.
  destruct wc as [w c]. unfold busting. simpl. destruct (serve p w) as [[a| |] w']; simpl; eauto; done.
Qed.

(** What the routes answer, read back. *)
Section read_back.
Context (wc : World * C) (token : string) (i : uuid).
Context (Hids : ids128) (Hinv : server_inv wc) (Hi : (i < uuid_bound)%N).

#[local] Lemma keyed_now : keyed (db (asked wc.1)).
Proof using Hinv. exact (lw_keyed _ (wf_ledger _ (proj1 Hinv))). Qed.

Lemma deposit_read_back data m b : let out := post_deposit st token i data wc in
  out.1 = Reply m -> (get_balance st token i out.2).1 = Reply b ->
  BalanceRead.available_balance b = DepositResponse.available_balance m.
Proof using All.
  assert (Hn : server_inv (post_deposit st token i data wc).2).
  { apply (server_step_inv wc); [done|by constructor|done]. }
  cbv zeta. intros (a & Ha & [= <-] & Hw')%busting_reply Hb.
  eapply balance_agrees; [exact Hn|done| |exact Hb].
  unfold post_deposit. rewrite Hw'.
  eapply (serve_answers_row _ _ _ _ _ _ (fun tw => Some tw.2)); [|exact Ha|done].
  intros u now. apply deposit_answers_row, keyed_now.
Qed.

Lemma move_read_back (p : prog (response (Transaction.row * option Wallet.row))) ids m b :
  let out := busting p ids move_response wc in
  server_inv out.2 ->
  (forall a, (serve p wc.1).1 = Reply a -> forall wal, a.2 = Some wal ->
     wallets (db (serve p wc.1).2) !! i = Some wal) ->
  out.1 = Reply m -> (get_balance st token i out.2).1 = Reply b ->
  BalanceRead.available_balance b = MoveResponse.available_balance m.
Proof using All.
  cbv zeta. intros Hout Hrow (a & Ha & Hm & Hw')%busting_reply Hb.
  unfold move_response in Hm. destruct (a.2) as [wal|] eqn:Ewal; [|done]. injection Hm as <-.
  eapply balance_agrees; [exact Hout|done| |exact Hb]. rewrite Hw'. by apply (Hrow a).
Qed.

Lemma withdraw_read_back data key m b : let out := post_withdraw st token i data key wc in
  out.1 = Reply m -> (get_balance st token i out.2).1 = Reply b ->
  BalanceRead.available_balance b = MoveResponse.available_balance m.
Proof using All.
  apply move_read_back; [apply (server_step_inv wc); [done|by constructor|done]|].
  intros a Ha wal Hwal. eapply serve_answers_row; [|exact Ha|exact Hwal].
  intros u now. apply withdraw_answers_row, keyed_now.
Qed.

Lemma transfer_read_back data key m b :
  (TransferRequest.recipient_wallet_id data < uuid_bound)%N ->
  let out := post_transfer st token i data key wc in
  out.1 = Reply m -> (get_balance st token i out.2).1 = Reply b ->
  BalanceRead.available_balance b = MoveResponse.available_balance m.
Proof using All.
  intros Hr. apply move_read_back; [apply (server_step_inv wc); [done|by constructor|done]|].
  intros a Ha wal Hwal. eapply serve_answers_row; [|exact Ha|exact Hwal].
  intros u now. apply transfer_answers_row, keyed_now.
Qed.
End read_back.

Lemma server_reachable_inv w0 c0 wc : ids128 -> reachable w0 -> works c0 ->
  (forall j, BalanceCache.get j c0 = None) ->
  rtc server_step (w0, c0) wc -> server_inv wc.
Proof using All.
  intros Hids Hw0 Hc0 Hempty Hst.
  enough (Hgen : forall a b, rtc server_step a b -> server_inv a -> server_inv b).
  { eapply Hgen; [exact Hst|]. pose proof (reachable_sound w0 Hw0) as [Hw _].
    split; [done|]. split; [by apply reachable_sized|]. split; [done|].
    intros j p _ Hp. simpl in Hp. by rewrite Hempty in Hp. }
  clear Hst. intros a b Hab. induction Hab as [|a a' b Hs _ IH]; [done|].
  intros Ha. apply IH. by apply (server_step_inv a).
Qed.
End facts.
