(* ===== verification/Routes.v ===== *)
(** * Requests in flight (src/app/api/routes/wallets.py)

    The routes that use the cache, cut where other requests can come in
    between: between the statements on the database and each operation on the
    cache.  Run without a break, they are the routes of Api.v. *)
From S2P Require Import Prelude PyValues Schema Session Requests Repositories LedgerService Moves.
From S2P Require Import LedgerSpec Security AccountServices Publisher Analytics Reconciliation.
From S2P Require Import Atomicity Invariants System Accepted Cache Api ApiFacts.

(** What is left of a route. *)
Inductive route (B : Type) : Type :=
  | Answer (r : response B)
  | Statements {A : Type} (p : prog A) (k : exn + A -> route B)   (* on the request's session *)
  | CacheGet (i : uuid) (k : option dict -> route B)
  | CacheSet (i : uuid) (payload : dict) (k : route B)
  | CacheBust (ids : list (option uuid)) (k : route B).
Arguments Answer {B} r.
Arguments Statements {B A} p k.
Arguments CacheGet {B} i k.
Arguments CacheSet {B} i payload k.
Arguments CacheBust {B} ids k.

Section routes.
Context `{Env} `{Crypto} `{JsonCodec} {C : Type} `{RedisClient C}.
Variable st : Settings.t.

(** ** The four routes *)
Definition get_balance_route (token : string) (wallet_id : uuid) : route BalanceRead.t :=
  Statements (now ← call Now; get_current_user st now token) (fun user =>
    match user with
    | inl e => Answer (ServerError e)
    | inr None => Answer (HTTPError 401 "Could not validate credentials")
    | inr (Some u) =>
        CacheGet wallet_id (fun cached =>
          match cached with
          | Some p => Answer (balance_hit u p)
          | None =>
              Statements (http (WalletService.get_balance wallet_id (User.id u)) not_found) (fun wallet =>
                match response_of wallet with
                | Reply row =>
                    CacheSet wallet_id (balance_payload row) (Answer (Reply (balance_of_row row)))
                | HTTPError status detail => Answer (HTTPError status detail)
                | ServerError e => Answer (ServerError e)
                end)
          end)
    end).

Definition busting_route {A B} (p : prog (response A)) (ids : list (option uuid)) (f : A -> response B)
    : route B :=
  Statements p (fun r =>
    match response_of r with
    | Reply a => CacheBust ids (Answer (f a))
    | HTTPError status detail => Answer (HTTPError status detail)
    | ServerError e => Answer (ServerError e)
    end).

(** A request, and the type of its answer. *)
Inductive api_call :=
  | GetBalance (token : string) (wallet_id : uuid)
  | PostDeposit (token : string) (wallet_id : uuid) (data : DepositRequest.t)
  | PostTransfer (token : string) (wallet_id : uuid) (data : TransferRequest.t)
      (idempotency_key : option string)
  | PostWithdraw (token : string) (wallet_id : uuid) (data : WithdrawalRequest.t)
      (idempotency_key : option string).

Definition body (q : api_call) : Type :=
  match q with
  | GetBalance _ _ => BalanceRead.t
  | PostDeposit _ _ _ => DepositResponse.t
  | PostTransfer _ _ _ _ | PostWithdraw _ _ _ _ => MoveResponse.t
  end.

Definition deposit_part (token : string) (i : uuid) (data : DepositRequest.t) :=
  authenticated st token (fun u => validated (DepositRequest.valid data)
    (http (deposit i (User.id u) data) deposit_errors)).
Definition transfer_part (token : string) (i : uuid) (data : TransferRequest.t) (key : option string) :=
  authenticated st token (fun u => validated (TransferRequest.valid data)
    (http (transfer i (User.id u) data key) transfer_errors)).
Definition withdraw_part (token : string) (i : uuid) (data : WithdrawalRequest.t) (key : option string) :=
  authenticated st token (fun u => validated (WithdrawalRequest.valid data)
    (http (withdraw i (User.id u) data key) withdraw_errors)).

Definition route_of (q : api_call) : route (body q) :=
  match q with
  | GetBalance token i => get_balance_route token i
  | PostDeposit token i data =>
      busting_route (deposit_part token i data) [Some i]
        (fun tw => Reply (DepositResponse.mk (Transaction.id tw.1) (Wallet.available_balance tw.2)
                            (Wallet.currency tw.2)))
  | PostTransfer token i data key =>
      busting_route (transfer_part token i data key)
        [Some i; Some (TransferRequest.recipient_wallet_id data)] move_response
  | PostWithdraw token i data key =>
      busting_route (withdraw_part token i data key) [Some i] move_response
  end.

(** ** Without a break *)
Fixpoint complete {B} (ρ : route B) (w : World) (l : Local) (c : C) : response B * (World * C) :=
  match ρ with
  | Answer r => (r, (w, c))
  | Statements p k => let '(r, (w', l')) := run p (w, l) in complete (k r) w' l' c
  | CacheGet i k => complete (k (BalanceCache.get i c)) w l c
  | CacheSet i payload k => complete k w l (BalanceCache.set BalanceCache.default_ttl i payload c)
  | CacheBust ids k => complete k w l (BalanceCache.invalidate ids c)
  end.

Definition at_once (q : api_call) (wc : World * C) : response (body q) * (World * C) :=
  match q with
  | GetBalance token i => get_balance st token i wc
  | PostDeposit token i data => post_deposit st token i data wc
  | PostTransfer token i data key => post_transfer st token i data key wc
  | PostWithdraw token i data key => post_withdraw st token i data key wc
  end.

Lemma complete_busting {A B} (p : prog (response A)) ids (f : A -> response B) w c :
  complete (busting_route p ids f) w (fresh_local (clock (tick w))) c = busting p ids f (w, c).
Proof.
  unfold busting, serve, busting_route. simpl.
  destruct (run p (w, fresh_local (clock (tick w)))) as [[e|[a| |]] [w' l']]; reflexivity.
Qed.

Lemma run_http {A} (p : prog A) errors s :
  run (http p errors) s =
    match run p s with
    | (inl e, s') => (match errors e with
                      | Some (status, detail) => inr (HTTPError status detail)
                      | None => inl e
                      end, s')
    | (inr a, s') => (inr (Reply a), s')
    end.
Proof.
  unfold http. rewrite run_try_except, run_bind. destruct (run p s) as [[e|a] s']; [|done].
  by destruct (errors e) as [[]|].
Qed.

Lemma complete_get_balance token i w c :
  complete (get_balance_route token i) w (fresh_local (clock (tick w))) c = get_balance st token i (w, c).
Proof.
  unfold get_balance, serve, get_balance_route, authenticated. cbn [complete]. rewrite !run_bind.
  destruct (run (call Now) _) as [[e|now] [w1 l1]]; [done|]. rewrite run_bind.
  destruct (run (get_current_user st now token) _) as [[e|[u|]] [w2 l2]]; [done| |done].
  cbn [complete]. destruct (BalanceCache.get i c) as [p|]; [by destruct (balance_hit u p)|].
  cbn [complete]. rewrite !run_http, run_bind.
  destruct (run (WalletService.get_balance i (User.id u)) _) as [[e|row] [w3 l3]]; [|done].
  by destruct (not_found e) as [[]|].
Qed.

(** The routes of Api.v are these, nothing coming in between. *)
Theorem route_complete (q : api_call) w c :
  complete (route_of q) w (fresh_local (clock (tick w))) c = at_once q (w, c).
Proof.
  destruct q as [token i|token i data|token i data key|token i data key]; simpl route_of; simpl at_once.
  - apply complete_get_balance.
  - apply complete_busting.
  - apply complete_busting.
  - apply complete_busting.
Qed.
End routes.
