(* ===== verification/Traffic.v ===== *)
(** * Many requests in flight

    Requests that use the balance cache, advancing one piece at a time in any
    order, while the rest of the back end works and the cache drops entries:
    what the cache may hold, and what a balance read may answer. *)
From S2P Require Import Prelude PyValues Schema Session Requests Repositories LedgerService Moves.
From S2P Require Import LedgerSpec Security AccountServices Publisher Analytics Reconciliation.
From S2P Require Import Atomicity Invariants System Accepted Cache Api ApiFacts Routes.

Record flight := Flight { asked_for : api_call; session_of : Local; rest : route (body asked_for) }.

Section traffic.
Context `{Env} `{Crypto} `{JsonCodec} {C : Type} `{RedisClient C}.
Variable st : Settings.t.
Abbreviation sky := (World * C * list flight)%type (only parsing).

(** One piece of one request. *)
Definition hop (w : World) (c : C) (f : flight) : option (World * C * flight) :=
  let 'Flight q l ρ := f in
  match ρ with
  | Answer _ => None
  | Statements p k => let '(r, (w', l')) := run p (w, l) in Some (w', c, Flight q l' (k r))
  | CacheGet i k => Some (w, c, Flight q l (k (BalanceCache.get i c)))
  | CacheSet i payload k =>
      Some (w, BalanceCache.set BalanceCache.default_ttl i payload c, Flight q l k)
  | CacheBust ids k => Some (w, BalanceCache.invalidate ids c, Flight q l k)
  end.

(** A request arrives and gets a session of its own. *)
Definition takeoff (q : api_call) (now : Z) : flight := Flight q (mkLocal [] [] now false) (route_of st q).

(** [wallet_id: uuid.UUID]: the path parameter is a 128-bit value. *)
Definition well_formed (q : api_call) : Prop :=
  match q with GetBalance _ i => (i < uuid_bound)%N | _ => True end.

Inductive traffic : sky -> sky -> Prop :=
  | tr_arrive w c fs q now : well_formed q -> traffic (w, c, fs) (w, c, fs ++ [takeoff q now])
  | tr_hop n w c fs f w' c' f' : fs !! n = Some f -> hop w c f = Some (w', c', f') ->
      traffic (w, c, fs) (w', c', <[n := f']> fs)
  | tr_lost n w c fs : traffic (w, c, fs) (w, c, delete n fs)       (* its process died *)
  | tr_other w w' c fs : step w w' -> traffic (w, c, fs) (w', c, fs)
  | tr_expiry w c c' fs :
      (forall j p, BalanceCache.get j c' = Some p -> BalanceCache.get j c = Some p) ->
      traffic (w, c, fs) (w, c', fs).

(** ** What requests know, whatever the others do *)
Section past.
Context (d0 : Database) (Hwf0 : wf d0) (Hsized0 : sized d0) (Hids : ids128).

#[local] Set Default Proof Using "All".

Abbreviation later := (rtc effect).

(** [d] has come about since [d0]. *)
Lemma later_sound d : later d0 d -> wf d /\ sized d.
Proof.
  intros Hd. revert Hwf0 Hsized0.
  induction Hd as [d|d d1 d2 He _ IH]; [done|]. intros Hw Hs.
  apply IH; [by eapply effect_wf|by eapply effect_sized].
Qed.

Lemma later_extends d d' : later d d' -> extends d d'.
Proof. induction 1 as [d|d d1 d2 He _ IH]; [done|]. etrans; [by apply effect_extends|done]. Qed.

(** The payload is of a row the wallet once had. *)
Definition was (i : uuid) (d : Database) (p : dict) : Prop :=
  exists d1 r, later d0 d1 /\ later d1 d /\ wallets d1 !! i = Some r /\ p = balance_payload r.

Lemma was_later i d d' p : was i d p -> later d d' -> was i d' p.
Proof. intros (d1 & r & H1' & H2' & Hr) Hd. exists d1, r. split; [done|]. split; [|done]. by etrans. Qed.

(** [ρ] keeps this, and ends with [Q], whatever others do to the tables and the
    cache. *)
Fixpoint lawful {B} (Q : response B -> Database -> Prop) (ρ : route B) (d : Database) (l : Local) : Prop :=
  match ρ with
  | Answer r => Q r d
  | Statements p k => forall w, later d0 (db w) -> later d (db w) ->
      let out := run p (w, l) in
      later (db w) (db out.2.1) /\ lawful Q (k out.1) (db out.2.1) out.2.2
  | CacheGet i k => (i < uuid_bound)%N /\ forall d' hit, later d0 d' -> later d d' ->
      (forall p, hit = Some p -> was i d' p) -> lawful Q (k hit) d' l
  | CacheSet i payload k => (i < uuid_bound)%N /\ was i d payload /\ lawful Q k d l
  | CacheBust ids k => lawful Q k d l
  end.

Lemma lawful_later {B} (Q : response B -> Database -> Prop) ρ d d' l :
  (forall r d d', Q r d -> later d d' -> Q r d') ->
  lawful Q ρ d l -> later d d' -> lawful Q ρ d' l.
Proof.
  intros HQ. revert d d' l. induction ρ as [r|A p k IH|i k IH|i p k IH|ids k IH]; intros d d' l Hl Hd; simpl in *.
  - by eapply HQ.
  - intros w Hw Hdw. apply Hl; [done|]. by etrans.
  - destruct Hl as [Hi Hk]. split; [done|]. intros d2 hit H2' Hd2. apply Hk; [done|]. by etrans.
  - destruct Hl as (Hi & Hw & Hk). split; [done|]. split; [by eapply was_later|]. by eapply IH.
  - by eapply IH.
Qed.

(** What a balance read may answer: a balance the wallet has had, to the user
    the token stood for and who owns the wallet; otherwise 401 or 404. *)
Definition truthful (token : string) (i : uuid) (r : response BalanceRead.t) (d : Database) : Prop :=
  match r with
  | Reply b => exists w u d1 row, later d0 (db w) /\ later (db w) d /\ token_user st w token = Some u /\
      later d0 d1 /\ later d1 d /\ wallets d1 !! i = Some row /\ Wallet.user_id row = User.id u /\
      b = balance_of_row row
  | HTTPError code _ => code = 401%Z \/ code = 404%Z
  | ServerError _ => False
  end.

Lemma truthful_later token i r d d' : truthful token i r d -> later d d' -> truthful token i r d'.
Proof.
  destruct r as [b| |]; [|done..]. intros (w & u & d1 & row & H1' & H2' & H3' & H4' & H5' & H6') Hd.
  exists w, u, d1, row. split; [done|]. split; [by etrans|]. split; [done|]. split; [done|].
  split; [by etrans|done].
Qed.

Definition expected (q : api_call) : response (body q) -> Database -> Prop :=
  match q with GetBalance token i => truthful token i | _ => fun _ _ => True end.

Lemma expected_later q r d d' : expected q r d -> later d d' -> expected q r d'.
Proof. destruct q; [apply truthful_later|done..]. Qed.
(** ** The routes keep it *)
Lemma wp_who token w now :
  wp (now ← call Now; get_current_user st now token)
    (fun r s' => r = inr (token_user st w token) /\ s' = at_log (asked w) [] now) (at_log w [] now).
Proof.
  unfold token_user, get_current_user. apply wp_bind, wp_now.
  destruct (decode_access_token _ _ _) as [sub|]; [|by apply wp_ret].
  destruct (uuid_parse sub) as [i|]; [|by apply wp_ret].
  apply wp_query. by rewrite apply_writes_nil.
Qed.

Lemma wp_read_wallet i rid w now :
  wp (http (WalletService.get_balance i rid) not_found) (fun r s' => s' = at_log w [] now /\
    match response_of r with
    | Reply row => wallets (db w) !! i = Some row /\ Wallet.user_id row = rid
    | HTTPError code _ => code = 404%Z
    | ServerError _ => False
    end) (at_log w [] now).
Proof.
  apply wp_http, wp_get_balance. unfold owned_wallet.
  destruct (wallets (db w) !! i) as [row|] eqn:Er; [|done]. by case_decide.
Qed.

Lemma lawful_balance token i d now : (i < uuid_bound)%N ->
  lawful (truthful token i) (get_balance_route st token i) d (mkLocal [] [] now false).
Proof.
  intros Hi. unfold get_balance_route. cbn [lawful]. intros w Hw _. set (out := run _ _).
  destruct (proj1 (wp_run _ _ _) (wp_who token w now)) as [Hr Hs]. fold out in Hr, Hs. rewrite Hr, Hs. cbn [fst snd].
  split; [done|]. destruct (token_user st w token) as [u|] eqn:Hu; [|by left].
  cbn [lawful]. split; [done|]. intros d1 hit Hd1 Hwd1 Hhit. destruct (later_sound _ Hw) as [Hwf Hsz].
  destruct hit as [p|].
  - destruct (Hhit p eq_refl) as (d2 & r & Hd2 & Hd2' & Hr2 & ->). destruct (later_sound _ Hd2) as [Hwf2 Hsz2].
    cbn [lawful]. pose proof (token_user_keyed st w token u Hwf Hu) as Huk.
    assert (Hid : Wallet.id r = i) by exact (proj1 (lw_keyed _ (wf_ledger _ Hwf2)) _ _ Hr2).
    rewrite balance_hit_owned; [case_decide as E; [|by right]|..].
    + exists w, u, d2, r. split; [done|]. split; [by etrans|]. done.
    + apply (proj1 Hsz2). by eapply iw_owner; [apply Hwf2|].
    + apply (proj1 Hsz). eauto.
    + by rewrite Hid.
  - cbn [lawful]. intros w2 Hw2 Hw2'. set (out2 := run _ _).
    destruct (proj1 (wp_run _ _ _) (wp_read_wallet i (User.id u) w2 now)) as [Hs2 Hr2].
    fold out2 in Hr2, Hs2. rewrite Hs2. split; [done|].
    destruct (response_of out2.1) as [row|code detail|e]; [|by right|done].
    destruct Hr2 as [Hrow Hown]. cbn [lawful]. split; [done|]. split; [by exists (db w2), row|].
    exists w, u, (db w2), row. split; [done|]. split; [by etrans|]. done.
Qed.

Lemma lawful_busting {A B} token valid (op : User.row -> prog A) errors ids (f : A -> response B) d now :
  (forall u, activity A (op u)) ->
  lawful (fun _ _ => True) (busting_route (authenticated st token (fun u =>
    validated valid (http (op u) errors))) ids f) d (mkLocal [] [] now false).
Proof.
  intros Hop. unfold busting_route. cbn [lawful]. intros w Hw _. set (out := run _ _).
  destruct (later_sound _ Hw) as [Hwf _]. split; [|by destruct (response_of out.1)].
  apply rtc_once. refine (proj1 (wp_run _ (fun _ s' => effect (db w) (db s'.1)) _) _).
  apply wp_part_effect; [done|apply Hwf].
Qed.

Lemma lawful_route q d now : well_formed q ->
  lawful (expected q) (route_of st q) d (mkLocal [] [] now false).
Proof.
  intros Hq. destruct q; simpl in *; [by apply lawful_balance|..]; apply lawful_busting; constructor.
Qed.

(** ** Any traffic *)
Definition on_course (d : Database) (f : flight) : Prop :=
  let 'Flight q l ρ := f in lawful (expected q) ρ d l.

Lemma on_course_later d d' f : on_course d f -> later d d' -> on_course d' f.
Proof. destruct f as [q l ρ]. simpl. apply lawful_later, expected_later. Qed.

Definition remembers (c : C) (d : Database) : Prop :=
  forall j p, (j < uuid_bound)%N -> BalanceCache.get j c = Some p -> was j d p.

Record calm (P : sky) : Prop := Calm {
  cm_later : later d0 (db P.1.1);
  cm_cache : remembers P.1.2 (db P.1.1);
  cm_flights : Forall (on_course (db P.1.1)) P.2 }.

Context (works : C -> Prop) `{!RedisLaws C works}.

Lemma hop_calm w c f w' c' f' : later d0 (db w) -> remembers c (db w) -> on_course (db w) f ->
  hop w c f = Some (w', c', f') -> later (db w) (db w') /\ remembers c' (db w') /\ on_course (db w') f'.
Proof.
  intros Hw Hc Hf Hh. destruct f as [q l ρ]. destruct ρ as [r|A p k|i k|i p k|ids k]; simpl in *; [done|..].
  - destruct (Hf w Hw (rtc_refl _ _)) as [He Hk].
    destruct (run p (w, l)) as [r [w2 l2]]. simplify_eq. simpl in *. split; [done|]. split; [|done].
    intros j p' Hj Hp. eapply was_later; [by apply Hc|done].
  - simplify_eq. destruct Hf as [Hi Hk]. split; [done|]. split; [done|]. simpl.
    apply Hk; [done..|]. intros p Hp. by apply Hc.
  - simplify_eq. destruct Hf as (Hi & Hwas & Hk). split; [done|]. split; [|done].
    intros j p' Hj [[<- ->]|Hp]%(get_after_set works); [done|by apply Hc|done..].
  - simplify_eq. split; [done|]. split; [|done].
    intros j p' Hj Hp. apply (get_after_invalidate works) in Hp as [Hp _]. by apply Hc.
Qed.

Lemma traffic_calm P P' : traffic P P' -> calm P -> calm P'.
Proof.
  intros Ht [Hw Hc Hf]. destruct Ht as [w c fs q now Hq|n w c fs f w' c' f' Hn Hh|n w c fs|w w' c fs Hst|w c c' fs He];
    simpl in *.
  - split; [done..|]. apply Forall_app. split; [done|]. repeat constructor. by apply lawful_route.
  - rewrite Forall_lookup in Hf.
    destruct (hop_calm w c f w' c' f' Hw Hc (Hf n f Hn) Hh) as (Hl & Hc' & Hf').
    split; simpl; [by etrans|done|]. apply Forall_insert; [|done]. rewrite Forall_lookup.
    intros m g Hm. eapply on_course_later; [by eapply Hf|done].
  - split; [done..|]. by apply Forall_delete.
  - assert (Hl : later (db w) (db w')).
    { apply rtc_once, step_effect; [done|]. by apply later_sound. }
    split; simpl; [by etrans| |].
    + intros j p Hj Hp. eapply was_later; [by apply Hc|done].
    + eapply Forall_impl; [exact Hf|]. intros f Hf'. by eapply on_course_later.
  - split; [done| |done]. intros j p Hj Hp. by apply Hc, He.
Qed.

Lemma traffic_calms P P' : rtc traffic P P' -> calm P -> calm P'.
Proof. induction 1 as [P|P P1 P2 Ht _ IH]; [done|]. intros Hc. by apply IH, (traffic_calm P). Qed.
End past.

(** ** An executable schedule: whose turn it is, turn by turn *)
Fixpoint fly (turns : list nat) (P : sky) : sky :=
  match turns with
  | [] => P
  | n :: turns =>
      let '(w, c, fs) := P in
      fly turns (match f ← fs !! n; hop w c f with
                 | Some (w', c', f') => (w', c', <[n := f']> fs)
                 | None => P
                 end)
  end.

Lemma fly_traffic turns P : rtc traffic P (fly turns P).
Proof.
  revert P. induction turns as [|n turns IH]; intros [[w c] fs]; [apply rtc_refl|]. cbn [fly].
  destruct (f ← fs !! n; hop w c f) as [[[w' c'] f']|] eqn:E; [|apply IH].
  apply bind_Some in E as (f & Hf & Hh). eapply rtc_l; [by eapply tr_hop|apply IH].
Qed.
End traffic.
