(* ===== verification/ApiTheorems.v ===== *)
(** * Theorems about the HTTP routes and the balance cache

    What every route answers to a stranger, that the cache is transparent as
    long as its client works, and what it costs when the client does not. *)
From S2P Require Import Prelude PyValues Schema Session Requests Repositories LedgerService Moves.
From S2P Require Import LedgerSpec Security AccountServices Publisher Analytics Reconciliation.
From S2P Require Import Invariants System Demo Cache Api Accepted ApiFacts.

Section api.
Context `{Env} `{Crypto} `{JsonCodec} {C : Type} `{RedisClient C}.
Variable st : Settings.t.


(** Cache down: while every read of the cache raises, the balance route
    answers from the tables, whatever the other operations do. *)
Theorem cache_down_still_serves w c token i :
  (forall k, client_get k c = None) -> wf (db w) -> sized (db w) -> (i < uuid_bound)%N ->
  (get_balance st token i (w, c)).1 = balance_spec st w token i.
Proof.
  intros Hdown Hw Hs Hi. apply (get_balance_spec st token i w c Hw Hs Hi).
  intros j p _ Hp. unfold BalanceCache.get in Hp. by rewrite Hdown in Hp.
Qed.

(** A token that names no user: every protected route answers 401, leaves
    the tables as they are and does not touch the cache. *)
Theorem unauthenticated_rejected `{!EmailValidator} w c token : token_user st w token = None ->
  let same {A} (out : response A * (World * C)) :=
    out.1 = unauthorized /\ db out.2.1 = db w /\ out.2.2 = c in
  (forall i, same (get_balance st token i (w, c))) /\
  (forall i data, same (post_deposit st token i data (w, c))) /\
  (forall i data key, same (post_transfer st token i data key (w, c))) /\
  (forall i data key, same (post_withdraw st token i data key (w, c))) /\
  (forall data, let out := serve (create_wallet st token data) w in
     out.1 = unauthorized /\ db out.2 = db w) /\
  (forall i limit offset, let out := serve (list_transactions st token i limit offset) w in
     out.1 = unauthorized /\ db out.2 = db w) /\
  (let out := serve (read_me st token) w in out.1 = unauthorized /\ db out.2 = db w).
Proof.
  intros Hno same. unfold same, get_balance, post_deposit, post_transfer, post_withdraw, busting,
    create_wallet, list_transactions, read_me.
  repeat split; intros; by rewrite serve_stranger.
Qed.

(** A hidden wallet: to the money routes and the statement a wallet that
    does not exist and one that belongs to someone else are the same 404, and
    neither the tables nor the cache change (a move with a known idempotency
    key excepted, which the services answer before they look at the owner). *)
Theorem hidden_wallet_not_found w c token u i : wf (db w) ->
  token_user st w token = Some u -> hidden (db w) i u ->
  (forall data, DepositRequest.valid data = true ->
     concealed w c (post_deposit st token i data (w, c))) /\
  (forall data key, WithdrawalRequest.valid data = true -> known_key (db w) key = None ->
     concealed w c (post_withdraw st token i data key (w, c))) /\
  (forall data key, TransferRequest.valid data = true -> known_key (db w) key = None ->
     i <> TransferRequest.recipient_wallet_id data ->
     concealed w c (post_transfer st token i data key (w, c))) /\
  (forall limit offset, 1 <= limit <= 100 ->
     let out := serve (list_transactions st token i limit offset) w in
     out.1 = HTTPError 404 "Wallet not found." /\ db out.2 = db w).
Proof.
  intros Hw Hu Hh. pose proof (lw_keyed _ (wf_ledger _ Hw)) as Hk. split_and!; intros.
  - by apply (deposit_concealed st w c token u).
  - by apply (withdraw_concealed st w c token u).
  - by apply (transfer_concealed st w c token u).
  - by apply (statement_concealed st w token u).
Qed.

(** Read your writes: whatever balance a deposit, a withdrawal or a transfer
    (replayed or not) answers, the balance route answers the same right after,
    through the cache. *)
Theorem read_your_writes (works : C -> Prop) `{!RedisLaws C works} wc token i b :
  ids128 -> server_inv works wc -> (i < uuid_bound)%N ->
  (forall data m, let out := post_deposit st token i data wc in
     out.1 = Reply m -> (get_balance st token i out.2).1 = Reply b ->
     BalanceRead.available_balance b = DepositResponse.available_balance m) /\
  (forall data key m, let out := post_withdraw st token i data key wc in
     out.1 = Reply m -> (get_balance st token i out.2).1 = Reply b ->
     BalanceRead.available_balance b = MoveResponse.available_balance m) /\
  (forall data key m, (TransferRequest.recipient_wallet_id data < uuid_bound)%N ->
     let out := post_transfer st token i data key wc in
     out.1 = Reply m -> (get_balance st token i out.2).1 = Reply b ->
     BalanceRead.available_balance b = MoveResponse.available_balance m).
Proof.
  intros Hids Hinv Hi. split_and!; intros data.
  - intros m. by apply (deposit_read_back st works wc token i Hids Hinv Hi).
  - intros key m. by apply (withdraw_read_back st works wc token i Hids Hinv Hi).
  - intros key m Hr. by apply (transfer_read_back st works wc token i Hids Hinv Hi).
Qed.
End api.

(** ** Witnesses *)
Import Demo.

(** A cache that holds what it is given until it is told to drop it. *)
#[local] Instance store : RedisClient (gmap string string) :=
  {| client_get := fun k c => Some (c !! k);
     client_setex := fun k _ v c => (true, <[k := v]> c);
     client_delete := fun ks c => (true, foldr delete c ks) |}.

Lemma deleted_lookup (ks : list string) (c : gmap string string) k :
  foldr delete c ks !! k = if decide (k ∈ ks) then None else c !! k.
Proof.
  induction ks as [|k' ks IH]; [done|]. simpl. rewrite lookup_delete, IH.
  repeat case_decide; set_solver.
Qed.

Definition always (_ : gmap string string) : Prop := True.

#[local] Instance store_laws : RedisLaws (gmap string string) always.
Proof.
  split; [done|done|..]; simpl.
  - intros k _ v c raw. rewrite lookup_insert_eq. intros [= ->]. by left.
  - intros k k' _ v c raw Hne. by rewrite lookup_insert_ne.
  - intros ks k c raw _ Hk. by rewrite deleted_lookup, decide_True.
  - intros ks k c raw. rewrite deleted_lookup. by case_decide.
Qed.


Definition token_of (i : uuid) : string :=
  create_access_token settings 1700000000000000 (uuid_str i) None.

(** Bob reads his balance, then Alice pays him. *)
Definition warm : World * gmap string string :=
  (get_balance settings (token_of bob_id) bob_wallet (world_funded, ∅)).2.
Definition paid : World * gmap string string :=
  (post_transfer settings (token_of alice_id) alice_wallet payment (Some "key-1") warm).2.


Example bob_reads : (get_balance settings (token_of bob_id) bob_wallet paid).1 =
  Reply (BalanceRead.mk bob_wallet "USD" 200 0 "2023-11-14T22:13:20.000012+00:00").
Proof. computes. Qed.

Lemma empty_store j : BalanceCache.get j (∅ : gmap string string) = None.
Proof. reflexivity. Qed.


(** A cache whose every operation raises. *)
#[local] Instance down : RedisClient unit :=
  {| client_get := fun _ _ => None; client_setex := fun _ _ _ c => (false, c);
     client_delete := fun _ c => (false, c) |}.

Lemma cache_down_still_serves_witness :
  (get_balance settings (token_of bob_id) bob_wallet (world_paid, tt)).1 =
    balance_spec settings world_paid (token_of bob_id) bob_wallet.
Proof.
  exact (cache_down_still_serves settings world_paid tt (token_of bob_id) bob_wallet
    (fun k => eq_refl) (proj1 (reachable_sound world_paid paid_reachable))
    (reachable_sized world_paid demo_ids paid_reachable) eq_refl).
Defined.

Lemma unauthenticated_rejected_witness :
  (get_balance settings "no token" bob_wallet (world_funded, (∅ : gmap string string))).1 = unauthorized.
Proof.
  apply (unauthenticated_rejected settings world_funded (∅ : gmap string string) "no token").
  computes.
Defined.

Definition bob : option User.row := token_user settings world_funded (token_of bob_id).

Lemma hidden_wallet_not_found_witness :
  concealed world_funded (∅ : gmap string string)
    (post_withdraw settings (token_of bob_id) alice_wallet (WithdrawalRequest.mk 100 "USD") None
       (world_funded, ∅)).
Proof.
  assert (Hb : bob = Some (default (User.mk 0 "" "" "" 0) bob)) by computes.
  refine (proj1 (proj2 (hidden_wallet_not_found settings world_funded (∅ : gmap string string)
    (token_of bob_id) (default (User.mk 0 "" "" "" 0) bob) alice_wallet
    (proj1 (reachable_sound world_funded funded_reachable)) Hb _))
    (WithdrawalRequest.mk 100 "USD") None eq_refl eq_refl).
  assert (Hall : (match wallets (db world_funded) !! alice_wallet with
                  | Some r => Wallet.user_id r = alice_id | None => False end)) by computes.
  assert (Hid : User.id (default (User.mk 0 "" "" "" 0) bob) = bob_id) by computes.
  intros r Hr. rewrite Hr in Hall. rewrite Hid, Hall. discriminate.
Defined.

Lemma read_your_writes_witness :
  BalanceRead.available_balance (BalanceRead.mk alice_wallet "USD" 300 0
    "2023-11-14T22:13:20.000011+00:00") = 300%Z.
Proof.
  assert (Hinv : server_inv always (world_funded, (∅ : gmap string string))).
  { apply (server_reachable_inv settings always world_funded ∅ _ demo_ids funded_reachable I
      empty_store (rtc_refl _ _)). }
  refine (proj2 (proj2 (read_your_writes settings always (world_funded, ∅) (token_of alice_id)
    alice_wallet (BalanceRead.mk alice_wallet "USD" 300 0 "2023-11-14T22:13:20.000011+00:00")
    demo_ids Hinv eq_refl)) payment (Some "key-1")
    (MoveResponse.mk (13)%N "COMPLETED" 300 "USD") eq_refl _ _); computes.
Defined.
