(* ===== verification/RouteTheorems.v ===== *)
(** * Theorems about requests in flight

    Balance reads that race with money requests, workers and an expiring
    cache: what they may answer, and the stale entry the order of the cache
    operations leaves room for. *)
From S2P Require Import Prelude PyValues Schema Session Requests Repositories LedgerService Moves.
From S2P Require Import LedgerSpec Security AccountServices Publisher Analytics Reconciliation.
From S2P Require Import Invariants System Demo Cache Api Accepted ApiFacts ApiTheorems Routes Traffic.
Import Demo.

Section theorems.
Context `{Env} `{Crypto} `{JsonCodec} {C : Type} `{RedisClient C}.
Variable st : Settings.t.

(** C22. A balance read tells the truth about the past, to the owner only: the
    pieces of any number of balance reads and money requests - session
    statements, cache reads, writes and invalidations - may interleave in any
    order with each other, with everything else the back end does, with lost
    processes and a cache that drops entries or fails; a balance read that is
    answered then answers 401 or 404, or a balance that the wallet has really
    had since the start, to the user its token stood for, who owns the wallet;
    it never fails. *)
Theorem balance_reads_tell_the_past (works : C -> Prop) `{!RedisLaws C works} w0 c0 w c fs n token i l r :
  ids128 -> reachable w0 -> (forall j, BalanceCache.get j c0 = None) ->
  rtc (traffic st) (w0, c0, []) (w, c, fs) ->
  fs !! n = Some (Flight (GetBalance token i) l (Answer r)) ->
  truthful st (db w0) token i r (db w).
Proof.
  intros Hids Hw0 Hempty Ht Hn.
  assert (Hc : calm st (db w0) (w0, c0, [])).
  { split; [done| |constructor]. intros j p _ Hp. simpl in Hp. by rewrite Hempty in Hp. }
  destruct (reachable_sound w0 Hw0) as [Hwf _].
  pose proof (traffic_calms st (db w0) Hwf (reachable_sized w0 Hids Hw0) Hids works _ _ Ht Hc) as Hc'.
  pose proof (cm_flights _ _ _ Hc') as Hf. rewrite Forall_lookup in Hf. exact (Hf n _ Hn).
Qed.
End theorems.

(** ** The race *)

(** Alice reads her balance while she pays Bob: the read finds nothing in the
    cache and 500 in the tables, the payment goes through and busts the cache,
    then the read stores what it found. *)
#[local] Existing Instance store.
#[local] Existing Instance store_laws.

Definition reading : api_call := GetBalance (token_of alice_id) alice_wallet.
Definition paying : api_call := PostTransfer (token_of alice_id) alice_wallet payment (Some "key-2").
Definition departure : World * gmap string string * list flight :=
  (world_funded, ∅, [takeoff settings reading 0; takeoff settings paying 1]).
Definition overtaken_read : list nat := [0; 0; 0; 1; 1; 0].



Lemma departed turns : rtc (traffic settings) (world_funded, ∅, []) (fly turns departure).
Proof.
  eapply rtc_l; [by apply (tr_arrive settings _ _ [] reading 0)|].
  eapply rtc_l; [by apply (tr_arrive settings _ _ _ paying 1)|]. apply fly_traffic.
Qed.


(** ** Witnesses *)

(** In the race, too, the read itself answers what the wallet had. *)
Lemma balance_reads_tell_the_past_witness :
  let P := fly overtaken_read departure in
  exists l r, P.2 !! 0 = Some (Flight reading l (Answer r)) /\
    truthful settings (db world_funded) (token_of alice_id) alice_wallet r (db P.1.1).
Proof.
  intros P.
  assert (Hf : exists l r, P.2 !! 0 = Some (Flight reading l (Answer r))).
  { do 2 eexists. vm_compute. reflexivity. }
  destruct Hf as (l & r & Hf). exists l, r. split; [exact Hf|].
  refine (balance_reads_tell_the_past settings always world_funded ∅ P.1.1 P.1.2 P.2 0 (token_of alice_id)
    alice_wallet l r demo_ids funded_reachable empty_store _ Hf).
  rewrite <- !surjective_pairing. exact (departed overtaken_read).
Defined.
