(* ===== verification/LedgerTheorems.v ===== *)
(** * Theorems about the money operations

    The exact outcome of deposit, transfer and withdraw on any session engine,
    when they succeed and what the tables hold then, who may spend, and what
    idempotency keys do. *)
From S2P Require Import Prelude PyValues Schema Session Requests Repositories LedgerService Moves.
From S2P Require Import LedgerSpec Security AccountServices Publisher Analytics Reconciliation.
From S2P Require Import Atomicity Invariants System Accepted Statements Demo.

Section outcomes.
Context `{Env} {S : Type} `{!SessionEngine S}.

(** C6. [transfer], on any session engine and on every branch: the same wallet
    twice is refused; a known idempotency key answers with its transaction and
    changes nothing; a failed guard (wallet missing, not the requester's,
    recipient missing, currency of either side, funds) raises its exception and
    changes nothing; a statement the database rejects commits nothing; and
    otherwise the move - header, two legs, both balances, event - is committed
    as a whole and read back. *)
Theorem transfer_outcome (s : S) w now sid rid data key :
  view s = at_log w [] now -> keyed (db w) ->
  let out := run_on (transfer sid rid data key) s in
  if decide (sid = TransferRequest.recipient_wallet_id data)
  then out.1 = inl (SameWalletTransferError sid) /\ view out.2 = view s
  else keyed_outcome w now key sid (transfer_guard (db w) sid rid data key) out.1 (view out.2).
Proof.
  intros Hs Hk. case_decide as He.
  - apply (run_on_wp _ (fun r s' => r = _ /\ s' = view s)). rewrite Hs. by apply wp_transfer_same.
  - apply (run_on_wp _ (keyed_outcome w now key sid _)). rewrite Hs. by apply wp_transfer.
Qed.

(** [withdraw], on any session engine and on every branch. *)
Theorem withdraw_outcome (s : S) w now wid rid data key :
  view s = at_log w [] now -> keyed (db w) ->
  let out := run_on (withdraw wid rid data key) s in
  keyed_outcome w now key wid (withdraw_guard (db w) wid rid data key) out.1 (view out.2).
Proof.
  intros Hs Hk. apply (run_on_wp _ (keyed_outcome w now key wid _)). rewrite Hs. by apply wp_withdraw.
Qed.

(** [deposit], on any session engine and on every branch. *)
Theorem deposit_outcome (s : S) w now wid rid data :
  view s = at_log w [] now -> keyed (db w) ->
  let out := run_on (deposit wid rid data) s in
  outcome w now (deposit_guard (db w) wid rid data) pair out.1 (view out.2).
Proof.
  intros Hs Hk. apply (run_on_wp _ (outcome w now _ _)). rewrite Hs. by apply wp_deposit.
Qed.

(** An acceptable transfer succeeds: with fresh ids and a usable key, the
    answer names a COMPLETED transaction of two opposite legs and its event,
    the sender has the amount less, the recipient has it more, and no other
    wallet changes. *)
Theorem transfer_succeeds (s : S) w now sid rid data key a b :
  view s = at_log w [] now -> wf (db w) -> fresh_ids w -> usable_key (db w) key ->
  may_transfer (db w) sid rid data a b ->
  let amount := TransferRequest.amount data in
  exists txn wal, let out := run_on (transfer sid rid data key) s in
    out.1 = inr (txn, Some wal) /\
    Wallet.available_balance wal = (Wallet.available_balance a - amount)%Z /\
    accepted w now (transfer_move a b amount key) txn wal out.2.
Proof.
  intros Hs Hw Hf Hk Hmay amount. pose proof Hmay as [Hreq Hne Ha Hb Hr Hc Hcb Ham Hroom].
  pose proof (transfer_guard_ok (db w) sid rid data key a b Ha Hb Hr Hc Hcb Ham) as Hg.
  pose proof (lw_keyed _ (wf_ledger _ Hw)) as Hkd.
  pose proof (wp_transfer sid rid data key w now Hkd Hne) as Hp. rewrite Hg in Hp.
  eapply keyed_accepts; try done; [by eapply transfer_sound|by eapply transfer_move_valid|].
  simpl. set_solver.
Qed.

(** An acceptable withdrawal succeeds and takes the amount. *)
Theorem withdraw_succeeds (s : S) w now wid rid data key a :
  view s = at_log w [] now -> wf (db w) -> fresh_ids w -> usable_key (db w) key ->
  may_withdraw (db w) wid rid data a ->
  let amount := WithdrawalRequest.amount data in
  exists txn wal, let out := run_on (withdraw wid rid data key) s in
    out.1 = inr (txn, Some wal) /\
    Wallet.available_balance wal = (Wallet.available_balance a - amount)%Z /\
    accepted w now (withdraw_move a amount key) txn wal out.2.
Proof.
  intros Hs Hw Hf Hk Hmay amount. pose proof Hmay as [Hreq Ha Hr Hc Ham].
  pose proof (withdraw_guard_ok (db w) wid rid data key a Ha Hr Hc Ham) as Hg.
  pose proof (lw_keyed _ (wf_ledger _ Hw)) as Hkd.
  pose proof (wp_withdraw wid rid data key w now Hkd) as Hp. rewrite Hg in Hp.
  eapply keyed_accepts; try done; [by eapply withdraw_sound|by eapply withdraw_move_valid|].
  simpl. set_solver.
Qed.

(** An acceptable deposit succeeds and adds the amount. *)
Theorem deposit_succeeds (s : S) w now wid rid data a :
  view s = at_log w [] now -> wf (db w) -> fresh_ids w -> may_deposit (db w) wid rid data a ->
  let amount := DepositRequest.amount data in
  exists txn wal, let out := run_on (deposit wid rid data) s in
    out.1 = inr (txn, wal) /\
    Wallet.available_balance wal = (Wallet.available_balance a + amount)%Z /\
    accepted w now (deposit_move a amount) txn wal out.2.
Proof.
  intros Hs Hw Hf Hmay amount. pose proof Hmay as [Hreq Ha Hr Hc Hroom].
  pose proof (deposit_guard_ok (db w) wid rid data a Ha Hr Hc) as Hg.
  pose proof (lw_keyed _ (wf_ledger _ Hw)) as Hkd.
  pose proof (wp_deposit wid rid data w now Hkd) as Hp. rewrite Hg in Hp.
  eapply (guard_accepts _ pair); try done; [by eapply deposit_sound|by eapply deposit_move_valid|].
  simpl. set_solver.
Qed.
End outcomes.

Section requests.
Context `{Env} `{Crypto} `{JsonCodec}.

(** C13. Only an owner spends: when any activity, run in a reachable world,
    leaves wallet [i] with [amount] less than before, it is a transfer from [i]
    or a withdrawal from [i] of exactly [amount], requested by the user who
    owns [i]. *)
Theorem only_owner_spends {A} (p : prog A) w now i amount :
  activity A p -> reachable w ->
  debited i (db w) (db (run p (at_log w [] now)).2.1) amount ->
  exists r, wallets (db w) !! i = Some r /\ spends i (Wallet.user_id r) amount A p.
Proof.
  intros Hp [Hw _]%reachable_sound Hd. eapply activity_debits; [done| |done]. apply Hw.
Qed.

(** C12. Retries are safe: once a transfer with an idempotency key was answered,
    then in every world the system can reach from there - including one where
    the reply was lost and anything else happened in between - a transfer with
    the same key is answered with the same transaction and changes nothing. *)
Theorem transfer_retry_replays w w' s1 now now' sid rid data data' key txn wal :
  reachable w -> truthy key <> None ->
  run (transfer sid rid data key) (at_log w [] now) = (inr (txn, wal), s1) -> rtc step s1.1 w' ->
  sid <> TransferRequest.recipient_wallet_id data' ->
  run (transfer sid rid data' key) (at_log w' [] now') =
    (inr (txn, wallets (db w') !! sid), at_log w' [] now').
Proof.
  intros Hw Hkey Hfirst Hst Hne. apply reachable_sound in Hw as [Hw _].
  assert (Hs1 : (run (transfer sid rid data key) (at_log w [] now)).2 = s1) by by rewrite Hfirst.
  assert (Hw1 : wf (db s1.1)) by (rewrite <- Hs1; apply (step_wf w); [apply step_run; constructor|done]).
  assert (Hrec : recorded (db w') key txn).
  { eapply recorded_extends; [by apply steps_extend|]. rewrite <- Hs1.
    eapply (transfer_recorded w); [done..|]. by rewrite Hfirst. }
  apply transfer_replays; [|done..]. clear -Hst Hw1. revert Hw1.
  induction Hst as [|w1 w2 w3 Hs _ IH]; [done|]. intros Hw1. by apply IH, (step_wf w1).
Qed.

(** The same for withdrawals. *)
Theorem withdraw_retry_replays w w' s1 now now' wid rid data data' key txn wal :
  reachable w -> truthy key <> None ->
  run (withdraw wid rid data key) (at_log w [] now) = (inr (txn, wal), s1) -> rtc step s1.1 w' ->
  run (withdraw wid rid data' key) (at_log w' [] now') =
    (inr (txn, wallets (db w') !! wid), at_log w' [] now').
Proof.
  intros Hw Hkey Hfirst Hst. apply reachable_sound in Hw as [Hw _].
  assert (Hs1 : (run (withdraw wid rid data key) (at_log w [] now)).2 = s1) by by rewrite Hfirst.
  assert (Hw1 : wf (db s1.1)) by (rewrite <- Hs1; apply (step_wf w); [apply step_run; constructor|done]).
  assert (Hrec : recorded (db w') key txn).
  { eapply recorded_extends; [by apply steps_extend|]. rewrite <- Hs1.
    eapply (withdraw_recorded w); [done..|]. by rewrite Hfirst. }
  apply withdraw_replays; [|done..]. clear -Hst Hw1. revert Hw1.
  induction Hst as [|w1 w2 w3 Hs _ IH]; [done|]. intros Hw1. by apply IH, (step_wf w1).
Qed.

(** C18. The replay comes before any authorization: whoever knows the key of a
    recorded transaction gets the row of any wallet, whatever its owner, and
    the transaction's own type and amount are not compared. *)
Theorem replay_skips_authorization w now key txn wid stranger data :
  reachable w -> recorded (db w) key txn ->
  (run (withdraw wid stranger data key) (at_log w [] now)).1 =
    inr (txn, wallets (db w) !! wid).
Proof.
  intros [Hw _]%reachable_sound Hrec. by rewrite (withdraw_replays w now wid stranger data key txn).
Qed.

(** C19. An empty Idempotency-Key works once: when a transaction carries the key
    [""], no later transfer with that key succeeds or is answered by replay -
    every one ends in an exception and changes nothing. *)
Theorem empty_key_never_again w now sid rid data i t :
  reachable w -> transactions (db w) !! i = Some t -> Transaction.idempotency_key t = Some "" ->
  let out := run (transfer sid rid data (Some "")) (at_log w [] now) in
  (exists e, out.1 = inl e) /\ db out.2.1 = db w.
Proof.
  intros [Hw _]%reachable_sound Hi Ht. cbv zeta. pose proof (lw_keyed _ (wf_ledger _ Hw)) as Hk.
  destruct (decide (sid = TransferRequest.recipient_wallet_id data)) as [Hse|Hne].
  { pose proof (proj1 (wp_run _ _ _) (wp_transfer_same sid rid data (Some "") w now Hse)) as [-> ->].
    eauto. }
  pose proof (proj1 (wp_run _ _ _) (wp_transfer sid rid data (Some "") w now Hk Hne)) as Ho.
  unfold keyed_outcome, known_key, outcome in Ho. simpl in Ho.
  destruct (transfer_guard _ _ _ _ _) as [e|m] eqn:Eg; [destruct Ho as [-> ->]; eauto|].
  destruct Ho as [(_ & (Hdb & _) & e & ->)|(Hv & _)]; [eauto|].
  exfalso. apply (mvv_key_fresh _ _ _ Hv "" i t); [by eapply transfer_key|done..].
Qed.


(** The statement of a wallet is its entries, newest first, cut into the
    requested page; consecutive pages never repeat or miss an entry, because
    the order is the reverse of the insertion order. *)
Theorem history_newest_first w now i limit offset :
  reachable w ->
  run (LedgerRepository.get_entries_for_wallet i limit offset) (at_log w [] now) =
    (page i limit offset (db w), at_log w [] now).
Proof.
  intros [_ Ha]%reachable_numbered. by apply statement_read.
Qed.
End requests.

(** ** Witnesses *)
Import Demo.

Lemma demo_now_funded : view (start world_funded) = at_log world_funded [] (clock (tick world_funded)).
Proof. done. Qed.

Lemma demo_wf : wf (db world_funded).
Proof. apply reachable_sound, funded_reachable. Qed.

Lemma demo_fresh : fresh_ids world_funded.
Proof. split; try (computes); apply (bool_decide_unpack _); computes. Qed.

Lemma demo_usable : usable_key (db world_funded) (Some "key-1").
Proof.
  split; [done|]. intros k i t [= <-]. revert i t.
  apply (no_row_spec (fun t => Transaction.idempotency_key t = Some "key-1")). computes.
Qed.

Definition alice_row : Wallet.row :=
  default (Wallet.mk 0 0 "" 0 0 0 0) (wallets (db world_funded) !! alice_wallet).
Definition bob_row : Wallet.row :=
  default (Wallet.mk 0 0 "" 0 0 0 0) (wallets (db world_funded) !! bob_wallet).

Lemma transfer_outcome_witness :
  let out := run_on (transfer alice_wallet alice_id payment (Some "key-1")) (start world_funded) in
  keyed_outcome world_funded (clock (tick world_funded)) (Some "key-1") alice_wallet
    (transfer_guard (db world_funded) alice_wallet alice_id payment (Some "key-1")) out.1 (view out.2).
Proof.
  exact (transfer_outcome (start world_funded) world_funded _ alice_wallet alice_id payment
    (Some "key-1") demo_now_funded (lw_keyed _ (wf_ledger _ demo_wf))).
Defined.

Lemma withdraw_outcome_witness :
  let data := WithdrawalRequest.mk 600 "USD" in
  let out := run_on (withdraw alice_wallet alice_id data None) (start world_funded) in
  keyed_outcome world_funded (clock (tick world_funded)) None alice_wallet
    (inl (InsufficientFundsError alice_wallet)) out.1 (view out.2).
Proof.
  exact (withdraw_outcome (start world_funded) world_funded _ alice_wallet alice_id
    (WithdrawalRequest.mk 600 "USD") None demo_now_funded (lw_keyed _ (wf_ledger _ demo_wf))).
Defined.

Lemma deposit_outcome_witness :
  let data := DepositRequest.mk 7 "eur" in
  let out := run_on (deposit alice_wallet alice_id data) (start world_funded) in
  outcome world_funded (clock (tick world_funded))
    (inl (currency_mismatch "Wallet" "USD" "EUR")) pair out.1 (view out.2).
Proof.
  exact (deposit_outcome (start world_funded) world_funded _ alice_wallet alice_id
    (DepositRequest.mk 7 "eur") demo_now_funded (lw_keyed _ (wf_ledger _ demo_wf))).
Defined.

Lemma transfer_succeeds_witness :
  exists txn wal, let out := run_on (transfer alice_wallet alice_id payment (Some "key-1"))
                               (start world_funded) in
    out.1 = inr (txn, Some wal) /\ Wallet.available_balance wal = 300%Z /\
    accepted world_funded (clock (tick world_funded))
      (transfer_move alice_row bob_row 200 (Some "key-1")) txn wal out.2.
Proof.
  apply (transfer_succeeds (start world_funded) world_funded _ alice_wallet alice_id payment
    (Some "key-1") alice_row bob_row demo_now_funded demo_wf demo_fresh demo_usable).
  split; computes.
Defined.

Lemma withdraw_succeeds_witness :
  exists txn wal, let out := run_on (withdraw alice_wallet alice_id (WithdrawalRequest.mk 500 "usd")
                               (Some "key-1")) (start world_funded) in
    out.1 = inr (txn, Some wal) /\ Wallet.available_balance wal = 0%Z /\
    accepted world_funded (clock (tick world_funded))
      (withdraw_move alice_row 500 (Some "key-1")) txn wal out.2.
Proof.
  apply (withdraw_succeeds (start world_funded) world_funded _ alice_wallet alice_id
    (WithdrawalRequest.mk 500 "usd") (Some "key-1") alice_row demo_now_funded demo_wf demo_fresh
    demo_usable).
  split; computes.
Defined.

Lemma deposit_succeeds_witness :
  exists txn wal, let out := run_on (deposit alice_wallet alice_id (DepositRequest.mk 50 "UsD"))
                               (start world_funded) in
    out.1 = inr (txn, wal) /\ Wallet.available_balance wal = 550%Z /\
    accepted world_funded (clock (tick world_funded)) (deposit_move alice_row 50) txn wal out.2.
Proof.
  apply (deposit_succeeds (start world_funded) world_funded _ alice_wallet alice_id
    (DepositRequest.mk 50 "UsD") alice_row demo_now_funded demo_wf demo_fresh).
  split; computes.
Defined.

Lemma only_owner_spends_witness :
  exists r, wallets (db world_funded) !! alice_wallet = Some r /\
    spends alice_wallet (Wallet.user_id r) 200 _
      (transfer alice_wallet alice_id payment (Some "key-1")).
Proof.
  apply (only_owner_spends _ world_funded (clock (tick world_funded)) alice_wallet 200
    (act_transfer _ _ _ _) funded_reachable).
  split; [lia|]. exists alice_row,
    (default alice_row (wallets (db world_paid) !! alice_wallet)). computes.
Defined.

(** The reply of Alice's payment, and the world after Bob withdrew part of it. *)
Definition paid_reply : Transaction.row :=
  match result (transfer alice_wallet alice_id payment (Some "key-1")) world_funded with
  | inr (txn, _) => txn
  | inl _ => Transaction.mk 0 DEPOSIT FAILED "" None 0
  end.
Definition world_spent : World :=
  after (withdraw bob_wallet bob_id (WithdrawalRequest.mk 50 "USD") (Some "key-2")) world_paid.

Lemma spent_reachable : rtc step world_paid world_spent.
Proof. apply rtc_once, step_run. constructor. Qed.

Lemma transfer_retry_replays_witness :
  run (transfer alice_wallet alice_id payment (Some "key-1")) (at_log world_spent [] 0%Z) =
    (inr (paid_reply, wallets (db world_spent) !! alice_wallet), at_log world_spent [] 0%Z).
Proof.
  apply (transfer_retry_replays world_funded world_spent
    (run (transfer alice_wallet alice_id payment (Some "key-1")) (start world_funded)).2
    (clock (tick world_funded)) 0%Z alice_wallet alice_id payment payment (Some "key-1") paid_reply
    (wallets (db world_paid) !! alice_wallet) funded_reachable).
  - done.
  - computes.
  - exact spent_reachable.
  - computes.
Defined.

Definition spent_reply : Transaction.row :=
  match result (withdraw bob_wallet bob_id (WithdrawalRequest.mk 50 "USD") (Some "key-2")) world_paid with
  | inr (txn, _) => txn
  | inl _ => Transaction.mk 0 DEPOSIT FAILED "" None 0
  end.

Lemma withdraw_retry_replays_witness :
  run (withdraw bob_wallet bob_id (WithdrawalRequest.mk 999 "USD") (Some "key-2"))
    (at_log world_spent [] 0%Z) =
    (inr (spent_reply, wallets (db world_spent) !! bob_wallet), at_log world_spent [] 0%Z).
Proof.
  apply (withdraw_retry_replays world_paid world_spent
    (run (withdraw bob_wallet bob_id (WithdrawalRequest.mk 50 "USD") (Some "key-2"))
       (start world_paid)).2
    (clock (tick world_paid)) 0%Z bob_wallet bob_id (WithdrawalRequest.mk 50 "USD")
    (WithdrawalRequest.mk 999 "USD") (Some "key-2") spent_reply
    (wallets (db world_spent) !! bob_wallet) paid_reachable).
  - done.
  - computes.
  - apply rtc_refl.
Defined.

Lemma replay_skips_authorization_witness :
  (run (withdraw bob_wallet alice_id (WithdrawalRequest.mk 1 "USD") (Some "key-1"))
     (at_log world_paid [] 0%Z)).1 =
    inr (paid_reply, wallets (db world_paid) !! bob_wallet).
Proof.
  apply (replay_skips_authorization world_paid 0%Z (Some "key-1") paid_reply bob_wallet alice_id _
    paid_reachable).
  exists "key-1", (Transaction.id paid_reply). computes.
Defined.

Definition world_empty_key : World :=
  after (transfer alice_wallet alice_id (TransferRequest.mk bob_wallet 1 "USD") (Some "")) world_paid.

Lemma empty_key_reachable : reachable world_empty_key.
Proof. apply run_reachable; [constructor|apply paid_reachable]. Qed.

Lemma empty_key_never_again_witness :
  let out := run (transfer alice_wallet alice_id (TransferRequest.mk bob_wallet 1 "USD") (Some ""))
               (at_log world_empty_key [] 0%Z) in
  (exists e, out.1 = inl e) /\ db out.2.1 = db world_empty_key.
Proof.
  apply (empty_key_never_again world_empty_key 0%Z alice_wallet alice_id _ (txn_id world_paid)
    (default paid_reply (transactions (db world_empty_key) !! txn_id world_paid)) empty_key_reachable);
    computes.
Defined.


Lemma history_newest_first_witness :
  run (LedgerRepository.get_entries_for_wallet alice_wallet 1 0) (at_log world_paid [] 0%Z) =
    (inr (take 1 (drop 0 (reverse (filter (fun e => LedgerEntry.wallet_id e = Some alice_wallet)
       (ledger_entries (db world_paid)))))), at_log world_paid [] 0%Z).
Proof. apply (history_newest_first world_paid 0%Z alice_wallet 1 0 paid_reachable). Defined.
