(* ===== verification/WorkerTheorems.v ===== *)
(** * Theorems about the workers

    The outbox publisher, the analytics consumer with its rollup, the
    notification consumer and reconciliation. *)
From S2P Require Import Prelude PyValues Schema Session Requests Repositories LedgerService Moves.
From S2P Require Import LedgerSpec Security AccountServices Publisher Analytics Notification.
From S2P Require Import Reconciliation Dags Atomicity Invariants System EndToEnd Demo.

Section publisher.
Context `{Env} `{Crypto} `{JsonCodec}.


(** The outbox drains: with a producer that reports no error, [k] turns with
    batches of [n] publish everything once [k * n] reaches the number of
    pending events. *)
Theorem outbox_drains deliver topic n k w :
  reachable w -> (forall ms, delivery_errors (deliver ms) = []) ->
  size (pending_events (db w)) <= k * n ->
  pending_events (db (turns deliver topic n k w)) = ∅.
Proof.
  intros [Hw _]%reachable_sound Hd Hle. apply map_size_empty_inv.
  rewrite turns_drain; [lia|done|apply Hw].
Qed.

(** C30. The result of [flush(timeout)] is not looked at: when every message of
    the batch is still outstanding - none acknowledged - the turn stamps the
    whole batch as published all the same. *)
Theorem unacknowledged_batch_is_stamped deliver topic n w :
  reachable w -> (forall ms, Forall (fun a => a = Outstanding) (deliver ms)) ->
  let w' := turns deliver topic n 1 w in
  size (pending_events (db w')) = size (pending_events (db w)) - n.
Proof.
  intros [Hw _]%reachable_sound Hd. cbv zeta. rewrite turns_drain; [lia| |apply Hw].
  intros ms. apply no_delivery_error, (Forall_impl _ _ _ (Hd ms)). by intros a ->.
Qed.
End publisher.

Section analytics.
Context `{Env} `{Crypto} `{JsonCodec}.

(** The rollup counts each transaction once: for any sequence of deliveries,
    with repetitions, the worker ends with every counter advanced by exactly
    the first deliveries of the transactions not processed before, every
    delivered transaction recorded as processed, and no other table touched. *)
Theorem rollup_counts_first_deliveries vs es w :
  Forall2 (fun v e => exists payload, json_loads v = Some payload /\ carries payload e) vs es ->
  Forall event_ok es -> room (db w) es ->
  exists w', consume_all vs w = Some w' /\ rolled_up w w' es.
Proof. apply consume_all_spec. Qed.

(** End to end: the published events of a reachable world, delivered in any
    order and any number of times but each at least once, to a consumer with an
    empty rollup, give exactly the ledger's own statistics - per currency and
    type, the number of transactions and the amount they moved. *)
Theorem rollup_matches_ledger w evs :
  ids128 -> reachable w ->
  (forall k, stat_of (db w) k = (0, 0)%Z) -> processed_txns (db w) = ∅ ->
  (forall ev, ev ∈ evs <-> exists j, outbox_events (db w) !! j = Some ev) ->
  room (db w) (reported (db w) <$> evs) ->
  exists w', consume_all ((fun ev => json_dumps (OutboxEvent.payload ev)) <$> evs) w = Some w' /\
    forall k, stat_of (db w') k = ledger_stats (db w) k.
Proof.
  intros Hids Hr Hz Hp Hevs Hroom. pose proof (reachable_sized w Hids Hr) as Hsize.
  apply reachable_sound in Hr as [Hw _].
  destruct (consume_all_spec ((fun ev => json_dumps (OutboxEvent.payload ev)) <$> evs)
    (reported (db w) <$> evs) w) as (w' & Hw' & Hst & _); [| |done|].
  - apply Forall2_fmap, Forall_Forall2_diag, Forall_forall. intros ev Hev.
    exists (OutboxEvent.payload ev). split; [apply loads_dumps|].
    destruct (reported_txn (db w) ev Hw) as (t & Ht & _ & Hr); [by apply Hevs|].
    by apply (payload_carries _ _ t); [apply sized_txns|apply Hw|..].
  - apply Forall_fmap, Forall_forall. intros ev Hev. by apply reported_ok, Hevs.
  - exists w'. split; [done|]. intros k. rewrite Hst, Hp.
    apply counted_ledger; [by apply firsts_are_transactions|done].
Qed.

(** C32. Events are well typed for their consumer: the payload of every event the
    ledger writes has exactly the fields of the schema, each of its type, comes
    back from JSON as it was, and whatever the tables of the consumer hold, its
    handler counts it, skips it as counted before, or is refused by a column's
    range - it never fails on a missing key or on a value of the wrong kind. *)
Theorem published_events_well_typed w j ev w' now :
  ids128 -> reachable w -> outbox_events (db w) !! j = Some ev ->
  let p := OutboxEvent.payload ev in
  conforms p /\ json_loads (json_dumps p) = Some p /\
  (run (AnalyticsService.handle_event p) (at_log w' [] now)).1 ∈
    [inr true; inr false; inl (DBError DataError)].
Proof.
  intros Hids Hr Hj p. pose proof (reachable_sized w Hids Hr) as Hsize.
  apply reachable_sound in Hr as [Hw _].
  destruct (reported_txn (db w) ev Hw) as (t & Ht & _ & Hrep); [by exists j|].
  pose proof (payload_carries _ _ t (sized_txns _ Hsize) (lw_keyed _ (wf_ledger _ Hw)) Ht Hrep) as Hc.
  split; [|split; [apply loads_dumps|]].
  - destruct Hrep as (_ & _ & _ & e1 & e2 & wid & nw & _ & _ & Hp). unfold p. rewrite Hp.
    apply event_payload_conforms.
  - pose proof (proj1 (wp_run _ _ _) (wp_handle_event p (reported (db w) ev) w' now Hc)) as Ho.
    simpl in Ho. repeat case_match; destruct Ho as [-> _]; set_solver.
Qed.

End analytics.

Section notification.
Context `{JsonCodec}.

(** Notifications are sent once: with a handler that does not fail, the
    consumer commits every message and notifies exactly the first event of
    each transaction id not seen before, in the order of the messages. *)
Theorem notified_once vs ps s :
  Forall2 (fun v p => json_loads v = Some p) vs ps ->
  NotificationConsumer.run_forever (recorder (fun _ => false)) vs s =
    (length vs, NotificationConsumer.State (NotificationConsumer.seen s ∪ list_to_set (NotificationConsumer.event_id <$> ps))
                  (NotificationConsumer.world s ++ first_events (NotificationConsumer.seen s) ps)).
Proof. apply run_recorder. Qed.

(** C29. No notification is skipped by a crash: over any number of lives of the
    process - each with its own failing events, an empty memory, and reading on
    from the committed offset - every event whose offset was committed had a
    notification with its id, and none already sent is taken back. *)
Theorem committed_events_were_notified bads vs ps rest log log' :
  Forall2 (fun v p => json_loads v = Some p) vs ps -> lives bads vs log = (rest, log') ->
  exists n, rest = drop n vs /\ log `prefix_of` log' /\
    forall p, p ∈ take n ps -> exists q, q ∈ log' /\ NotificationConsumer.event_id q = NotificationConsumer.event_id p.
Proof. apply lives_notified. Qed.
End notification.

Section reconciliation.
Context `{Env}.

(** C25. Reconciliation is exact, on any session engine and any tables whose
    wallets sit under their ids: the report lists each drifted wallet once,
    with its cached balance and its ledger balance, and nothing else; it is
    clean exactly when every balance agrees with the ledger; the task of the
    reconciliation DAG fails exactly when one does not, with a line for each that
    does not; the task of the snapshot DAG succeeds, with a line for each row of
    the rollup; and none of them changes anything. *)
Theorem reconciliation_exact {S} `{!SessionEngine S} (s : S) w now :
  view s = at_log w [] now -> wallet_keyed (db w) ->
  let out := run_on ReconciliationService.check s in
  let task := run_on (run_task (bash_command reconciliation_dag)) s in
  let snapshot := run_on (run_task (bash_command analytics_snapshot_dag)) s in
  view out.2 = at_log w [] now /\ view task.2 = at_log w [] now /\ view snapshot.2 = at_log w [] now /\
  (exists report, out.1 = inr report /\
    ReconciliationReport.wallets_checked report = size (wallets (db w)) /\
    (forall x, x ∈ ReconciliationReport.discrepancies report <-> drifted (db w) x) /\
    NoDup (Discrepancy.wallet_id <$> ReconciliationReport.discrepancies report) /\
    (ReconciliationReport.ok report = true <-> balanced (db w))) /\
  (exists code lines, task.1 = inr (code, lines) /\
    (state_of_task task.1 = TaskFailed <-> ~ balanced (db w)) /\
    forall x, drifted (db w) x -> DriftLine (Discrepancy.wallet_id x) (Discrepancy.cached_balance x)
      (Discrepancy.ledger_balance x) (Discrepancy.diff x) ∈ lines) /\
  snapshot.1 = inr (0%Z, snapshot_lines (TransactionStatRepository.rows (db w))).
Proof.
  intros Hs Hk.
  assert (Hc : (run_on ReconciliationService.check s).1 = inr (report_of (db w)) /\
    view (run_on ReconciliationService.check s).2 = at_log w [] now).
  { apply (run_on_wp _ (fun r s' => r = inr (report_of (db w)) /\ s' = at_log w [] now)).
    rewrite Hs. by apply wp_check. }
  pose proof (wp_reconciliation_task w now) as Ht. rewrite <- Hs in Ht. apply run_on_wp in Ht. rewrite Hs in Ht.
  pose proof (wp_snapshot_task w now) as Hn. rewrite <- Hs in Hn. apply run_on_wp in Hn. rewrite Hs in Hn.
  destruct Ht as [Ht Htv]. destruct Hn as [Hn Hnv]. cbv zeta.
  split; [apply Hc|]. split; [done|]. split; [done|]. split; [|split; [|done]].
  - exists (report_of (db w)). split; [apply Hc|]. split; [done|]. split; [intros x; by apply report_drifted|].
    split; [by apply report_NoDup|by apply report_ok].
  - rewrite Ht. do 2 eexists. split; [done|]. split; [|intros x; by apply drift_logged].
    rewrite <- report_ok by done. destruct (ReconciliationReport.ok (report_of (db w))); simpl; naive_solver.
Qed.
End reconciliation.

(** ** Witnesses *)
Import Demo.

(** A broker that acknowledges every message. *)
Definition acking (ms : list Message.t) : list ack := (fun _ => Acked) <$> ms.
Definition silent (ms : list Message.t) : list ack := (fun _ => Outstanding) <$> ms.

Lemma acking_no_error ms : delivery_errors (acking ms) = [].
Proof. apply no_delivery_error, Forall_fmap, Forall_true. done. Qed.


Lemma outbox_drains_witness :
  pending_events (db (turns acking "transactions.events" 1 2 world_paid)) = ∅.
Proof.
  apply (outbox_drains acking "transactions.events" 1 2 world_paid paid_reachable acking_no_error).
  vm_compute; lia.
Defined.

Lemma unacknowledged_batch_is_stamped_witness :
  size (pending_events (db world_paid)) = 2 /\
  size (pending_events (db (turns silent "transactions.events" 100 1 world_paid))) = 2 - 100.
Proof.
  split; [computes|].
  apply (unacknowledged_batch_is_stamped silent "transactions.events" 100 world_paid paid_reachable).
  intros ms. apply Forall_fmap, Forall_true. done.
Defined.

(** Alice's events, the first delivered twice. *)
Definition paid_events : list OutboxEvent.row := snd <$> map_to_list (outbox_events (db world_paid)).
Definition deliveries : list OutboxEvent.row := paid_events ++ reverse paid_events.

Lemma deliveries_all ev :
  ev ∈ deliveries <-> exists j, outbox_events (db world_paid) !! j = Some ev.
Proof.
  unfold deliveries. rewrite elem_of_app, elem_of_reverse. unfold paid_events.
  rewrite elem_of_values. tauto.
Qed.

Lemma paid_stats k : stat_of (db world_paid) k = (0, 0)%Z.
Proof.
  unfold stat_of. assert (transaction_stats (db world_paid) = ∅) as -> by computes. done.
Qed.

Lemma paid_sized : sized (db world_paid).
Proof. apply (reachable_sized _ demo_ids paid_reachable). Qed.

Lemma published_events_well_typed_witness :
  exists ev, ev ∈ paid_events /\ conforms (OutboxEvent.payload ev) /\
    (run (AnalyticsService.handle_event (OutboxEvent.payload ev)) (at_log empty_world [] 0%Z)).1 ∈
      [inr true; inr false; inl (DBError DataError)].
Proof.
  destruct (outbox_events (db world_paid) !! 16%N) as [ev|] eqn:E.
  - destruct (published_events_well_typed world_paid 16%N ev empty_world 0%Z demo_ids paid_reachable E)
      as (Hc & _ & Hr).
    exists ev. split; [|split; [exact Hc|exact Hr]].
    unfold paid_events. apply list_elem_of_fmap. exists (16%N, ev). split; [done|].
    by apply elem_of_map_to_list.
  - exfalso. vm_compute in E. discriminate.
Defined.

Lemma paid_room es : Z.of_nat (length es) = 4%Z -> zsum (se_amount <$> es) = 1400%Z -> room (db world_paid) es.
Proof. intros Hl Hs k. rewrite paid_stats, Hl, Hs. unfold bigint_min, bigint_max. simpl. lia. Qed.

Lemma rollup_counts_first_deliveries_witness :
  let es := reported (db world_paid) <$> deliveries in
  exists w', consume_all ((fun ev => json_dumps (OutboxEvent.payload ev)) <$> deliveries) world_paid = Some w' /\
    rolled_up world_paid w' es.
Proof.
  apply rollup_counts_first_deliveries.
  - apply Forall2_fmap, Forall_Forall2_diag, Forall_forall. intros ev Hev.
    exists (OutboxEvent.payload ev). split; [apply loads_dumps|].
    destruct (reachable_sound _ paid_reachable) as [Hw _].
    destruct (reported_txn _ ev Hw) as (t & Ht & _ & Hr); [by apply deliveries_all|].
    apply (payload_carries _ _ t); [|apply Hw|done..].
    apply sized_txns, paid_sized.
  - apply Forall_fmap, Forall_forall. intros ev Hev. apply reported_ok.
    + apply (reachable_sound _ paid_reachable).
    + by apply deliveries_all.
  - apply paid_room; computes.
Defined.

Lemma rollup_matches_ledger_witness :
  exists w', consume_all ((fun ev => json_dumps (OutboxEvent.payload ev)) <$> deliveries) world_paid = Some w' /\
    forall k, stat_of (db w') k = ledger_stats (db world_paid) k.
Proof.
  apply (rollup_matches_ledger world_paid deliveries demo_ids paid_reachable paid_stats).
  - computes.
  - exact deliveries_all.
  - apply paid_room; computes.
Defined.



Definition note (id : Z) : dict := {[ "transaction_id" := JInt id ]}.

Lemma notified_once_witness :
  NotificationConsumer.run_forever (recorder (fun _ => false))
    (json_dumps <$> [note 1; note 2; note 1]) (NotificationConsumer.State ∅ []) =
  (3, NotificationConsumer.State
        (∅ ∪ list_to_set (NotificationConsumer.event_id <$> [note 1; note 2; note 1]))
        ([] ++ [note 1; note 2])).
Proof.
  etransitivity; [eapply (notified_once _ [note 1; note 2; note 1])|reflexivity].
  repeat constructor; apply loads_dumps.
Defined.

Lemma committed_events_were_notified_witness :
  let ps := [note 1; note 2; note 3] in
  exists n, drop 1 (json_dumps <$> ps) = drop n (json_dumps <$> ps) /\ [] `prefix_of` [note 1] /\
    forall p, p ∈ take n ps -> exists q, q ∈ [note 1] /\
      NotificationConsumer.event_id q = NotificationConsumer.event_id p.
Proof.
  apply (committed_events_were_notified
    [(fun p => bool_decide (p = note 2))] (json_dumps <$> [note 1; note 2; note 3])
    [note 1; note 2; note 3]).
  - repeat constructor; apply loads_dumps.
  - computes.
Defined.

(** Tables in which a balance was tampered with. *)
Definition world_tampered : World :=
  let d := db world_paid in
  mkWorld (mkDatabase (users d) (alter (Wallet.set_available_balance 1000) bob_wallet (wallets d))
    (transactions d) (ledger_entries d) (outbox_events d) (processed_events d) (transaction_stats d))
    (next_seq world_paid) (tick world_paid).

Lemma world_tampered_keyed : wallet_keyed (db world_tampered).
Proof.
  assert (Hall : map_Forall (fun i w => Wallet.id w = i) (wallets (db world_tampered))).
  { apply (bool_decide_unpack _). vm_compute. exact I. }
  intros i w Hw. exact (Hall i w Hw).
Qed.

Lemma reconciliation_exact_witness : (exists report,
  (run_on ReconciliationService.check (start world_tampered)).1 = inr report /\
  Discrepancy.mk bob_wallet 1000 200 ∈ ReconciliationReport.discrepancies report) /\
  exists code lines, (run_on (run_task (bash_command reconciliation_dag)) (start world_tampered)).1 = inr (code, lines) /\
    DriftLine bob_wallet 1000 200 800 ∈ lines.
Proof.
  assert (Hs : view (start world_tampered) = at_log world_tampered [] (clock (tick world_tampered)))
    by reflexivity.
  assert (Hd : drifted (db world_tampered) (Discrepancy.mk bob_wallet 1000 200)).
  { vm_compute. eexists. split; [reflexivity|]. repeat split; discriminate. }
  destruct (reconciliation_exact (start world_tampered) world_tampered (clock (tick world_tampered))
    Hs world_tampered_keyed) as (_ & _ & _ & (report & Hr & _ & Hx & _) & (code & lines & Ht & _ & Hl) & _).
  split.
  - exists report. split; [exact Hr|]. apply Hx. exact Hd.
  - exists code, lines. split; [exact Ht|]. exact (Hl _ Hd).
Defined.
