(* ===== verification/PipelineTheorems.v ===== *)
(** * From a request to the rollup and the notification: theorems and witnesses

    What a deployment with its workers and Kafka delivers: at any time, and once
    the workers have caught up, which they always can. *)
From S2P Require Import Prelude PyValues Schema Session Interleaving Pool Progress Requests.
From S2P Require Import Repositories LedgerService Moves LedgerSpec Security AccountServices Publisher.
From S2P Require Import Analytics Atomicity Invariants System ConcurrentLedger Jobs Notification Kafka.
From S2P Require Import EndToEnd Pipeline Demo.

Section theorems.
Context `{Env} `{Crypto} `{JsonCodec} {K : Type} `{Kafka K}.
Variable st : Settings.t.









(** ** The workers catch up *)
Definition same_ledger (d d' : Database) : Prop :=
  users d' = users d /\ wallets d' = wallets d /\ transactions d' = transactions d /\
  ledger_entries d' = ledger_entries d.

#[export] Instance same_ledger_preorder : PreOrder same_ledger.
Proof. split; [done|]. intros d d' d'' (?&?&?&?) (?&?&?&?). unfold same_ledger. conj; congruence. Qed.













End theorems.

(** ** A cluster with one partition per topic *)
Module DemoKafka.
Record t := Cluster { topics : gmap string (list Message.t); offsets : gmap (string * string * nat) nat }.

Definition append (k : t) (m : Message.t) : t :=
  Cluster (<[Message.topic m := default [] (topics k !! Message.topic m) ++ [m]]> (topics k)) (offsets k).

Definition stored (k : t) (topic : string) (p : nat) : list Message.t :=
  match p with O => default [] (topics k !! topic) | S _ => [] end.

(** Messages land unless they are reported as failed or still outstanding. *)
Definition landed (ms : list Message.t) (acks : list ack) : list Message.t :=
  omap (fun ma => if decide (ma.2 = Acked) then Some ma.1 else None) (zip ms acks).

Lemma stored_append k m topic p : stored (append k m) topic p =
  stored k topic p ++ (if decide (p = 0 /\ Message.topic m = topic) then [m] else []).
Proof.
  destruct p as [|p]; [|by rewrite decide_False by naive_solver]. unfold stored, append. cbn [topics].
  rewrite lookup_insert. case_decide as E; case_decide as E'; simpl; rewrite ?app_nil_r; naive_solver.
Qed.

Lemma stored_appends ms k topic p : exists l, stored (foldl append k ms) topic p = stored k topic p ++ l /\
  (forall m, m ∈ l -> m ∈ ms /\ Message.topic m = topic) /\
  (p = 0 -> forall m, m ∈ ms -> Message.topic m = topic -> m ∈ l).
Proof.
  revert k. induction ms as [|m ms IH]; intros k; simpl.
  { exists []. rewrite app_nil_r. split; [done|]. split; [by intros m ?%elem_of_nil|by intros _ m ?%elem_of_nil]. }
  destruct (IH (append k m)) as (l & -> & Hl & Hl'). rewrite stored_append, <- app_assoc. eexists. split; [done|].
  split.
  - intros m' [Hm|Hm]%elem_of_app; [|destruct (Hl m' Hm); set_solver].
    case_decide as E; [|by apply elem_of_nil in Hm]. apply list_elem_of_singleton in Hm as ->. set_solver.
  - intros -> m' [->|Hm]%elem_of_cons Ht; [rewrite decide_True by done; set_solver|].
    apply elem_of_app. right. by apply Hl'.
Qed.

Lemma offsets_append ms k : offsets (foldl append k ms) = offsets k.
Proof. revert k. induction ms as [|m ms IH]; intros k; [done|]. simpl. by rewrite IH. Qed.

#[export] Program Instance kafka : Kafka t :=
  {| Kafka.stored := stored;
     committed := fun k g topic p => offsets k !! (g, topic, p);
     produced := fun _ ms acks k k' => k' = foldl append k (landed ms acks);
     offset_committed := fun g topic p n k k' => k' = Cluster (topics k) (<[(g, topic, p) := n]> (offsets k)) |}.
Next Obligation.
  intros cfg ms acks k k' -> topic p. destruct (stored_appends (landed ms acks) k topic p) as (l & Hl & Hall & _).
  exists l. split; [done|]. intros m Hm. destruct (Hall m Hm) as [Hin Ht]. split; [|done].
  apply list_elem_of_omap in Hin as ([m' a] & Hin & Hm'). case_decide; simplify_eq/=. by apply elem_of_zip_l in Hin.
Qed.
Next Obligation.
  intros cfg ms acks k k' _ -> i m Hm Ha. exists 0.
  destruct (stored_appends (landed ms acks) k (Message.topic m) 0) as (l & -> & _ & Hall). apply elem_of_app. right.
  apply Hall; [done| |done]. apply list_elem_of_omap. exists (m, Acked). rewrite decide_True by done. split; [|done].
  apply list_elem_of_lookup. exists i. apply lookup_zip_Some. done.
Qed.
Next Obligation. intros cfg ms acks k k' -> g topic p. simpl. by rewrite offsets_append. Qed.
Next Obligation. by intros g topic p n k k' -> topic' p'. Qed.
Next Obligation.
  intros g topic p n k k' -> g' topic' p'. simpl. rewrite lookup_insert.
  case_decide as E; case_decide as E'; naive_solver.
Qed.
End DemoKafka.

(** ** Witnesses *)
Import Demo DemoKafka.




















