(* ===== verification/AccessTheorems.v ===== *)
(** * Theorems about identities and access

    Registration, wallet creation, login and access tokens. *)
From S2P Require Import Prelude PyValues Schema Session Requests Repositories LedgerService Moves.
From S2P Require Import LedgerSpec Security AccountServices Publisher Analytics Reconciliation.
From S2P Require Import Invariants System Cache Api ApiFacts Demo.

Section access.
Context `{Env} `{Crypto} `{JsonCodec}.

(** C28. [register], on any session engine: a known email is refused, a row the
    database rejects commits nothing, otherwise the user is committed with the
    hash of the password and read back. *)
Theorem register_exact {S} `{!SessionEngine S} (s : S) w now data :
  view s = at_log w [] now ->
  let out := run_on (UserService.register data) s in
  register_outcome w now data out.1 (view out.2).
Proof. intros Hs. apply (run_on_wp _ (register_outcome w now data)). rewrite Hs. apply wp_register. Qed.

(** [create_wallet], on any session engine: one wallet per owner and
    upper-cased currency, opened with zero balances, or nothing. *)
Theorem create_wallet_exact {S} `{!SessionEngine S} (s : S) w now owner data :
  view s = at_log w [] now ->
  let out := run_on (WalletService.create_wallet owner data) s in
  create_wallet_outcome w now owner data out.1 (view out.2).
Proof.
  intros Hs. apply (run_on_wp _ (create_wallet_outcome w now owner data)). rewrite Hs.
  apply wp_create_wallet.
Qed.

(** A user committed with the hash of a password is found by it ever after. *)
Lemma known_user_logs_in `{!CryptoLaws} w w' u salt password now' :
  wf (db w) -> users (db w) !! User.id u = Some u -> User.password_hash u = hasher_hash salt password ->
  rtc step w w' ->
  wp (UserService.authenticate (User.email u) password) (fun r s' => r = inr (Some u) /\ s' = at_log w' [] now')
    (at_log w' [] now').
Proof.
  intros Hw Hu Hp Hst.
  assert (Hw' : wf (db w')).
  { clear -Hst Hw. revert Hw. induction Hst as [|w1 w2 w3 Hs _ IH]; [done|].
    intros Hw. by apply IH, (step_wf w1). }
  apply (lookup_weaken _ (users (db w'))) in Hu; [|apply (ext_users _ _ (steps_extend _ _ Hw Hst))].
  assert (Hfirst : first_row (fun v => User.email v = User.email u) (users (db w')) = Some u).
  { apply (first_row_unique _ _ (User.id u)); [done..|]. intros j v Hj Hv.
    assert (User.id u = j) as <-; [|congruence].
    by apply (iw_email _ (wf_identity _ Hw') _ _ u v). }
  unfold UserService.authenticate. apply wp_bind, wp_query. rewrite apply_writes_nil, Hfirst.
  unfold verify_password. rewrite Hp, verify_hash. by apply wp_ret.
Qed.

(** Whoever registered can log in: after a successful registration, in every
    world reachable from there, [authenticate] with the same email and password
    finds the registered user. *)
Theorem registered_user_logs_in `{!CryptoLaws} w w' s1 now now' data u :
  reachable w -> run (UserService.register data) (at_log w [] now) = (inr u, s1) ->
  rtc step s1.1 w' ->
  (run (UserService.authenticate (UserCreate.email data) (UserCreate.password data))
     (at_log w' [] now')).1 = inr (Some u).
Proof.
  intros [Hw _]%reachable_sound Hreg Hst.
  pose proof (proj1 (wp_run _ _ _) (wp_register data w now)) as Ho. rewrite Hreg in Ho.
  unfold register_outcome in Ho. destruct (email_taken _ _); [by destruct Ho|].
  destruct (violation _ _) eqn:Hv; [by destruct Ho|]. destruct Ho as [[= ->] Hs]. simpl in Hs. rewrite Hs in Hst.
  set (w1 := mkWorld _ _ _) in Hst.
  pose proof (known_user_logs_in w1 w' (registered_user w now data) (uuid4 (tick w)) (UserCreate.password data) now'
    (add_user_wf _ _ Hv Hw) (lookup_insert_eq _ _ _) eq_refl Hst) as Hp.
  apply wp_run in Hp. apply Hp.
Qed.

Lemma token_decodes `{!CryptoLaws} st made now subject minutes :
  decode_access_token st now (create_access_token st made subject minutes) =
    if (now / 1000000 <? made / 1000000 + expiry_minutes st minutes * 60)%Z then Some subject else None.
Proof.
  unfold decode_access_token, create_access_token. set (c := token_claims st made subject minutes).
  set (e := (made / 1000000 + expiry_minutes st minutes * 60)%Z).
  assert (Hexp : claim_exp c = Some e) by reflexivity. destruct (now / 1000000 <? e)%Z eqn:Hlt.
  - by rewrite (decode_encode _ _ _ _ e Hexp) by by apply Z.ltb_lt.
  - by rewrite (decode_expired _ _ _ _ _ e Hexp) by by apply Z.ltb_ge.
Qed.

(** An access token names its user until it expires: a token made for the
    user [i] resolves to that user's row while the current second is before
    the expiry, and to nobody from then on. *)
Theorem token_names_user_until_expiry `{!CryptoLaws} st made now w tx i u minutes :
  users (db w) !! i = Some u -> (i < uuid_bound)%N ->
  (run (get_current_user st now (create_access_token st made (uuid_str i) minutes))
     (at_log w [] tx)).1 =
    inr (if (now / 1000000 <? made / 1000000 + expiry_minutes st minutes * 60)%Z
         then Some u else None).
Proof.
  intros Hu Hi. unfold get_current_user. rewrite token_decodes. destruct (_ <? _)%Z; [|done].
  rewrite uuid_parse_str_aux by done.
  assert (Hp : wp (UserRepository.get_by_id i) (fun r _ => r = inr (Some u)) (at_log w [] tx)).
  { apply wp_query. by rewrite apply_writes_nil, Hu. }
  by apply wp_run in Hp.
Qed.

(** A token signed with another secret names nobody, whatever it claims. *)
Theorem foreign_token_rejected `{!CryptoLaws} st now c secret alg w tx :
  secret <> Settings.jwt_secret st ->
  (run (get_current_user st now (jwt_encode c secret alg)) (at_log w [] tx)).1 = inr None.
Proof.
  intros Hne. unfold get_current_user, decode_access_token. by rewrite decode_other_secret.
Qed.

(** *** Through the API *)
Context `{EmailValidator}.

(** The addresses of a database whose users registered through the API. *)
Definition normal_emails (d : Database) : Prop :=
  forall i u, users d !! i = Some u -> email_str (User.email u) = Some (User.email u).

(** A 201 of the registration route: the user that was added. *)
Lemma register_user_reply w data r w1 : serve (register_user data) w = (Reply r, w1) ->
  exists data' u, UserCreate.parse data = Some data' /\ u = registered_user w (clock (tick w)) data' /\
    violation (db w) (user_change u) = None /\ db w1 = add_user u (db w) /\ UserRead.of_row u = Reply r.
Proof.
  intros Hs. pose (Ψ := fun (resp : response UserRead.t) (w' : World) => forall x, resp = Reply x ->
    exists data' u, UserCreate.parse data = Some data' /\ u = registered_user w (clock (tick w)) data' /\
      violation (db w) (user_change u) = None /\ db w' = add_user u (db w) /\ UserRead.of_row u = Reply x).
  assert (Hw : Ψ (serve (register_user data) w).1 (serve (register_user data) w).2); [|rewrite Hs in Hw; by apply Hw].
  apply serve_wp. unfold register_user. destruct (UserCreate.parse data) as [data'|] eqn:E; [|by apply wp_ret].
  apply wp_bind, wp_http. eapply wp_mono; [apply wp_register|]. intros o s' Ho. unfold register_outcome in Ho.
  destruct (email_taken _ _); [destruct Ho as [-> _]; by apply wp_ret|].
  destruct (violation _ _) eqn:Hv; [destruct Ho as [-> _]; by intros x|]. destruct Ho as [-> Hdb].
  apply wp_ret. intros x Hx. exists data', (registered_user w (clock (tick w)) data'). by rewrite Hdb.
Qed.

Lemma parse_email data data' : UserCreate.parse data = Some data' ->
  email_str (UserCreate.email data) = Some (UserCreate.email data') /\ UserCreate.password data' = UserCreate.password data.
Proof. unfold UserCreate.parse. destruct (_ && _); [|done]. destruct (email_str _) as [e|]; [|done]. by intros [= <-]. Qed.

(** C27. Sign-up, sign-in and /me: after a 201 of the registration route, in every
    world reachable from there, logging in with the address of the reply and the
    password gives a token, and while it is valid /me with it shows the registered
    user.  The address of the reply is the normal form of the address typed:
    typed again as it was, when the two differ, it gives 401. *)
Theorem sign_up_sign_in `{!CryptoLaws} st w data r w1 w2 w3 : ids128 -> reachable w ->
  serve (register_user data) w = (Reply r, w1) -> rtc step w1 w2 -> rtc step w2 w3 ->
  email_str (UserCreate.email data) = Some (UserRead.email r) /\
  let token := create_access_token st (clock (tick w2)) (uuid_str (UserRead.id r)) None in
  (serve (login st (UserRead.email r) (UserCreate.password data)) w2).1 = Reply (Token.mk token "bearer") /\
  ((clock (tick w3) / 1000000 < clock (tick w2) / 1000000 + expiry_minutes st None * 60)%Z ->
     (serve (read_me st token) w3).1 = Reply r) /\
  (UserCreate.email data <> UserRead.email r -> normal_emails (db w2) ->
     (serve (login st (UserCreate.email data) (UserCreate.password data)) w2).1 =
       HTTPError 401 "Incorrect email or password").
Proof.
  intros Hids Hw Hs Hst Hst'. destruct (register_user_reply w data r w1 Hs) as (data' & u & Hd & -> & Hv & Hdb & Hr).
  set (u := registered_user w (clock (tick w)) data') in *. apply parse_email in Hd as [He Hp].
  assert (Hf : User.email u = UserRead.email r /\ User.id u = UserRead.id r).
  { unfold UserRead.of_row in Hr. change (User.email u) with (UserCreate.email data') in Hr.
    rewrite (email_str_normal _ _ He) in Hr. by injection Hr as <-. }
  destruct Hf as [Hmail Hid]. apply reachable_sound in Hw as [Hw _].
  assert (Hw1 : wf (db w1)) by (rewrite Hdb; by apply add_user_wf).
  assert (Hu1 : users (db w1) !! User.id u = Some u) by (rewrite Hdb; apply lookup_insert_eq).
  split; [by rewrite <- Hmail|]. split; [|split].
  - rewrite <- Hmail. apply (serve_wp _ (fun r _ => r = _)). unfold login. apply wp_bind.
    eapply wp_mono; [apply (known_user_logs_in w1 w2 u (uuid4 (tick w))); [done..|by rewrite <- Hp|done]|].
    intros o s' [-> ->]. apply wp_bind, wp_now, wp_ret. by rewrite <- Hid.
  - intros Hlt. assert (Hu3 : users (db w3) !! User.id u = Some u).
    { eapply lookup_weaken; [exact Hu1|]. apply ext_users, steps_extend; [done|]. by etrans. }
    assert (Hb : (User.id u < uuid_bound)%N) by apply Hids.
    assert (Ht : token_user st w3 (create_access_token st (clock (tick w2)) (uuid_str (User.id u)) None) = Some u).
    { unfold token_user. rewrite token_decodes. apply Z.ltb_lt in Hlt as ->. by rewrite uuid_parse_str_aux. }
    rewrite <- Hid. apply (serve_wp _ (fun x _ => x = _)), wp_authenticated; rewrite Ht; [done|].
    intros v [= <-]. by apply wp_ret.
  - intros Hne Hn. apply (serve_wp _ (fun x _ => x = _)). unfold login, UserService.authenticate.
    apply wp_bind, wp_bind, wp_query. rewrite apply_writes_nil. rewrite (proj2 (first_row_None _ _)); [by apply wp_ret, wp_ret|].
    intros i v Hv' Hm. apply Hn in Hv'. rewrite Hm, He in Hv'. simpl in Hmail. congruence.
Qed.
End access.

(** ** Witnesses *)
Import Demo.

Definition alice : UserCreate.t := UserCreate.mk "Alice" "alice@example.com" "alices password".

Lemma register_exact_witness :
  let out := run_on (UserService.register alice) (start world_users) in
  register_outcome world_users (clock (tick world_users)) alice out.1 (view out.2).
Proof.
  exact (register_exact (start world_users) world_users (clock (tick world_users)) alice eq_refl).
Defined.

Lemma create_wallet_exact_witness :
  let out := run_on (WalletService.create_wallet alice_id (WalletCreate.mk "eur")) (start world_users) in
  create_wallet_outcome world_users (clock (tick world_users)) alice_id (WalletCreate.mk "eur")
    out.1 (view out.2).
Proof.
  exact (create_wallet_exact (start world_users) world_users (clock (tick world_users)) alice_id
    (WalletCreate.mk "eur") eq_refl).
Defined.

Definition alice_user : User.row :=
  match result (UserService.register alice) empty_world with
  | inr u => u
  | inl _ => User.mk 0 "" "" "" 0
  end.

Lemma registered_user_logs_in_witness :
  (run (UserService.authenticate "alice@example.com" "alices password")
     (at_log (after (UserService.register alice) empty_world) [] 0%Z)).1 = inr (Some alice_user).
Proof.
  apply (registered_user_logs_in empty_world (after (UserService.register alice) empty_world)
    (run (UserService.register alice) (start empty_world)).2 (clock 0) 0%Z alice alice_user).
  - apply rtc_refl.
  - computes.
  - apply rtc_refl.
Defined.

Lemma token_names_user_until_expiry_witness :
  (run (get_current_user settings 1700000060000000
          (create_access_token settings 1700000000000000 (uuid_str alice_id) None))
     (at_log world_users [] 0%Z)).1 =
    inr (if (1700000060000000 / 1000000 <? 1700000000000000 / 1000000 + expiry_minutes settings None * 60)%Z
         then Some alice_user else None).
Proof.
  apply (token_names_user_until_expiry settings 1700000000000000 1700000060000000 world_users 0%Z
    alice_id alice_user None); computes.
Defined.

Lemma foreign_token_rejected_witness :
  (run (get_current_user settings 0%Z (jwt_encode (list_to_map [("sub", JStr (uuid_str alice_id));
     ("exp", JInt 9999999999)]) "guessed" "HS256")) (at_log world_users [] 0%Z)).1 = inr None.
Proof.
  apply (foreign_token_rejected settings 0%Z _ "guessed" "HS256" world_users 0%Z). computes.
Defined.

(** Carol types her address with a capital in the domain. *)
Definition carol_typed : UserCreate.t := UserCreate.mk "Carol" "carol@Example.com" "carols password".
Definition carol_registered : response UserRead.t * World := serve (register_user carol_typed) empty_world.
Definition carol_read : UserRead.t :=
  match carol_registered.1 with Reply r => r | _ => UserRead.mk 0 "" "" 0 end.

Lemma carol_normal : normal_emails (db carol_registered.2).
Proof.
  assert (Hall : map_Forall (fun _ u => email_str (User.email u) = Some (User.email u)) (users (db carol_registered.2))).
  { apply (bool_decide_unpack _). vm_compute. exact I. }
  intros i u Hu. exact (Hall i u Hu).
Qed.

Lemma sign_up_sign_in_witness :
  (exists token, (serve (login settings "carol@example.com" "carols password") carol_registered.2).1 = Reply token) /\
  (serve (login settings "carol@Example.com" "carols password") carol_registered.2).1 =
    HTTPError 401 "Incorrect email or password".
Proof.
  assert (He : carol_registered = (Reply carol_read, carol_registered.2)) by (vm_compute; reflexivity).
  assert (Hm : UserRead.email carol_read = "carol@example.com") by (vm_compute; reflexivity).
  pose proof (sign_up_sign_in settings empty_world carol_typed carol_read carol_registered.2 carol_registered.2
    carol_registered.2 demo_ids (rtc_refl _ _) He (rtc_refl _ _) (rtc_refl _ _)) as Hp.
  destruct Hp as (_ & Hok & _ & Hno). rewrite Hm in Hok, Hno. split.
  - eexists. exact Hok.
  - apply Hno; [discriminate|exact carol_normal].
Defined.
