(* ===== verification/ConcurrencyTheorems.v ===== *)
(** * Theorems about concurrent requests

    Deposits, transfers and withdrawals that run at the same time, in every
    interleaving of their session calls and with threads lost at any point:
    serializability against the atomic specification, no lost update, no double
    spend, one transaction per idempotency key, no deadlock, termination; and
    the races the locks do not cover. *)
From S2P Require Import Prelude PyValues Schema Locks Session Interleaving Pool Progress Requests.
From S2P Require Import Repositories LedgerService Moves LedgerSpec Reconciliation Invariants System.
From S2P Require Import ConcurrentLedger RequestPools Analytics Demo.
Import Demo.

Abbreviation anything := (fun _ _ : Database => True).

Section theorems.
Context `{Env} {S : Type} `{!Server answer S}.
Implicit Types (w : World) (qs : list (request * Z)) (P : World * list (thread answer)) (s : S).

Lemma served_money w qs order P : wf (db w) -> runs (launch w qs) order P ->
  wf (db P.1) /\ serial (nth_books qs) order (db w) (db P.1) /\ NoDup order /\
  (forall i t, P.2 !! i = Some t -> (i ∈ order <-> committed (ghost_of t) = true)) /\
  (forall i r g, P.2 !! i = Some (Finished r g) -> nth_answered anything (db w) qs i r (db P.1) g).
Proof.
  intros Hw Hr.
  by destruct (run_served anything qs (db w) (fun _ _ _ _ _ _ => I) w order P Hw eq_refl Hr)
    as ([Hwf _] & Hrest).
Qed.

(** Concurrent requests refine the atomic ledger: however the session calls
    of any number of deposits, transfers and withdrawals interleave, and
    whichever threads are lost on the way, the committed tables are those of
    carrying out the committed requests one at a time, in the order of their
    commits, each once, each as its guard allows on the tables it finds there;
    the tables stay sound; a request that has raised is not among them; one
    that has answered has its transaction in the tables, its own if it
    committed, otherwise the one its idempotency key stands for. *)
Theorem concurrent_requests_serialize s s' w qs order : wf (db w) ->
  observed s = launch w qs -> serves s order s' ->
  let P := observed s' in
  wf (db P.1) /\ serial (nth_books qs) order (db w) (db P.1) /\ NoDup order /\
  (forall i e g, P.2 !! i = Some (Finished (inl e) g) -> (i ∉ order)) /\
  (forall i txn wal g, P.2 !! i = Some (Finished (inr (txn, wal)) g) ->
     exists c, qs !! i = Some c /\ transactions (db P.1) !! Transaction.id txn = Some txn /\
     ((i ∈ order /\ booked_by c.1 txn) \/ ((i ∉ order) /\ replayed c.1 txn))).
Proof.
  intros Hw Hl Hr%serves_runs P. rewrite Hl in Hr.
  destruct (served_money w qs order P Hw Hr) as (Hwf & Hs & Hnd & Hord & Hans).
  split; [done|]. split; [done|]. split; [done|]. split.
  - intros i e g Hi Hin. destruct (Hans i _ g Hi) as (c & _ & Hc & _).
    apply (Hord i _ Hi) in Hin. simpl in Hin. congruence.
  - intros i txn wal g Hi. destruct (Hans i _ g Hi) as (c & Hc & Ht & Hb). exists c.
    split; [done|]. split; [done|]. pose proof (Hord i _ Hi) as Ho. simpl in Ho.
    unfold committed in Ho. destruct (booked g) as [[d1 d2]|]; [left|right].
    + split; [by apply Ho|]. by eapply carried_booked, Hb.
    + split; [|apply Hb]. intros Hin. by apply Ho in Hin.
Qed.

(** No update is lost: whatever the interleaving, the balance of a wallet is
    what it was, plus what every committed deposit and transfer put into it,
    less what every committed transfer and withdrawal took out, and it is
    never negative and never beyond BIGINT. *)
Theorem no_lost_update s s' w qs order i r : wf (db w) ->
  observed s = launch w qs -> serves s order s' ->
  wallets (db (observed s').1) !! i = Some r ->
  Wallet.available_balance r = (balance i (db w) + zsum (nth_delta i qs <$> order))%Z /\
  (0 <= Wallet.available_balance r <= bigint_max)%Z.
Proof.
  intros Hw Hl Hr%serves_runs Hi. rewrite Hl in Hr.
  destruct (served_money w qs order _ Hw Hr) as (Hwf & Hs & _).
  split; [|by eapply lw_range; [apply Hwf|]].
  rewrite <- (serial_balance qs order (db w) _ i Hw Hs). unfold balance. by rewrite Hi.
Qed.

(** C10. An idempotency key moves money once, under concurrency too: all requests
    that carry one key and are answered get the same transaction, and at most
    one of them has committed. *)
Theorem concurrent_key_books_once s s' w qs order k : wf (db w) ->
  observed s = launch w qs -> serves s order s' -> let P := observed s' in
  forall i j ci cj ti tj wi wj gi gj, qs !! i = Some ci -> qs !! j = Some cj ->
  truthy (request_key ci.1) = Some k -> truthy (request_key cj.1) = Some k ->
  P.2 !! i = Some (Finished (inr (ti, wi)) gi) -> P.2 !! j = Some (Finished (inr (tj, wj)) gj) ->
  ti = tj /\ (i ∈ order -> j ∈ order -> i = j).
Proof.
  intros Hw Hla Hr%serves_runs P. rewrite Hla in Hr. intros i j ci cj ti tj wi wj gi gj Hi Hj Hki Hkj Hti Htj.
  destruct (served_money w qs order P Hw Hr) as (Hwf & Hs & _ & _ & Hans).
  assert (Hkey : forall l c t wal g, qs !! l = Some c -> truthy (request_key c.1) = Some k ->
    P.2 !! l = Some (Finished (inr (t, wal)) g) ->
    transactions (db P.1) !! Transaction.id t = Some t /\ Transaction.idempotency_key t = Some k).
  { intros l c t wal g Hl Hk Ht. destruct (Hans l _ g Ht) as (c' & Hc' & Hin & Hb). simplify_eq.
    split; [done|]. destruct (booked g) as [[d1 d2]|].
    - destruct Hb as [Hb%carried_booked _]. rewrite (booked_key _ _ Hb). by apply truthy_Some in Hk as [-> _].
    - destruct Hb as [(k' & Hk' & Hb) _]. congruence. }
  destruct (Hkey i ci ti wi gi Hi Hki Hti) as [Hi1 Hi2]. destruct (Hkey j cj tj wj gj Hj Hkj Htj) as [Hj1 Hj2].
  apply truthy_Some in Hki as [Hki _]. apply truthy_Some in Hkj as [Hkj _]. split.
  - pose proof (lw_keys _ (wf_ledger _ Hwf) _ _ _ _ k Hi1 Hj1 Hi2 Hj2) as He. rewrite He in Hi1. congruence.
  - by eapply serial_key_once.
Qed.

(** C9. No double spend: of any number of concurrent withdrawals of one amount
    by the owner of a wallet, once all have ended and none was refused by the
    database, exactly as many have gone through as the balance covers, the
    balance is less by just these, and the others were told that the funds do
    not suffice. *)
Theorem concurrent_withdrawals_share s s' w i wal data nows order : wf (db w) ->
  wallets (db w) !! i = Some wal -> Wallet.currency wal = upper (WithdrawalRequest.currency data) ->
  (0 < WithdrawalRequest.amount data)%Z ->
  observed s = launch w (withdrawals i wal data nows) -> serves s order s' -> let P := observed s' in
  (forall j t, P.2 !! j = Some t -> exists r g, t = Finished r g /\ forall e, r <> inl (DBError e)) ->
  length order = Nat.min (length nows)
    (Z.to_nat (Wallet.available_balance wal / WithdrawalRequest.amount data)) /\
  balance i (db P.1) =
    (Wallet.available_balance wal - Z.of_nat (length order) * WithdrawalRequest.amount data)%Z /\
  forall j e g, P.2 !! j = Some (Finished (inl e) g) -> e = InsufficientFundsError i.
Proof.
  intros Hw Hwal Hcur Hpos Hl Hr%serves_runs P Hended. rewrite Hl in Hr. set (qs := withdrawals i wal data nows) in *.
  destruct (run_served (poorer i) qs (db w) (withdrawals_poorer i wal data nows Hpos) w order P Hw eq_refl Hr)
    as ([Hwf _] & Hs & Hnd & Hord & Hans).
  destruct (withdrawals_sum i wal data nows (db w) Hwal Hw order (db P.1) Hs) as [Hbal Hlt].
  assert (Hpos' : (0 <= balance i (db P.1))%Z).
  { unfold balance. destruct (wallets (db P.1) !! i) eqn:E; [|done]. by eapply lw_range; [apply Hwf|]. }
  assert (Hlose : forall j e g, P.2 !! j = Some (Finished (inl e) g) ->
    e = InsufficientFundsError i /\ (balance i (db P.1) < WithdrawalRequest.amount data)%Z).
  { intros j e g Hj. destruct (Hans j _ g Hj) as (c & Hc & _ & [[e' ->]|(d & [_ Hd] & Hg & [He|(i' & Hi' & Hn & _)])]).
    - destruct (Hended j _ Hj) as (r & g' & [= <- <-] & Hno). by destruct (Hno e').
    - rewrite (withdrawals_nth i wal data nows j c Hc) in He.
      destruct (withdrawal_refused i wal data (db w) Hwal Hcur d e Hd He) as [-> Hlow].
      split; [done|]. pose proof (gr_more _ _ _ Hg) as Hp. unfold poorer in Hp. lia.
    - rewrite (withdrawals_nth i wal data nows j c Hc) in Hi'. apply list_elem_of_singleton in Hi' as ->.
      by destruct (ext_wallets _ _ (gr_extends _ _ _ Hd) _ _ Hwal) as (r & ? & _); simplify_eq. }
  assert (Hle : length order <= length nows).
  { rewrite <- (length_seq (length nows) 0). apply submseteq_length, NoDup_submseteq; [done|].
    intros j Hj%Hlt. apply elem_of_seq. lia. }
  split; [|split; [done|intros j e g Hj; by apply (Hlose j e g)]].
  destruct (decide (length order = length nows)) as [He|He].
  - rewrite Nat.min_l; [done|]. rewrite <- He. apply Nat2Z.inj_le. rewrite Z2Nat.id.
    + apply Z.div_le_lower_bound; [done|]. lia.
    + apply Z.div_pos; [|done]. lia.
  - destruct (pigeon (length nows) order) as (j & Hj & Hno); [lia|].
    assert (Hlen : length P.2 = length nows).
    { unfold P. rewrite (runs_length _ _ _ Hr). simpl. unfold qs, withdrawals. by rewrite !length_fmap. }
    destruct (lookup_lt_is_Some_2 P.2 j) as [t Ht]; [lia|].
    destruct (Hended j t Ht) as (r & g & -> & _). destruct r as [e|[txn wal']].
    + destruct (Hlose j e g Ht) as [_ Hlow].
      assert (Hdiv : (Wallet.available_balance wal / WithdrawalRequest.amount data = Z.of_nat (length order))%Z).
      { symmetry. apply (Z.div_unique _ _ _ (balance i (db P.1))); [left; lia|lia]. }
      rewrite Hdiv, Nat2Z.id. lia.
    + destruct (Hans j _ g Ht) as (c & Hc & _ & Hb).
      destruct (booked g) eqn:Eg; [by destruct Hno; apply (Hord j _ Ht); simpl; unfold committed; rewrite Eg|].
      destruct Hb as [(k & Hk & _) _]. by rewrite (withdrawals_nth i wal data nows j c Hc) in Hk.
Qed.

(** Every step takes a thread nearer to the end of its program. *)
Lemma every_run_ends {R T} `{!Server R T} (t : T) : Acc (fun t' t => exists o, moves t o t') t.
Proof.
  remember (observed t) as P eqn:HP. revert t HP. induction (pools_end P) as [P _ IH]. intros t HP.
  constructor. intros t' [o Hm%moves_sound]. eapply IH; [|done]. exists o. by rewrite HP.
Qed.
(** C8. Requests come to an end: no schedule keeps a pool of requests running for
    ever; and none is stuck in a deadlock - wallets are locked in ascending
    order, keys and new rows after them, so as long as uuid4 repeats no id,
    whatever the pool has done so far, the threads that are left can all run to
    their end. *)
Theorem concurrent_requests_complete `{!OpenServer answer S} s s1 w qs order : wf (db w) ->
  observed s = launch w qs -> serves s order s1 ->
  (forall order' s', serves s1 order' s' -> no_repeats (observed s').1) ->
  Acc (fun t' t => exists o, moves t o t') s1 /\
  exists order' s', serves s1 order' s' /\ Forall ended (observed s').2 /\
    forall i g, (observed s').2 !! i = Some (Died g) -> (observed s1).2 !! i = Some (Died g).
Proof.
  intros Hw Hl Hr%serves_runs Hids. split; [apply every_run_ends|]. rewrite Hl in Hr.
  pose proof (start_ok anything qs (db w) w Hw eq_refl) as Hok.
  destruct (completes (money anything (db w)) eq_refl (nth_books qs) (nth_answered anything (db w) qs)) with (P := observed s1)
    as (order' & P' & Hruns & Hrest & Hdied).
  - apply nth_books_keeps. done.
  - apply nth_answered_grows.
  - eapply runs_serial; [..|exact Hok|exact Hr]; [apply nth_books_keeps; done|apply nth_answered_grows].
  - intros o P' Hp. destruct (runs_serves s1 o P' Hp) as (s2 & Hs2 & <-). by apply (Hids o).
  - destruct (runs_serves s1 order' P' Hruns) as (s2 & Hs2 & <-). by exists order', s2.
Qed.

End theorems.

(** ** Races the locks do not cover *)

(** Two threads, both run as long as they can, the first after one step of the
    second. *)
Definition overtaken : list nat := [1] ++ replicate 60 0 ++ replicate 60 1.

Definition outcomes {R} (P : World * list (thread R)) : list (option (exn + R)) :=
  (fun t => match t with Finished r _ => Some r | _ => None end) <$> P.2.

Definition key_2_payment : request := Transfer alice_wallet alice_id payment (Some "key-2").

(** Two concurrent transfers with one new idempotency key: both look the key
    up before either has committed; the loser is not answered with the winner's
    transaction, as the handler around the commit intends, but fails with the
    IntegrityError of its own INSERT, which no handler catches. *)
Theorem concurrent_key_race :
  exists order P txn wal, runs (launch world_funded [(key_2_payment, 0); (key_2_payment, 0)])%Z order P /\
    outcomes P = [Some (inr (txn, wal)); Some (inl (DBError IntegrityError))] /\
    known_key (db P.1) (Some "key-2") = Some txn.
Proof.
  pose (P := (schedule overtaken (launch world_funded [(key_2_payment, 0%Z); (key_2_payment, 0%Z)]))).
  exists P.1, P.2. do 2 eexists. split; [apply schedule_runs|]. split; vm_compute; reflexivity.
Qed.







(** ** Witnesses *)

(** A deposit, a keyed transfer and a withdrawal of 400 from a wallet of 500,
    step by step in turns. *)
Definition mixed : list (request * Z) :=
  [(Deposit alice_wallet alice_id (DepositRequest.mk 100 "USD"), 0%Z);
   (Transfer alice_wallet alice_id payment (Some "key-2"), 1%Z);
   (Withdraw alice_wallet alice_id (WithdrawalRequest.mk 400 "USD") None, 2%Z)].
Definition in_turns : list nat := concat (replicate 120 [0; 1; 2]).

Lemma funded_sound : wf (db world_funded).
Proof. apply reachable_sound, funded_reachable. Qed.

Lemma concurrent_requests_serialize_witness :
  let P := (schedule in_turns (launch world_funded mixed)).2 in
  Forall ended P.2 /\ wf (db P.1) /\
  serial (nth_books mixed) (schedule in_turns (launch world_funded mixed)).1 (db world_funded) (db P.1).
Proof.
  intros P. split; [apply (bool_decide_unpack _); vm_compute; reflexivity|].
  destruct (concurrent_requests_serialize (Server0 := pool_server) (launch world_funded mixed) P world_funded mixed _ funded_sound
    eq_refl (schedule_serves in_turns _)) as (Hw & Hs & _). split; [exact Hw|exact Hs].
Defined.

Lemma no_lost_update_witness :
  let out := schedule in_turns (launch world_funded mixed) in
  exists r, wallets (db out.2.1) !! alice_wallet = Some r /\
    Wallet.available_balance r = (500 + zsum (nth_delta alice_wallet mixed <$> out.1))%Z.
Proof.
  intros out. eexists. split; [vm_compute; reflexivity|].
  refine (proj1 (no_lost_update (Server0 := pool_server) (launch world_funded mixed) out.2 world_funded mixed out.1 alice_wallet _
    funded_sound eq_refl _ _)).
  - apply schedule_serves.
  - vm_compute. reflexivity.
Defined.

(** The second request comes after the first has been answered. *)
Definition one_by_one : list nat := replicate 60 0 ++ replicate 60 1.
Definition same_key : list (request * Z) := [(key_2_payment, 0%Z); (key_2_payment, 1%Z)].

Lemma concurrent_key_books_once_witness :
  let P := (schedule one_by_one (launch world_funded same_key)).2 in
  exists ti tj wi wj gi gj, P.2 !! 0 = Some (Finished (inr (ti, wi)) gi) /\
    P.2 !! 1 = Some (Finished (inr (tj, wj)) gj) /\ ti = tj.
Proof.
  intros P. do 6 eexists. split; [vm_compute; reflexivity|]. split; [vm_compute; reflexivity|].
  refine (proj1 (concurrent_key_books_once (Server0 := pool_server) (launch world_funded same_key) P world_funded same_key _ "key-2"
    funded_sound eq_refl (schedule_serves one_by_one (launch world_funded same_key)) 0 1 (key_2_payment, 0%Z) (key_2_payment, 1%Z)
    _ _ _ _ _ _ eq_refl eq_refl eq_refl eq_refl _ _)); vm_compute; reflexivity.
Defined.

Definition settled {R} (t : thread R) : bool :=
  match t with
  | Finished (inl (DBError _)) _ => false
  | Finished _ _ => true
  | _ => false
  end.

Lemma settled_all {R} (ts : list (thread R)) : forallb settled ts = true ->
  forall j t, ts !! j = Some t -> exists r g, t = Finished r g /\ forall e, r <> inl (DBError e).
Proof.
  rewrite forallb_forall. intros Hall j t Hj. specialize (Hall t (proj1 (list_elem_of_In _ _) (list_elem_of_lookup_2 _ _ _ Hj))).
  destruct t as [|[[]|]|]; simpl in Hall; try done; do 2 eexists; (split; [reflexivity|done]).
Qed.

Definition alice_row : Wallet.row :=
  Eval vm_compute in default (Wallet.mk 0 0 "" 0 0 0 0) (wallets (db world_funded) !! alice_wallet).
Definition two_hundred : WithdrawalRequest.t := WithdrawalRequest.mk 200 "usd".

(** Of three withdrawals of 200 from 500, two go through. *)
Lemma concurrent_withdrawals_share_witness :
  let qs := withdrawals alice_wallet alice_row two_hundred [0; 1; 2]%Z in
  let out := schedule in_turns (launch world_funded qs) in
  length out.1 = 2 /\ balance alice_wallet (db out.2.1) = 100%Z.
Proof.
  intros qs out.
  destruct (concurrent_withdrawals_share (Server0 := pool_server) (launch world_funded qs) out.2 world_funded alice_wallet alice_row
    two_hundred [0; 1; 2]%Z out.1 funded_sound) as (Hn & Hb & _).
  - vm_compute. reflexivity.
  - reflexivity.
  - reflexivity.
  - reflexivity.
  - apply schedule_serves.
  - apply settled_all. vm_compute. reflexivity.
  - split; [rewrite Hn; reflexivity|]. etransitivity; [exact Hb|]. rewrite Hn. reflexivity.
Defined.

(** Ids counted up never repeat. *)
Definition counting : Env := {| uuid4 := N.of_nat; clock := Z.of_nat |}.

Lemma concurrent_requests_complete_witness :
  exists order P, serves (H := counting) (launch world_funded mixed) order P /\ Forall ended P.2.
Proof.
  destruct (concurrent_requests_complete (H := counting) (Server0 := pool_server) (launch world_funded mixed)
    (launch world_funded mixed) world_funded mixed [] funded_sound eq_refl (serves_nil _))
    as (_ & order & P & Hr & He & _).
  - intros order P _ n m _ _. apply Nat2N.inj.
  - exists order, P. split; [exact Hr|exact He].
Defined.
