(* ===== verification/JobTheorems.v ===== *)
(** * Theorems about everything at once

    Money requests, registrations, wallet creations, publisher turns, counted
    events and readers, interleaved at every session call, with threads lost at
    any point. *)
From S2P Require Import Prelude PyValues Schema Locks Session Interleaving Pool Progress Requests.
From S2P Require Import Repositories LedgerService Moves LedgerSpec Security AccountServices Publisher.
From S2P Require Import Analytics Reconciliation Atomicity Invariants Conservation System.
From S2P Require Import ConcurrentLedger RequestPools SideWrites Jobs Statements Demo.
Import Demo.

Section theorems.
Context `{Env} `{Crypto} `{JsonCodec} {S : Type} `{!Server (option answer) S}.
Implicit Types (w : World) (js : list (job * Z)) (s : S).


(** C5. No update is lost, whatever else the back end does meanwhile: the
    balance of a wallet is what it was, plus what every committed deposit and
    transfer put into it, less what every committed transfer and withdrawal took
    out, within 0 and BIGINT; no registration, publisher turn, event or reader
    moves a unit; and the wallets of each currency still hold together what came
    in from outside. *)
Theorem interleaved_jobs_keep_balances s s' w js order i r : wf (db w) -> Forall (fun c => honest c.1) js ->
  observed s = muster w js -> serves s order s' -> let d := db (observed s').1 in
  wallets d !! i = Some r ->
  Wallet.available_balance r = (balance i (db w) + zsum (nth_job_delta i js <$> order))%Z /\
  (0 <= Wallet.available_balance r <= bigint_max)%Z /\
  Conservation.held d (Wallet.currency r) = funded d (Wallet.currency r).
Proof.
  intros Hw Hh Hl Hr%serves_runs d Hi. rewrite Hl in Hr.
  destruct (run_mustered js w order _ Hw Hh Hr) as [Hwf _ Hs _ _ _ _].
  split; [|split; [by eapply lw_range; [apply Hwf|]|apply held_funded, Hwf]].
  rewrite <- (mustered_balance js order (db w) d i Hw Hs). unfold balance. by rewrite Hi.
Qed.

End theorems.

(** ** Races that are lost outside the handlers *)





(** ** Witnesses *)

(** A working day: one job of each kind, step by step in turns. *)
Definition day : list (job * Z) :=
  [(Request (Deposit alice_wallet alice_id (DepositRequest.mk 100 "USD")), 0%Z);
   (Request (Transfer alice_wallet alice_id payment (Some "key-2")), 1%Z);
   (Register (UserCreate.mk "Carol" "carol@example.com" "carols password"), 2%Z);
   (CreateWallet bob_id (WalletCreate.mk "eur"), 3%Z);
   (Publish (fun ms => (fun _ => Acked) <$> ms) "transactions" 10, 4%Z);
   (Count (event_payload (Transaction.mk 101 DEPOSIT COMPLETED "USD" None 0) 10 alice_wallet None 0), 5%Z);
   (Reading _ run_reconciliation, 6%Z)].
Definition round_robin : list nat := concat (replicate 60 [0; 1; 2; 3; 4; 5; 6]).

Lemma day_honest : Forall (fun c => honest c.1) day.
Proof.
  assert (Hread : commits_le 0 run_reconciliation) by (unfold run_reconciliation; commits).
  repeat (apply Forall_cons; split; [first [exact I|exact Hread]|]). by apply Forall_nil.
Qed.

Lemma day_sound : wf (db world_funded).
Proof. apply reachable_sound, funded_reachable. Qed.


Lemma interleaved_jobs_keep_balances_witness :
  let out := schedule round_robin (muster world_funded day) in
  exists r, wallets (db out.2.1) !! alice_wallet = Some r /\
    Wallet.available_balance r = (500 + zsum (nth_job_delta alice_wallet day <$> out.1))%Z.
Proof.
  intros out. eexists. split; [vm_compute; reflexivity|].
  refine (proj1 (interleaved_jobs_keep_balances (Server0 := pool_server) (muster world_funded day) out.2 world_funded day
    out.1 alice_wallet _ day_sound day_honest eq_refl _ _)).
  - exact (schedule_serves round_robin (muster world_funded day)).
  - vm_compute. reflexivity.
Defined.


