(* ===== verification/BankTheorems.v ===== *)
(** * Theorems about the bank the ledger implements

    One request on a session of its own, and everything at once, refine the
    specification of Bank.v. *)
From S2P Require Import Prelude PyValues Schema Locks Session Interleaving Pool Progress Requests.
From S2P Require Import Repositories LedgerService Moves LedgerSpec Security AccountServices Publisher.
From S2P Require Import Analytics Reconciliation Atomicity Invariants System Accepted ConcurrentLedger.
From S2P Require Import RequestPools SideWrites Jobs Bank BankPools LedgerTheorems JobTheorems Demo.
Import Demo.


(** C3. So is the concurrent back end: whatever jobs run, however their calls
    interleave and whichever threads are lost, the tables stand at the end for
    the state the bank reaches by the committed jobs, one at a time in the order
    of their commits - a money request settled as the bank settles it there, a
    wallet opened as a new empty account, and nothing at all by registrations,
    the publisher and the analytics consumer; and a money request that was
    answered was settled at its own place in that order under the answered
    transaction's number, or is one the bank knows by its key under that number. *)
Theorem jobs_refine_the_bank `{Env} `{Crypto} `{JsonCodec} {S} `{!Server (option answer) S} (s s' : S) w js order :
  wf (db w) -> Forall (fun c => honest c.1) js -> observed s = muster w js -> serves s order s' ->
  let P := observed s' in
  serial (nth_bank_effect js) order (bank_of (db w)) (bank_of (db P.1)) /\
  forall i q now txn wal g, js !! i = Some (Request q, now) ->
    P.2 !! i = Some (Finished (inr (Some (txn, wal))) g) ->
    bank_answer js order (bank_of (db w)) (bank_of (db P.1)) i q txn.
Proof.
  intros Hw Hh Hl Hr%serves_runs P. rewrite Hl in Hr. pose proof (run_mustered js w order P Hw Hh Hr) as Hd.
  split; [apply serial_bank; [done|apply Hd]|]. intros i q now txn wal g Hi Ht.
  destruct (answer_linearized js w order P i q now txn wal g Hd Hi Ht) as [Htx Ha].
  eapply linearized_bank; [done|apply Hd|done..].
Qed.



Lemma jobs_refine_the_bank_witness :
  let out := schedule round_robin (muster world_funded day) in
  length out.1 = 6 /\
  serial (nth_bank_effect day) out.1 (bank_of (db world_funded)) (bank_of (db out.2.1)).
Proof.
  intros out. split; [vm_compute; reflexivity|].
  destruct (jobs_refine_the_bank (Server0 := pool_server) (muster world_funded day) out.2 world_funded day out.1
    day_sound day_honest eq_refl (schedule_serves round_robin _)) as [Hs _]. exact Hs.
Defined.
