(* ===== verification/ObservabilityTheorems.v ===== *)
(** * Theorems about logging, metrics and the request middleware *)
From S2P Require Import Prelude PyValues Session Publisher Observability.
Import Logging ObservabilityMiddleware.

Section format.
Context `{JsonCodec} (format_time : Z -> string).

(** Attributes that are no fields of the formatter's own. *)
Definition plain (r : LogRecord) : Prop :=
  attributes r !! "request_id" = None /\ exc_info r = None.

Lemma foldl_extra_other r fields p k : k ∉ fields -> foldl (add_extra r) p fields !! k = p !! k.
Proof.
  revert p. induction fields as [|f fields IH]; intros p Hk; [done|].
  apply not_elem_of_cons in Hk as [Hf Hk]. simpl. rewrite IH by done.
  unfold add_extra. destruct (attributes r !! f); [|done]. by rewrite lookup_insert_ne.
Qed.

Lemma foldl_extra_in r fields p k : k ∈ fields -> is_Some (attributes r !! k) ->
  foldl (add_extra r) p fields !! k = attributes r !! k.
Proof.
  intros Hk [v Hv]. revert p Hk. induction fields as [|f fields IH]; intros p Hk; [by apply elem_of_nil in Hk|].
  simpl. destruct (decide (k ∈ fields)) as [Hin|Hout]; [by apply IH|].
  rewrite foldl_extra_other by done. apply elem_of_cons in Hk as [<-|]; [|done].
  unfold add_extra. rewrite Hv. by rewrite lookup_insert_eq.
Qed.

(** The id in a line is that of the context it is written in. *)
Lemma format_request_id var r : plain r ->
  format format_time var r !! "request_id" = JStr <$> truthy var.
Proof.
  intros [Ha He]. unfold format. rewrite He, Ha. rewrite foldl_extra_other by (unfold _EXTRA_FIELDS; set_solver).
  destruct (truthy var); simpl; [by rewrite lookup_insert_eq|]. reflexivity.
Qed.

Lemma format_extra var r k v : plain r -> k ∈ _EXTRA_FIELDS -> attributes r !! k = Some v ->
  format format_time var r !! k = Some v.
Proof.
  intros [Ha He] Hk Hv. unfold format. rewrite He. rewrite foldl_extra_in; eauto.
Qed.
End format.

Section middleware.
Context `{JsonCodec} (format_time : Z -> string) (duration_ms : Z -> json).

(** C37. What the middleware does to a request: the endpoint runs under the
    inbound request id, or a fresh one when there is none; the context of the
    server is restored in any case; an exception passes through, uncounted;
    an answer gets the id as a header and is counted once under its method,
    route and status, with its duration (except for the scrapes themselves) -
    but the access line is written after the id was taken out of the context,
    so it is the one line of the request that does not carry it. *)
Theorem request_observed lvl request call_next fresh started stopped t :
  let c := configure_logging lvl (configure_logging INFO unconfigured) in   (* the first call counts *)
  let id := default (uuid_hex fresh) (truthy (rq_request_id request)) in
  let '(outcome, route_path, t1) := call_next (Some id) t in
  let path := default (rq_url_path request) route_path in
  let '(outcome', var', t') :=
    dispatch format_time duration_ms c request call_next fresh started stopped None t in
  var' = None /\
  match outcome with
  | inl e => outcome' = inl e /\ t' = t1
  | inr response =>
      outcome' = inr (mkResponse (rs_status response) (<["X-Request-ID" := id]> (rs_headers response))) /\
      let k := (rq_method request, path, rs_status response) in
      if decide (path = "/metrics") then t' = t1
      else request_count t' !! k = Some (S (default 0 (request_count t1 !! k))) /\
        (forall k', k' <> k -> request_count t' !! k' = request_count t1 !! k') /\
        exists line p, log_lines t' = log_lines t1 ++ [line] /\ json_loads line = Some p /\
          p !! "status" = Some (JInt (rs_status response)) /\ p !! "path" = Some (JStr path) /\
          p !! "request_id" = None
  end.
Proof.
  intros c id. unfold dispatch. fold id.
  destruct (call_next (Some id) t) as [[[e|response] route_path] t1]; cbv zeta; [by split|].
  split; [done|]. split; [done|].
  destruct (decide (default (rq_url_path request) route_path = "/metrics")) as [Hp|Hp].
  - by rewrite decide_False by tauto.
  - rewrite decide_True by done. unfold emit. simpl. split; [|split].
    + by rewrite lookup_partial_alter_eq.
    + intros k' Hk. by rewrite lookup_partial_alter_ne.
    + do 2 eexists. split; [done|]. split; [apply loads_dumps|].
      split; [apply format_extra; [done|unfold _EXTRA_FIELDS; set_solver|done]|].
      split; [apply format_extra; [done|unfold _EXTRA_FIELDS; set_solver|done]|].
      by rewrite format_request_id.
Qed.
End middleware.
