(* ===== verification/AppTheorems.v ===== *)
(** * Theorems about the application *)
From Stdlib Require Import Ascii.
From S2P Require Import Prelude PyValues Schema Session Requests Repositories LedgerService Moves.
From S2P Require Import LedgerSpec Security AccountServices Publisher Analytics Reconciliation.
From S2P Require Import Atomicity Invariants System Accepted Cache Observability Api ApiFacts App Demo ApiTheorems.

Section app.
Context `{Env} `{Crypto} `{JsonCodec} {C : Type} `{RedisClient C} `{EmailValidator} `{WebFramework}.
Variable st : Settings.t.
Implicit Types (wc : World * C) (rq : http_request).

(** *** What fails leaves nothing behind *)

(** Unless [good] holds of its outcome, the program has committed nothing. *)
Definition spares {A} (good : A -> Prop) (p : prog A) (w : World) (now : Z) : Prop :=
  wp p (fun r s' => (exists a, r = inr a /\ good a) \/ db s'.1 = db w) (at_log w [] now).

Definition any {A} (a : A) : Prop := True.

Lemma spares_outcome {R} good w now g (f : Transaction.row -> Wallet.row -> R) (p : prog R) :
  (forall txn wal, good (f txn wal)) -> wp p (outcome w now g f) (at_log w [] now) -> spares good p w now.
Proof.
  intros Hf Hp. eapply wp_mono; [exact Hp|]. intros r s' Ho. destruct g as [e|m]; simpl in Ho.
  - destruct Ho as [_ ->]. by right.
  - destruct Ho as [(_ & (-> & _) & _)|(_ & _ & wal & _ & ->)]; [by right|left; eauto].
Qed.

(** A replay returns, maybe without a wallet, but books nothing. *)
Definition has_wallet (tw : Transaction.row * option Wallet.row) : Prop := is_Some tw.2.

Lemma spares_keyed w now key i g p : wp p (keyed_outcome w now key i g) (at_log w [] now) ->
  spares has_wallet p w now.
Proof.
  unfold keyed_outcome. destruct (known_key _ _) as [txn|].
  - intros Hp. eapply wp_mono; [exact Hp|]. intros r s' [_ ->]. by right.
  - apply spares_outcome. intros. by eexists.
Qed.

Lemma spares_deposit i rid data w now : keyed (db w) -> spares any (deposit i rid data) w now.
Proof. intros Hk. by eapply spares_outcome, wp_deposit. Qed.

Lemma spares_withdraw i rid data key w now : keyed (db w) -> spares has_wallet (withdraw i rid data key) w now.
Proof. intros Hk. by eapply spares_keyed, wp_withdraw. Qed.

Lemma spares_transfer i rid data key w now : keyed (db w) -> spares has_wallet (transfer i rid data key) w now.
Proof.
  intros Hk. destruct (decide (i = TransferRequest.recipient_wallet_id data)) as [He|Hne].
  - eapply wp_mono; [by apply wp_transfer_same|]. intros r s' [_ ->]. by right.
  - by eapply spares_keyed, wp_transfer.
Qed.

Lemma spares_register data w now :
  spares (fun u => User.email u = UserCreate.email data) (UserService.register data) w now.
Proof.
  eapply wp_mono; [apply wp_register|]. intros r s' Ho. unfold register_outcome in Ho.
  destruct (email_taken _ _); [destruct Ho as [_ ->]; by right|].
  destruct (violation _ _); [destruct Ho as [_ [-> _]]; by right|]. destruct Ho as [-> _]. left. by eexists.
Qed.

Lemma spares_create_wallet owner data w now : spares any (WalletService.create_wallet owner data) w now.
Proof.
  eapply wp_mono; [apply wp_create_wallet|]. intros r s' Ho. unfold create_wallet_outcome in Ho.
  destruct (wallet_of _ _ _); [destruct Ho as [_ ->]; by right|].
  destruct (violation _ _); [destruct Ho as [_ [-> _]]; by right|]. destruct Ho as [-> _]. left. by eexists.
Qed.

Lemma spares_bind {A B} good (p : prog A) (f : A -> B) w now : spares good p w now ->
  spares any (a ← p; mret (f a)) w now.
Proof.
  unfold spares. intros Hp. apply wp_bind. eapply wp_mono; [exact Hp|]. intros [e|a] s' Ho; [right|].
  - destruct Ho as [(a & [=] & _)|]; done.
  - apply wp_ret. left. by eexists.
Qed.

Lemma spares_read {A} good (p : prog A) w now : commits_le 0 p -> spares good p w now.
Proof. intros Hp. apply wp_run. right. by rewrite run_no_commit. Qed.

(** *** Routes *)
Definition replied {A} (good : A -> Prop) (r : response A) : Prop := exists a, r = Reply a /\ good a.

Lemma serve_spares {A} good (route : prog (response A)) w :
  spares (replied good) route w (clock (tick w)) ->
  replied good (serve route w).1 \/ db (serve route w).2 = db w.
Proof.
  unfold spares. intros Hp. apply (serve_wp route (fun r w' => replied good r \/ db w' = db w)).
  eapply wp_mono; [exact Hp|]. intros r s' [(a & -> & Ha)|]; [by left|by right].
Qed.

Lemma spares_http {A} good (p : prog A) errors w now : spares good p w now ->
  spares (replied good) (http p errors) w now.
Proof.
  unfold spares. intros Hp. apply wp_http. eapply wp_mono; [exact Hp|]. intros [e|a] s' [(b & [= <-] & Hb)|Hd].
  - destruct (errors e) as [[]|]; by right.
  - left. eexists. split; [done|]. by eexists.
  - by right.
Qed.

(** The address of a parsed body is accepted again in the response. *)
Lemma parsed_email data data' u : UserCreate.parse data = Some data' -> User.email u = UserCreate.email data' ->
  exists r, UserRead.of_row u = Reply r.
Proof.
  unfold UserCreate.parse, UserRead.of_row. destruct (_ && _); [|done].
  destruct (email_str (UserCreate.email data)) as [e|] eqn:E; [|done]. intros [= <-] ->.
  simpl. rewrite (email_str_normal _ _ E). by eexists.
Qed.

Lemma spares_register_user data w now : spares (replied any) (register_user data) w now.
Proof.
  unfold register_user. destruct (UserCreate.parse data) as [data'|] eqn:E; [|by apply wp_ret; right].
  unfold spares. apply wp_bind. eapply wp_mono; [apply spares_http, spares_register|].
  intros r s' [(resp & -> & u & -> & Hu)|Hd]; [|destruct r; [by right|by apply wp_ret; right]].
  apply wp_ret. left. destruct (parsed_email _ _ u E Hu) as [x Hx]. eexists. split; [done|].
  simpl. rewrite Hx. by eexists.
Qed.

Lemma spares_validated {A} good b (p : prog (response A)) w now : spares good p w now ->
  spares good (validated b p) w now.
Proof. intros Hp. apply wp_validated; [by right|by intros _]. Qed.

Lemma spares_authenticated {A} good token (route : User.row -> prog (response A)) w now :
  (forall u, spares good (route u) (asked w) now) -> spares good (authenticated st token route) w now.
Proof. intros Hr. apply wp_authenticated; [by right|]. intros u _. exact (Hr u). Qed.

(** *** Readers *)
Lemma commits_authenticated {A} n token (route : User.row -> prog (response A)) :
  (forall u, commits_le n (route u)) -> commits_le n (authenticated st token route).
Proof.
  intros Hr. unfold authenticated, get_current_user, UserRepository.get_by_id.
  apply commits_bind; [commits|]. intros now.
  apply commits_bind; [commits|]. intros [u|]; [apply Hr|commits].
Qed.

Lemma commits_http {A} (p : prog A) errors : commits_le 0 p -> commits_le 0 (http p errors).
Proof.
  intros Hp. apply commits_try; [by apply commits_bind; [|intros; commits]|]. commits_handler.
Qed.

Lemma commits_validated {A} n b (p : prog (response A)) : commits_le n p -> commits_le n (validated b p).
Proof. intros Hp. unfold validated. by destruct b. Qed.

Lemma commits_login username password : commits_le 0 (login st username password).
Proof. unfold login, UserService.authenticate, UserRepository.get_by_email. commits. Qed.

Lemma commits_list_transactions token i limit offset :
  commits_le 0 (list_transactions st token i limit offset).
Proof.
  apply commits_authenticated. intros u. apply commits_validated.
  unfold WalletRepository.get_by_id, LedgerRepository.get_entries_for_wallet. commits.
Qed.

(** *** Served requests *)

(** The tables are as before, unless the answer says otherwise. *)
Definition honest_reply (ok : Z) wc (out : (exn + reply) * (World * C)) : Prop :=
  (exists c, out.1 = inr (mkReply ok c)) \/ db out.2.1 = db wc.1.

Lemma plain_honest {A} ok (f : A -> content) p wc : spares (replied any) p wc.1 (clock (tick wc.1)) ->
  honest_reply ok wc (plain ok f p wc).
Proof.
  intros Hp%serve_spares. unfold plain. destruct (serve p wc.1) as [r w]. simpl in *.
  destruct Hp as [(a & -> & _)|Hd]; [left; by eexists|by right].
Qed.

Lemma busting_honest {A B} ok good (p : prog (response A)) ids (f : A -> response B) (g : B -> content) wc :
  spares (replied good) p wc.1 (clock (tick wc.1)) -> (forall a, good a -> exists b, f a = Reply b) ->
  honest_reply ok wc (cached ok g (busting p ids f) wc).
Proof.
  intros Hp%serve_spares Hf. unfold cached, busting. destruct wc as [w c]. simpl in *.
  destruct (serve p w) as [r w']. simpl in *. destruct Hp as [(a & -> & Ha)|Hd]; [left|by right].
  destruct (Hf a Ha) as [b Hb]. exists (g b). simpl. by rewrite Hb.
Qed.

Lemma get_balance_reads ok (f : BalanceRead.t -> content) token i wc :
  db (cached ok f (get_balance st token i) wc).2.1 = db wc.1.
Proof.
  unfold cached, get_balance. destruct wc as [w c].
  match goal with |- context [serve ?p w] =>
    assert (db (serve p w).2 = db w) as Hd;
      [|destruct (serve p w) as [[[b|r]|code detail|e] w']; exact Hd] end.
  unfold serve. match goal with |- context [run ?p ?s] =>
    pose proof (run_no_commit p s) as Hr; destruct (run p s) as [r s'] end.
  simpl in *. apply Hr, commits_authenticated. intros u. destruct (BalanceCache.get i c); [commits|].
  apply commits_http, commits_bind; [apply commits_get_balance|intros; commits].
Qed.

Lemma plain_read_honest {A} ok (f : A -> content) p wc : commits_le 0 p -> honest_reply ok wc (plain ok f p wc).
Proof. intros Hp. by apply plain_honest, spares_read. Qed.

Lemma refuse_honest ok code detail wc : honest_reply ok wc (refuse code detail wc).
Proof. by right. Qed.

Lemma invalid_honest ok token wc : honest_reply ok wc (invalid st token wc).
Proof.
  unfold invalid, plain. right. match goal with |- context [serve ?p ?w] =>
    pose proof (serve_spares (fun _ : string => False) p w) as Hs; destruct (serve p w) as [r w'] end.
  simpl in *. destruct Hs as [(a & _ & [])|Hd]; [|done].
  apply spares_authenticated. intros u. by apply wp_ret; right.
Qed.

Lemma plain_posts_honest {A B} ok (f : B -> content) (g : A -> B) token valid (op : User.row -> prog A) errors wc :
  (forall u w now, spares any (op u) w now) ->
  honest_reply ok wc (plain ok f (authenticated st token (fun u =>
    validated valid (http (a ← op u; mret (g a)) errors))) wc).
Proof.
  intros Hop. apply plain_honest, spares_authenticated. intros u.
  by apply spares_validated, spares_http, (spares_bind any).
Qed.

Lemma posts_honest {A B} ok good token valid (op : User.row -> prog A) errors ids (f : A -> response B) g wc :
  (forall u now, spares good (op u) (asked wc.1) now) -> (forall a, good a -> exists b, f a = Reply b) ->
  honest_reply ok wc (cached ok g (busting (authenticated st token (fun u =>
    validated valid (http (op u) errors))) ids f) wc).
Proof.
  intros Hop Hf. apply (busting_honest ok good); [|done]. apply spares_authenticated. intros u.
  by apply spares_validated, spares_http.
Qed.

Lemma move_response_wallet tw : has_wallet tw -> exists b, move_response tw = Reply b.
Proof. unfold move_response. intros [wal ->]. by eexists. Qed.

(** What holds of every refusal and of what the continuation does. *)
Section combinators.
Context (P : (exn + reply) * (World * C) -> Prop) (wc : World * C).
Context (Hrefuse : forall code detail, P (refuse code detail wc)).

Lemma readable_all rq k : P (k wc) -> P (readable rq k wc).
Proof using Hrefuse. intros Hk. unfold readable. by case_match. Qed.

Lemma with_token_all rq k : (forall token, P (k token wc)) -> P (with_token rq k wc).
Proof using Hrefuse. intros Hk. unfold with_token. by case_match. Qed.

Lemma with_wallet_all args token k : P (invalid st token wc) -> (forall i, P (k i wc)) -> P (with_wallet st args token k wc).
Proof using Type. intros Hi Hk. unfold with_wallet. by repeat case_match. Qed.

Lemma with_body_all {D} (d : option D) token k : P (invalid st token wc) -> (forall d, P (k d wc)) -> P (with_body st d token k wc).
Proof using Type. intros Hi Hk. unfold with_body. by case_match. Qed.
End combinators.

Ltac enter tac :=
  try (apply readable_all; [tac|]); try (apply with_token_all; [tac|intros token]);
  try (apply with_wallet_all; [tac|intros i]); try (apply with_body_all; [tac|intros data]).

Lemma handle_honest r rq args wc : keyed (db wc.1) -> honest_reply (rt_status r) wc (handle st r rq args wc).
Proof.
  intros Hk. unfold handle. destruct (rt_handler r);
    enter ltac:(intros; first [apply refuse_honest | apply invalid_honest]).
  - repeat case_match; [apply plain_read_honest, commits_login|apply refuse_honest].
  - case_match; [|apply refuse_honest]. apply plain_honest, spares_register_user.
  - apply plain_read_honest, commits_authenticated. intros u. commits.
  - apply plain_posts_honest. intros. apply spares_create_wallet.
  - right. apply get_balance_reads.
  - repeat (case_match; try apply invalid_honest). apply plain_read_honest, commits_list_transactions.
  - apply (posts_honest _ any); [intros; by apply spares_deposit|by eexists].
  - apply (posts_honest _ has_wallet); [intros; by apply spares_transfer|apply move_response_wallet].
  - apply (posts_honest _ has_wallet); [intros; by apply spares_withdraw|apply move_response_wallet].
  - left. by eexists.
  - right. by destruct wc.
Qed.

(** *** The handlers that only read *)
Definition writers : list handler := [RegisterUser; CreateWallet; PostDeposit; PostTransfer; PostWithdraw].

Definition unchanged wc (out : (exn + reply) * (World * C)) : Prop := db out.2.1 = db wc.1.

Lemma plain_unchanged {A} ok (f : A -> content) p wc : commits_le 0 p -> unchanged wc (plain ok f p wc).
Proof.
  intros Hp. unfold unchanged, plain, serve.
  pose proof (run_no_commit p (wc.1, fresh_local (clock (tick wc.1))) Hp) as Hd.
  by destruct (run p _).
Qed.

Lemma invalid_unchanged token wc : unchanged wc (invalid st token wc).
Proof. apply plain_unchanged, commits_authenticated. intros u. commits. Qed.

Lemma handle_reads r rq args wc : rt_handler r ∉ writers -> unchanged wc (handle st r rq args wc).
Proof.
  unfold handle. intros Hr. destruct (rt_handler r); try (exfalso; apply Hr; unfold writers; set_solver); clear Hr;
    enter ltac:(intros; first [done | apply invalid_unchanged]).
  - repeat case_match; [apply plain_unchanged, commits_login|done].
  - apply plain_unchanged, commits_authenticated. intros u. commits.
  - apply get_balance_reads.
  - repeat (case_match; try apply invalid_unchanged). apply plain_unchanged, commits_list_transactions.
  - done.
  - by destruct wc.
Qed.

(** *** The whole way through *)
Lemma routes_post : Forall (fun r => rt_handler r ∈ writers ->
  rt_method r = "POST" /\ rt_status r ∈ [200; 201]%Z) routes.
Proof. apply (bool_decide_unpack _). by vm_compute. Qed.

Lemma respond_unchanged rq wc : keyed (db wc.1) -> let '(out, _, wc') := respond st rq wc in
  db wc'.1 = db wc.1 \/
  (method rq = "POST" /\ exists r args c, find routes rq = Full r args /\ rt_handler r ∈ writers /\
     rt_status r ∈ [200; 201]%Z /\ out = inr (mkReply (rt_status r) c)).
Proof.
  intros Hk. unfold respond. destruct (find routes rq) as [r args| | | |] eqn:Ef; try by left.
  destruct (find_full _ _ _ _ Ef) as [Hr Hm].
  destruct (decide (rt_handler r ∈ writers)) as [Hw|Hw].
  - destruct (proj1 (Forall_forall _ _) routes_post r Hr Hw) as [Hp Hs].
    pose proof (handle_honest r rq args wc Hk) as Hh. unfold honest_reply in Hh.
    destruct (handle st r rq args wc) as [out wc']. simpl in *.
    destruct Hh as [[c ->]|Hd]; [right|by left]. split; [congruence|]. by exists r, args, c.
  - pose proof (handle_reads r rq args wc Hw) as Hh. unfold unchanged in Hh.
    destruct (handle st r rq args wc) as [out wc']. by left.
Qed.

(** *** Strangers *)
Definition protected : list handler :=
  [ReadMe; CreateWallet; GetBalance; ListTransactions; PostDeposit; PostTransfer; PostWithdraw].

(** No token, or one that stands for no user. *)
Definition stranger rq (w : World) : Prop :=
  forall token, bearer (authorization rq) = Some token -> token_user st w token = None.

Definition turned_away wc (out : (exn + reply) * (World * C)) : Prop :=
  (exists detail, out.1 = inr (mkReply 401 (Detail detail))) /\ db out.2.1 = db wc.1 /\ out.2.2 = wc.2.

Lemma plain_stranger {A} ok (f : A -> content) token (route : User.row -> prog (response A)) wc :
  token_user st wc.1 token = None -> turned_away wc (plain ok f (authenticated st token route) wc).
Proof. intros Hno. unfold plain. rewrite serve_stranger by done. split; [by eexists|done]. Qed.

Lemma busting_stranger {A B} ok (g : B -> content) token (route : User.row -> prog (response A)) ids f wc :
  token_user st wc.1 token = None ->
  turned_away wc (cached ok g (busting (authenticated st token route) ids f) wc).
Proof.
  destruct wc as [w c]. intros Hno. unfold cached, busting. rewrite serve_stranger by done. split; [by eexists|done].
Qed.

Lemma balance_stranger ok (f : BalanceRead.t -> content) token i wc :
  token_user st wc.1 token = None -> turned_away wc (cached ok f (get_balance st token i) wc).
Proof.
  destruct wc as [w c]. intros Hno. unfold cached, get_balance. rewrite serve_stranger by done. split; [by eexists|done].
Qed.

Lemma with_token_stranger rq k wc : stranger rq wc.1 ->
  (forall token, token_user st wc.1 token = None -> turned_away wc (k token wc)) ->
  turned_away wc (with_token rq k wc).
Proof.
  intros Hs Hk. unfold with_token, stranger in *. case_match; [by apply Hk, Hs|]. split; [by eexists|done].
Qed.

Lemma handle_stranger r rq args wc : rt_handler r ∈ protected -> body rq <> Unreadable -> stranger rq wc.1 ->
  turned_away wc (handle st r rq args wc).
Proof.
  intros Hp Hb Hs. unfold handle, readable.
  destruct (rt_handler r); try (exfalso; revert Hp; unfold protected; set_solver);
    try (destruct (body rq) eqn:Eb; [|done|..]); apply with_token_stranger; try done; intros token Hno;
    try (apply with_wallet_all; [by intros; apply plain_stranger|intros i]);
    try (apply with_body_all; [by intros; apply plain_stranger|intros data]);
    try (by apply plain_stranger); try (by apply balance_stranger); try (by apply busting_stranger).
  all: repeat case_match; by apply plain_stranger.
Qed.

Lemma draw_request_id_db rq w : db (draw_request_id rq w).2 = db w.
Proof. unfold draw_request_id. by case_match. Qed.
End app.

Section theorems.
Context `{Env} `{Crypto} `{JsonCodec} {C : Type} `{RedisClient C} `{EmailValidator} `{WebFramework}.
Context (st : Settings.t) (format_time : Z -> string) (duration_ms : Z -> json) (cfg : Logging.config).

(** C14. What the tables keep, the caller was told: on its way through the
    middleware, the routing and its handler, a request of any method, path,
    headers and body leaves the tables exactly as they were, unless it is a POST
    to one of the five writing routes that is answered with that route's success
    code (200 or 201).  So GETs, requests that are redirected, unauthorised,
    invalid or refused, and those that end in an unhandled exception write
    nothing. *)
Theorem only_successful_posts_write rq started stopped w c var t : keyed (db w) ->
  let '(res, wc', _, _) := app st format_time duration_ms cfg rq started stopped (w, c) var t in
  db wc'.1 = db w \/
  (method rq = "POST" /\ exists r args resp body, find routes rq = Full r args /\
     rt_handler r ∈ writers /\ res = inr (resp, body) /\ rs_status resp = rt_status r /\
     rs_status resp ∈ [200; 201]%Z).
Proof.
  intros Hk. unfold app. cbn [fst snd]. destruct (draw_request_id rq w) as [fresh w1] eqn:Ed.
  assert (Hd1 : db w1 = db w) by (rewrite <- (draw_request_id_db rq w); by rewrite Ed).
  assert (Hk1 : keyed (db (w1, c).1)) by (simpl; by rewrite Hd1).
  pose proof (respond_unchanged st rq (w1, c) Hk1) as Hr. cbn [snd] in *.
  destruct (respond st rq (w1, c)) as [[out route_path] wc']. unfold ObservabilityMiddleware.dispatch.
  destruct Hr as [Hdb|(Hm & r & args & b & Hf & Hw & Hs & ->)].
  - destruct out; left; simpl in *; congruence.
  - right. split; [done|]. do 4 eexists. split; [exact Hf|]. done.
Qed.
(** C15. No token, no service: a request that matches a protected route - every
    one but registration, login and the probes - and carries no bearer token, or
    one that at that moment stands for no user (forged, expired, of a deleted
    user), is answered 401 with the WWW-Authenticate header, whatever else it
    carries, save a body that is no JSON at all, and changes neither the tables
    nor the cache. *)
Theorem strangers_are_turned_away rq started stopped w c var t r args :
  find routes rq = Full r args -> rt_handler r ∈ protected -> body rq <> Unreadable ->
  stranger st rq (draw_request_id rq w).2 ->
  let '(res, (w', c'), _, _) := app st format_time duration_ms cfg rq started stopped (w, c) var t in
  db w' = db w /\ c' = c /\ exists resp detail, res = inr (resp, Detail detail) /\
    rs_status resp = 401%Z /\ rs_headers resp !! "WWW-Authenticate" = Some "Bearer".
Proof.
  intros Hf Hp Hb Hs. unfold app. cbn [fst snd]. pose proof (draw_request_id_db rq w) as Hd.
  destruct (draw_request_id rq w) as [fresh w1]. cbn [snd] in *. unfold respond. rewrite Hf.
  pose proof (handle_stranger st r rq args (w1, c) Hp Hb Hs) as Ht. unfold turned_away in Ht.
  destruct (handle st r rq args (w1, c)) as [out [w' c']]. unfold ObservabilityMiddleware.dispatch. simpl in *.
  destruct Ht as ([detail ->] & Hdb & ->). split; [congruence|]. split; [done|].
  do 2 eexists. split; [done|]. split; [done|]. simpl. rewrite lookup_insert_ne by done.
  unfold headers_of. simpl. by rewrite lookup_singleton_eq.
Qed.
End theorems.

(** ** Witnesses *)
Import Demo.

(** A web framework: segments of the path against those of the templates. *)
Module DemoWeb.
Fixpoint segments (acc s : string) : list string :=
  match s with
  | EmptyString => [acc]
  | String "/"%char s => acc :: segments "" s
  | String a s => segments (acc +:+ String a "") s
  end.

Definition is_parameter (t : string) : bool := match t with String "{"%char _ => true | _ => false end.

Fixpoint values (ts ps : list string) : option (list string) :=
  match ts, ps with
  | [], [] => Some []
  | t :: ts, p :: ps =>
      vs ← values ts ps;
      if is_parameter t then (if decide (p = "") then None else Some (p :: vs))
      else if decide (t = p) then Some vs else None
  | _, _ => None
  end.

Definition matches (rq : http_request) (r : route) : option (list string) :=
  values (segments "" (rt_path r)) (segments "" (path rq)).

Fixpoint full (rs : list route) (rq : http_request) : option (route * list string) :=
  match rs with
  | [] => None
  | r :: rs =>
      match matches rq r with
      | Some args => if decide (rt_method r = method rq) then Some (r, args) else full rs rq
      | None => full rs rq
      end
  end.

Lemma full_found rs rq r args : full rs rq = Some (r, args) -> r ∈ rs /\ rt_method r = method rq.
Proof.
  induction rs as [|r' rs IH]; simpl; [done|]. intros Hf.
  destruct (matches rq r') as [args'|]; [case_decide|]; [injection Hf as -> ->|..];
    [|destruct (IH Hf)..]; (split; [|done]); set_solver.
Qed.

Definition text (d : dict) (k : string) : option string :=
  match d !! k with Some (JStr s) => Some s | _ => None end.
Definition number (d : dict) (k : string) : option Z :=
  match d !! k with Some (JInt z) => Some z | _ => None end.

Definition json_body {A} (read : dict -> option A) (b : payload) : option A :=
  match b with Json d => read d | _ => None end.

#[export] Instance web : WebFramework.
Proof.
  refine {|
    find := fun rs rq => match full rs rq with
      | Some (r, args) => Full r args
      | None =>
          match filter (fun r => is_Some (matches rq r)) rs with
          | r :: _ => OtherMethod r
          | [] => if decide (path rq = "/metrics/") then Elsewhere 200
                  else if decide (path rq = "/metrics") then Elsewhere 307 else Nowhere
          end
      end;
    bearer := fun h => match h with
      | Some h => if decide (String.substring 0 7 h = "Bearer ") then Some (String.substring 7 (String.length h) h) else None
      | None => None
      end;
    path_uuid := uuid_parse;
    query_int := int_of_string;
    read_login := fun b => match b with
      | Form f => u ← f !! "username"; p ← f !! "password"; Some (u, p)
      | _ => None
      end;
    read_user := json_body (fun d => n ← text d "name"; e ← text d "email"; p ← text d "password";
      Some (UserCreate.mk n e p));
    read_wallet := json_body (fun d => WalletCreate.mk <$> text d "currency");
    read_deposit := json_body (fun d => z ← number d "amount"; DepositRequest.mk z <$> text d "currency");
    read_transfer := json_body (fun d => r ← text d "recipient_wallet_id"; i ← uuid_parse r;
      z ← number d "amount"; TransferRequest.mk i z <$> text d "currency");
    read_withdrawal := json_body (fun d => z ← number d "amount"; WithdrawalRequest.mk z <$> text d "currency")
  |}.
  intros rs rq r args. destruct (full rs rq) as [[r' args']|] eqn:E.
  - intros [= -> ->]. by eapply full_found.
  - destruct (filter _ rs); [|done]. by repeat case_decide.
Defined.
End DemoWeb.
Import DemoWeb.

#[local] Existing Instance ApiTheorems.store.
Definition seconds (us : Z) : string := "".
Definition quiet : telemetry := mkTelemetry ∅ ∅ [].
Definition root_logger : Logging.config := Logging.configure_logging Logging.INFO Logging.unconfigured.

Definition deposit_request (token : option string) (b : payload) : http_request :=
  mkHttp "POST" ("/api/v1/wallets/" +:+ uuid_str bob_wallet +:+ "/deposit")
    ((fun t => "Bearer " +:+ t) <$> token) (Some "trace-1") None ∅ b.
Definition ten_dollars : payload := Json (list_to_map [("amount", JInt 10); ("currency", JStr "USD")]).

Definition serve_demo (rq : http_request) :
    (exn + (Response * content)) * (World * gmap string string) * option string * telemetry :=
  app settings seconds JInt root_logger rq 0 5 (world_funded, ∅) None quiet.

Definition status_of (out : (exn + (Response * content)) * (World * gmap string string) * option string * telemetry)
    : option Z :=
  match out.1.1.1 with inr (resp, _) => Some (rs_status resp) | inl _ => None end.

Definition bobs_deposit : http_request := deposit_request (Some (token_of bob_id)) ten_dollars.

Lemma funded_keyed : keyed (db world_funded).
Proof. apply lw_keyed, wf_ledger, reachable_sound, funded_reachable. Qed.

Lemma only_successful_posts_write_witness :
  status_of (serve_demo bobs_deposit) = Some 200%Z /\
  status_of (serve_demo (deposit_request (Some (token_of bob_id)) NoBody)) = Some 422%Z /\
  let '(res, wc', _, _) := serve_demo bobs_deposit in
  db wc'.1 = db world_funded \/
  (method bobs_deposit = "POST" /\ exists r args resp body, find routes bobs_deposit = Full r args /\
     rt_handler r ∈ writers /\ res = inr (resp, body) /\ rs_status resp = rt_status r /\
     rs_status resp ∈ [200; 201]%Z).
Proof.
  split; [vm_compute; reflexivity|]. split; [vm_compute; reflexivity|]. unfold serve_demo.
  pose proof (only_successful_posts_write settings seconds JInt root_logger bobs_deposit 0 5 world_funded
    (∅ : gmap string string) None quiet funded_keyed) as Hp. exact Hp.
Defined.

Lemma forged_is_strange : stranger settings (deposit_request (Some "forged") ten_dollars) world_funded.
Proof.
  intros token Ht. assert (He : bearer (authorization (deposit_request (Some "forged") ten_dollars)) = Some "forged")
    by (vm_compute; reflexivity).
  rewrite He in Ht. injection Ht as <-. vm_compute. reflexivity.
Qed.

Definition deposit_route : route := mkRoute "POST" "/api/v1/wallets/{wallet_id}/deposit" PostDeposit 200.

Lemma deposit_matched token b : find routes (deposit_request token b) = Full deposit_route [uuid_str bob_wallet].
Proof. vm_compute. reflexivity. Qed.

Lemma deposit_protected : rt_handler deposit_route ∈ protected.
Proof. apply (bool_decide_unpack _). vm_compute. reflexivity. Qed.

Lemma body_readable token : body (deposit_request token ten_dollars) <> Unreadable.
Proof. discriminate. Qed.

Lemma strangers_are_turned_away_witness :
  status_of (serve_demo (deposit_request (Some "forged") ten_dollars)) = Some 401%Z /\
  let '(res, (w', c'), _, _) := serve_demo (deposit_request (Some "forged") ten_dollars) in
  db w' = db world_funded /\ c' = ∅ /\ exists resp detail, res = inr (resp, Detail detail) /\
    rs_status resp = 401%Z /\ rs_headers resp !! "WWW-Authenticate" = Some "Bearer".
Proof.
  split; [vm_compute; reflexivity|]. unfold serve_demo.
  pose proof (strangers_are_turned_away settings seconds JInt root_logger
    (deposit_request (Some "forged") ten_dollars) 0 5 world_funded (∅ : gmap string string) None quiet deposit_route _
    (deposit_matched _ _) deposit_protected (body_readable _) forged_is_strange) as Hp. exact Hp.
Defined.
