(* ===== verification/TestClient.v ===== *)
(** * The test client (src/tests/conftest.py)

    The repository's tests, replayed on the model: the client and the fixtures
    they share.  A test is a program over the tables, the in-memory cache
    ([FakeRedis]) and the metrics; it fails, as in pytest, at the first assertion
    that does not hold or when the application raises. *)
From S2P Require Import Prelude PyValues Schema Session Requests Repositories LedgerService.
From S2P Require Import Security AccountServices Invariants Cache Observability Api App Demo ApiTheorems AppTheorems.
Import Demo DemoWeb.

#[export] Existing Instance ApiTheorems.store.

Record fixture := Fixture { world : World; fake_redis : gmap string string; metrics : telemetry }.

Definition client (A : Type) : Type := fixture -> option (A * fixture).

#[export] Instance client_ret : MRet client := fun A a s => Some (a, s).
#[export] Instance client_bind : MBind client := fun A B f m s =>
  match m s with Some (a, s) => f a s | None => None end.

Definition assert (P : Prop) `{Decision P} : client unit := fun s => if decide P then Some (tt, s) else None.

Definition check (b : bool) : client unit := assert (b = true).

(** [o[...]]: a value that must be there. *)
Definition get_item {A} (o : option A) : client A := fun s => a ← o; Some (a, s).

(** The fixture [db]: the tables, and a program on a session of the test's own. *)
Definition db_rows : client Database := fun s => Some (db (world s), s).
Definition with_db {A} (p : prog A) : client (exn + A) := fun s =>
  let '(r, s') := run p (start (world s)) in Some (r, Fixture s'.1 (fake_redis s) (metrics s)).

(** [uuid.uuid4()] in a test: an id no row has. *)
Definition uuid4_text : string := uuid_str 999999.

(** ** [TestClient(app)] *)
Record headers_t := Headers { authorization : option string; idempotency_key : option string; request_id : option string }.
Definition no_headers : headers_t := Headers None None None.
Definition bearer_of (token : string) : headers_t := Headers (Some ("Bearer " +:+ token)) None None.
Definition with_key (key : string) (h : headers_t) : headers_t :=
  Headers (authorization h) (Some key) (request_id h).

Record response_t := Response_ { status_code : Z; response_headers : gmap string string; json_of : content }.

(** An exception the application does not handle is raised in the test. *)
Definition request (method path : string) (query : gmap string string) (body : payload) (h : headers_t)
    : client response_t := fun s =>
  let rq := mkHttp method path (authorization h) (request_id h) (idempotency_key h) query body in
  match app settings seconds JInt root_logger rq 0 5 (world s, fake_redis s) None (metrics s) with
  | (inr (resp, body), (w, c), _, t) => Some (Response_ (rs_status resp) (rs_headers resp) body, Fixture w c t)
  | (inl _, _, _, _) => None
  end.

Definition post (path : string) (body : list (string * json)) (h : headers_t) : client response_t :=
  request "POST" path ∅ (Json (list_to_map body)) h.
Definition post_form (path : string) (fields : list (string * string)) : client response_t :=
  request "POST" path ∅ (Form (list_to_map fields)) no_headers.
Definition get_with (path : string) (query : list (string * string)) (h : headers_t) : client response_t :=
  request "GET" path (list_to_map query) NoBody h.

(** The client follows redirects. *)
Definition get (path : string) (h : headers_t) : client response_t :=
  r ← get_with path [] h;
  if decide (status_code r = 307%Z) then get_with (path +:+ "/") [] h else mret r.

(** Fields of a JSON answer. *)
Definition access_token (c : content) : option string :=
  match c with AToken t => Some (Token.access_token t) | _ => None end.
Definition id (c : content) : option uuid :=
  match c with AUser u => Some (UserRead.id u) | AWallet w => Some (WalletRead.id w) | _ => None end.
Definition available_balance (c : content) : option Z :=
  match c with
  | AWallet w => Some (WalletRead.available_balance w)
  | ABalance b => Some (BalanceRead.available_balance b)
  | ADeposit r => Some (DepositResponse.available_balance r)
  | AMove r => Some (MoveResponse.available_balance r)
  | _ => None
  end.
Definition transaction_id (c : content) : option uuid :=
  match c with
  | ADeposit r => Some (DepositResponse.transaction_id r)
  | AMove r => Some (MoveResponse.transaction_id r)
  | _ => None
  end.
Definition move_status (c : content) : option string :=
  match c with AMove r => Some (MoveResponse.status r) | _ => None end.
Definition items (c : content) : option (list HistoryItem.t) :=
  match c with AHistory h => Some (TransactionHistory.items h) | _ => None end.

(** ** What the test modules share *)
Definition wallet_path (i : uuid) (what : string) : string :=
  "/api/v1/wallets/" +:+ uuid_str i +:+ "/" +:+ what.
Definition money (amount : Z) (currency : string) : list (string * json) :=
  [("amount", JInt amount); ("currency", JStr currency)].
Definition to_wallet (recipient : string) (amount : Z) (currency : string) : list (string * json) :=
  ("recipient_wallet_id", JStr recipient) :: money amount currency.

Definition _register_and_login (email : string) : client headers_t :=
  post "/api/v1/users" [("name", JStr "T"); ("email", JStr email); ("password", JStr "supersecret")] no_headers;;
  r ← post_form "/api/v1/auth/login" [("username", email); ("password", "supersecret")];
  token ← get_item (access_token (json_of r));
  mret (bearer_of token).

Definition _make_wallet (headers : headers_t) (currency : string) : client uuid :=
  r ← post "/api/v1/wallets" [("currency", JStr currency)] headers; get_item (id (json_of r)).

Definition _balance (headers : headers_t) (wallet_id : uuid) : client Z :=
  r ← get (wallet_path wallet_id "balance") headers; get_item (available_balance (json_of r)).

Definition _funded_wallet (email : string) (amount : Z) (currency : string) : client (headers_t * uuid) :=
  headers ← _register_and_login email;
  wallet_id ← _make_wallet headers currency;
  (if decide (amount = 0%Z) then mret tt
   else post (wallet_path wallet_id "deposit") (money amount currency) headers;; mret tt);;
  mret (headers, wallet_id).

(** The sum of the legs of one type. *)
Definition sum_of (t : EntryType) (es : list LedgerEntry.row) : Z :=
  zsum (LedgerEntry.amount <$> filter (fun e => LedgerEntry.entry_type e = t) es).

(** ** Running a suite *)
Definition passes (t : client unit) : bool :=
  bool_decide (is_Some (t (Fixture empty_world ∅ quiet))).
Definition failures (suite : list (string * client unit)) : list string :=
  fst <$> filter (fun nt => passes nt.2 = false) suite.
