(* ===== verification/ApiTests.v ===== *)
(** * The tests of the API (src/tests), replayed on the model

    One Module per file of tests and one definition per test, in the order of
    the file; [api_tests_pass] runs them all. *)
From S2P Require Import Prelude PyValues Schema Session Requests Repositories LedgerService.
From S2P Require Import Cache Observability Api App Demo AppTheorems TestClient.
Import Demo DemoWeb.

Module test_deposit_api.
Definition test_deposit_increases_balance : client unit :=
  '(headers, wallet_id) ← _funded_wallet "dep1@example.com" 0 "INR";
  resp ← post (wallet_path wallet_id "deposit") (money 150000 "INR") headers;
  assert (status_code resp = 200%Z);;
  assert (available_balance (json_of resp) = Some 150000%Z);;
  assert (transaction_id (json_of resp) <> None).

Definition test_deposit_creates_balanced_ledger : client unit :=
  '(headers, wallet_id) ← _funded_wallet "dep2@example.com" 0 "INR";
  resp ← post (wallet_path wallet_id "deposit") (money 100000 "INR") headers;
  txn_id ← get_item (transaction_id (json_of resp));
  db ← db_rows;
  let entries := LedgerRepository.entries_for_transaction txn_id db in
  assert (length entries = 2);;
  assert (sum_of CREDIT entries = sum_of DEBIT entries /\ sum_of DEBIT entries = 100000%Z).

Definition test_deposit_rejects_zero_amount : client unit :=
  '(headers, wallet_id) ← _funded_wallet "dep3@example.com" 0 "INR";
  resp ← post (wallet_path wallet_id "deposit") (money 0 "INR") headers;
  assert (status_code resp = 422%Z).

Definition test_deposit_rejects_wrong_currency : client unit :=
  '(headers, wallet_id) ← _funded_wallet "dep4@example.com" 0 "INR";
  resp ← post (wallet_path wallet_id "deposit") (money 100000 "USD") headers;
  assert (status_code resp = 409%Z).

Definition test_deposit_requires_auth : client unit :=
  '(headers, wallet_id) ← _funded_wallet "dep5@example.com" 0 "INR";
  resp ← post (wallet_path wallet_id "deposit") (money 100000 "INR") no_headers;
  assert (status_code resp = 401%Z).

Definition test_cannot_deposit_to_another_users_wallet : client unit :=
  '(_, wallet_id) ← _funded_wallet "dep6a@example.com" 0 "INR";
  '(headers_b, _) ← _funded_wallet "dep6b@example.com" 0 "INR";
  resp ← post (wallet_path wallet_id "deposit") (money 100000 "INR") headers_b;
  assert (status_code resp = 404%Z).

Definition test_deposit_to_missing_wallet_returns_404 : client unit :=
  '(headers, _) ← _funded_wallet "dep7@example.com" 0 "INR";
  resp ← post ("/api/v1/wallets/" +:+ uuid4_text +:+ "/deposit") (money 100000 "INR") headers;
  assert (status_code resp = 404%Z).

Fixpoint deposits (headers : headers_t) (wallet_id : uuid) (amounts : list Z) : client unit :=
  match amounts with
  | [] => mret tt
  | amount :: amounts =>
      post (wallet_path wallet_id "deposit") (money amount "INR") headers;; deposits headers wallet_id amounts
  end.

Definition test_ledger_balance_invariant_after_multiple_deposits : client unit :=
  '(headers, wallet_id) ← _funded_wallet "inv@example.com" 0 "INR";
  let amounts := [50000; 100000; 25000; 75000]%Z in
  deposits headers wallet_id amounts;;
  cached ← _balance headers wallet_id;
  assert (cached = zsum amounts);;
  db ← db_rows;
  let entries := filter (fun e => LedgerEntry.wallet_id e = Some wallet_id) (ledger_entries db) in
  assert (sum_of CREDIT entries - sum_of DEBIT entries = cached)%Z.

Definition suite : list (string * client unit) :=
  [("deposit_increases_balance", test_deposit_increases_balance);
   ("deposit_creates_balanced_ledger", test_deposit_creates_balanced_ledger);
   ("deposit_rejects_zero_amount", test_deposit_rejects_zero_amount);
   ("deposit_rejects_wrong_currency", test_deposit_rejects_wrong_currency);
   ("deposit_requires_auth", test_deposit_requires_auth);
   ("cannot_deposit_to_another_users_wallet", test_cannot_deposit_to_another_users_wallet);
   ("deposit_to_missing_wallet_returns_404", test_deposit_to_missing_wallet_returns_404);
   ("ledger_balance_invariant_after_multiple_deposits", test_ledger_balance_invariant_after_multiple_deposits)].
End test_deposit_api.


Module test_transfer_api.
Definition transfer_ (headers : headers_t) (w : uuid) (recipient : string) (amount : Z) : client response_t :=
  post (wallet_path w "transfer") (to_wallet recipient amount "INR") headers.

Definition test_transfer_moves_funds : client unit :=
  '(h_a, w_a) ← _funded_wallet "ta@example.com" 100000 "INR";
  '(h_b, w_b) ← _funded_wallet "tb@example.com" 0 "INR";
  resp ← transfer_ h_a w_a (uuid_str w_b) 40000;
  assert (status_code resp = 200%Z);;
  assert (available_balance (json_of resp) = Some 60000%Z);;
  assert (move_status (json_of resp) = Some "COMPLETED");;
  a ← _balance h_a w_a; assert (a = 60000%Z);;
  b ← _balance h_b w_b; assert (b = 40000%Z).

Definition test_transfer_creates_balanced_ledger : client unit :=
  '(h_a, w_a) ← _funded_wallet "tbal_a@example.com" 100000 "INR";
  '(h_b, w_b) ← _funded_wallet "tbal_b@example.com" 0 "INR";
  resp ← transfer_ h_a w_a (uuid_str w_b) 30000;
  txn_id ← get_item (transaction_id (json_of resp));
  db ← db_rows;
  let entries := LedgerRepository.entries_for_transaction txn_id db in
  assert (length entries = 2);;
  assert (sum_of CREDIT entries = sum_of DEBIT entries /\ sum_of DEBIT entries = 30000%Z).

Definition test_conservation_of_money : client unit :=
  '(h_a, w_a) ← _funded_wallet "cons_a@example.com" 100000 "INR";
  '(h_b, w_b) ← _funded_wallet "cons_b@example.com" 20000 "INR";
  a ← _balance h_a w_a; b ← _balance h_b w_b;
  transfer_ h_a w_a (uuid_str w_b) 45000;;
  a' ← _balance h_a w_a; b' ← _balance h_b w_b;
  assert (a + b = a' + b' /\ a' + b' = 120000)%Z.

Definition test_transfer_insufficient_funds : client unit :=
  '(h_a, w_a) ← _funded_wallet "insuf_a@example.com" 10000 "INR";
  '(h_b, w_b) ← _funded_wallet "insuf_b@example.com" 0 "INR";
  resp ← transfer_ h_a w_a (uuid_str w_b) 50000;
  assert (status_code resp = 422%Z);;
  a ← _balance h_a w_a; assert (a = 10000%Z);;
  b ← _balance h_b w_b; assert (b = 0%Z).

Definition test_transfer_rejects_self_transfer : client unit :=
  '(h_a, w_a) ← _funded_wallet "self@example.com" 100000 "INR";
  resp ← transfer_ h_a w_a (uuid_str w_a) 1000;
  assert (status_code resp = 422%Z).

Definition test_transfer_currency_mismatch : client unit :=
  '(h_a, w_a) ← _funded_wallet "cur_a@example.com" 100000 "INR";
  '(h_b, w_b) ← _funded_wallet "cur_b@example.com" 0 "USD";
  resp ← transfer_ h_a w_a (uuid_str w_b) 10000;
  assert (status_code resp = 409%Z).

Definition test_transfer_requires_auth : client unit :=
  '(h_a, w_a) ← _funded_wallet "noauth_a@example.com" 100000 "INR";
  '(_, w_b) ← _funded_wallet "noauth_b@example.com" 0 "INR";
  resp ← transfer_ no_headers w_a (uuid_str w_b) 10000;
  assert (status_code resp = 401%Z).

Definition test_cannot_transfer_from_another_users_wallet : client unit :=
  '(h_a, w_a) ← _funded_wallet "owner@example.com" 100000 "INR";
  '(h_b, w_b) ← _funded_wallet "attacker@example.com" 0 "INR";
  resp ← transfer_ h_b w_a (uuid_str w_b) 10000;
  assert (status_code resp = 404%Z);;
  a ← _balance h_a w_a; assert (a = 100000%Z).

Definition test_transfer_recipient_not_found : client unit :=
  '(h_a, w_a) ← _funded_wallet "norcpt@example.com" 100000 "INR";
  resp ← transfer_ h_a w_a uuid4_text 10000;
  assert (status_code resp = 404%Z).

Definition test_transfer_is_idempotent : client unit :=
  '(h_a, w_a) ← _funded_wallet "idem_a@example.com" 100000 "INR";
  '(h_b, w_b) ← _funded_wallet "idem_b@example.com" 0 "INR";
  let headers := with_key "transfer-abc-123" h_a in
  r1 ← transfer_ headers w_a (uuid_str w_b) 40000;
  r2 ← transfer_ headers w_a (uuid_str w_b) 40000;
  assert (status_code r1 = 200%Z);;
  assert (status_code r2 = 200%Z);;
  assert (transaction_id (json_of r1) = transaction_id (json_of r2));;
  a ← _balance h_a w_a; assert (a = 60000%Z);;
  b ← _balance h_b w_b; assert (b = 40000%Z).

Definition suite : list (string * client unit) :=
  [("transfer_moves_funds", test_transfer_moves_funds);
   ("transfer_creates_balanced_ledger", test_transfer_creates_balanced_ledger);
   ("conservation_of_money", test_conservation_of_money);
   ("transfer_insufficient_funds", test_transfer_insufficient_funds);
   ("transfer_rejects_self_transfer", test_transfer_rejects_self_transfer);
   ("transfer_currency_mismatch", test_transfer_currency_mismatch);
   ("transfer_requires_auth", test_transfer_requires_auth);
   ("cannot_transfer_from_another_users_wallet", test_cannot_transfer_from_another_users_wallet);
   ("transfer_recipient_not_found", test_transfer_recipient_not_found);
   ("transfer_is_idempotent", test_transfer_is_idempotent)].
End test_transfer_api.

Module test_withdrawal_api.
Definition withdraw_ (headers : headers_t) (w : uuid) (amount : Z) (currency : string) : client response_t :=
  post (wallet_path w "withdraw") (money amount currency) headers.

Definition test_withdraw_decreases_balance : client unit :=
  '(headers, wallet_id) ← _funded_wallet "wd1@example.com" 100000 "INR";
  resp ← withdraw_ headers wallet_id 30000 "INR";
  assert (status_code resp = 200%Z);;
  assert (available_balance (json_of resp) = Some 70000%Z);;
  assert (move_status (json_of resp) = Some "COMPLETED");;
  b ← _balance headers wallet_id; assert (b = 70000%Z).

Definition test_withdraw_creates_balanced_ledger : client unit :=
  '(headers, wallet_id) ← _funded_wallet "wd2@example.com" 100000 "INR";
  resp ← withdraw_ headers wallet_id 40000 "INR";
  txn_id ← get_item (transaction_id (json_of resp));
  db ← db_rows;
  let entries := LedgerRepository.entries_for_transaction txn_id db in
  assert (length entries = 2);;
  assert (sum_of CREDIT entries = sum_of DEBIT entries /\ sum_of DEBIT entries = 40000%Z);;
  let one t := head (filter (fun e => LedgerEntry.entry_type e = t) entries) in
  debit ← get_item (one DEBIT);
  credit ← get_item (one CREDIT);
  assert (LedgerEntry.wallet_id debit = Some wallet_id);;
  assert (LedgerEntry.system_account credit = Some SYSTEM_ACCOUNT_FUNDING).

Definition test_deposit_then_withdraw_nets_to_zero : client unit :=
  '(headers, wallet_id) ← _funded_wallet "wd_net@example.com" 0 "INR";
  post (wallet_path wallet_id "deposit") (money 75000 "INR") headers;;
  withdraw_ headers wallet_id 75000 "INR";;
  b ← _balance headers wallet_id; assert (b = 0%Z);;
  db ← db_rows;
  let entries := filter (fun e => LedgerEntry.wallet_id e = Some wallet_id) (ledger_entries db) in
  assert (sum_of CREDIT entries - sum_of DEBIT entries = 0)%Z.

Definition test_withdraw_insufficient_funds : client unit :=
  '(headers, wallet_id) ← _funded_wallet "wd3@example.com" 10000 "INR";
  resp ← withdraw_ headers wallet_id 50000 "INR";
  assert (status_code resp = 422%Z);;
  b ← _balance headers wallet_id; assert (b = 10000%Z).

Definition test_withdraw_rejects_zero_amount : client unit :=
  '(headers, wallet_id) ← _funded_wallet "wd4@example.com" 100000 "INR";
  resp ← withdraw_ headers wallet_id 0 "INR";
  assert (status_code resp = 422%Z).

Definition test_withdraw_rejects_wrong_currency : client unit :=
  '(headers, wallet_id) ← _funded_wallet "wd5@example.com" 100000 "INR";
  resp ← withdraw_ headers wallet_id 10000 "USD";
  assert (status_code resp = 409%Z).

Definition test_withdraw_requires_auth : client unit :=
  '(_, wallet_id) ← _funded_wallet "wd6@example.com" 100000 "INR";
  resp ← withdraw_ no_headers wallet_id 10000 "INR";
  assert (status_code resp = 401%Z).

Definition test_cannot_withdraw_from_another_users_wallet : client unit :=
  '(h_a, w_a) ← _funded_wallet "wd_owner@example.com" 100000 "INR";
  '(h_b, _) ← _funded_wallet "wd_attacker@example.com" 0 "INR";
  resp ← withdraw_ h_b w_a 10000 "INR";
  assert (status_code resp = 404%Z);;
  a ← _balance h_a w_a; assert (a = 100000%Z).

Definition test_withdraw_missing_wallet_returns_404 : client unit :=
  headers ← _register_and_login "wd7@example.com";
  resp ← post ("/api/v1/wallets/" +:+ uuid4_text +:+ "/withdraw") (money 10000 "INR") headers;
  assert (status_code resp = 404%Z).

Definition test_withdraw_is_idempotent : client unit :=
  '(headers, wallet_id) ← _funded_wallet "wd_idem@example.com" 100000 "INR";
  let h := with_key "withdraw-xyz-9" headers in
  r1 ← withdraw_ h wallet_id 40000 "INR";
  r2 ← withdraw_ h wallet_id 40000 "INR";
  assert (status_code r1 = 200%Z);;
  assert (status_code r2 = 200%Z);;
  assert (transaction_id (json_of r1) = transaction_id (json_of r2));;
  b ← _balance headers wallet_id; assert (b = 60000%Z).

Definition suite : list (string * client unit) :=
  [("withdraw_decreases_balance", test_withdraw_decreases_balance);
   ("withdraw_creates_balanced_ledger", test_withdraw_creates_balanced_ledger);
   ("deposit_then_withdraw_nets_to_zero", test_deposit_then_withdraw_nets_to_zero);
   ("withdraw_insufficient_funds", test_withdraw_insufficient_funds);
   ("withdraw_rejects_zero_amount", test_withdraw_rejects_zero_amount);
   ("withdraw_rejects_wrong_currency", test_withdraw_rejects_wrong_currency);
   ("withdraw_requires_auth", test_withdraw_requires_auth);
   ("cannot_withdraw_from_another_users_wallet", test_cannot_withdraw_from_another_users_wallet);
   ("withdraw_missing_wallet_returns_404", test_withdraw_missing_wallet_returns_404);
   ("withdraw_is_idempotent", test_withdraw_is_idempotent)].
End test_withdrawal_api.

Module test_history.
Definition _deposit (headers : headers_t) (w : uuid) (amount : Z) : client unit :=
  post (wallet_path w "deposit") (money amount "INR") headers;; mret tt.
Definition history (headers : headers_t) (w : uuid) (query : list (string * string)) : client response_t :=
  get_with (wallet_path w "transactions") query headers.

Definition test_history_lists_entries_newest_first : client unit :=
  headers ← _register_and_login "h1@example.com";
  wid ← _make_wallet headers "INR";
  _deposit headers wid 1000;;
  _deposit headers wid 2000;;
  post (wallet_path wid "withdraw") (money 500 "INR") headers;;
  r ← history headers wid [];
  body ← get_item (items (json_of r));
  assert (length body = 3);;
  first ← get_item (head body);
  assert (HistoryItem.entry_type first = "DEBIT");;
  assert (HistoryItem.amount first = 500%Z);;
  assert (Forall (fun item => HistoryItem.currency item = "INR") body).

Definition test_history_pagination : client unit :=
  headers ← _register_and_login "h2@example.com";
  wid ← _make_wallet headers "INR";
  _deposit headers wid 1000;; _deposit headers wid 2000;; _deposit headers wid 3000;;
  page1 ← history headers wid [("limit", "2"); ("offset", "0")];
  assert (length <$> items (json_of page1) = Some 2);;
  check (match json_of page1 with
          | AHistory h => bool_decide (TransactionHistory.limit h = 2 /\ TransactionHistory.offset h = 0)
          | _ => false
          end);;
  page2 ← history headers wid [("limit", "2"); ("offset", "2")];
  assert (length <$> items (json_of page2) = Some 1).

Definition test_history_requires_auth : client unit :=
  headers ← _register_and_login "h3@example.com";
  wid ← _make_wallet headers "INR";
  r ← history no_headers wid [];
  assert (status_code r = 401%Z).

Definition test_history_only_owner_can_read : client unit :=
  h_owner ← _register_and_login "h_owner@example.com";
  wid ← _make_wallet h_owner "INR";
  _deposit h_owner wid 1000;;
  h_other ← _register_and_login "h_other@example.com";
  resp ← history h_other wid [];
  assert (status_code resp = 404%Z).

Definition test_history_shows_only_this_wallets_legs : client unit :=
  h_a ← _register_and_login "h_a@example.com";
  w_a ← _make_wallet h_a "INR";
  _deposit h_a w_a 100000;;
  h_b ← _register_and_login "h_b@example.com";
  w_b ← _make_wallet h_b "INR";
  post (wallet_path w_a "transfer") (to_wallet (uuid_str w_b) 30000 "INR") h_a;;
  a ← history h_a w_a [];
  a_items ← get_item (items (json_of a));
  assert (length a_items = 2);;
  assert ((list_to_set (HistoryItem.entry_type <$> a_items) : gset string) = {["CREDIT"; "DEBIT"]});;
  b ← history h_b w_b [];
  b_items ← get_item (items (json_of b));
  assert (length b_items = 1);;
  assert ((fun i => (HistoryItem.entry_type i, HistoryItem.amount i)) <$> b_items = [("CREDIT", 30000%Z)]).

Definition suite : list (string * client unit) :=
  [("history_lists_entries_newest_first", test_history_lists_entries_newest_first);
   ("history_pagination", test_history_pagination);
   ("history_requires_auth", test_history_requires_auth);
   ("history_only_owner_can_read", test_history_only_owner_can_read);
   ("history_shows_only_this_wallets_legs", test_history_shows_only_this_wallets_legs)].
End test_history.

Module test_wallets_api.
Definition _auth_headers : client headers_t := _register_and_login "w@example.com".
Definition create (headers : headers_t) : client response_t :=
  post "/api/v1/wallets" [("currency", JStr "INR")] headers.

Definition test_create_wallet_success : client unit :=
  headers ← _auth_headers;
  resp ← create headers;
  assert (status_code resp = 201%Z);;
  check (match json_of resp with
          | AWallet w => bool_decide (WalletRead.currency w = "INR" /\
              WalletRead.available_balance w = 0%Z /\ WalletRead.locked_balance w = 0%Z)
          | _ => false
          end).

Definition test_create_wallet_requires_auth : client unit :=
  resp ← create no_headers; assert (status_code resp = 401%Z).

Definition test_duplicate_currency_value_conflicts : client unit :=
  headers ← _auth_headers;
  r1 ← create headers; assert (status_code r1 = 201%Z);;
  r2 ← create headers; assert (status_code r2 = 409%Z).

Definition test_get_balance_success : client unit :=
  headers ← _auth_headers;
  r ← create headers;
  wallet_id ← get_item (id (json_of r));
  resp ← get (wallet_path wallet_id "balance") headers;
  assert (status_code resp = 200%Z);;
  assert (available_balance (json_of resp) = Some 0%Z).

Definition test_cannot_read_another_users_wallet : client unit :=
  headers_a ← _register_and_login "alice@example.com";
  r ← create headers_a;
  wallet_id ← get_item (id (json_of r));
  headers_b ← _register_and_login "bob@example.com";
  resp ← get (wallet_path wallet_id "balance") headers_b;
  assert (status_code resp = 404%Z).

Definition suite : list (string * client unit) :=
  [("create_wallet_success", test_create_wallet_success);
   ("create_wallet_requires_auth", test_create_wallet_requires_auth);
   ("duplicate_currency_value_conflicts", test_duplicate_currency_value_conflicts);
   ("get_balance_success", test_get_balance_success);
   ("cannot_read_another_users_wallet", test_cannot_read_another_users_wallet)].
End test_wallets_api.

Module test_users_api.
Definition register (name email password : string) : client response_t :=
  post "/api/v1/users" [("name", JStr name); ("email", JStr email); ("password", JStr password)] no_headers.

(** The answer has no field for a password or its hash ([UserRead]). *)
Definition test_register_user_success : client unit :=
  resp ← register "Adithya" "adithya@example.com" "supersecret";
  assert (status_code resp = 201%Z);;
  check (match json_of resp with AUser u => bool_decide (UserRead.email u = "adithya@example.com") | _ => false end).

Definition test_register_duplicate_email_conflicts : client unit :=
  r1 ← register "A" "dup@example.com" "supersecret"; assert (status_code r1 = 201%Z);;
  r2 ← register "A" "dup@example.com" "supersecret"; assert (status_code r2 = 409%Z).

Definition test_register_rejects_short_password : client unit :=
  resp ← register "A" "x@example.com" "short"; assert (status_code resp = 422%Z).

Definition suite : list (string * client unit) :=
  [("register_user_success", test_register_user_success);
   ("register_duplicate_email_conflicts", test_register_duplicate_email_conflicts);
   ("register_rejects_short_password", test_register_rejects_short_password)].
End test_users_api.

Module test_auth_api.
Definition _register (email : string) : client response_t := test_users_api.register "A" email "supersecret".
Definition log_in (username password : string) : client response_t :=
  post_form "/api/v1/auth/login" [("username", username); ("password", password)].

Definition test_login_success_returns_token : client unit :=
  _register "login@example.com";;
  resp ← log_in "login@example.com" "supersecret";
  assert (status_code resp = 200%Z);;
  check (match json_of resp with
          | AToken t => bool_decide (Token.token_type t = "bearer" /\ Token.access_token t <> "")
          | _ => false
          end).

Definition test_login_wrong_password_401 : client unit :=
  _register "login@example.com";;
  resp ← log_in "login@example.com" "WRONG"; assert (status_code resp = 401%Z).

Definition test_me_requires_auth : client unit :=
  r ← get "/api/v1/users/me" no_headers; assert (status_code r = 401%Z).

Definition test_me_returns_current_user : client unit :=
  _register "me@example.com";;
  r ← log_in "me@example.com" "supersecret";
  token ← get_item (access_token (json_of r));
  resp ← get "/api/v1/users/me" (bearer_of token);
  assert (status_code resp = 200%Z);;
  check (match json_of resp with AUser u => bool_decide (UserRead.email u = "me@example.com") | _ => false end).

Definition suite : list (string * client unit) :=
  [("login_success_returns_token", test_login_success_returns_token);
   ("login_wrong_password_401", test_login_wrong_password_401);
   ("me_requires_auth", test_me_requires_auth);
   ("me_returns_current_user", test_me_returns_current_user)].
End test_auth_api.

(** test_health.py and test_observability.py *)
Module test_observability.
Definition test_health_returns_ok : client unit :=
  response ← get "/health" no_headers;
  assert (status_code response = 200%Z);;
  check (match json_of response with AStatus fields => bool_decide (fields = [("status", "ok")]) | _ => false end).

Definition test_liveness : client unit :=
  r ← get "/health" no_headers;
  assert (status_code r = 200%Z);;
  check (match json_of r with AStatus fields => bool_decide (("status", "ok") ∈ fields) | _ => false end).

Definition test_readiness_ok_when_db_up : client unit :=
  r ← get "/health/ready" no_headers;
  assert (status_code r = 200%Z);;
  check (match json_of r with
          | AStatus fields => bool_decide (("status", "ready") ∈ fields /\ ("db", "ok") ∈ fields)
          | _ => false
          end).

Definition test_request_id_header_is_returned : client unit :=
  r ← get "/health" no_headers;
  assert (default "" (response_headers r !! "X-Request-ID") <> "").

Definition test_request_id_header_is_echoed : client unit :=
  r ← get "/health" (Headers None None (Some "trace-abc-123"));
  assert (response_headers r !! "X-Request-ID" = Some "trace-abc-123").

(** The text of the page is the mounted Prometheus app's; the counter is there. *)
Definition test_metrics_endpoint_exposes_request_counter : client unit :=
  get "/health" no_headers;;
  r ← get "/metrics" no_headers;
  assert (status_code r = 200%Z);;
  t ← (fun s => Some (metrics s, s)) : client telemetry;
  assert (request_count t !! ("GET", "/health", 200%Z) = Some 1).

Definition suite : list (string * client unit) :=
  [("health_returns_ok", test_health_returns_ok);
   ("liveness", test_liveness);
   ("readiness_ok_when_db_up", test_readiness_ok_when_db_up);
   ("request_id_header_is_returned", test_request_id_header_is_returned);
   ("request_id_header_is_echoed", test_request_id_header_is_echoed);
   ("metrics_endpoint_exposes_request_counter", test_metrics_endpoint_exposes_request_counter)].
End test_observability.

(** Every one of them passes. *)
Example api_tests_pass : failures
  (test_deposit_api.suite ++ test_transfer_api.suite ++ test_withdrawal_api.suite ++ test_history.suite ++
   test_wallets_api.suite ++ test_users_api.suite ++ test_auth_api.suite ++ test_observability.suite) = [].
Proof. vm_compute. reflexivity. Qed.
