(* ===== verification/WorkerTests.v ===== *)
(** * The tests of the repositories, the workers and the cache (src/tests),
    replayed on the model

    One Module per file of tests, as in ApiTests.v; [worker_tests_pass] runs them
    all.  Where a test uses repositories and services directly, they run on one
    session, as with the fixture [db]. *)
From S2P Require Import Prelude PyValues Schema Session Interleaving Progress Requests Repositories.
From S2P Require Import LedgerService Publisher Analytics Notification Reconciliation Dags Cache.
From S2P Require Import ConcurrentLedger RequestPools Api Demo ApiTheorems TestClient.
Import Demo.

(** The outcome of [p] on the session of the test is [r]. *)
Definition expect {A} `{!EqDecision A} (p : prog A) (r : exn + A) : client unit :=
  r' ← with_db p; assert (r' = r).

Module test_user_repository.
Definition create_and_fetch : prog (string * uuid * option uuid) :=
  user ← UserRepository.create "Adithya" "adithya@example.com" "hashed";
  fetched ← UserRepository.get_by_email "adithya@example.com";
  mret (User.email user, User.id user, fmap (M := option) User.id fetched).

Definition test_create_and_fetch_user : client unit :=
  r ← with_db create_and_fetch;
  check (match r with
         | inr (email, id, fetched) => bool_decide (email = "adithya@example.com" /\ fetched = Some id)
         | inl _ => false
         end).

Definition test_get_by_email_returns_none_when_missing : client unit :=
  r ← with_db (UserRepository.get_by_email "nobody@example.com");
  check (match r with inr None => true | _ => false end).

Definition suite : list (string * client unit) :=
  [("create_and_fetch_user", test_create_and_fetch_user);
   ("get_by_email_returns_none_when_missing", test_get_by_email_returns_none_when_missing)].
End test_user_repository.

Module test_outbox.
Definition _events_for (txn_id : uuid) : client (list OutboxEvent.row) :=
  db ← db_rows;
  mret (filter (fun e => OutboxEvent.aggregate_id e = txn_id) (snd <$> map_to_list (outbox_events db))).

(** The one event of the transaction of a response. *)
Definition the_event (resp : response_t) : client OutboxEvent.row :=
  txn_id ← get_item (transaction_id (json_of resp));
  events ← _events_for txn_id;
  assert (length events = 1);;
  get_item (head events).

Definition has (event : OutboxEvent.row) (key : string) (v : json) : client unit :=
  assert (OutboxEvent.payload event !! key = Some v).

Definition test_deposit_writes_outbox_event : client unit :=
  headers ← _register_and_login "ob_dep@example.com";
  wallet_id ← _make_wallet headers "INR";
  resp ← post (wallet_path wallet_id "deposit") (money 100000 "INR") headers;
  event ← the_event resp;
  assert (OutboxEvent.event_type event = "transaction.completed");;
  assert (OutboxEvent.aggregate_type event = "transaction");;
  assert (OutboxEvent.published_at event = None);;
  has event "type" (JStr "DEPOSIT");; has event "amount" (JInt 100000);;
  has event "wallet_id" (JStr (uuid_str wallet_id));; has event "status" (JStr "COMPLETED").

Definition test_transfer_writes_outbox_event_with_counterparty : client unit :=
  '(h_a, w_a) ← _funded_wallet "ob_ta@example.com" 100000 "INR";
  '(_, w_b) ← _funded_wallet "ob_tb@example.com" 0 "INR";
  resp ← post (wallet_path w_a "transfer") (to_wallet (uuid_str w_b) 30000 "INR") h_a;
  event ← the_event resp;
  has event "type" (JStr "TRANSFER");; has event "wallet_id" (JStr (uuid_str w_a));;
  has event "counterparty_wallet_id" (JStr (uuid_str w_b)).

Definition test_withdraw_writes_outbox_event : client unit :=
  '(headers, wallet_id) ← _funded_wallet "ob_wd@example.com" 100000 "INR";
  resp ← post (wallet_path wallet_id "withdraw") (money 40000 "INR") headers;
  event ← the_event resp;
  has event "type" (JStr "WITHDRAWAL");; has event "counterparty_wallet_id" JNull.

Definition test_failed_operation_writes_no_event : client unit :=
  '(headers, wallet_id) ← _funded_wallet "ob_fail@example.com" 10000 "INR";
  resp ← post (wallet_path wallet_id "withdraw") (money 999999 "INR") headers;
  assert (status_code resp = 422%Z);;
  db ← db_rows;
  assert (Forall (fun e => OutboxEvent.payload e !! "type" = Some (JStr "DEPOSIT"))
            (snd <$> map_to_list (outbox_events db)));;
  assert ((list_to_set (entry_value ∘ LedgerEntry.entry_type <$> ledger_entries db) : gset string) =
    {["CREDIT"; "DEBIT"]}).

Definition test_outbox_event_count_matches_completed_transactions : client unit :=
  '(headers, wallet_id) ← _funded_wallet "ob_count@example.com" 0 "INR";
  post (wallet_path wallet_id "deposit") (money 10000 "INR") headers;;
  post (wallet_path wallet_id "deposit") (money 20000 "INR") headers;;
  post (wallet_path wallet_id "deposit") (money 30000 "INR") headers;;
  db ← db_rows;
  assert (size (outbox_events db) = 3).

Definition fetch_and_mark : prog (option (option Z * nat)) :=
  pending ← OutboxRepository.fetch_unpublished 100;
  match pending with
  | [event] =>
      event ← OutboxRepository.mark_published event;
      rest ← OutboxRepository.fetch_unpublished 100;
      mret (Some (OutboxEvent.published_at event, length rest))
  | _ => mret None
  end.

Definition test_fetch_unpublished_and_mark_published : client unit :=
  '(headers, wallet_id) ← _funded_wallet "ob_pub@example.com" 0 "INR";
  post (wallet_path wallet_id "deposit") (money 50000 "INR") headers;;
  r ← with_db fetch_and_mark;
  check (match r with inr (Some (Some _, 0)) => true | _ => false end).

Definition suite : list (string * client unit) :=
  [("deposit_writes_outbox_event", test_deposit_writes_outbox_event);
   ("transfer_writes_outbox_event_with_counterparty", test_transfer_writes_outbox_event_with_counterparty);
   ("withdraw_writes_outbox_event", test_withdraw_writes_outbox_event);
   ("failed_operation_writes_no_event", test_failed_operation_writes_no_event);
   ("outbox_event_count_matches_completed_transactions", test_outbox_event_count_matches_completed_transactions);
   ("fetch_unpublished_and_mark_published", test_fetch_unpublished_and_mark_published)].
End test_outbox.

Module test_publisher.
(** [FakeProducer]: every message is reported as delivered, or none; a batch
    that is not the expected one is reported as another failure. *)
Definition FakeProducer (fail : bool) (expected : list Message.t -> bool) (ms : list Message.t) : list ack :=
  (fun _ => if negb (expected ms) then Failed "unexpected batch"
            else if fail then Failed "broker down" else Acked) <$> ms.

Definition _deposit (headers : headers_t) (amount : Z) : client uuid :=
  wallet_id ← _make_wallet headers "INR";
  r ← post (wallet_path wallet_id "deposit") (money amount "INR") headers;
  get_item (transaction_id (json_of r)).

(** [publish_batch(db)], and how many events are unpublished then. *)
Definition publish_and_count (producer : list Message.t -> list ack) : prog (nat * nat) :=
  published ← publish_batch producer "test.topic" 100;
  pending ← OutboxRepository.fetch_unpublished 100;
  mret (published, length pending).

(** One message, keyed by the transaction, whose value says so and the rest. *)
Definition one_message (txn_id : string) (fields : list (string * json)) (ms : list Message.t) : bool :=
  match ms with
  | [m] =>
      match json_loads (Message.value m) with
      | Some sent => bool_decide (Message.key m = txn_id /\
          Forall (fun kv => sent !! kv.1 = Some kv.2) (("transaction_id", JStr txn_id) :: fields))
      | None => false
      end
  | _ => false
  end.

Definition test_publish_batch_sends_and_marks : client unit :=
  headers ← _register_and_login "pub1@example.com";
  txn_id ← _deposit headers 100000;
  expect (publish_and_count (FakeProducer false (one_message (uuid_str txn_id) [("type", JStr "DEPOSIT")])))
    (inr (1, 0)).

Definition test_publish_batch_noop_when_empty : client unit :=
  expect (publish_batch (FakeProducer false (fun _ => false)) "test.topic" 100) (inr 0).

Definition publish_to_a_broken_broker : prog (option (exn * nat)) :=
  try_except (publish_batch (FakeProducer true (fun _ => true)) "test.topic" 100;; mret None)
    (fun e => Some (pending ← OutboxRepository.fetch_unpublished 100; mret (Some (e, length pending)))).

Definition test_delivery_failure_leaves_event_unpublished : client unit :=
  headers ← _register_and_login "pub2@example.com";
  _deposit headers 50000;;
  expect publish_to_a_broken_broker (inr (Some (RuntimeError, 1))).

Definition suite : list (string * client unit) :=
  [("publish_batch_sends_and_marks", test_publish_batch_sends_and_marks);
   ("publish_batch_noop_when_empty", test_publish_batch_noop_when_empty);
   ("delivery_failure_leaves_event_unpublished", test_delivery_failure_leaves_event_unpublished)].
End test_publisher.

Module test_consumer.
Definition _payload (txn_id : string) : dict :=
  list_to_map [("transaction_id", JStr txn_id); ("type", JStr "DEPOSIT"); ("status", JStr "COMPLETED");
    ("currency", JStr "INR"); ("amount", JInt 1000); ("wallet_id", JStr "w-1"); ("counterparty_wallet_id", JNull)].

(** [handler=calls.append] *)
Definition append (payload : dict) (calls : list dict) : bool * list dict := (true, calls ++ [payload]).
Definition consumer : NotificationConsumer.state (St := list dict) := NotificationConsumer.State ∅ [].

(** The events one after the other: what each call returned, and the calls of
    the handler. *)
Fixpoint handle_all (payloads : list dict) (c : NotificationConsumer.state (St := list dict))
    : list (option bool) * list dict :=
  match payloads with
  | [] => ([], NotificationConsumer.world c)
  | p :: payloads =>
      let '(r, c) := NotificationConsumer.handle_event append p c in
      let '(rs, calls) := handle_all payloads c in (r :: rs, calls)
  end.

Definition test_consumer_handles_new_event : client unit :=
  let '(returned, calls) := handle_all [_payload "txn-1"] consumer in
  assert (returned = [Some true] /\ length calls = 1).

Definition test_consumer_dedupes_duplicate_delivery : client unit :=
  let '(returned, calls) := handle_all [_payload "txn-dup"; _payload "txn-dup"] consumer in
  assert (returned = [Some true; Some false] /\ length calls = 1).

Definition test_consumer_handles_distinct_events : client unit :=
  let '(returned, calls) := handle_all [_payload "a"; _payload "b"] consumer in
  assert (length calls = 2).

Definition test_default_handler_does_not_raise : client unit :=
  assert ((NotificationConsumer.handle_event NotificationConsumer._default_handler (_payload "txn-1")
            (NotificationConsumer.State ∅ [])).1 = Some true).

Definition suite : list (string * client unit) :=
  [("consumer_handles_new_event", test_consumer_handles_new_event);
   ("consumer_dedupes_duplicate_delivery", test_consumer_dedupes_duplicate_delivery);
   ("consumer_handles_distinct_events", test_consumer_handles_distinct_events);
   ("default_handler_does_not_raise", test_default_handler_does_not_raise)].
End test_consumer.

Module test_cache.
Definition five_hundred : dict := list_to_map [("available_balance", JInt 500)].

Definition test_cache_set_get_invalidate : client unit :=
  let c : gmap string string := ∅ in
  let wid : uuid := 7%N in
  assert (BalanceCache.get wid c = None);;
  let c := BalanceCache.set BalanceCache.default_ttl wid five_hundred c in
  assert (BalanceCache.get wid c = Some five_hundred);;
  let c := BalanceCache.invalidate [Some wid] c in
  assert (BalanceCache.get wid c = None).

(** [BrokenRedis]: none of the calls raises. *)
Definition test_cache_degrades_gracefully_when_backend_down : client unit :=
  let wid : uuid := 7%N in
  assert (BalanceCache.get (H := ApiTheorems.down) wid tt = None);;
  let c := BalanceCache.set (H := ApiTheorems.down) BalanceCache.default_ttl wid five_hundred tt in
  let c := BalanceCache.invalidate (H := ApiTheorems.down) [Some wid] c in
  assert (c = tt).

(** What the cache holds for a wallet. *)
Definition raw (wid : uuid) : client (option string) := fun s => Some (fake_redis s !! BalanceCache._key wid, s).

Definition test_balance_cached_then_invalidated_on_write : client unit :=
  '(headers, wid) ← _funded_wallet "cache1@example.com" 100000 "INR";
  before ← raw wid; assert (before = None);;
  r1 ← get (wallet_path wid "balance") headers;
  assert (available_balance (json_of r1) = Some 100000%Z);;
  populated ← raw wid; assert (populated <> None);;
  post (wallet_path wid "deposit") (money 50000 "INR") headers;;
  after ← raw wid; assert (after = None);;
  r2 ← get (wallet_path wid "balance") headers;
  assert (available_balance (json_of r2) = Some 150000%Z).

Definition test_cache_does_not_leak_across_users : client unit :=
  '(h_owner, wid) ← _funded_wallet "owner@example.com" 100000 "INR";
  get (wallet_path wid "balance") h_owner;;
  cached ← raw wid; assert (cached <> None);;
  h_intruder ← _register_and_login "intruder@example.com";
  resp ← get (wallet_path wid "balance") h_intruder;
  assert (status_code resp = 404%Z).

Definition suite : list (string * client unit) :=
  [("cache_set_get_invalidate", test_cache_set_get_invalidate);
   ("cache_degrades_gracefully_when_backend_down", test_cache_degrades_gracefully_when_backend_down);
   ("balance_cached_then_invalidated_on_write", test_balance_cached_then_invalidated_on_write);
   ("cache_does_not_leak_across_users", test_cache_does_not_leak_across_users)].
End test_cache.

Module test_reconciliation.
Definition summary (r : ReconciliationReport.t) : bool * nat * list (uuid * Z * Z * Z) :=
  (ReconciliationReport.ok r, ReconciliationReport.wallets_checked r,
   (fun d => (Discrepancy.wallet_id d, Discrepancy.cached_balance d, Discrepancy.ledger_balance d,
              Discrepancy.diff d)) <$> ReconciliationReport.discrepancies r).
Definition checked : prog (bool * nat * list (uuid * Z * Z * Z)) :=
  report ← ReconciliationService.check; mret (summary report).

Definition test_reconciliation_empty_db_is_ok : client unit :=
  expect checked (inr (true, 0, [])).

Definition test_reconciliation_clean_after_real_operations : client unit :=
  '(h_a, w_a) ← _funded_wallet "rec_a@example.com" 100000 "INR";
  '(h_b, w_b) ← _funded_wallet "rec_b@example.com" 50000 "INR";
  post (wallet_path w_a "transfer") (to_wallet (uuid_str w_b) 30000 "INR") h_a;;
  post (wallet_path w_b "withdraw") (money 20000 "INR") h_b;;
  expect checked (inr (true, 2, [])).

(** A cached balance is changed without a ledger entry. *)
Definition corrupt_and_check (wallet_id : uuid) : prog (bool * nat * list (uuid * Z * Z * Z)) :=
  found ← WalletRepository.get_by_id wallet_id;
  wallet ← or_raise found AttributeError;
  set_balance 999999 wallet;;
  call Flush;;
  checked.

Definition test_reconciliation_detects_balance_drift : client unit :=
  '(_, wallet_id) ← _funded_wallet "rec_drift@example.com" 100000 "INR";
  expect (corrupt_and_check wallet_id) (inr (false, 1, [(wallet_id, 999999, 100000, 899999)%Z])).

Definition suite : list (string * client unit) :=
  [("reconciliation_empty_db_is_ok", test_reconciliation_empty_db_is_ok);
   ("reconciliation_clean_after_real_operations", test_reconciliation_clean_after_real_operations);
   ("reconciliation_detects_balance_drift", test_reconciliation_detects_balance_drift)].
End test_reconciliation.

Module test_analytics.
Definition _event (txn_id : uuid) (type currency : string) (amount : Z) : dict :=
  list_to_map [("transaction_id", JStr (uuid_str txn_id)); ("type", JStr type); ("status", JStr "COMPLETED");
    ("currency", JStr currency); ("amount", JInt amount); ("wallet_id", JStr "w-1");
    ("counterparty_wallet_id", JNull)].

Definition stat (currency type : string) : prog (option (Z * Z)) :=
  s ← TransactionStatRepository.get currency type;
  mret (fmap (M := option) (fun r => (TransactionStat.count r, TransactionStat.total_amount r)) s).

(** Two events on one service, and a row of the rollup. *)
Definition two_events (e1 e2 : dict) : prog (bool * bool * option (Z * Z)) :=
  r1 ← AnalyticsService.handle_event e1;
  r2 ← AnalyticsService.handle_event e2;
  s ← stat "INR" "DEPOSIT";
  mret (r1, r2, s).

Definition test_analytics_aggregates_count_and_total : client unit :=
  expect (two_events (_event 1 "DEPOSIT" "INR" 1000) (_event 2 "DEPOSIT" "INR" 2500))
    (inr (true, true, Some (2, 3500)%Z)).

Definition test_analytics_is_idempotent : client unit :=
  let e := _event 1 "DEPOSIT" "INR" 5000 in
  expect (two_events e e) (inr (true, false, Some (1, 5000)%Z)).

Definition three_events : prog (list (option (Z * Z))) :=
  AnalyticsService.handle_event (_event 1 "DEPOSIT" "INR" 1000);;
  AnalyticsService.handle_event (_event 2 "WITHDRAWAL" "INR" 400);;
  AnalyticsService.handle_event (_event 3 "DEPOSIT" "USD" 900);;
  a ← stat "INR" "DEPOSIT"; b ← stat "INR" "WITHDRAWAL"; c ← stat "USD" "DEPOSIT"; d ← stat "USD" "WITHDRAWAL";
  mret [a; b; c; d].

Definition test_analytics_separates_type_and_currency : client unit :=
  r ← with_db three_events;
  check (match r with
         | inr rows => bool_decide (fmap (M := option) snd <$> rows = [Some 1000; Some 400; Some 900; None]%Z)
         | inl _ => false
         end).

Definition suite : list (string * client unit) :=
  [("analytics_aggregates_count_and_total", test_analytics_aggregates_count_and_total);
   ("analytics_is_idempotent", test_analytics_is_idempotent);
   ("analytics_separates_type_and_currency", test_analytics_separates_type_and_currency)].
End test_analytics.

Module test_concurrency.
(** A user with a wallet, committed. *)
Definition real_wallet : client (uuid * uuid) :=
  '(_, wallet_id) ← _funded_wallet "conc@x.com" 0 "INR";
  db ← db_rows;
  wallet ← get_item (wallets db !! wallet_id);
  mret (Wallet.user_id wallet, wallet_id).

(** The threads step by step in turns, until each has ended. *)
Definition _run_threads (n : nat) (target : ConcurrentLedger.request) : client (list (option (exn + answer))) := fun s =>
  let turns := concat (replicate 400 (seq 0 n)) in
  let P := (Progress.schedule turns (launch (world s) ((fun i => (target, Z.of_nat i)) <$> seq 0 n))).2 in
  Some ((fun t => match t with Finished r _ => Some r | _ => None end) <$> P.2,
        Fixture P.1 (fake_redis s) (metrics s)).

Definition _balance (wallet_id : uuid) : client (option Z) :=
  db ← db_rows; mret (fmap (M := option) Wallet.available_balance (wallets db !! wallet_id)).

Definition set_funds (wallet_id : uuid) (amount : Z) : prog unit :=
  found ← WalletRepository.get_by_id wallet_id;
  wallet ← or_raise found AttributeError;
  set_balance amount wallet;;
  call Commit.

Definition count (p : option (exn + answer) -> bool) (outcomes : list (option (exn + answer))) : nat :=
  length (filter (fun o => p o = true) outcomes).

Definition test_concurrent_withdrawals_no_double_spend : client unit :=
  '(user_id, wallet_id) ← real_wallet;
  with_db (set_funds wallet_id 100);;
  outcomes ← _run_threads 8 (Withdraw wallet_id user_id (WithdrawalRequest.mk 100 "INR") None);
  assert (count (fun o => match o with Some (inr _) => true | _ => false end) outcomes = 1);;
  assert (count (fun o => match o with Some (inl (InsufficientFundsError _)) => true | _ => false end) outcomes = 7);;
  b ← _balance wallet_id; assert (b = Some 0%Z).

Definition test_concurrent_deposits_no_lost_update : client unit :=
  '(user_id, wallet_id) ← real_wallet;
  _run_threads 10 (Deposit wallet_id user_id (DepositRequest.mk 500 "INR"));;
  b ← _balance wallet_id; assert (b = Some (10 * 500)%Z).

Definition suite : list (string * client unit) :=
  [("concurrent_withdrawals_no_double_spend", test_concurrent_withdrawals_no_double_spend);
   ("concurrent_deposits_no_lost_update", test_concurrent_deposits_no_lost_update)].
End test_concurrency.

(** integration/test_kafka_end_to_end.py: what is read back from the topic is
    the value that was produced. *)
Module test_kafka_end_to_end.
Definition test_deposit_event_reaches_kafka : client unit :=
  headers ← _register_and_login "e2e@example.com";
  txn_id ← test_publisher._deposit headers 123456;
  expect (publish_batch (test_publisher.FakeProducer false
            (test_publisher.one_message (uuid_str txn_id) [("type", JStr "DEPOSIT"); ("amount", JInt 123456)]))
            "test.transactions" 100)
    (inr 1).

Definition suite : list (string * client unit) :=
  [("deposit_event_reaches_kafka", test_deposit_event_reaches_kafka)].
End test_kafka_end_to_end.

Module test_dags.
Definition EXPECTED : gset string := {["wallet_reconciliation"; "wallet_analytics_snapshot"]}.
Definition dags : list dag := [reconciliation_dag; analytics_snapshot_dag].

Definition test_expected_dags_present : client unit :=
  assert (EXPECTED ⊆ list_to_set (dag_id <$> dags)).

Definition test_dags_have_schedule_and_tasks : client unit :=
  assert (Forall (fun d => Dags.schedule d <> "" /\ task_id d <> "") dags).

Definition suite : list (string * client unit) :=
  [("expected_dags_present", test_expected_dags_present);
   ("dags_have_schedule_and_tasks", test_dags_have_schedule_and_tasks)].
End test_dags.

(** Every one of them passes. *)
Example worker_tests_pass : failures
  (test_user_repository.suite ++ test_outbox.suite ++ test_publisher.suite ++ test_consumer.suite ++
   test_cache.suite ++ test_reconciliation.suite ++ test_analytics.suite ++ test_concurrency.suite ++
   test_kafka_end_to_end.suite ++ test_dags.suite) = [].
Proof. vm_compute. reflexivity. Qed.
